(* ===== verification/_CoqProject ===== *)
-Q . S2P
Prelude.v
RustStr.v
RustInt.v
RustPath.v
RustRegex.v
ImagePipeline.v
ImageSlot.v
ImageUki.v
ImageManifest.v
ImageGroup.v
ImageRuntime.v
ImagePlan.v
ImageDevice.v
ImageResume.v
ImageInstall.v
CommonTypes.v
AdminRegistry.v
AdminAuth.v
AdminServer.v
PolicyAdmin.v
OciTypes.v
OciTransfer.v
OciPull.v
OciPush.v
RegistrySmoke.v
ImageDelivery.v
OciPrune.v
Generations.v
AdminClient.v
PolicyClient.v
AdminOta.v
AgentExec.v
AdminWatch.v
GivcCli.v
PolicyFlow.v
HostUpdater.v
Programs.v
UnitTests.v
