(* ===== verification/Prelude.v ===== *)
(** * GIVC: a verification development for the Ghaf inter-VM control plane

    The repository has three Rust programs with a core of their own, all under
    [src/crates/], and Go agents they talk to.

    - The _image updater_ ([ota-update]) keeps two or more pairs of LVM volumes
      (a root image and its dm-verity tree), each pair with a unified kernel
      image (UKI) on the boot partition.  It reads what [lvs], [bootctl] and
      the kernel command line report, groups volumes and boot entries into
      slots, picks or creates an empty pair for the image a manifest
      describes, plans the shell commands that write it, and runs the plan
      under a lock file.  It pulls images from and pushes them to OCI
      registries into a directory of updates, which it prunes; the older way
      of updating installs NixOS closures as generations of a profile.
    - The _admin service_ ([admin], with [common] and [client]) is the gRPC
      server of the control plane: agents of the host and of the VMs register
      their services with it; clients start VMs and applications through it and
      watch the registry; it monitors what it started, propagates locale and
      timezone, admits requests by certificate and by Cedar policy,
      distributes policy files ([policyadmin]) to the agents, and delegates
      updates to the updater on the host.
    - The _command line client_ ([givc-cli]) is written on the client library.

    ** Files

    Shared foundations:
    - [Prelude]: results with anyhow's context chains and panics ([res]),
      iterator operations, hash maps with an unknown iteration order
      ([HashOrder]), tactics and the hint database [givc].
    - [RustStr], [RustInt], [RustPath], [RustRegex]: the string, integer
      parsing and printing, [std::path] and anchored regular expression
      operations the sources use.

    Image updater:
    - [ImagePipeline] ([image/pipeline.rs], [image/lvm.rs]): commands and
      pipelines, volumes and [lvs] output.
    - [ImageSlot] ([image/version.rs], [image/slot.rs]): versions, the status
      encoded in a volume's name, renames.
    - [ImageUki] ([bootctl.rs], [image/uki.rs]): boot entries and UKI names
      with boot counters.
    - [ImageManifest] ([image/manifest.rs], [image/checksum.rs]): manifests,
      path normalisation, validation.
    - [ImageGroup] ([image/group.rs], the kernel parameters of
      [image/runtime.rs]): grouping volumes and boot entries by status.
    - [ImageRuntime] ([image/runtime.rs]): slot selection and creation,
      identifiers, introspection output.
    - [ImagePlan] ([image/plan.rs], [image/executor.rs], part of
      [image/install.rs]): plans, executors, and the class of what the volume
      tools promise.
    - [ImageDevice] ([image/plan.rs], [image/executor.rs]): what running a plan
      does to the contents of volumes and files, at every moment of it; the
      class [Device] states what is relied on of the tools, [SimDevice] keeps it.
    - [ImageResume] (the same): what of a plan depends on the volumes' sizes, and
      that an install interrupted before its renames can be tried again.
    - [ImageInstall] ([image/install.rs], [image/cli.rs], [lock.rs]): the
      commands, and the lock as system-call steps of several processes.

    OCI images and generations:
    - [OciTypes] ([registry/types.rs], [media_type.rs], [progress.rs], parts of
      [mod.rs]): references, media types, file names, events, progress.
    - [OciTransfer] ([registry/oras.rs]): an error, cancellation and time monad
      over a disk and the network, and the transfer of blobs and manifests.
    - [OciPull] ([registry/mod.rs], [registry/cli.rs]): the pull with its part
      files and lock, discovery, changelogs, the commands.
    - [OciPush] ([registry/mod.rs], [oras.rs]): the push and its verification.
    - [RegistrySmoke] ([examples/smoke_registry_roundtrip.rs]): the program that
      pushes an update, pulls it and compares.
    - [ImageDelivery]: push, pull and install put together.
    - [OciPrune] ([registry/mod.rs]): pruning, on a tree of directories.
    - [Generations] ([profile.rs], [nixos.rs], [bin/ota-update.rs],
      [bin/update-server.rs], [types.rs], the [cachix-client] crate): profile
      links, boot configurations, installing a closure, the update server.

    Admin service:
    - [CommonTypes] ([common/src/types.rs], [address.rs], [query.rs]): unit
      types and statuses, endpoints, query results, events and their protobuf
      conversions; the class [StrEnum] stands for strum's derives.
    - [AdminRegistry] ([admin/registry.rs], [admin/entry.rs],
      [utils/naming.rs]): the registry as a map plus the log of the events it
      published.
    - [AdminAuth] ([utils/tonic.rs], [utils/x509.rs], [utils/auth.rs],
      [utils/access_control.rs], [utils/vsock.rs], the interceptor stack of
      [bin/givc-admin.rs], [client/src/error.rs]).
    - [AdminServer] ([admin/server.rs], [systemd_api/client.rs]): the service's
      state, endpoint resolution, VM and application start, monitoring,
      settings, spawned tasks and the gRPC methods, in a state and error monad
      over a world of the service and its environment.
    - [PolicyAdmin] (the [policyadmin] crate): the policy manager with its
      per-VM queues, the git monitor as a state machine over two heads, the
      URL monitor.
    - [AdminClient] ([client/src/client.rs], [endpoint.rs], [stream.rs]): the
      client library over the class [AdminApi] of the generated client, and the
      instance that plugs it into the service's handlers.
    - [PolicyClient] ([admin/policyclient.rs], [client/src/stream.rs], the
      agents' [policyadmin/controller.go] and [transport.go]): the upload of a
      policy file and what the receiving agent makes of it.
    - [AdminOta] ([admin/OTA.rs], [client/src/exec.rs], the agents'
      [exec/transport.go]): remote execution and the delegation of updates.
    - [AgentExec] (the agents' [exec/transport.go]): the exec service as
      interleaving goroutines, pipes, a process and a client, with sends that
      take time and can block.
    - [AdminWatch] (the [watch] method of [admin/server.rs] and of
      [client/src/client.rs]): a watcher as a step relation over the registry,
      the service's receiver, the wire and the client.
    - [GivcCli] ([bin/givc-cli.rs]): the commands.
    - [PolicyFlow] (the workers of [policy_manager.rs], the task of
      [AdminService::new]): the tasks between the policy manager and the agents
      as a step relation.
    - [HostUpdater] ([bin/ota-update.rs]): the updater's dispatch, and the whole
      way from a client to its run on the host.

    Around them:
    - [Programs] ([bin/givc-admin.rs], [bin/givc-agent.rs], [bin/givc-x509.rs],
      the [main] of [bin/update-server.rs], [bin/cachix-client.rs],
      [AdminService::new], [Authorizer::new], [systemd_api/server.rs],
      [admin/src/lib.rs]): how the programs start and what makes them stop.
    - [UnitTests]: the repository's unit tests, translated and evaluated.

    In each file the modules named after source types hold the definitions and
    the lemmas on them; a last module [...Props] holds the properties.

    ** What the theorems show

    - Updater, data: volume names and UKI names parse exactly to what prints
      them; manifest paths stay inside the image directory; grouping loses
      nothing, separates statuses and fails only on a duplicate.
    - Updater, selection: the pair selected for an update is complete, empty
      and disjoint from every volume in use; exactly when a selection succeeds
      and which pair it gives, with which commands; an image is reported
      installed exactly when it is.
    - Updater, plans: the commands of an install and of a removal and their
      order; running an install plan on tools that keep their promises ends in
      a state where the same manifest is already installed (a refinement
      between plan execution and the runtime's own view); the promises name the
      plan's command lines one by one.
    - Updater, on the device: wherever an install or a removal stops, a power
      cut in the middle of a command included, all installed images keep their
      names and contents, and the files of the boot partition that do not
      belong to the image are left alone; stopped before its renames, an install into an empty
      pair is planned again as it was; a removal frees its slot; what a
      publisher pushed is, after a pull and an install, in the volumes of the
      new version and on the boot partition.
    - The lock: what a process that got it may rely on, with processes that
      fail or die at any call, and under which schedules it excludes others.
    - OCI images: a pull into a fresh directory that dies at any point leaves it
      either without a manifest or complete; what was pushed is what a pull gets,
      which is what a [PASS] of the round trip program shows;
      pruning keeps the newest updates of each outermost repository and terminates;
      transfers either deliver the registry's bytes or fail; progress reports.
    - Generations: generation numbers, the order of an update's steps, which
      closure the pins lead to.
    - Registry: it is the replay of its event log, a watcher converges to it
      from any moment of subscription, deregistering cascades exactly, new
      instances get the least free number.
    - Admission: exactly which requests pass authentication, authorisation and
      the two in sequence, for each server setting; a service that serves has
      read the certificates and policies its command line asked for.
    - Service: every method, task and timer tick keeps the registry's
      invariant, under which closures holding the registry's mutex cannot lock
      it again (with the methods of the update, so in [AdminOta]); what starting
      VMs and applications does; settings survive a restart and reach every
      manager.
    - Client: what an agent registers is what a query through the client
      library returns; a watcher sees exactly the published events in order
      and catches up when it keeps reading; every locale the command line
      accepts passes the service's check; an update requested by a client is
      one run of the updater on the host, whose outcome the client sees, and the
      generations a client lists are those behind the host's profile links.
    - Remote execution: whatever the goroutines' order, if their sends did not
      overlap, a client gets a process's outputs in order and its exit code, but
      for what the agent had not read when it closed the pipes; the agent's
      handler returns once the process has ended, if the client reads; what the
      process is given is what the client sent.
    - Policies: a refresh queues for every VM exactly the files of the policies
      it is listed for; the URL monitor settles and remembers across restarts,
      and monitors of several policies do not disturb one another;
      a pushed file ends at its destination on an agent whose record is true;
      whatever the interleaving of the tasks, a refresh of such agents ends and
      leaves every listed VM with its policies.
    - Behaviour that differs from what the sources say is proved as such:
      slot classification always answers broken, two processes can hold the
      lock, an exited application is dropped one round late, a failed manager
      is never restarted, the outermost error context is lost on the wire, a
      commit that changes several policy files distributes none of them, a
      truncated policy is accepted, a killed update counts as done, a changelog
      can replace a kernel, a failed deployment cannot be repeated, an image
      that does not decompress is installed, an install cut short at one of two
      places cannot be completed by another, an agent with TLS never registers,
      the end of a command's output can be lost, two outputs are sent at once
      on one stream, a client that does not read keeps the handler, input for a
      command started without any ends the agent.
    - The model passes the repository's own unit tests, the text of generated
      shell commands and error messages included.

    ** Modelling choices

    - [res] has three outcomes: a value, an error with its chain of frames, and
      a panic (slicing out of range, arithmetic overflow, a mutex locked
      twice).  Theorems about success exclude the other two.
    - Integers are [Z] with the bounds of their type where they are parsed or
      counted.  Strings are byte strings, as Rust's are.
    - Loops: [Registry.unique_loop] gets one more unit of fuel than the
      registry has entries, which is proved enough; slot identifiers are drawn
      from a fixed range, as in the source; the upload's chunk loop gets the
      file's length as fuel and pruning the number of directories, both proved
      enough; all other recursion is structural.  The exec service's goroutines
      end by a measure on their state, the work left.
    - Iteration over a [HashMap] goes through [HashOrder], any order that lists
      each entry once, so no theorem depends on one.
    - Each registry operation is atomic, since it holds the mutex throughout.
      Where a handler waits for a call, a timer or a file, the environment may
      change the whole world, other handlers' effects included.
    - Time is counted in milliseconds where a timeout or a cancellation is part
      of the code: each request takes the time the network says it takes.
    - Code outside the repository is a parameter: JSON, HTTP and OCI clients, protobuf and X.509
      decoding, SHA-256, Cedar's decision, processes and the file system,
      connections.  What is relied on is stated as hypotheses or as a class,
      and shown to be satisfiable by concrete instances.

    ** Not modelled, and the order in which it can follow

    Argument parsing by clap (but for the options of [ota-update cachix], which
    [HostUpdater.CachixArgs] reads as declared), listening sockets, module glue,
    the protobuf code the build generates.  Within modelled parts: character
    classes of regular expressions outside ASCII, the buffering of tokio's
    files, the interleaving of progress printers with the transfer they report,
    what a process does with its input, the part of an input that a failing
    write may have delivered, and two policy uploads to one agent at the same
    time.  Of the Go agents only policy and exec, which Rust code
    calls, are modelled. *)

From stdpp Require Export prelude strings gmap pretty.

(** ** Errors and fallible computations

    [anyhow::Error] is a chain of context frames, outermost first: this is
    what [Error::chain] iterates over.  A frame is a formatted message or one of
    the typed markers the code recognises by downcasting: [NotRegistered] of
    [admin/registry.rs] and [CancellationError] of [registry/oras.rs]. *)
Inductive frame :=
| Msg (s : string)
| NotRegistered (name : string)
| CancellationError.

Definition error := list frame.

(** A Rust computation returning [anyhow::Result<A>]: it returns a value,
    returns an error, or panics (slice out of range, [unwrap] on [None]). *)
Inductive res (A : Type) :=
| Ok (a : A)
| Err (e : error)
| Panic (msg : string).
Arguments Ok {A} a.
Arguments Err {A} e.
Arguments Panic {A} msg.

#[global] Instance frame_eq_dec : EqDecision frame.
Proof. solve_decision. Defined.
#[global] Instance res_eq_dec `{EqDecision A} : EqDecision (res A).
Proof. solve_decision. Defined.

#[global] Instance res_ret : MRet res := λ A a, Ok a.
#[global] Instance res_bind : MBind res := λ A B f c,
  match c with
  | Ok a => f a
  | Err e => Err e
  | Panic m => Panic m
  end.
#[global] Instance res_fmap : FMap res := λ A B f c,
  match c with
  | Ok a => Ok (f a)
  | Err e => Err e
  | Panic m => Panic m
  end.

(** [bail!(msg)] and [anyhow!(msg)] *)
Definition bail {A} (msg : string) : res A := Err [Msg msg].

(** [ensure!(cond, msg)] *)
Definition ensure (b : bool) (msg : string) : res unit :=
  if b then Ok tt else bail msg.

(** [.context(msg)] on a [Result]: one more frame on the chain. *)
Definition with_context {A} (msg : string) (c : res A) : res A :=
  match c with
  | Err e => Err (Msg msg :: e)
  | _ => c
  end.

(** [.context(msg)] on an [Option]. *)
Definition ok_or {A} (o : option A) (msg : string) : res A :=
  match o with
  | Some a => Ok a
  | None => bail msg
  end.

(** [.ok()] on a [Result] that does not panic. *)
Definition res_ok {A} (c : res A) : option A :=
  match c with Ok a => Some a | _ => None end.

Definition is_ok {A} (c : res A) : bool :=
  match c with Ok _ => true | _ => false end.
Definition is_err {A} (c : res A) : bool :=
  match c with Err _ => true | _ => false end.
Definition is_panic {A} (c : res A) : bool :=
  match c with Panic _ => true | _ => false end.

(** Sequencing a fallible function over a list, left to right, stopping at
    the first failure: a [for] loop with [?], or [collect::<Result<_,_>>()]. *)
Fixpoint mapM_res {A B} (f : A → res B) (l : list A) : res (list B) :=
  match l with
  | [] => Ok []
  | x :: l => y ← f x; ys ← mapM_res f l; Ok (y :: ys)
  end.

(** A [for] loop with [?] that threads a state. *)
Fixpoint foldM_res {A S} (f : S → A → res S) (s : S) (l : list A) : res S :=
  match l with
  | [] => Ok s
  | x :: l => s ← f s x; foldM_res f s l
  end.

(** ** Inversion lemmas of the monad *)

Section res_lemmas.
Context {A B : Type}.
Implicit Types (c : res A) (f : A → res B).

Lemma bind_Ok c f b : c ≫= f = Ok b ↔ ∃ a, c = Ok a ∧ f a = Ok b.
Proof. destruct c; cbn; naive_solver. Qed.

Lemma bind_Err c f e :
  c ≫= f = Err e ↔ c = Err e ∨ ∃ a, c = Ok a ∧ f a = Err e.
Proof. destruct c; cbn; naive_solver. Qed.

Lemma bind_Panic c f m :
  c ≫= f = Panic m ↔ c = Panic m ∨ ∃ a, c = Ok a ∧ f a = Panic m.
Proof. destruct c; cbn; naive_solver. Qed.

Lemma fmap_Ok (g : A → B) c b : g <$> c = Ok b ↔ ∃ a, c = Ok a ∧ g a = b.
Proof. destruct c; cbn; naive_solver. Qed.

Lemma with_context_Ok m c a : with_context m c = Ok a ↔ c = Ok a.
Proof. destruct c; cbn; naive_solver. Qed.

Lemma ok_or_Ok (o : option A) m a : ok_or o m = Ok a ↔ o = Some a.
Proof. destruct o; cbn; naive_solver. Qed.

Lemma ensure_Ok b m u : ensure b m = Ok u ↔ b = true.
Proof. destruct b, u; cbn; naive_solver. Qed.

Lemma res_ok_Some c a : res_ok c = Some a ↔ c = Ok a.
Proof. destruct c; cbn; naive_solver. Qed.
End res_lemmas.

Lemma mapM_res_Ok {A B} (f : A → res B) l k :
  mapM_res f l = Ok k ↔ Forall2 (λ x y, f x = Ok y) l k.
Proof.
  revert k; induction l as [|x l IH]; intros k; cbn.
  - split; [intros [= <-]; constructor | by inversion 1].
  - rewrite bind_Ok; setoid_rewrite bind_Ok; setoid_rewrite IH.
    split; [naive_solver | inversion 1; naive_solver].
Qed.


Lemma mapM_res_total {A B} (f : A → res B) l :
  Forall (λ a, ∃ b, f a = Ok b) l → ∃ k, mapM_res f l = Ok k.
Proof. induction 1 as [|a l [b Hb] _ [k IH]]; cbn; [by eexists|]. rewrite Hb, IH. by eexists. Qed.

(** [res_simp] turns hypotheses about monadic runs into equations. *)
Ltac res_simp :=
  repeat match goal with
  | H : _ ≫= _ = Ok _ |- _ => apply bind_Ok in H as (? & ? & H)
  | H : with_context _ _ = Ok _ |- _ => apply with_context_Ok in H
  | H : ok_or _ _ = Ok _ |- _ => apply ok_or_Ok in H
  | H : ensure _ _ = Ok _ |- _ => apply ensure_Ok in H
  | H : _ <$> _ = Ok _ |- _ => apply fmap_Ok in H as (? & ? & ?)
  | H : bail _ = Ok _ |- _ => discriminate H
  | _ => progress simplify_eq/=
  end.

(** ** Lists *)

Section list_lemmas.
Context {A : Type}.
Implicit Types (l k : list A) (p : A → bool).

(** [Iterator::find] *)
Fixpoint find_first p l : option A :=
  match l with
  | [] => None
  | x :: l => if p x then Some x else find_first p l
  end.

(** [Iterator::find_map] *)
Fixpoint find_map {B} (f : A → option B) l : option B :=
  match l with
  | [] => None
  | x :: l => match f x with Some b => Some b | None => find_map f l end
  end.

(** [Iterator::filter] with a boolean closure. *)
Fixpoint keep p l : list A :=
  match l with
  | [] => []
  | x :: l => if p x then x :: keep p l else keep p l
  end.

(** [Iterator::filter_map] *)
Fixpoint filter_map {B} (f : A → option B) l : list B :=
  match l with
  | [] => []
  | x :: l => match f x with Some b => b :: filter_map f l | None => filter_map f l end
  end.

Lemma find_first_Some p l x :
  find_first p l = Some x ↔
  ∃ l1 l2, l = l1 ++ x :: l2 ∧ p x = true ∧ Forall (λ y, p y = false) l1.
Proof.
  induction l as [|y l IH]; cbn.
  { split; [done | intros ([|??] & ? & ? & _); done]. }
  destruct (p y) eqn:Hp.
  - split.
    + intros [= ->]. exists [], l. by repeat split.
    + intros ([|z l1] & l2 & Heq & Hx & Hall); simplify_eq/=; [done|].
      inversion Hall; congruence.
  - rewrite IH. split.
    + intros (l1 & l2 & -> & ? & ?). exists (y :: l1), l2. repeat split; auto.
    + intros ([|z l1] & l2 & Heq & Hx & Hall); simplify_eq/=; [congruence|].
      exists l1, l2. inversion Hall; auto.
Qed.

Lemma find_first_elem p l x : find_first p l = Some x → x ∈ l ∧ p x = true.
Proof.
  intros (l1 & l2 & -> & ? & _)%find_first_Some. split; [|done]. set_solver.
Qed.

Lemma find_first_None p l : find_first p l = None ↔ Forall (λ y, p y = false) l.
Proof.
  induction l as [|y l IH]; cbn; [split; [constructor | done]|].
  rewrite Forall_cons, <-IH. destruct (p y); naive_solver.
Qed.

Lemma elem_of_keep p l x : x ∈ keep p l ↔ x ∈ l ∧ p x = true.
Proof.
  induction l as [|y l IH]; cbn; [set_solver|].
  destruct (p y) eqn:?; rewrite ?elem_of_cons, ?IH; intuition congruence.
Qed.

Lemma elem_of_filter_map {B} (f : A → option B) l b :
  b ∈ filter_map f l ↔ ∃ x, x ∈ l ∧ f x = Some b.
Proof.
  induction l as [|y l IH]; cbn; [set_solver|].
  setoid_rewrite elem_of_cons.
  destruct (f y) eqn:?; rewrite ?elem_of_cons, IH; naive_solver.
Qed.

Lemma find_map_Some_elem {B} (f : A → option B) l b :
  find_map f l = Some b → ∃ x, x ∈ l ∧ f x = Some b.
Proof.
  induction l as [|y l IH]; cbn; [done|].
  setoid_rewrite elem_of_cons. destruct (f y) eqn:?; naive_solver.
Qed.

Lemma find_map_None {B} (f : A → option B) l :
  find_map f l = None ↔ Forall (λ x, f x = None) l.
Proof.
  induction l as [|y l IH]; cbn; [by split; [constructor|]|].
  rewrite Forall_cons, <-IH. destruct (f y); intuition congruence.
Qed.

Lemma find_map_app_first {B} (f : A → option B) pre x post b :
  Forall (λ y, f y = None) pre → f x = Some b → find_map f (pre ++ x :: post) = Some b.
Proof. induction 1 as [|y l Hy _ IH]; cbn; [by intros ->|]. by rewrite Hy. Qed.

Lemma find_map_split {B} (f : A → option B) l b :
  find_map f l = Some b →
  ∃ pre x post, l = pre ++ x :: post ∧ Forall (λ y, f y = None) pre ∧ f x = Some b.
Proof.
  induction l as [|y l IH]; cbn; [done|]. destruct (f y) eqn:Ey.
  - intros [= <-]. exists [], y, l. by repeat constructor.
  - intros (pre & x & post & -> & Hp & Hx)%IH. exists (y :: pre), x, post.
    repeat split; [by constructor | done].
Qed.

Lemma existsb_true p l : existsb p l = true ↔ ∃ x, x ∈ l ∧ p x = true.
Proof. rewrite existsb_exists. by setoid_rewrite <-list_elem_of_In. Qed.

Lemma existsb_false p l : existsb p l = false ↔ Forall (λ x, p x = false) l.
Proof.
  induction l as [|y l IH]; cbn; [split; [constructor | done]|].
  by rewrite orb_false_iff, Forall_cons, IH.
Qed.

Lemma keep_perm p l : l ≡ₚ keep p l ++ keep (λ x, negb (p x)) l.
Proof.
  induction l as [|y l IH]; cbn; [done|].
  destruct (p y); cbn; rewrite IH at 1; [done|]. by rewrite Permutation_middle.
Qed.
End list_lemmas.

Lemma keep_sublist {A} (f : A → bool) l : sublist (keep f l) l.
Proof. induction l as [|x l IH]; cbn; [constructor|]. destruct (f x); by constructor. Qed.
Lemma keep_keep {A} (f g : A → bool) l : keep f (keep g l) = keep (λ x, g x && f x) l.
Proof. induction l as [|x l IH]; cbn; [done|]. destruct (g x); cbn; [|done]. destruct (f x); by rewrite IH. Qed.
Lemma keep_ext {A} (f g : A → bool) l : (∀ x, f x = g x) → keep f l = keep g l.
Proof. intros E. induction l as [|x l IH]; cbn; [done|]. by rewrite E, IH. Qed.
Lemma keep_app {A} (f : A → bool) l k : keep f (l ++ k) = keep f l ++ keep f k.
Proof. induction l as [|x l IH]; cbn; [done|]. destruct (f x); cbn; by rewrite IH. Qed.
Lemma keep_true {A} (f : A → bool) l : Forall (λ x, f x = true) l → keep f l = l.
Proof. induction 1 as [|x l Hx _ IH]; cbn; [done|]. by rewrite Hx, IH. Qed.
Lemma keep_false {A} (f : A → bool) l : Forall (λ x, f x = false) l → keep f l = [].
Proof. induction 1 as [|x l Hx _ IH]; cbn; [done|]. by rewrite Hx. Qed.
#[global] Instance keep_proper {A} (f : A → bool) : Proper ((≡ₚ) ==> (≡ₚ)) (keep f).
Proof.
  induction 1 as [|x l k _ IH|x y l|l k j _ IH1 _ IH2]; cbn; [done| | |by rewrite IH1].
  - destruct (f x); [by constructor | done].
  - destruct (f x), (f y); [constructor|done..].
Qed.

(** ** HashMap iteration order

    The iteration order of [std::collections::HashMap] is unspecified: a
    listing is some permutation of the map's entries.  Every component that
    iterates over a map takes this interface, and its theorems hold for every
    order. *)
Class HashOrder := {
  hash_iter : ∀ {V : Type}, gmap string V → list (string * V);
  hash_iter_perm : ∀ {V : Type} (m : gmap string V), hash_iter m ≡ₚ map_to_list m
}.

(** The order [map_to_list] gives is one of them. *)
Definition map_to_list_order : HashOrder :=
  {| hash_iter := λ V m, map_to_list m;
     hash_iter_perm := λ V m, reflexivity (map_to_list m) |}.

Section hash_order.
Context `{HashOrder} {V : Type}.
Implicit Types m : gmap string V.

Lemma elem_of_hash_iter m k v : (k, v) ∈ hash_iter m ↔ m !! k = Some v.
Proof. rewrite hash_iter_perm. apply elem_of_map_to_list. Qed.

(** [HashMap::values] *)
Definition hash_values m : list V := (hash_iter m).*2.
(** [HashMap::keys] *)
Definition hash_keys m : list string := (hash_iter m).*1.

Lemma elem_of_hash_values m v : v ∈ hash_values m ↔ ∃ k, m !! k = Some v.
Proof.
  unfold hash_values. rewrite list_elem_of_fmap. split.
  - intros ([k v'] & -> & ?%elem_of_hash_iter). by exists k.
  - intros (k & ?). exists (k, v). by rewrite elem_of_hash_iter.
Qed.

Lemma elem_of_hash_keys m k : k ∈ hash_keys m ↔ is_Some (m !! k).
Proof.
  unfold hash_keys. rewrite list_elem_of_fmap. split.
  - intros ([k' v'] & -> & ?%elem_of_hash_iter). by exists v'.
  - intros (v & ?). exists (k, v). by rewrite elem_of_hash_iter.
Qed.

Lemma NoDup_hash_keys m : NoDup (hash_keys m).
Proof.
  unfold hash_keys. rewrite hash_iter_perm. apply NoDup_fst_map_to_list.
Qed.
End hash_order.

(** ** State with errors

    A handler: what it returns or fails with, and the state it leaves. *)
Definition SR (S A : Type) : Type := S → res A * S.
#[global] Instance SR_ret {S} : MRet (SR S) := λ A a w, (Ok a, w).
#[global] Instance SR_bind {S} : MBind (SR S) := λ A B f m w,
  match m w with
  | (Ok a, w') => f a w'
  | (Err e, w') => (Err e, w')
  | (Panic s, w') => (Panic s, w')
  end.

Definition SR_lift {S A} (r : res A) : SR S A := λ w, (r, w).
Definition SR_get {S A} (f : S → A) : SR S A := λ w, (Ok (f w), w).
Definition SR_modify {S} (f : S → S) : SR S unit := λ w, (Ok tt, f w).
(** [.context(msg)] on what a handler returns. *)
Definition SR_context {S A} (msg : string) (m : SR S A) : SR S A := λ w,
  let '(r, w') := m w in (with_context msg r, w').
(** [let _ = ...] *)
Definition SR_ignore {S A} (m : SR S A) : SR S unit := λ w,
  match m w with
  | (Panic s, w') => (Panic s, w')
  | (_, w') => (Ok tt, w')
  end.
(** The outcome of a handler as a value to match on; a panic passes through. *)
Definition SR_try {S A} (m : SR S A) : SR S (A + error) := λ w,
  match m w with
  | (Ok a, w') => (Ok (inl a), w')
  | (Err e, w') => (Ok (inr e), w')
  | (Panic s, w') => (Panic s, w')
  end.
(** A [for] loop with [?]. *)
Fixpoint SR_each {S A} (f : A → SR S unit) (l : list A) : SR S unit :=
  match l with
  | [] => mret tt
  | x :: l => f x ≫= λ _, SR_each f l
  end.

Lemma SR_bind_Ok {S A B} (m : SR S A) (f : A → SR S B) w b w' :
  (m ≫= f) w = (Ok b, w') ↔ ∃ a w1, m w = (Ok a, w1) ∧ f a w1 = (Ok b, w').
Proof.
  unfold mbind, SR_bind. destruct (m w) as [[a|e|s] w1].
  - split; [intros Hf; by exists a, w1 | by intros (a' & w2 & [= <- <-] & ?)].
  - split; [intros [=] | intros (a' & w2 & [=] & _)].
  - split; [intros [=] | intros (a' & w2 & [=] & _)].
Qed.

(** *** Assertions on handlers

    From a state with [P] the handler returns with [Q], or fails or panics with
    [E]. *)
Section triple.
Context {S : Type}.
Implicit Types P E : S → Prop.

Definition triple {A} P (m : SR S A) (Q : A → S → Prop) E : Prop :=
  ∀ w, P w → match m w with (Ok a, w') => Q a w' | (_, w') => E w' end.

Lemma triple_weaken {A} P P' (m : SR S A) Q Q' E E' :
  triple P m Q E → (∀ w, P' w → P w) → (∀ a w, Q a w → Q' a w) → (∀ w, E w → E' w) →
  triple P' m Q' E'.
Proof.
  intros Hm HP HQ HE w Hw. specialize (Hm w (HP w Hw)). destruct (m w) as [[] ?]; auto.
Qed.

Lemma triple_ret {A} P (a : A) Q E : (∀ w, P w → Q a w) → triple P (mret (M := SR S) a) Q E.
Proof. intros HQ w Hw. by apply HQ. Qed.

Lemma triple_lift {A} P (r : res A) Q E :
  (∀ a w, r = Ok a → P w → Q a w) → (∀ w, P w → E w) → triple P (SR_lift r) Q E.
Proof. intros HQ HE w Hw. cbn. destruct r; auto. Qed.

Lemma triple_bind {A B} P (m : SR S A) (f : A → SR S B) Q R E :
  triple P m R E → (∀ a, triple (R a) (f a) Q E) → triple P (m ≫= f) Q E.
Proof.
  intros Hm Hf w Hw. specialize (Hm w Hw). unfold mbind, SR_bind.
  destruct (m w) as [[a|e|x] w1]; [by apply Hf | done..].
Qed.

Lemma triple_context {A} P msg (m : SR S A) Q E : triple P m Q E → triple P (SR_context msg m) Q E.
Proof. intros Hm w Hw. specialize (Hm w Hw). unfold SR_context. by destruct (m w) as [[] ?]. Qed.

Lemma triple_ignore {A} P (m : SR S A) R E :
  triple P m (λ _ w, R w) R → (∀ w, R w → E w) → triple P (SR_ignore m) (λ _ w, R w) E.
Proof.
  intros Hm HE w Hw. specialize (Hm w Hw). unfold SR_ignore. destruct (m w) as [[] ?]; auto.
Qed.

Lemma triple_try {A} P (m : SR S A) Q (R : S → Prop) E :
  triple P m Q R → (∀ w, R w → E w) →
  triple P (SR_try m) (λ r w, match r with inl a => Q a w | inr _ => R w end) E.
Proof.
  intros Hm HE w Hw. specialize (Hm w Hw). unfold SR_try. destruct (m w) as [[] ?]; auto.
Qed.

Lemma triple_modify P (f : S → S) Q E : (∀ w, P w → Q tt (f w)) → triple P (SR_modify f) Q E.
Proof. intros HQ w Hw. by apply HQ. Qed.

(** A loop's invariant speaks of the elements done and those to come. *)
Lemma triple_each {A} (I : list A → list A → S → Prop) E (f : A → SR S unit) l :
  (∀ pre x todo, l = pre ++ x :: todo →
     triple (I pre (x :: todo)) (f x) (λ _, I (pre ++ [x]) todo) E) →
  triple (I [] l) (SR_each f l) (λ _, I l []) E.
Proof.
  intros Hf. assert (∀ todo pre, l = pre ++ todo →
    triple (I pre todo) (SR_each f todo) (λ _, I l []) E) as Hgen; [|by apply (Hgen l [])].
  induction todo as [|x todo IH]; intros pre El; cbn.
  - rewrite app_nil_r in El. rewrite <-El. by apply triple_ret.
  - eapply triple_bind; [by apply Hf|]. intros []. apply IH. by rewrite <-app_assoc.
Qed.
End triple.

(** ** Hint databases

    [givc]: resolution lemmas of the components; [givc_str]: rewriting of
    string operations. *)
Create HintDb givc discriminated.
Create Rewrite HintDb givc_str.
