(* ===== verification/RustStr.v ===== *)
(** * The string operations of Rust's standard library

    A [&str] or [String] is its UTF-8 byte sequence, a Rocq [string] (one
    [ascii] per byte).  Patterns used by the sources are ASCII, so splitting
    and stripping are byte-wise; character boundaries matter for slicing and
    are modelled by [is_char_boundary]; [split_whitespace], [trim] and
    [lines] recognise every code point of the Unicode property White_Space by
    its UTF-8 encoding. *)

From S2P Require Import Prelude.
From Stdlib Require Import Ascii.

(** ** Definitions *)

(** [s.contains(c)] for a character. *)
Fixpoint has_char (c : ascii) (s : string) : bool :=
  match s with
  | "" => false
  | String a s => bool_decide (a = c) || has_char c s
  end.

(** [s.strip_prefix(p)] *)
Fixpoint strip_prefix (p s : string) : option string :=
  match p, s with
  | "", _ => Some s
  | String a p, String b s => if bool_decide (a = b) then strip_prefix p s else None
  | String _ _, "" => None
  end.

Definition starts_with (p s : string) : bool := bool_decide (is_Some (strip_prefix p s)).

(** [s.strip_suffix(p)] *)
Fixpoint strip_suffix (p s : string) : option string :=
  if bool_decide (s = p) then Some ""
  else match s with
       | "" => None
       | String a s => String a <$> strip_suffix p s
       end.

Definition ends_with (p s : string) : bool := bool_decide (is_Some (strip_suffix p s)).

(** [s.split_once(c)]: at the first occurrence. *)
Fixpoint split_once (c : ascii) (s : string) : option (string * string) :=
  match s with
  | "" => None
  | String a s =>
      if bool_decide (a = c) then Some ("", s)
      else '(l, r) ← split_once c s; Some (String a l, r)
  end.

(** [s.rsplit_once(c)]: at the last occurrence. *)
Fixpoint rsplit_once (c : ascii) (s : string) : option (string * string) :=
  match s with
  | "" => None
  | String a s =>
      match rsplit_once c s with
      | Some (l, r) => Some (String a l, r)
      | None => if bool_decide (a = c) then Some ("", s) else None
      end
  end.

(** [s.rsplitn(n, c)]: at most [n] pieces, from the right; the last piece is
    the unsplit remainder. *)
Fixpoint rsplitn (n : nat) (c : ascii) (s : string) : list string :=
  match n with
  | 0 => []
  | S n =>
      match n, rsplit_once c s with
      | 0, _ | _, None => [s]
      | _, Some (l, r) => r :: rsplitn n c l
      end
  end.

(** [s.split(c)]: always at least one piece. *)
Fixpoint split (c : ascii) (s : string) : list string :=
  match s with
  | "" => [""]
  | String a s =>
      if bool_decide (a = c) then "" :: split c s
      else match split c s with
           | [] => [String a ""]
           | x :: l => String a x :: l
           end
  end.

(** [v.join(sep)] *)
Fixpoint join (sep : string) (l : list string) : string :=
  match l with
  | [] => ""
  | [x] => x
  | x :: l => x +:+ sep +:+ join sep l
  end.

(** A continuation byte [0b10xxxxxx]: an index at such a byte, or past the
    end, is not a character boundary. *)
Definition is_continuation (a : ascii) : bool :=
  match a with Ascii _ _ _ _ _ _ false true => true | _ => false end.

Fixpoint is_char_boundary (i : nat) (s : string) : bool :=
  match i, s with
  | 0, _ => true
  | S _, "" => false
  | S 0, String _ "" => true
  | S 0, String _ (String a _) => negb (is_continuation a)
  | S i, String _ s => is_char_boundary i s
  end.

Fixpoint take_bytes (n : nat) (s : string) : string :=
  match n, s with
  | S n, String a s => String a (take_bytes n s)
  | _, _ => ""
  end.

Fixpoint drop_bytes (n : nat) (s : string) : string :=
  match n, s with
  | S n, String a s => drop_bytes n s
  | _, _ => s
  end.

(** [s.split_at_checked(i)] *)
Definition split_at_checked (i : nat) (s : string) : option (string * string) :=
  if is_char_boundary i s then Some (take_bytes i s, drop_bytes i s) else None.

(** [&s[..n]]: panics when [n] is not on a character boundary. *)
Definition slice_to (n : nat) (s : string) : res string :=
  if is_char_boundary n s then Ok (take_bytes n s)
  else Panic "byte index is not a char boundary or is out of bounds".

(** [s.get(..n)] *)
Definition get_to (n : nat) (s : string) : option string :=
  if is_char_boundary n s then Some (take_bytes n s) else None.

Definition byte (a : ascii) : nat := nat_of_ascii a.

Definition is_ascii_uppercase (a : ascii) : bool := (65 <=? byte a) && (byte a <=? 90).
Definition is_ascii_lowercase (a : ascii) : bool := (97 <=? byte a) && (byte a <=? 122).
Definition is_ascii_digit (a : ascii) : bool := (48 <=? byte a) && (byte a <=? 57).
Definition is_ascii_hexdigit (a : ascii) : bool :=
  is_ascii_digit a || ((65 <=? byte a) && (byte a <=? 70))
  || ((97 <=? byte a) && (byte a <=? 102)).

Definition to_ascii_lowercase (a : ascii) : ascii :=
  if is_ascii_uppercase a then ascii_of_nat (byte a + 32) else a.

(** [s.eq_ignore_ascii_case(t)] *)
Fixpoint eq_ignore_ascii_case (s t : string) : bool :=
  match s, t with
  | "", "" => true
  | String a s, String b t =>
      bool_decide (to_ascii_lowercase a = to_ascii_lowercase b) && eq_ignore_ascii_case s t
  | _, _ => false
  end.

(** [s.chars().all(f)] for a predicate that only accepts ASCII characters. *)
Fixpoint all_chars (f : ascii → bool) (s : string) : bool :=
  match s with
  | "" => true
  | String a s => f a && all_chars f s
  end.

(** [s.replace(c, d)] for single characters. *)
Fixpoint replace_char (c d : ascii) (s : string) : string :=
  match s with
  | "" => ""
  | String a s => String (if bool_decide (a = c) then d else a) (replace_char c d s)
  end.

(** [s.trim_start_matches(c)], [s.trim_end_matches(c)], [s.trim_matches(c)] *)
Fixpoint trim_start_matches (c : ascii) (s : string) : string :=
  match s with
  | String a s' => if bool_decide (a = c) then trim_start_matches c s' else s
  | "" => ""
  end.

Fixpoint trim_end_matches (c : ascii) (s : string) : string :=
  match s with
  | "" => ""
  | String a s =>
      match trim_end_matches c s with
      | "" => if bool_decide (a = c) then "" else String a ""
      | t => String a t
      end
  end.

Definition trim_matches (c : ascii) (s : string) : string :=
  trim_end_matches c (trim_start_matches c s).

(** The White_Space code points: one byte [09-0D] and [20]; two bytes
    [U+0085], [U+00A0]; three bytes [U+1680], [U+2000-200A], [U+2028],
    [U+2029], [U+202F], [U+205F], [U+3000]. *)
Definition ws1 (a : ascii) : bool :=
  ((9 <=? byte a) && (byte a <=? 13)) || (byte a =? 32).
Definition ws2 (a b : ascii) : bool :=
  (byte a =? 194) && ((byte b =? 133) || (byte b =? 160)).
Definition ws3 (a b c : ascii) : bool :=
  ((byte a =? 225) && (byte b =? 154) && (byte c =? 128))
  || ((byte a =? 226) && (byte b =? 128)
      && (((128 <=? byte c) && (byte c <=? 138)) || (byte c =? 168)
          || (byte c =? 169) || (byte c =? 175)))
  || ((byte a =? 226) && (byte b =? 129) && (byte c =? 159))
  || ((byte a =? 227) && (byte b =? 128) && (byte c =? 128)).

Definition flush (cur : option string) : list string := option_list (String.rev <$> cur).
Definition push_byte (a : ascii) (cur : option string) : option string :=
  Some (String a (default "" cur)).

(** [s.split_whitespace()]: maximal runs of non-white-space characters;
    [cur] is the current run, reversed. *)
Fixpoint split_ws_go (cur : option string) (s : string) : list string :=
  match s with
  | "" => flush cur
  | String a s1 =>
      if ws1 a then flush cur ++ split_ws_go None s1
      else match s1 with
           | "" => flush (push_byte a cur)
           | String b s2 =>
               if ws2 a b then flush cur ++ split_ws_go None s2
               else match s2 with
                    | "" => split_ws_go (push_byte a cur) s1
                    | String c s3 =>
                        if ws3 a b c then flush cur ++ split_ws_go None s3
                        else split_ws_go (push_byte a cur) s1
                    end
           end
  end.
Definition split_whitespace (s : string) : list string := split_ws_go None s.

(** [s.trim().is_empty()]: no character that is not white space. *)
Definition is_blank (s : string) : bool := bool_decide (split_whitespace s = []).

(** [s.trim_start()], [s.trim_end()], [s.trim()]: white space begins at a lead
    byte, so a blank suffix starts at a character boundary. *)
Fixpoint trim_start (s : string) : string :=
  match s with
  | "" => ""
  | String a s1 =>
      if ws1 a then trim_start s1
      else match s1 with
           | "" => s
           | String b s2 =>
               if ws2 a b then trim_start s2
               else match s2 with
                    | "" => s
                    | String c s3 => if ws3 a b c then trim_start s3 else s
                    end
           end
  end.
Fixpoint trim_end (s : string) : string :=
  if is_blank s then ""
  else match s with "" => "" | String a s' => String a (trim_end s') end.
Definition trim (s : string) : string := trim_end (trim_start s).

(** Byte lists that end in a carriage return lose it ([lines] strips "\n"
    and "\r\n"). *)
Definition strip_cr (s : string) : string := default s (strip_suffix (String "013"%char "") s).

(** [s.lines()]: the pieces between newlines, each without a trailing
    carriage return; a final empty piece is not a line.  A last line that is
    not ended by a newline keeps its carriage return. *)
Fixpoint lines_of (l : list string) : list string :=
  match l with
  | [] => []
  | [x] => if bool_decide (x = "") then [] else [x]
  | x :: l => strip_cr x :: lines_of l
  end.
Definition lines (s : string) : list string := lines_of (split "010"%char s).

(** Visible ASCII characters. *)
Definition plain_char (a : ascii) : bool := (32 <? byte a) && (byte a <? 127).

(** ** Concatenation *)

Lemma str_cons_app a s t : String a s +:+ t = String a (s +:+ t).
Proof. reflexivity. Qed.
Lemma str_nil_app t : "" +:+ t = t.
Proof. reflexivity. Qed.
Lemma str_app_nil_r s : s +:+ "" = s.
Proof. induction s as [|a s IH]; [done|]. by rewrite str_cons_app, IH. Qed.
Lemma str_app_assoc s t u : (s +:+ t) +:+ u = s +:+ t +:+ u.
Proof. induction s as [|a s IH]; [done|]. by rewrite !str_cons_app, IH. Qed.
Lemma str_length_app s t :
  String.length (s +:+ t) = String.length s + String.length t.
Proof. induction s as [|a s IH]; [done|]. rewrite str_cons_app; cbn. by rewrite IH. Qed.

Lemma str_app_inj_l s t u : s +:+ t = s +:+ u ↔ t = u.
Proof. split; [apply (inj (String.app s)) | by intros ->]. Qed.

Lemma str_app_inj_r s t u : t +:+ s = u +:+ s ↔ t = u.
Proof.
  split; [|by intros ->]. revert u. induction t as [|a t IH]; intros [|b u]; auto;
    rewrite ?str_cons_app, ?str_nil_app.
  - intros E%(f_equal String.length). cbn in E. rewrite str_length_app in E. lia.
  - intros E%(f_equal String.length). cbn in E. rewrite str_length_app in E. lia.
  - intros [= -> ?]. f_equal. auto.
Qed.

Lemma str_app_eq_nil s t : s +:+ t = "" ↔ s = "" ∧ t = "".
Proof. destruct s; [naive_solver|]. rewrite str_cons_app. naive_solver. Qed.

Lemma str_app_inj_length s t u v :
  String.length t = String.length v → s +:+ t = u +:+ v → s = u ∧ t = v.
Proof.
  intros Hl. revert u. induction s as [|a s IH]; intros [|b u];
    rewrite ?str_nil_app, ?str_cons_app.
  - done.
  - intros ->. cbn in Hl. rewrite str_length_app in Hl. lia.
  - intros <-. cbn in Hl. rewrite str_length_app in Hl. lia.
  - intros [= -> ?]. by destruct (IH u) as [-> ->].
Qed.

(** A string that is not empty has a last character. *)
Lemma str_last s : s ≠ "" → ∃ t a, s = t +:+ String a "".
Proof.
  induction s as [|a s IH]; [done|]. intros _. destruct (decide (s = "")) as [->|Hs].
  - by exists "", a.
  - destruct IH as (t & b & ->); [done|]. by exists (String a t), b.
Qed.

#[export] Hint Rewrite str_cons_app str_nil_app str_app_nil_r str_app_assoc : givc_str.

(** ** Membership of a character *)

Lemma has_char_app c s t : has_char c (s +:+ t) = has_char c s || has_char c t.
Proof. induction s as [|a s IH]; [done|]. rewrite str_cons_app; cbn. rewrite IH. by rewrite orb_assoc. Qed.

Lemma has_char_app_false c s t :
  has_char c (s +:+ t) = false ↔ has_char c s = false ∧ has_char c t = false.
Proof. by rewrite has_char_app, orb_false_iff. Qed.

Lemma has_char_cons_false c a s :
  has_char c (String a s) = false ↔ a ≠ c ∧ has_char c s = false.
Proof. cbn. by rewrite orb_false_iff, bool_decide_eq_false. Qed.

Lemma all_chars_app f s t : all_chars f (s +:+ t) = all_chars f s && all_chars f t.
Proof. induction s as [|a s IH]; [done|]. rewrite str_cons_app; cbn. by rewrite IH, andb_assoc. Qed.

Lemma all_chars_has_char f c s :
  all_chars f s = true → f c = false → has_char c s = false.
Proof.
  induction s as [|a s IH]; [done|]; cbn. intros [Ha Hs]%andb_true_iff Hc.
  rewrite orb_false_iff, bool_decide_eq_false. split; [congruence | auto].
Qed.

(** ** Prefixes and suffixes *)

Lemma strip_prefix_Some p s t : strip_prefix p s = Some t ↔ s = p +:+ t.
Proof.
  revert s; induction p as [|a p IH]; intros [|b s]; cbn; rewrite ?str_cons_app, ?str_nil_app.
  - naive_solver.
  - naive_solver.
  - naive_solver.
  - case_bool_decide; [rewrite IH|]; naive_solver.
Qed.

Lemma strip_prefix_app p t : strip_prefix p (p +:+ t) = Some t.
Proof. by apply strip_prefix_Some. Qed.

Lemma strip_suffix_Some p s t : strip_suffix p s = Some t ↔ s = t +:+ p.
Proof.
  revert t; induction s as [|a s IH]; intros t; cbn; case_bool_decide as Hp.
  - subst p. rewrite str_app_nil_r. naive_solver.
  - split; [done|]. intros E%eq_sym%str_app_eq_nil. naive_solver.
  - split; [by intros [= <-]|]. rewrite <-Hp. intros E.
    destruct t as [|b t]; [done|]. apply (f_equal String.length) in E.
    rewrite str_length_app in E. cbn in E. lia.
  - rewrite fmap_Some. setoid_rewrite IH. split.
    + by intros (t' & -> & ->).
    + destruct t as [|b t]; [by rewrite str_nil_app; intros <-|].
      rewrite str_cons_app. intros [= -> ->]. eauto.
Qed.

Lemma strip_suffix_app p t : strip_suffix p (t +:+ p) = Some t.
Proof. by apply strip_suffix_Some. Qed.

Lemma starts_with_spec p s : starts_with p s = true ↔ ∃ t, s = p +:+ t.
Proof.
  unfold starts_with. rewrite bool_decide_eq_true.
  unfold is_Some. by setoid_rewrite strip_prefix_Some.
Qed.

Lemma ends_with_spec p s : ends_with p s = true ↔ ∃ t, s = t +:+ p.
Proof.
  unfold ends_with. rewrite bool_decide_eq_true. unfold is_Some.
  by setoid_rewrite strip_suffix_Some.
Qed.

(** ** Splitting once *)

Lemma split_once_Some c s l r :
  split_once c s = Some (l, r) ↔ s = l +:+ String c r ∧ has_char c l = false.
Proof.
  revert l; induction s as [|a s IH]; intros l; cbn.
  { split; [done|]. intros [E%(f_equal String.length) _].
    rewrite str_length_app in E. cbn in E. lia. }
  case_bool_decide as Ha; [subst a|].
  - split; [by intros [= <- <-]|]. destruct l as [|b l].
    + by intros [[= ->] _].
    + rewrite has_char_cons_false, str_cons_app. by intros [[= -> _] [? _]].
  - rewrite bind_Some. split.
    + intros ([l' r'] & Hs & [= <- <-]). apply IH in Hs as [-> ?].
      by rewrite has_char_cons_false.
    + destruct l as [|b l]; [by intros [[= -> _] _]|].
      rewrite has_char_cons_false, str_cons_app. intros [[= -> Es] [_ Hl]].
      exists (l, r). split; [by apply IH | done].
Qed.

Lemma split_once_None c s : split_once c s = None ↔ has_char c s = false.
Proof.
  induction s as [|a s IH]; cbn; [done|].
  case_bool_decide; cbn; [done|]. rewrite <-IH.
  by destruct (split_once c s) as [[]|].
Qed.

Lemma split_once_app c l r :
  has_char c l = false → split_once c (l +:+ String c r) = Some (l, r).
Proof. intros. by apply split_once_Some. Qed.

Lemma rsplit_once_None c s : rsplit_once c s = None ↔ has_char c s = false.
Proof.
  induction s as [|a s IH]; cbn; [done|].
  rewrite orb_false_iff, bool_decide_eq_false, <-IH.
  destruct (rsplit_once c s) as [[]|]; [intuition done|].
  case_bool_decide; intuition done.
Qed.

Lemma has_char_mid c l r : has_char c (l +:+ String c r) = true.
Proof. rewrite has_char_app. cbn. by rewrite bool_decide_eq_true_2, orb_true_r. Qed.

Lemma rsplit_once_app c l r :
  has_char c r = false → rsplit_once c (l +:+ String c r) = Some (l, r).
Proof.
  intros Hr. induction l as [|a l IH].
  - rewrite str_nil_app; cbn. apply rsplit_once_None in Hr. rewrite Hr.
    by rewrite bool_decide_eq_true_2.
  - rewrite str_cons_app; cbn. by rewrite IH.
Qed.

Lemma rsplit_once_sound c s l r :
  rsplit_once c s = Some (l, r) → s = l +:+ String c r ∧ has_char c r = false.
Proof.
  revert l r; induction s as [|a s IH]; intros l r; cbn; [done|].
  destruct (rsplit_once c s) as [[l' r']|] eqn:Hs.
  - intros [= <- <-]. destruct (IH _ _ eq_refl) as [-> ?]. done.
  - case_bool_decide; [|done]. intros [= <- <-]. subst a.
    split; [done|]. by apply rsplit_once_None.
Qed.

Lemma rsplit_once_Some c s l r :
  rsplit_once c s = Some (l, r) ↔ s = l +:+ String c r ∧ has_char c r = false.
Proof.
  split; [apply rsplit_once_sound|]. intros [-> ?]. by apply rsplit_once_app.
Qed.

(** ** Splitting into pieces *)

Lemma split_nonempty c s : split c s ≠ [].
Proof. destruct s; cbn; [done|]. case_bool_decide; [done|]. by destruct (split c s). Qed.

Lemma split_no_char c s : has_char c s = false → split c s = [s].
Proof.
  induction s as [|a s IH]; cbn; [done|].
  rewrite orb_false_iff, bool_decide_eq_false. intros [Ha Hs].
  rewrite bool_decide_eq_false_2 by done. by rewrite IH.
Qed.

Lemma split_app c l r :
  has_char c l = false → split c (l +:+ String c r) = l :: split c r.
Proof.
  induction l as [|a l IH]; [rewrite str_nil_app|rewrite str_cons_app]; cbn.
  - by rewrite bool_decide_eq_true_2.
  - rewrite orb_false_iff, bool_decide_eq_false. intros [Ha Hl].
    rewrite bool_decide_eq_false_2 by done. by rewrite IH.
Qed.

Lemma split_app_char c l r : split c (l +:+ String c r) = split c l ++ split c r.
Proof.
  induction l as [|a l IH]; [rewrite str_nil_app|rewrite str_cons_app]; cbn.
  - by rewrite bool_decide_eq_true_2.
  - rewrite IH. case_bool_decide; [done|]. by destruct (split c l) eqn:El; [apply split_nonempty in El|].
Qed.

Lemma join_cons sep x l :
  l ≠ [] → join sep (x :: l) = x +:+ sep +:+ join sep l.
Proof. by destruct l. Qed.

(** Joining the pieces gives the string back. *)
Lemma join_split c s : join (String c "") (split c s) = s.
Proof.
  induction s as [|a s IH]; cbn; [done|]. case_bool_decide as Ha.
  - rewrite join_cons by apply split_nonempty. by rewrite IH, Ha.
  - destruct (split c s) as [|x l]; [by rewrite <-IH|].
    destruct l as [|y l]; [cbn in *; by rewrite IH|].
    rewrite join_cons in * by done. rewrite str_cons_app. by rewrite IH.
Qed.

(** No piece holds the separator. *)
Lemma split_pieces c s : Forall (λ x, has_char c x = false) (split c s).
Proof.
  induction s as [|a s IH]; cbn; [by constructor|].
  case_bool_decide as Ha; [by constructor|].
  destruct (split c s) as [|x l]; (constructor; [|by inversion IH || constructor]);
    rewrite has_char_cons_false; split; auto. by inversion IH.
Qed.

(** Splitting joined separator-free pieces gives them back. *)
Lemma split_join c l :
  l ≠ [] → Forall (λ x, has_char c x = false) l → split c (join (String c "") l) = l.
Proof.
  induction l as [|x l IH]; [done|]. intros _ [Hx Hl]%Forall_cons.
  destruct l as [|y l]; [by apply split_no_char|].
  rewrite join_cons by done. rewrite str_cons_app, str_nil_app.
  by rewrite split_app, IH.
Qed.

(** ** Slices *)

Lemma take_drop_bytes n s : take_bytes n s +:+ drop_bytes n s = s.
Proof.
  revert s; induction n as [|n IH]; intros [|a s]; cbn; try done.
  by rewrite str_cons_app, IH.
Qed.

Lemma take_bytes_length n s : n ≤ String.length s → String.length (take_bytes n s) = n.
Proof.
  revert s; induction n as [|n IH]; intros [|a s]; cbn; try lia.
  intros. f_equal. apply IH. lia.
Qed.

Lemma take_bytes_app n s t :
  String.length s = n → take_bytes n (s +:+ t) = s.
Proof.
  intros <-. induction s as [|a s IH]; [by destruct t|].
  rewrite str_cons_app; cbn. by rewrite IH.
Qed.

Lemma drop_bytes_app n s t :
  String.length s = n → drop_bytes n (s +:+ t) = t.
Proof. intros <-. induction s as [|a s IH]; [by destruct t|]. done. Qed.

Lemma all_chars_take f n s : all_chars f s = true → all_chars f (take_bytes n s) = true.
Proof.
  revert s; induction n as [|n IH]; intros [|a s]; cbn; try done.
  rewrite !andb_true_iff. naive_solver.
Qed.

(** ASCII strings can be cut anywhere within their length. *)
Lemma ascii_boundary f n s :
  (∀ a, f a = true → is_continuation a = false) →
  all_chars f s = true → n ≤ String.length s → is_char_boundary n s = true.
Proof.
  intros Hf. revert s; induction n as [|n IH]; intros [|a s]; cbn; try done; [lia|].
  rewrite andb_true_iff. intros [Ha Hs] Hn. destruct n as [|n].
  - destruct s as [|b s]; [done|]. cbn in Hs. apply andb_true_iff in Hs as [Hb _].
    by rewrite Hf.
  - apply IH; [done | lia].
Qed.

Lemma boundary_length n s : is_char_boundary n s = true → n ≤ String.length s.
Proof.
  revert s; induction n as [|n IH]; intros [|a s]; cbn; [lia|lia| |];
    destruct n; try done; [lia|]. intros ?%IH. lia.
Qed.

(** ** Visible words *)

Lemma strip_cr_plain s : all_chars plain_char s = true → strip_cr s = s.
Proof.
  intros Hs. unfold strip_cr. destruct (strip_suffix _ s) as [t|] eqn:E; [|done].
  apply strip_suffix_Some in E. exfalso. rewrite E, all_chars_app in Hs.
  by apply andb_true_iff in Hs as [_ Hs].
Qed.

Lemma plain_no_newline s : all_chars plain_char s = true → has_char "010" s = false.
Proof. intros Hs. by eapply all_chars_has_char. Qed.

Lemma plain_not_ws a : plain_char a = true →
  ws1 a = false ∧ (∀ b, ws2 a b = false) ∧ (∀ b, ws2 b a = false) ∧ (∀ b c, ws3 a b c = false).
Proof.
  unfold plain_char, ws1, ws2, ws3. intros [H1%Nat.ltb_lt H2%Nat.ltb_lt]%andb_true_iff.
  assert (∀ n, 127 ≤ n → (byte a =? n) = false) as Hn by (intros n ?; apply Nat.eqb_neq; lia).
  split; [|split; [|split]].
  - apply orb_false_iff. split; [|apply Nat.eqb_neq; lia].
    apply andb_false_iff. right. apply Nat.leb_gt. lia.
  - intros b. by rewrite Hn by lia.
  - intros b. rewrite (Hn 133), (Hn 160) by lia. by rewrite andb_false_r.
  - intros b c. by rewrite !Hn by lia.
Qed.

Lemma split_ws_plain a s cur : plain_char a = true →
  split_ws_go cur (String a s) = split_ws_go (push_byte a cur) s.
Proof.
  intros (H1 & H2 & _ & H3)%plain_not_ws. cbn. rewrite H1.
  destruct s as [|b s]; [done|]. rewrite H2. destruct s as [|c s]; [done|]. by rewrite H3.
Qed.

Lemma rev_app_twice w acc t :
  String.rev_app (String.rev_app w acc) t = String.rev_app acc (w +:+ t).
Proof. revert acc; induction w as [|a w IH]; intros acc; cbn; [done|]. by rewrite IH. Qed.

Lemma split_ws_word w cur rest : all_chars plain_char w = true →
  split_ws_go (Some cur) (w +:+ rest) = split_ws_go (Some (String.rev_app w cur)) rest.
Proof.
  revert cur; induction w as [|a w IH]; intros cur; [done|]. cbn [all_chars].
  intros [Ha Hw]%andb_true_iff. rewrite str_cons_app, split_ws_plain by done. by apply IH.
Qed.

Lemma split_whitespace_word w rest : w ≠ "" → all_chars plain_char w = true →
  split_whitespace (w +:+ rest) = split_ws_go (Some (String.rev w)) rest.
Proof.
  destruct w as [|a w]; [done|]. intros _. cbn [all_chars]. intros [Ha Hw]%andb_true_iff.
  unfold split_whitespace. rewrite str_cons_app, split_ws_plain by done. by apply split_ws_word.
Qed.

Lemma flush_rev w : flush (Some (String.rev w)) = [w].
Proof. unfold flush, String.rev. cbn. rewrite rev_app_twice. cbn. by rewrite str_app_nil_r. Qed.

Lemma split_whitespace_cons w rest : w ≠ "" → all_chars plain_char w = true →
  split_whitespace (w +:+ " " +:+ rest) = w :: split_whitespace rest.
Proof.
  intros Hne Hw. rewrite split_whitespace_word by done. rewrite str_cons_app, str_nil_app.
  change (flush (Some (String.rev w)) ++ split_ws_go None rest = w :: split_whitespace rest).
  by rewrite flush_rev.
Qed.

Lemma split_whitespace_one w : w ≠ "" → all_chars plain_char w = true → split_whitespace w = [w].
Proof.
  intros Hne Hw. rewrite <-(str_app_nil_r w) at 1. rewrite split_whitespace_word by done.
  apply flush_rev.
Qed.

(** A last visible character is never white space. *)
Lemma split_ws_last s cur a : plain_char a = true → split_ws_go cur (s +:+ String a "") ≠ [].
Proof.
  intros Ha. pose proof (plain_not_ws a Ha) as (_ & _ & H2 & _).
  assert (∀ n s cur, String.length s ≤ n → split_ws_go cur (s +:+ String a "") ≠ []) as Hgen;
    [|by apply (Hgen (String.length s))].
  intros n. induction n as [|n IH]; intros t c Hn.
  { destruct t as [|b t]; [|cbn in Hn; lia]. rewrite str_nil_app, split_ws_plain by done. done. }
  destruct t as [|b t]; [rewrite str_nil_app, split_ws_plain by done; done|].
  cbn in Hn. rewrite str_cons_app. cbn [split_ws_go]. destruct (ws1 b).
  { intros [_ ?]%app_eq_nil. by apply (IH t None); [lia|]. }
  destruct t as [|b' t].
  { rewrite str_nil_app, H2. by rewrite split_ws_plain. }
  cbn in Hn. rewrite str_cons_app. destruct (ws2 b b').
  { intros [_ ?]%app_eq_nil. by apply (IH t None); [lia|]. }
  assert (split_ws_go (push_byte b c) (String b' (t +:+ String a "")) ≠ []) as Hrec.
  { rewrite <-str_cons_app. apply IH. cbn. lia. }
  destruct t as [|b'' t].
  { rewrite str_nil_app in Hrec |- *. destruct (ws3 b b' a) eqn:H3; [|done].
    exfalso. unfold ws3 in H3. unfold plain_char in Ha.
    apply andb_true_iff in Ha as [_ Ha%Nat.ltb_lt].
    assert (∀ n, 127 ≤ n → (byte a =? n) = false) as Hn' by (intros m ?; apply Nat.eqb_neq; lia).
    assert ((128 <=? byte a) = false) as Hl by (apply Nat.leb_gt; lia).
    rewrite !Hn', Hl in H3 by lia. cbn in H3. by rewrite !andb_false_r in H3. }
  rewrite str_cons_app in Hrec |- *. destruct (ws3 b b' b''); [|done].
  intros [_ ?]%app_eq_nil. by apply (IH t None); [cbn in Hn; lia|].
Qed.

(** Text between visible characters is trimmed already. *)
Lemma trim_visible a s b : plain_char a = true → plain_char b = true →
  trim (String a (s +:+ String b "")) = String a (s +:+ String b "").
Proof.
  intros Ha Hb. unfold trim.
  assert (trim_start (String a (s +:+ String b "")) = String a (s +:+ String b "")) as ->.
  { apply plain_not_ws in Ha as (H1 & H2 & _ & H3). cbn [trim_start]. rewrite H1.
    destruct s as [|c s]; rewrite ?str_nil_app, ?str_cons_app; [by rewrite H2|].
    rewrite H2. destruct (s +:+ String b ""); [done|]. by rewrite H3. }
  rewrite <-str_cons_app. generalize (String a s) as t. intros t.
  assert (∀ t, is_blank (t +:+ String b "") = false) as Hnb.
  { intros t'. unfold is_blank. apply bool_decide_eq_false. by apply split_ws_last. }
  induction t as [|c t IH].
  - rewrite str_nil_app. pose proof (Hnb "") as Hb0. rewrite str_nil_app in Hb0.
    cbn [trim_end]. rewrite Hb0. done.
  - pose proof (Hnb (String c t)) as Hc. rewrite str_cons_app in Hc |- *. cbn [trim_end]. rewrite Hc.
    by rewrite IH.
Qed.
