(* ===== verification/RustInt.v ===== *)
(** * Decimal integers of Rust's standard library

    Machine integers are [Z] with their bounds written out.  [Display] is
    stdpp's [pretty]; [FromStr] is [parse_int], which follows
    [from_str_radix(_, 10)]: one optional sign, then digits accumulated left
    to right, each step rejecting a bad digit before an overflow. *)

From S2P Require Import Prelude RustStr.
From Stdlib Require Import Ascii.

(** ** Definitions *)

Definition u16_max : Z := 65535.
Definition u32_max : Z := 4294967295.
Definition u64_max : Z := 18446744073709551615.
Definition i64_max : Z := 9223372036854775807.
Definition i32_min : Z := -2147483648.
Definition i32_max : Z := 2147483647.

(** The [Display] of [ParseIntError]'s kinds. *)
Definition int_empty : string := "cannot parse integer from empty string".
Definition int_invalid : string := "invalid digit found in string".
Definition int_pos_overflow : string := "number too large to fit in target type".
Definition int_neg_overflow : string := "number too small to fit in target type".

Definition digit_value (a : ascii) : option Z :=
  if is_ascii_digit a then Some (Z.of_nat (byte a) - 48)%Z else None.

(** The loop of [from_str_radix]: [acc] is the value read so far. *)
Fixpoint parse_digits (neg : bool) (lo hi acc : Z) (s : string) : res Z :=
  match s with
  | "" => Ok acc
  | String a s =>
      match digit_value a with
      | None => bail int_invalid
      | Some d =>
          if neg then
            let acc' := (acc * 10 - d)%Z in
            if (lo <=? acc')%Z then parse_digits neg lo hi acc' s
            else bail int_neg_overflow
          else
            let acc' := (acc * 10 + d)%Z in
            if (acc' <=? hi)%Z then parse_digits neg lo hi acc' s
            else bail int_pos_overflow
      end
  end.

(** [s.parse::<T>()] for the integer type with bounds [lo] and [hi]. *)
Definition parse_int (lo hi : Z) (s : string) : res Z :=
  let signed := (lo <? 0)%Z in
  match s with
  | "" => bail int_empty
  | String "+" "" | String "-" "" => bail int_invalid
  | String "+" t => parse_digits false lo hi 0 t
  | String "-" t => if signed then parse_digits true lo hi 0 t else bail int_invalid
  | _ => parse_digits false lo hi 0 s
  end.

Definition parse_u16 : string → res Z := parse_int 0 u16_max.
Definition parse_u32 : string → res Z := parse_int 0 u32_max.
Definition parse_u64 : string → res Z := parse_int 0 u64_max.
Definition parse_i32 : string → res Z := parse_int i32_min i32_max.

(** [format!("{n:02}")] for a number below 100. *)
Definition pad2 (n : nat) : string :=
  let s := pretty n in if String.length s <? 2 then "0" +:+ s else s.

(** ** Digits *)

Lemma digit_value_char d : (d < 10)%N → digit_value (pretty_N_char d) = Some (Z.of_N d).
Proof.
  intros. assert (d = 0 ∨ d = 1 ∨ d = 2 ∨ d = 3 ∨ d = 4 ∨ d = 5 ∨ d = 6
    ∨ d = 7 ∨ d = 8 ∨ d = 9)%N as Hd by lia.
  repeat (destruct Hd as [->|Hd]; [done|]). by subst.
Qed.

Lemma pretty_N_go_digits x s :
  all_chars is_ascii_digit s = true → all_chars is_ascii_digit (pretty_N_go x s) = true.
Proof.
  revert s. induction (N.lt_wf_0 x) as [x _ IH]; intros s Hs.
  assert (x = 0 ∨ 0 < x)%N as [->|?] by lia; [by rewrite pretty_N_go_0|].
  rewrite pretty_N_go_step by done. apply IH; [by apply N.div_lt|].
  cbn. rewrite Hs, andb_true_r. unfold pretty_N_char. by repeat case_match.
Qed.

Lemma pretty_N_digits (x : N) : all_chars is_ascii_digit (pretty x) = true.
Proof. unfold pretty, pretty_N. case_decide; [done|]. by apply pretty_N_go_digits. Qed.

Lemma pretty_N_go_nonempty x s : s ≠ "" → pretty_N_go x s ≠ "".
Proof.
  revert s. induction (N.lt_wf_0 x) as [x _ IH]; intros s Hs.
  assert (x = 0 ∨ 0 < x)%N as [->|?] by lia; [by rewrite pretty_N_go_0|].
  rewrite pretty_N_go_step by done. apply IH; [by apply N.div_lt | done].
Qed.

Lemma pretty_N_nonempty (x : N) : pretty x ≠ "".
Proof.
  unfold pretty, pretty_N. case_decide; [done|].
  rewrite pretty_N_go_step by lia. by apply pretty_N_go_nonempty.
Qed.

Lemma pretty_Z_of_N (x : N) : pretty (Z.of_N x) = pretty x.
Proof. by destruct x. Qed.

Lemma pretty_Z_nonneg (z : Z) : (0 ≤ z)%Z → pretty z = pretty (Z.to_N z).
Proof. intros. by rewrite <-pretty_Z_of_N, Z2N.id. Qed.

Lemma pretty_no_char (z : Z) c :
  (0 ≤ z)%Z → is_ascii_digit c = false → has_char c (pretty z) = false.
Proof.
  intros. rewrite pretty_Z_nonneg by done.
  by eapply all_chars_has_char; [apply pretty_N_digits|].
Qed.

(** ** Parsing what was printed *)

Lemma N_div10 (x : N) :
  (x `div` 10 ≤ x)%N ∧ (x = x `div` 10 * 10 + x `mod` 10)%N.
Proof.
  split; [apply N.Div0.div_le_upper_bound; lia|].
  rewrite (N.div_mod x 10) at 1 by done. lia.
Qed.

Lemma parse_digits_go (lo hi : Z) (x : N) s :
  (Z.of_N x ≤ hi)%Z →
  parse_digits false lo hi 0 (pretty_N_go x s) = parse_digits false lo hi (Z.of_N x) s.
Proof.
  revert s. induction (N.lt_wf_0 x) as [x _ IH]; intros s Hx.
  assert (x = 0 ∨ 0 < x)%N as [->|?] by lia; [by rewrite pretty_N_go_0|].
  rewrite pretty_N_go_step by done.
  destruct (N_div10 x) as [Hd He].
  rewrite IH by (first [by apply N.div_lt | lia]). cbn.
  rewrite digit_value_char by (apply N.mod_lt; lia).
  assert (Z.of_N (x `div` 10) * 10 + Z.of_N (x `mod` 10) = Z.of_N x)%Z as ->.
  { lia. }
  by rewrite (proj2 (Z.leb_le _ _)).
Qed.

Lemma parse_digits_go_neg (lo hi : Z) (x : N) s :
  (lo ≤ - Z.of_N x)%Z →
  parse_digits true lo hi 0 (pretty_N_go x s) = parse_digits true lo hi (- Z.of_N x) s.
Proof.
  revert s. induction (N.lt_wf_0 x) as [x _ IH]; intros s Hx.
  assert (x = 0 ∨ 0 < x)%N as [->|?] by lia; [by rewrite pretty_N_go_0|].
  rewrite pretty_N_go_step by done.
  destruct (N_div10 x) as [Hd He].
  rewrite IH by (first [by apply N.div_lt | lia]). cbn.
  rewrite digit_value_char by (apply N.mod_lt; lia).
  assert (- Z.of_N (x `div` 10) * 10 - Z.of_N (x `mod` 10) = - Z.of_N x)%Z as ->.
  { lia. }
  by rewrite (proj2 (Z.leb_le _ _)).
Qed.

Lemma parse_digits_pretty (lo hi : Z) (x : N) :
  (Z.of_N x ≤ hi)%Z → parse_digits false lo hi 0 (pretty x) = Ok (Z.of_N x).
Proof.
  intros Hx. unfold pretty, pretty_N. case_decide; [|by rewrite parse_digits_go].
  subst x. by destruct hi; [..|lia].
Qed.

(** The first character of a decimal is a digit, so no sign is stripped. *)
Lemma parse_int_digits (lo hi : Z) s :
  s ≠ "" → all_chars is_ascii_digit s = true →
  parse_int lo hi s = parse_digits false lo hi 0 s.
Proof.
  destruct s as [|a s]; [done|]. cbn [all_chars]. intros _ [Ha _]%andb_true_iff.
  unfold parse_int. repeat (case_match; try done).
Qed.

Lemma parse_int_pretty (lo hi z : Z) :
  (0 ≤ z ≤ hi)%Z → parse_int lo hi (pretty z) = Ok z.
Proof.
  intros [? ?]. rewrite pretty_Z_nonneg by done.
  rewrite parse_int_digits by auto using pretty_N_nonempty, pretty_N_digits.
  rewrite parse_digits_pretty; by rewrite Z2N.id.
Qed.

Lemma parse_int_pretty_neg (lo hi z : Z) :
  (lo ≤ z < 0)%Z → parse_int lo hi (pretty z) = Ok z.
Proof.
  destruct z as [|p|p]; [lia..|]. intros [? _].
  unfold pretty, pretty_Z, pretty, pretty_positive.
  pose proof (pretty_N_nonempty (Npos p)) as Hne.
  rewrite str_cons_app, str_nil_app. unfold parse_int.
  rewrite (proj2 (Z.ltb_lt lo 0)) by lia.
  destruct (pretty (N.pos p)) as [|a s] eqn:E; [done|].
  rewrite <-E. unfold pretty, pretty_N. case_decide; [done|].
  by rewrite parse_digits_go_neg.
Qed.

(** Parsing an in-range integer's decimal gives it back. *)
Lemma parse_int_round (lo hi z : Z) :
  (lo ≤ z ≤ hi)%Z → parse_int lo hi (pretty z) = Ok z.
Proof.
  intros. destruct (decide (0 ≤ z)%Z); [apply parse_int_pretty | apply parse_int_pretty_neg]; lia.
Qed.

(** ** Results are in range *)

Lemma digit_value_range a d : digit_value a = Some d → (0 ≤ d < 10)%Z.
Proof.
  unfold digit_value, is_ascii_digit. case_match eqn:E; [|done]. intros [= <-].
  apply andb_true_iff in E as [?%Nat.leb_le ?%Nat.leb_le]. lia.
Qed.

Lemma parse_digits_range (neg : bool) (lo hi acc : Z) s (z : Z) :
  (lo ≤ 0 ≤ hi)%Z → (lo ≤ acc ≤ hi)%Z → (if neg then acc ≤ 0 else 0 ≤ acc)%Z →
  parse_digits neg lo hi acc s = Ok z → (lo ≤ z ≤ hi)%Z.
Proof.
  intros Hb. revert acc; induction s as [|a s IH]; intros acc Hacc Hneg; cbn.
  { by intros [= <-]. }
  destruct (digit_value a) as [d|] eqn:Hd; [|done]. apply digit_value_range in Hd.
  destruct neg; (match goal with |- context [Z.leb ?a ?b] => destruct (Z.leb_spec a b) as [Hle|] end;
    [|done]); apply IH; lia.
Qed.

Lemma parse_int_range lo hi s z :
  (lo ≤ 0 ≤ hi)%Z → parse_int lo hi s = Ok z → (lo ≤ z ≤ hi)%Z.
Proof.
  intros Hb. unfold parse_int.
  repeat (case_match; try done); intros H'; (eapply parse_digits_range; [..|exact H']);
    cbn; lia.
Qed.

Lemma parse_int_no_panic lo hi s m : parse_int lo hi s ≠ Panic m.
Proof.
  assert (∀ neg acc t, parse_digits neg lo hi acc t ≠ Panic m) as Hd.
  { intros neg acc t; revert acc; induction t as [|a t IH]; intros acc; cbn; [done|].
    repeat case_match; done. }
  unfold parse_int. repeat (case_match; try done).
Qed.

#[export] Hint Resolve parse_int_round pretty_no_char : givc.
