(* ===== verification/RustPath.v ===== *)
(** * Unix paths of Rust's standard library

    A [Path] is its byte string.  [join] is [Path::join] on Unix; [components]
    is the iterator of the same name: repeated separators and [.] components
    are dropped, except a leading [.]. *)

From S2P Require Import Prelude RustStr.
From Stdlib Require Import Ascii.

(** ** Definitions *)

Definition is_absolute (p : string) : bool := starts_with "/" p.

(** [base.join(p)]: an absolute [p] replaces [base]. *)
Definition path_join (base p : string) : string :=
  if is_absolute p then p
  else if bool_decide (base = "") || ends_with "/" base then base +:+ p
  else base +:+ "/" +:+ p.

(** [std::path::Component] on Unix. *)
Inductive component :=
| RootDir
| CurDir
| ParentDir
| Normal (s : string).

#[global] Instance component_eq_dec : EqDecision component.
Proof. solve_decision. Defined.

(** One piece between separators that is not the first of a relative path. *)
Definition piece_component (s : string) : option component :=
  if bool_decide (s = "") || bool_decide (s = ".") then None
  else if bool_decide (s = "..") then Some ParentDir
  else Some (Normal s).

(** [path.components()] *)
Definition components (p : string) : list component :=
  match split "/"%char p with
  | [] => []
  | x :: l =>
      if is_absolute p then RootDir :: filter_map piece_component l
      else if bool_decide (x = ".") then CurDir :: filter_map piece_component l
      else filter_map piece_component (x :: l)
  end.

(** [path.file_name()]: the last component when it is a name. *)
Definition file_name (p : string) : option string :=
  match last (components p) with
  | Some (Normal s) => Some s
  | _ => None
  end.

(** [path.extension()]: after the last dot of the file name, unless that dot
    is its first character. *)
Definition extension (p : string) : option string :=
  f ← file_name p;
  '(l, r) ← rsplit_once "."%char f;
  if bool_decide (l = "") then None else Some r.

(** Pieces without the trailing ones that are no component. *)
Fixpoint trim_back (l : list string) : list string :=
  match l with
  | [] => []
  | x :: l =>
      match trim_back l with
      | [] => if piece_component x is Some _ then [x] else []
      | t => x :: t
      end
  end.
Definition drop_back (l : list string) : list string :=
  trim_back (removelast (trim_back l)).

(** [path.parent()]: the prefix of the path without its last component;
    [None] for the empty path and for the root. *)
Definition parent (p : string) : option string :=
  match components p with
  | [] | [RootDir] => None
  | _ =>
      match split "/"%char p with
      | [] => None
      | x :: l =>
          if is_absolute p then Some ("/" +:+ join "/" (drop_back l))
          else if bool_decide (x = ".") then
            if bool_decide (trim_back l = []) then Some ""
            else Some (join "/" ("." :: drop_back l))
          else Some (join "/" (drop_back (x :: l)))
      end
  end.

(** ** Joining *)

Lemma path_join_absolute base p : is_absolute p = true → path_join base p = p.
Proof. unfold path_join. by intros ->. Qed.

Lemma is_absolute_cons a s : is_absolute (String a s) = bool_decide (a = "/"%char).
Proof.
  unfold is_absolute. apply eq_bool_prop_intro. rewrite Is_true_true.
  rewrite starts_with_spec, bool_decide_spec. split.
  - intros (t & [= -> _]). done.
  - intros ->. by exists s.
Qed.

Lemma is_absolute_app_char p s :
  p ≠ "" → is_absolute (p +:+ s) = is_absolute p.
Proof. destruct p as [|a p]; [done|]. intros _. by rewrite str_cons_app, !is_absolute_cons. Qed.

(** ** Components *)

(** A string that is one ordinary component by itself. *)
Definition plain (s : string) : Prop :=
  s ≠ "" ∧ s ≠ "." ∧ s ≠ ".." ∧ has_char "/" s = false.

Lemma piece_component_Normal s : plain s → piece_component s = Some (Normal s).
Proof.
  intros (? & ? & ? & ?). unfold piece_component.
  by rewrite !bool_decide_eq_false_2.
Qed.

Lemma filter_map_plain l :
  Forall plain l → filter_map piece_component l = Normal <$> l.
Proof.
  induction 1 as [|x l Hx _ IH]; [done|]. cbn.
  by rewrite piece_component_Normal, IH.
Qed.

Lemma elem_of_pieces s l :
  Forall (λ x, has_char "/" x = false) l →
  Normal s ∈ filter_map piece_component l → plain s.
Proof.
  intros Hl (x & Hx & Hp)%elem_of_filter_map.
  rewrite Forall_forall in Hl. specialize (Hl x Hx).
  unfold piece_component in Hp. repeat case_bool_decide; simplify_eq/=.
  by repeat split.
Qed.

Lemma components_plain s p : Normal s ∈ components p → plain s.
Proof.
  unfold components. pose proof (split_pieces "/" p) as Hp.
  destruct (split "/" p) as [|x l]; [set_solver|].
  apply Forall_cons in Hp as [Hx Hl].
  case_match; [|case_bool_decide].
  - intros [?|?]%elem_of_cons; [done|]. by eapply elem_of_pieces.
  - intros [?|?]%elem_of_cons; [done|]. by eapply elem_of_pieces.
  - intros ?. eapply elem_of_pieces; [|done]. by constructor.
Qed.

Lemma join_relative l : Forall plain l → is_absolute (join "/" l) = false.
Proof.
  destruct 1 as [|x l (Hne & _ & _ & Hx) _]; [done|]. destruct x as [|a x]; [done|].
  apply has_char_cons_false in Hx as [Ha _].
  destruct l as [|y l]; [cbn [join]|rewrite join_cons by done; rewrite str_cons_app];
    rewrite is_absolute_cons; by apply bool_decide_eq_false.
Qed.

Lemma components_join l : Forall plain l → components (join "/" l) = Normal <$> l.
Proof.
  intros Hl. destruct l as [|x l]; [done|].
  unfold components. rewrite join_relative by done.
  rewrite split_join; [|done|eapply Forall_impl; [done|]; by intros ? (_&_&_&?)].
  rewrite bool_decide_eq_false_2 by (by apply Forall_cons in Hl as [(_&?&_) _]).
  by apply filter_map_plain.
Qed.

(** Joining a relative path of names below a directory. *)
Lemma path_join_names dir l :
  dir ≠ "" → ends_with "/" dir = false → Forall plain l →
  path_join dir (join "/" l) = dir +:+ "/" +:+ join "/" l.
Proof.
  intros Hne Hend Hl. unfold path_join.
  by rewrite join_relative, Hend, bool_decide_eq_false_2.
Qed.

Lemma trim_back_last l x : is_Some (piece_component x) → trim_back (l ++ [x]) = l ++ [x].
Proof.
  intros [c Hc]. induction l as [|y l IH]; cbn; [by rewrite Hc|]. rewrite IH. by destruct l.
Qed.

Lemma trim_back_names dir l : Forall plain l → l ≠ [] →
  join "/" (trim_back (split "/" (dir +:+ "/" +:+ join "/" l))) = dir +:+ "/" +:+ join "/" l.
Proof.
  intros Hl Hne. rewrite <-(join_split "/" (dir +:+ "/" +:+ join "/" l)) at 2. f_equal.
  destruct (exists_last Hne) as (l' & x & ->). apply Forall_app in Hl as [Hl' [Hx _]%Forall_cons].
  assert (∃ k, split "/" (dir +:+ "/" +:+ join "/" (l' ++ [x])) = k ++ [x]) as [k ->];
    [|apply trim_back_last; rewrite (piece_component_Normal x Hx); by eexists].
  assert (∀ s, ∃ k, split "/" (s +:+ "/" +:+ x) = k ++ [x]) as Hsplit.
  { intros s. change ("/" +:+ x) with (String "/" x). rewrite split_app_char.
    destruct Hx as (_ & _ & _ & Hx). rewrite (split_no_char _ x Hx). by eexists. }
  destruct l' as [|y l']; [apply Hsplit|].
  assert (join "/" ((y :: l') ++ [x]) = join "/" (y :: l') +:+ "/" +:+ x) as ->.
  { clear. revert y. induction l' as [|z l' IH]; intros y; [done|].
    change (join "/" ((y :: z :: l') ++ [x])) with (y +:+ "/" +:+ join "/" ((z :: l') ++ [x])).
    rewrite IH. change (join "/" (y :: z :: l')) with (y +:+ "/" +:+ join "/" (z :: l')).
    by rewrite !str_app_assoc. }
  replace (dir +:+ "/" +:+ join "/" (y :: l') +:+ "/" +:+ x)
    with ((dir +:+ "/" +:+ join "/" (y :: l')) +:+ "/" +:+ x) by (by rewrite !str_app_assoc).
  apply Hsplit.
Qed.

Example parent_ex :
  parent <$> ["/a/b"; "/a"; "/"; "a"; "a//b/./"; "./a"; "."; "//x/y"; ""] =
  [Some "/a"; Some "/"; None; Some ""; Some "a"; Some "."; Some ""; Some "//x"; None].
Proof. reflexivity. Qed.
