(* ===== verification/RustRegex.v ===== *)
(** * Anchored regular expressions over ASCII classes

    The patterns the sources compile with the [regex] crate are anchored at
    both ends and use ASCII classes only, so a match is membership of the
    whole byte string in the expression's language [lang].  [matches] decides
    it by derivatives; [matches_lang] relates the two. *)

From S2P Require Import Prelude RustStr.
From Stdlib Require Import Ascii.

Inductive re :=
| Empty
| Eps
| Cls (f : ascii → bool)
| Cat (r s : re)
| Alt (r s : re)
| Star (r : re).

(** [r?], [r+], [r{2}], a literal character and a literal string. *)
Definition opt (r : re) : re := Alt Eps r.
Definition plus (r : re) : re := Cat r (Star r).
Definition twice (r : re) : re := Cat r r.
Definition chr (c : ascii) : re := Cls (λ a, bool_decide (a = c)).
Fixpoint lit (s : string) : re :=
  match s with "" => Eps | String a s => Cat (chr a) (lit s) end.

Inductive lang : re → string → Prop :=
| lang_eps : lang Eps ""
| lang_cls f a : f a = true → lang (Cls f) (String a "")
| lang_cat r s x y : lang r x → lang s y → lang (Cat r s) (x +:+ y)
| lang_alt_l r s x : lang r x → lang (Alt r s) x
| lang_alt_r r s x : lang s x → lang (Alt r s) x
| lang_star_nil r : lang (Star r) ""
| lang_star_cons r x y : lang r x → lang (Star r) y → lang (Star r) (x +:+ y).

Fixpoint nullable (r : re) : bool :=
  match r with
  | Empty | Cls _ => false
  | Eps | Star _ => true
  | Cat r s => nullable r && nullable s
  | Alt r s => nullable r || nullable s
  end.

Fixpoint deriv (a : ascii) (r : re) : re :=
  match r with
  | Empty | Eps => Empty
  | Cls f => if f a then Eps else Empty
  | Cat r s => if nullable r then Alt (Cat (deriv a r) s) (deriv a s) else Cat (deriv a r) s
  | Alt r s => Alt (deriv a r) (deriv a s)
  | Star r => Cat (deriv a r) (Star r)
  end.

Fixpoint matches (r : re) (s : string) : bool :=
  match s with
  | "" => nullable r
  | String a s => matches (deriv a r) s
  end.

Lemma nullable_lang r : nullable r = true ↔ lang r "".
Proof.
  split.
  - induction r; cbn; try done; try (by constructor).
    + rewrite andb_true_iff. intros [? ?]. apply (lang_cat _ _ "" ""); auto.
    + rewrite orb_true_iff. intros [?|?]; [apply lang_alt_l | apply lang_alt_r]; auto.
  - remember "" as s eqn:E. induction 1; cbn; try done.
    + apply str_app_eq_nil in E as [-> ->]. by rewrite IHlang1, IHlang2.
    + by rewrite IHlang.
    + rewrite IHlang by done. by rewrite orb_true_r.
Qed.

Lemma star_inv r t :
  lang (Star r) t →
  ∀ a s, t = String a s → ∃ x y, s = x +:+ y ∧ lang r (String a x) ∧ lang (Star r) y.
Proof.
  remember (Star r) as q eqn:Eq. induction 1; simplify_eq; intros a s' E; [done|].
  destruct x as [|b x].
  - rewrite str_nil_app in E. by apply IHlang2.
  - rewrite str_cons_app in E. simplify_eq. by exists x, y.
Qed.

Lemma deriv_lang a r s : lang (deriv a r) s ↔ lang r (String a s).
Proof.
  revert s; induction r as [| |f|r1 IH1 r2 IH2|r1 IH1 r2 IH2|r IH]; intros s; cbn.
  - split; inversion 1.
  - split; inversion 1.
  - destruct (f a) eqn:Hf; split; inversion 1; subst; try congruence; by constructor.
  - assert (lang (Cat (deriv a r1) r2) s → lang (Cat r1 r2) (String a s)) as Hl.
    { inversion 1; subst. rewrite <-str_cons_app. constructor; [by apply IH1 | done]. }
    assert (lang (Cat r1 r2) (String a s) →
      lang (Cat (deriv a r1) r2) s ∨ (nullable r1 = true ∧ lang (deriv a r2) s)) as Hr.
    { inversion 1 as [| |? ? x y Hx Hy E| | | |]; subst. destruct x as [|b x].
      - rewrite str_nil_app in *. right. split; [by apply nullable_lang|]. apply IH2. congruence.
      - rewrite str_cons_app in *. simplify_eq. left. constructor; [by apply IH1 | done]. }
    destruct (nullable r1) eqn:Hn.
    + split.
      * inversion 1; subst; [by apply Hl|]. apply (lang_cat _ _ ""); [by apply nullable_lang | by apply IH2].
      * intros [?|[_ ?]]%Hr; [by apply lang_alt_l | by apply lang_alt_r].
    + split; [done|]. by intros [?|[? _]]%Hr.
  - split; inversion 1; subst; (by apply lang_alt_l, IH1) || (by apply lang_alt_r, IH2).
  - split.
    + inversion 1; subst. rewrite <-str_cons_app. apply lang_star_cons; [by apply IH | done].
    + intros H. destruct (star_inv _ _ H a s eq_refl) as (x & y & -> & ? & ?).
      constructor; [by apply IH | done].
Qed.

Lemma matches_lang r s : matches r s = true ↔ lang r s.
Proof.
  revert r; induction s as [|a s IH]; intros r; cbn; [apply nullable_lang|].
  by rewrite IH, deriv_lang.
Qed.

(** Every character of a match satisfies what all classes of the expression
    satisfy. *)
Fixpoint within (f : ascii → bool) (r : re) : Prop :=
  match r with
  | Empty | Eps => True
  | Cls g => ∀ a, g a = true → f a = true
  | Cat r s | Alt r s => within f r ∧ within f s
  | Star r => within f r
  end.

Lemma lang_within f r s : within f r → lang r s → all_chars f s = true.
Proof.
  intros Hw Hl. induction Hl; cbn in *; rewrite ?all_chars_app; try naive_solver.
  - by rewrite Hw.
  - destruct Hw. by rewrite IHHl1, IHHl2.
  - by rewrite IHHl1, IHHl2.
Qed.
