(* ===== verification/ImagePipeline.v ===== *)
(** * Commands and volumes of the image updater

    [Pipeline]: command specifications and pipelines ([image/pipeline.rs]).
    [Lvm]: logical volumes as [lvs] reports them ([image/lvm.rs]).
    The shell quoting crate [shell_escape] and the JSON decoder are
    parameters. *)

From S2P Require Import Prelude RustStr RustPath.

Module Pipeline.

Record CommandSpec := mkCommandSpec {
  program : string;
  args : list string
}.

Record Pipeline := mkPipeline { stages : list CommandSpec }.

#[global] Instance CommandSpec_eq_dec : EqDecision CommandSpec.
Proof. solve_decision. Defined.
#[global] Instance Pipeline_eq_dec : EqDecision Pipeline.
Proof. solve_decision. Defined.

(** [CommandSpec::new] *)
Definition cmd (p : string) : CommandSpec := mkCommandSpec p [].
(** [CommandSpec::arg] and [CommandSpec::arg_path] *)
Definition arg (a : string) (c : CommandSpec) : CommandSpec :=
  mkCommandSpec (program c) (args c ++ [a]).
(** [CommandSpec::args] *)
Definition with_args (l : list string) (c : CommandSpec) : CommandSpec :=
  mkCommandSpec (program c) (args c ++ l).

(** [Pipeline::new], also [From<CommandSpec>] *)
Definition new (c : CommandSpec) : Pipeline := mkPipeline [c].
Definition pipe (next : CommandSpec) (p : Pipeline) : Pipeline :=
  mkPipeline (stages p ++ [next]).
Definition is_empty (p : Pipeline) : bool := bool_decide (stages p = []).

(** [format_shell]: [escape] is [shell_escape::escape]. *)
Definition format_cmd (escape : string → string) (c : CommandSpec) : string :=
  foldl (λ s a, (s +:+ " ") +:+ escape a) (program c) (args c).
Definition format_shell (escape : string → string) (p : Pipeline) : string :=
  join " | " (format_cmd escape <$> stages p).

(** A pipeline built with the API is never empty. *)
Inductive built : Pipeline → Prop :=
| built_new c : built (new c)
| built_pipe c p : built p → built (pipe c p).

Lemma built_not_empty p : built p → is_empty p = false.
Proof.
  intros [c|c p' _]; [done|]. apply bool_decide_eq_false. cbn. by destruct (stages p').
Qed.
End Pipeline.

Module Lvm.
Import Pipeline.

Record Volume := mkVolume {
  lv_name : string;
  vg_name : string;
  lv_attr : option string;
  lv_size_bytes : option Z   (* u64 *)
}.

#[global] Instance Volume_eq_dec : EqDecision Volume.
Proof. solve_decision. Defined.

Record LvsReport := mkLvsReport { lv : list Volume }.
Record LvsJson := mkLvsJson { report : list LvsReport }.

Definition device_file (v : Volume) : string :=
  path_join "/dev/mapper" (vg_name v +:+ "-" +:+ lv_name v).

(** The path is UTF-8, so the conversion is the identity. *)
Definition device_file_string (v : Volume) : string := device_file v.

Definition rename_to (v : Volume) (new_name : string) : Pipeline :=
  new (with_args [vg_name v; lv_name v; new_name] (cmd "lvrename")).

(** What running a command gives: whether it exited with status 0, and its
    output streams. *)
Record Output := mkOutput {
  success : bool;
  stdout : string;
  stderr : string
}.

Section read.
(** [serde_json::from_slice] at [LvsJson]. *)
Context (from_slice : string → res LvsJson).

Definition parse_lvs_json (input : string) : res (list Volume) :=
  parsed ← with_context "parsing lvs json" (from_slice input);
  Ok (concat (lv <$> report parsed)).

Definition lvs_command : CommandSpec :=
  with_args ["--all"; "--report-format"; "json"; "--units"; "b"; "--no-suffix"] (cmd "lvs").

(** [run] is the result of spawning [lvs_command]. *)
Definition read_lvs_output (run : CommandSpec → res Output) : res (list Volume) :=
  out ← with_context "failed to execute lvs" (run lvs_command);
  if success out then parse_lvs_json (stdout out)
  else bail ("lvs failed: " +:+ trim (stderr out)).
End read.

(** A relative volume name stays under [/dev/mapper]. *)
Lemma device_file_eq v :
  vg_name v ≠ "" → is_absolute (vg_name v) = false →
  device_file v = "/dev/mapper/" +:+ vg_name v +:+ "-" +:+ lv_name v.
Proof.
  intros Hne Hrel. unfold device_file, path_join.
  rewrite is_absolute_app_char by done. by rewrite Hrel.
Qed.
End Lvm.
