(* ===== verification/ImageSlot.v ===== *)
(** * Versions and slots ([image/version.rs], [image/slot.rs])

    A slot is a logical volume whose name encodes its kind (root or verity)
    and its status: used by a version, or empty with an identifier.
    [decode_status] parses a volume name, [display] prints it; [decode_iff]
    says they are inverse to each other. *)

From S2P Require Import Prelude RustStr RustPath ImagePipeline.
From Stdlib Require Import Ascii.

Module Version.
Record Version := new { revision : string; hash : option string }.

#[global] Instance Version_eq_dec : EqDecision Version.
Proof. solve_decision. Defined.

(** [{}] prints the revision only, [{:#}] appends the hash. *)
Definition display (alternate : bool) (v : Version) : string :=
  revision v +:+
  match hash v with
  | Some h => if alternate then "-" +:+ h else ""
  | None => ""
  end.

Definition as_revision (v : Version) : string := revision v.
Definition has_hash (v : Version) : bool := bool_decide (is_Some (hash v)).
Definition hash_as_ref (v : Version) : option string := hash v.
End Version.

Module Slot.
Import Pipeline Lvm.

Inductive Kind := Root | Verity.
Inductive EmptyId := Known (id : string) | Legacy.
Inductive Status := Used (v : Version.Version) | Empty (id : EmptyId).

Record Slot := mkSlot { kind : Kind; status : Status; volume : Volume }.

Inductive SlotClass := Broken | Active | EmptyClass | Inactive.

#[global] Instance Kind_eq_dec : EqDecision Kind.
Proof. solve_decision. Defined.
#[global] Instance EmptyId_eq_dec : EqDecision EmptyId.
Proof. solve_decision. Defined.
#[global] Instance Status_eq_dec : EqDecision Status.
Proof. solve_decision. Defined.
#[global] Instance Slot_eq_dec : EqDecision Slot.
Proof. solve_decision. Defined.
#[global] Instance SlotClass_eq_dec : EqDecision SlotClass.
Proof. solve_decision. Defined.

(** [strum::EnumString] and [strum::Display] with [serialize_all = "lowercase"] *)
Definition kind_to_string (k : Kind) : string :=
  match k with Root => "root" | Verity => "verity" end.
Definition kind_from_str (s : string) : res Kind :=
  if bool_decide (s = "root") then Ok Root
  else if bool_decide (s = "verity") then Ok Verity
  else bail "Matching variant not found".

Definition decode_status (value : string) : res (Kind * Status) :=
  let parts := rsplitn 3 "_"%char value in
  last ← ok_or (parts !! 0) "empty input";
  middle ← ok_or (parts !! 1) "missing version";
  let '(name, version_raw, hash_or_id) :=
    match parts !! 2 with
    | None => (middle, last, None)
    | Some name => (name, middle, Some last)
    end in
  _ ← ensure (negb (bool_decide (name = ""))) "name is empty";
  let status :=
    if bool_decide (version_raw = "empty") then
      Empty (match hash_or_id with Some id => Known id | None => Legacy end)
    else Used (Version.new version_raw hash_or_id) in
  kind ← kind_from_str name;
  Ok (kind, status).

(** [from_volumes]: the loop pushes to two vectors. *)
Definition from_volume (v : Volume) : option Slot :=
  '(k, st) ← res_ok (decode_status (lv_name v)); Some (mkSlot k st v).

Fixpoint from_volumes (vols : list Volume) : list Slot * list Volume :=
  match vols with
  | [] => ([], [])
  | v :: vols =>
      let '(slots, unparsed) := from_volumes vols in
      match decode_status (lv_name v) with
      | Ok (k, st) => (mkSlot k st v :: slots, unparsed)
      | _ => (slots, v :: unparsed)
      end
  end.

Definition display_status (k : Kind) (st : Status) : string :=
  match st with
  | Used v =>
      kind_to_string k +:+ "_" +:+ Version.revision v +:+
      match Version.hash v with Some h => "_" +:+ h | None => "" end
  | Empty (Known id) => kind_to_string k +:+ "_empty_" +:+ id
  | Empty Legacy => kind_to_string k +:+ "_empty"
  end.

(** [impl Display for Slot] *)
Definition display (s : Slot) : string := display_status (kind s) (status s).

Definition is_empty (s : Slot) : bool :=
  match status s with Empty _ => true | _ => false end.
Definition is_used (s : Slot) : bool :=
  match status s with Used _ => true | _ => false end.
Definition is_legacy (s : Slot) : bool :=
  match status s with
  | Used v => negb (Version.has_hash v)
  | Empty Legacy => true
  | _ => false
  end.

Definition new_used (k : Kind) (v : Version.Version) (vol : Volume) : Slot :=
  mkSlot k (Used v) vol.
Definition new_empty (k : Kind) (id : string) (vol : Volume) : Slot :=
  mkSlot k (Empty (Known id)) vol.

Definition empty_id (s : Slot) : option string :=
  match status s with Empty (Known id) => Some id | _ => None end.
Definition version (s : Slot) : option Version.Version :=
  match status s with Used v => Some v | _ => None end.

Definition into_version (v : Version.Version) (s : Slot) : res Slot :=
  _ ← ensure (negb (is_used s)) "Can't assign version to already used slot";
  Ok (mkSlot (kind s) (Used v) (volume s)).

Definition into_empty (id : string) (s : Slot) : Slot :=
  mkSlot (kind s) (Empty (Known id)) (volume s).

Definition rename (s : Slot) : Pipeline :=
  new (arg (display s) (arg (lv_name (volume s)) (arg (vg_name (volume s)) (cmd "lvrename")))).

Definition matches (s other : Slot) : bool := bool_decide (status s = status other).

(** ** Parsing and printing volume names *)

(** The statuses whose printed form can be parsed: the fields between
    underscores hold none, and a used revision is not the word [empty]. *)
Definition wf_status (st : Status) : Prop :=
  match st with
  | Used v =>
      has_char "_" (Version.revision v) = false ∧ Version.revision v ≠ "empty" ∧
      match Version.hash v with Some h => has_char "_" h = false | None => True end
  | Empty (Known id) => has_char "_" id = false
  | Empty Legacy => True
  end.

#[global] Instance wf_status_dec st : Decision (wf_status st).
Proof. destruct st as [[? [?|]]|[?|]]; cbn; apply _. Defined.

Lemma rsplitn_3 c s :
  rsplitn 3 c s =
  match rsplit_once c s with
  | None => [s]
  | Some (l, r) =>
      match rsplit_once c l with
      | None => [r; l]
      | Some (l', r') => [r; r'; l']
      end
  end.
Proof. cbn. destruct (rsplit_once c s) as [[l r]|]; [|done]. by destruct (rsplit_once c l) as [[]|]. Qed.

Lemma kind_from_str_Ok s k : kind_from_str s = Ok k ↔ s = kind_to_string k.
Proof.
  split.
  - unfold kind_from_str. repeat case_bool_decide; subst; try done; by intros [= <-].
  - intros ->. by destruct k.
Qed.

Lemma kind_no_underscore k : has_char "_" (kind_to_string k) = false.
Proof. by destruct k. Qed.
Lemma kind_nonempty k : kind_to_string k ≠ "".
Proof. by destruct k. Qed.

(** A name with two underscores-separated fields after the kind. *)
Lemma decode_three k x y :
  has_char "_" x = false → has_char "_" y = false →
  decode_status (kind_to_string k +:+ "_" +:+ x +:+ "_" +:+ y) =
  Ok (k, if bool_decide (x = "empty") then Empty (Known y)
         else Used (Version.new x (Some y))).
Proof.
  intros Hx Hy. unfold decode_status. rewrite rsplitn_3.
  rewrite !str_cons_app, !str_nil_app.
  replace (kind_to_string k +:+ String "_" (x +:+ String "_" y))
    with ((kind_to_string k +:+ String "_" x) +:+ String "_" y)
    by (by rewrite str_app_assoc, str_cons_app).
  rewrite !rsplit_once_app by done. cbn.
  rewrite (bool_decide_eq_false_2 (kind_to_string k = "")) by apply kind_nonempty. cbn.
  rewrite (proj2 (kind_from_str_Ok _ k)) by done. cbn. by case_bool_decide.
Qed.

(** A name with one field after the kind. *)
Lemma decode_two k x :
  has_char "_" x = false →
  decode_status (kind_to_string k +:+ "_" +:+ x) =
  Ok (k, if bool_decide (x = "empty") then Empty Legacy
         else Used (Version.new x None)).
Proof.
  intros Hx. unfold decode_status. rewrite rsplitn_3.
  rewrite !str_cons_app, !str_nil_app, rsplit_once_app by done.
  rewrite (proj2 (rsplit_once_None _ _)) by apply kind_no_underscore. cbn.
  rewrite (bool_decide_eq_false_2 (kind_to_string k = "")) by apply kind_nonempty. cbn.
  rewrite (proj2 (kind_from_str_Ok _ k)) by done. cbn. by case_bool_decide.
Qed.

Lemma decode_display k st :
  wf_status st → decode_status (display_status k st) = Ok (k, st).
Proof.
  destruct st as [[rev [h|]]|[id|]]; cbn [wf_status display_status Version.revision Version.hash].
  - intros (? & ? & ?). rewrite decode_three by done. by rewrite bool_decide_eq_false_2.
  - intros (? & ? & _). rewrite str_app_nil_r, decode_two by done.
    by rewrite bool_decide_eq_false_2.
  - intros ?. replace ("_empty_" +:+ id) with ("_" +:+ "empty" +:+ "_" +:+ id) by done.
    by rewrite decode_three.
  - intros _. replace "_empty" with ("_" +:+ "empty") by done. by rewrite decode_two.
Qed.

Lemma decode_status_sound s k st :
  decode_status s = Ok (k, st) → s = display_status k st ∧ wf_status st.
Proof.
  unfold decode_status. rewrite rsplitn_3.
  destruct (rsplit_once "_" s) as [[l r]|] eqn:E1; [|done].
  apply rsplit_once_sound in E1 as [-> Hr].
  destruct (rsplit_once "_" l) as [[l' r']|] eqn:E2;
    [apply rsplit_once_sound in E2 as [-> Hr'] | clear E2];
    cbn -[bool_decide]; intros (_ & _ & (k' & ->%kind_from_str_Ok & [= -> <-])%bind_Ok)%bind_Ok;
    case_bool_decide; subst; cbn; (split; [|done]);
    by rewrite ?str_app_assoc, ?str_cons_app, ?str_nil_app, ?str_app_nil_r.
Qed.

Lemma decode_iff s k st :
  decode_status s = Ok (k, st) ↔ s = display_status k st ∧ wf_status st.
Proof. split; [apply decode_status_sound|]. intros [-> ?]. by apply decode_display. Qed.

Lemma decode_no_panic s m : decode_status s ≠ Panic m.
Proof.
  unfold decode_status. rewrite rsplitn_3.
  destruct (rsplit_once "_" s) as [[l r]|]; [|done].
  destruct (rsplit_once "_" l) as [[l' r']|]; cbn; unfold kind_from_str;
    repeat (case_bool_decide; cbn); done.
Qed.

(** A slot that stands for its volume: its status is the volume's name. *)
Definition named (s : Slot) : Prop :=
  display s = lv_name (volume s) ∧ wf_status (status s).

Lemma from_volume_Some v s :
  from_volume v = Some s ↔ volume s = v ∧ named s.
Proof.
  unfold from_volume. rewrite bind_Some. split.
  - intros ([k st] & H%res_ok_Some & [= <-]). apply decode_iff in H as [E ?].
    unfold named, display; cbn. by rewrite E.
  - intros [<- [Hd Hwf]]. destruct s as [k st v]; unfold display in Hd; cbn in *.
    exists (k, st). split; [|done]. apply res_ok_Some, decode_iff. by rewrite Hd.
Qed.

Lemma from_volumes_eq vols :
  from_volumes vols =
  (filter_map from_volume vols, keep (λ v, bool_decide (from_volume v = None)) vols).
Proof.
  induction vols as [|v vols IH]; [done|]. cbn. rewrite IH.
  assert (from_volume v = match decode_status (lv_name v) with
    | Ok (k, st) => Some (mkSlot k st v) | _ => None end) as ->.
  { unfold from_volume. by destruct (decode_status _) as [[]| |]. }
  by destruct (decode_status (lv_name v)) as [[k st]| |].
Qed.
End Slot.

(** ** Properties *)

Module SlotProps.
Import Lvm Slot.

(** C22: A logical volume name parses as a slot of a kind and status exactly
    when it is the printed form of that kind and status and the status is
    well formed: revision, hash and identifier hold no underscore and a used
    revision is not the word "empty". Parsing inverts printing and accepts
    nothing else. *)
Theorem slot_name_parse_iff s k st :
  decode_status s = Ok (k, st) ↔ s = display_status k st ∧ wf_status st.
Proof. apply decode_iff. Qed.

(** Reading slots from the volume list loses and invents nothing: the
    volumes of the slots together with the unparsed ones are a permutation of
    the input, both in input order; every slot prints as the name of its
    volume, and no unparsed volume is the volume of such a slot. *)
Theorem from_volumes_partition vols :
  let '(slots, unparsed) := from_volumes vols in
  vols ≡ₚ (volume <$> slots) ++ unparsed ∧
  sublist (volume <$> slots) vols ∧ sublist unparsed vols ∧
  Forall named slots ∧
  Forall (λ v, ∀ s, named s → volume s ≠ v) unparsed.
Proof.
  rewrite from_volumes_eq.
  induction vols as [|v vols (IHp & IHs & IHu & IHn & IHx)];
    [repeat split; constructor|].
  cbn. destruct (from_volume v) as [s|] eqn:E; cbn.
  - apply from_volume_Some in E as [<- Hs]. repeat split; [by constructor..|done].
  - repeat split; [| by constructor | by constructor | done |].
    + rewrite IHp at 1. by rewrite Permutation_middle.
    + constructor; [|done]. intros s Hs Hv.
      assert (from_volume v = Some s) by (by apply from_volume_Some). congruence.
Qed.
End SlotProps.
