(* ===== verification/ImageUki.v ===== *)
(** * Boot entries ([bootctl.rs], [image/uki.rs])

    [Bootctl]: the entries [bootctl list] reports.  [Uki]: unified kernel
    images, whose file name [ghaf-<revision>-<hash>[+N[-M]].efi] carries the
    version and the boot counters; [UkiEntry] is the parsed name. *)

From S2P Require Import Prelude RustStr RustInt RustPath ImagePipeline ImageSlot.
From Stdlib Require Import Ascii.

Module Bootctl.
Record BootctlAddon := mkAddon {
  global_addon : option string;
  local_addon : option string;
  addon_options : string
}.

Record BootctlItem := mkItem {
  type : string;
  source : string;
  id : string;
  path : string;
  root : string;
  title : string;
  show_title : string;
  sort_key : string;
  version : string;
  machine_id : option string;
  options : string;
  linux : option string;
  efi : option string;
  initrd : option (list string);
  is_reported : bool;
  is_default : bool;
  is_selected : bool;
  addons : option (list BootctlAddon);
  cmdline : string
}.

Section parse.
(** The JSON library: values, [from_slice] at [Vec<Value>], the string member
    [get("sortKey").as_str()], and [from_value] at [Vec<BootctlItem>]. *)
Context {Value : Type}.
Context (from_slice : string → res (list Value)).
Context (sort_key_str : Value → option string).
Context (from_value : list Value → res (list BootctlItem)).

Definition parse_bootctl (json : string) : res (list BootctlItem) :=
  info ← with_context "Parsing bootctl output" (from_slice json);
  let info := keep (λ item, bool_decide (sort_key_str item = Some "nixos")) info in
  with_context "While decoding bootctl json output" (from_value info).

(** The outcome of [bootctl list --json short]: exit code ([None] when killed
    by a signal) and streams; [contains] is [str::contains]. *)
Record BootctlOutput := mkBootctlOutput {
  code : option Z;
  stdout : string;
  stderr : string
}.

Definition get_bootctl_info (contains : string → string → bool)
    (spawn : res unit) (wait_with_output : res BootctlOutput) : res (list BootctlItem) :=
  _ ← with_context "executing bootctl" spawn;
  out ← with_context "Fail to capture stdout/stderr" wait_with_output;
  c ← ok_or (code out) "bootctl crashed/killed by signal";
  if bool_decide (c = 0%Z) then parse_bootctl (stdout out)
  else if contains (stderr out) "--esp-path" then Ok []
  else bail ("bootctl failed with exit code " +:+ pretty c +:+ ", and stderr output: "
             +:+ stderr out).
End parse.

Definition find_init (boot_info : BootctlItem) : option string :=
  find_map (strip_prefix "init=") (split_whitespace (cmdline boot_info)).
End Bootctl.

Module Uki.
Import Pipeline Slot.

Record BootCounter := mkCounter { remaining : Z; used : option Z }. (* u32 *)

Record UkiEntry := mkUki {
  version : Version.Version;
  boot_counter : option BootCounter
}.

Inductive BootEntryKind :=
| Managed (u : UkiEntry)
| Unmanaged
| LegacyEntry.

Record BootEntry := mkBoot { id : string; kind : BootEntryKind }.

#[global] Instance BootCounter_eq_dec : EqDecision BootCounter.
Proof. solve_decision. Defined.
#[global] Instance UkiEntry_eq_dec : EqDecision UkiEntry.
Proof. solve_decision. Defined.
#[global] Instance BootEntryKind_eq_dec : EqDecision BootEntryKind.
Proof. solve_decision. Defined.
#[global] Instance BootEntry_eq_dec : EqDecision BootEntry.
Proof. solve_decision. Defined.

Definition display_counter (c : BootCounter) : string :=
  "+" +:+ pretty (remaining c) +:+
  match used c with Some u => "-" +:+ pretty u | None => "" end.

(** [impl Display for UkiEntry] *)
Definition display (u : UkiEntry) : string :=
  "ghaf-" +:+ Version.display true (version u) +:+
  match boot_counter u with Some c => display_counter c | None => "" end +:+ ".efi".

(** [impl Display for BootEntry] *)
Definition display_boot (b : BootEntry) : string :=
  match kind b with
  | Managed uki => "managed: " +:+ display uki +:+ " [id=" +:+ id b +:+ "]"
  | Unmanaged => "unmanaged: id=" +:+ id b
  | LegacyEntry => "legacy: id=" +:+ id b
  end.

(** The counters after the last [+]: [N] or [N-M]. *)
Definition parse_counter (rhs : string) : res BootCounter :=
  match split_once "-"%char rhs with
  | Some (r, u) =>
      remaining ← with_context "invalid remaining counter" (parse_u32 r);
      used ← with_context "invalid used counter" (parse_u32 u);
      Ok (mkCounter remaining (Some used))
  | None =>
      remaining ← with_context "invalid remaining counter" (parse_u32 rhs);
      Ok (mkCounter remaining None)
  end.

(** [impl FromStr for UkiEntry] *)
Definition from_str (name : string) : res UkiEntry :=
  stem ← ok_or ('(stem, ext) ← split_at_checked (String.length name - 4) name;
                if eq_ignore_ascii_case ext ".efi" then Some stem else None) "Not an EFI";
  stem ← ok_or (strip_prefix "ghaf-" stem) "invalid UKI prefix";
  '(core, boot_counter) ←
    match rsplit_once "+"%char stem with
    | Some (lhs, rhs) => c ← parse_counter rhs; Ok (lhs, Some c)
    | None => Ok (stem, None)
    end;
  '(version, hash) ← ok_or (split_once "-"%char core) "missing version/hash";
  if bool_decide (version = "empty") then bail "UKI version must not be 'empty'"
  else Ok (mkUki (Version.new version (Some hash)) boot_counter).

(** [BootEntry::from_bootctl] *)
Definition boot_entry_of (item : Bootctl.BootctlItem) : option BootEntry :=
  let id := Bootctl.id item in
  if bool_decide (Bootctl.type item = "type2") then
    Some (mkBoot id (match from_str id with Ok uki => Managed uki | _ => Unmanaged end))
  else if bool_decide (Bootctl.type item = "type1") then Some (mkBoot id LegacyEntry)
  else None.

Definition from_bootctl (items : list Bootctl.BootctlItem) : list BootEntry :=
  filter_map boot_entry_of items.

Definition is_managed (b : BootEntry) : bool :=
  match kind b with Managed _ => true | _ => false end.
Definition is_legacy (b : BootEntry) : bool :=
  match kind b with LegacyEntry => true | _ => false end.
Definition uki (b : BootEntry) : option UkiEntry :=
  match kind b with Managed u => Some u | _ => None end.
Definition boot_version (b : BootEntry) : option Version.Version := version <$> uki b.

(** [UkiEntry::matches] and [BootEntry::matches] *)
Definition matches (u : UkiEntry) (s : Slot) : bool :=
  bool_decide (Slot.version s = Some (version u)).
Definition boot_matches (b : BootEntry) (s : Slot) : bool :=
  match kind b with Managed u => matches u s | _ => false end.

Definition to_remove (b : BootEntry) : Pipeline :=
  new (arg (id b) (arg "unlink" (cmd "bootctl"))).

(** [From<UkiEntry> for BootEntry] *)
Definition boot_of_uki (u : UkiEntry) : BootEntry := mkBoot (display u) (Managed u).

Definition full_name (u : UkiEntry) (base_dir : string) : string :=
  path_join base_dir (display u).

(** ** File names and entries *)

Definition wf_counter (c : BootCounter) : Prop :=
  (0 ≤ remaining c ≤ u32_max)%Z ∧
  match used c with Some u => (0 ≤ u ≤ u32_max)%Z | None => True end.

(** The entries a file name can denote: there is a hash, the revision holds no
    dash and is not "empty", the counters are [u32], and without counters no
    plus sign hides in the version. *)
Definition wf_uki (u : UkiEntry) : Prop :=
  let v := version u in
  has_char "-" (Version.revision v) = false ∧ Version.revision v ≠ "empty" ∧
  ∃ h, Version.hash v = Some h ∧
    match boot_counter u with
    | Some c => wf_counter c
    | None => has_char "+" (Version.revision v) = false ∧ has_char "+" h = false
    end.

Lemma boundary_app s a t :
  is_continuation a = false → is_char_boundary (String.length s) (s +:+ String a t) = true.
Proof.
  intros Ha. induction s as [|b s IH]; [done|]. rewrite str_cons_app. cbn.
  destruct s as [|c s]; [cbn; rewrite str_nil_app; by rewrite Ha|]. apply IH.
Qed.

Lemma split_ext s :
  split_at_checked (String.length (s +:+ ".efi") - 4) (s +:+ ".efi") = Some (s, ".efi").
Proof.
  rewrite str_length_app. cbn. rewrite Nat.add_sub. unfold split_at_checked.
  rewrite boundary_app by done. by rewrite take_bytes_app, drop_bytes_app.
Qed.

Lemma parse_counter_display c :
  wf_counter c →
  parse_counter (pretty (remaining c) +:+
    match used c with Some u => "-" +:+ pretty u | None => "" end) = Ok c.
Proof.
  destruct c as [r [u|]]; intros [Hr Hu]; cbn in *; unfold parse_counter, parse_u32.
  - rewrite str_cons_app, str_nil_app, split_once_app by (apply pretty_no_char; [lia | done]).
    by rewrite !parse_int_round.
  - rewrite str_app_nil_r.
    rewrite (proj2 (split_once_None _ _)) by (apply pretty_no_char; [lia | done]).
    by rewrite parse_int_round.
Qed.

Lemma counter_no_plus c :
  wf_counter c →
  has_char "+" (pretty (remaining c) +:+
    match used c with Some u => "-" +:+ pretty u | None => "" end) = false.
Proof.
  intros [Hr Hu]. rewrite has_char_app_false. split; [apply pretty_no_char; [lia | done]|].
  destruct (used c); [|done]. rewrite str_cons_app, str_nil_app. cbn.
  apply pretty_no_char; [lia | done].
Qed.

Lemma from_str_display u : wf_uki u → from_str (display u) = Ok u.
Proof.
  destruct u as [[rev hs] ctr]. intros (Hrev & Hne & h & Hh & Hc). cbn in *. subst hs.
  unfold from_str, display, Version.display. cbn [version boot_counter Version.revision Version.hash].
  rewrite <-!str_app_assoc, split_ext. cbn [mbind option_bind ok_or res_bind].
  replace (eq_ignore_ascii_case ".efi" ".efi") with true by done. cbn [ok_or mbind res_bind].
  rewrite !str_app_assoc, strip_prefix_app. cbn [ok_or mbind res_bind].
  destruct ctr as [c|].
  - unfold display_counter. rewrite (str_cons_app "+"), (str_nil_app (pretty _ +:+ _)).
    pose proof (counter_no_plus c Hc) as Hp. pose proof (parse_counter_display c Hc) as Hd.
    set (t := pretty _ +:+ _) in *.
    replace (rev +:+ "-" +:+ h +:+ String "+" t) with ((rev +:+ "-" +:+ h) +:+ String "+" t)
      by (by rewrite !str_app_assoc).
    rewrite rsplit_once_app, Hd by done. cbn.
    change ("-" +:+ h) with (String "-" h). rewrite split_once_app by done. cbn. by rewrite bool_decide_eq_false_2.
  - destruct Hc as [? ?]. rewrite !str_app_nil_r.
    rewrite (proj2 (rsplit_once_None _ _)) by (by rewrite !has_char_app_false). cbn.
    change ("-" +:+ h) with (String "-" h). rewrite split_once_app by done. cbn. by rewrite bool_decide_eq_false_2.
Qed.

Lemma parse_counter_wf s c : parse_counter s = Ok c → wf_counter c.
Proof.
  assert (0 ≤ 0 ≤ u32_max)%Z by (unfold u32_max; lia).
  unfold parse_counter. destruct (split_once "-" s) as [[r u]|]; intros; res_simp; split; cbn;
    eauto using parse_int_range.
Qed.

Lemma from_str_wf s u : from_str s = Ok u → wf_uki u.
Proof.
  unfold from_str. intros H. res_simp.
  match goal with x : string * option BootCounter |- _ => destruct x as [core ctr] end.
  res_simp.
  match goal with x : string * string |- _ => destruct x as [rev h] end.
  match goal with H : split_once _ _ = _ |- _ => apply split_once_Some in H as [-> Hrev] end.
  case_bool_decide; simplify_eq/=. split; [done|]. split; [done|]. exists h. split; [done|]. cbn.
  destruct (rsplit_once _ _) as [[l r]|] eqn:E in *; res_simp; [by eapply parse_counter_wf|].
  apply rsplit_once_None in E. rewrite has_char_app in E.
  by apply orb_false_iff in E as [? [_ ?]%has_char_cons_false].
Qed.

Lemma from_bootctl_managed items b u :
  b ∈ from_bootctl items → kind b = Managed u → from_str (id b) = Ok u.
Proof.
  intros (item & _ & Hb)%elem_of_filter_map Hk. unfold boot_entry_of in Hb.
  repeat case_bool_decide; simplify_eq/=. by destruct (from_str _); simplify_eq/=.
Qed.
End Uki.

(** ** Properties *)

Module UkiProps.
Import Uki.

(** C23: Printing an entry and parsing the file name gives the entry back
    exactly for the well formed entries; every parsed file name gives a well
    formed entry, so a parsed name can always be printed and parsed again. *)
Theorem uki_round_trip u :
  (from_str (display u) = Ok u ↔ wf_uki u) ∧
  (∀ s, from_str s = Ok u → from_str (display u) = Ok u).
Proof.
  split; [split; [apply from_str_wf | apply from_str_display]|].
  intros s Hs. by eapply from_str_display, from_str_wf.
Qed.
End UkiProps.
