(* ===== verification/ImageManifest.v ===== *)
(** * Image manifests ([image/manifest.rs], [image/checksum.rs])

    The manifest names the files of an update and their checksums.  The file
    system, SHA-256 and the JSON codec are parameters; path normalisation is
    modelled down to path components. *)

From S2P Require Import Prelude RustStr RustInt RustPath ImageSlot.
From Stdlib Require Import Ascii.

Module Manifest.

Record File := mkFile {
  name : string;
  sha256sum : string;           (* [u8; 32] *)
  unpacked_size : option Z      (* u64 *)
}.

Record Manifest := mkManifest {
  meta : gmap string string;
  manifest_version : Z;         (* u32 *)
  system : option string;
  version : string;
  root_verity_hash : string;
  kernel : File;
  store : File;
  verity : File
}.

(** [normalize_relative_path]: the loop pushes the ordinary components to
    [out]; pushing to a path is [path_join]. *)
Definition push_component (value out : string) (c : component) : res string :=
  match c with
  | Normal item => Ok (path_join out item)
  | CurDir => Ok out
  | ParentDir => bail ("parent dir '..' is not allowed in manifest path: " +:+ value)
  | RootDir => bail ("non-relative path is not allowed in manifest: " +:+ value)
  end.

Definition normalize_relative_path (value : string) : res string :=
  if is_absolute value then bail ("absolute path is not allowed in manifest: " +:+ value)
  else
    out ← foldM_res (push_component value) "" (components value);
    if bool_decide (out = "") then bail "empty path is not allowed in manifest"
    else Ok out.

Definition full_name (f : File) (base_dir : string) : string := path_join base_dir (name f).

Definition is_compressed (f : File) : bool :=
  match extension (name f) with
  | Some ext => eq_ignore_ascii_case ext "zst"
  | None => false
  end.

Definition set_name (f : File) (n : string) : File :=
  mkFile n (sha256sum f) (unpacked_size f).
Definition normalize_path (f : File) : res File :=
  n ← normalize_relative_path (name f); Ok (set_name f n).

(** [normalize_paths] updates the manifest in place; on an error the caller
    drops it. *)
Definition normalize_paths (m : Manifest) : res Manifest :=
  k ← normalize_path (kernel m);
  s ← normalize_path (store m);
  v ← normalize_path (verity m);
  Ok (mkManifest (meta m) (manifest_version m) (system m) (version m)
        (root_verity_hash m) k s v).

Definition hash_fragment (m : Manifest) : res string := slice_to 16 (root_verity_hash m).

Definition to_version (m : Manifest) : res Version.Version :=
  h ← hash_fragment m; Ok (Version.new (version m) (Some h)).

(** ** Files on disk *)

(** The reading side of the file system: [tokio::fs::try_exists], [metadata]
    (its [is_file]), [std::fs::read], and the SHA-256 of a file's content
    computed by [read_sha256] through a memory map. *)
Record FS := mkFS {
  try_exists : string → res bool;
  metadata_is_file : string → res bool;
  read : string → res string;
  sha256 : string → string
}.

Section disk.
Context (fs : FS) (hex_encode : string → string) (decode : string → res Manifest).

(** [read_sha256_blocking]: hashing in 64 MiB chunks is hashing the content. *)
Definition read_sha256 (path : string) : res string :=
  content ← with_context ("opening " +:+ path) (read fs path);
  Ok (sha256 fs content).

Definition validate_file (f : File) (base_dir : string) (checksum : bool) : res unit :=
  let full := full_name f base_dir in
  ex ← try_exists fs full;
  if negb ex then bail ("Missing file " +:+ full)
  else
    is_file ← with_context ("reading metadata for " +:+ full) (metadata_is_file fs full);
    if negb is_file then bail ("Not a regular file " +:+ full)
    else if checksum then
      actual ← read_sha256 full;
      ensure (bool_decide (actual = sha256sum f))
        ("Checksum mismatch for " +:+ full +:+ ": expected " +:+ hex_encode (sha256sum f)
         +:+ ", got " +:+ hex_encode actual)
    else Ok tt.

Definition validate (m : Manifest) (base_dir : string) (checksum : bool) : res unit :=
  _ ← with_context "while validating kernel" (validate_file (kernel m) base_dir checksum);
  _ ← with_context "while validating store image" (validate_file (store m) base_dir checksum);
  with_context "while validating verity image" (validate_file (verity m) base_dir checksum).

Definition from_slice (content : string) : res Manifest :=
  with_context "Deserializing manifest" (decode content).

Definition from_file (filename : string) : res Manifest :=
  content ← with_context "Read manifest" (read fs filename);
  from_slice content.
End disk.

(** [write_to_file]: the encoded manifest and where it goes; [encode] is the
    JSON printer and [write] the file system. *)
Definition write_to_file {W} (encode : Manifest → res string)
    (write : string → string → W → res unit * W) (m : Manifest) (filename : string) (w : W)
    : res unit * W :=
  match with_context "Serializing manifest" (encode m) with
  | Ok content =>
      let '(r, w') := write filename content w in
      (with_context ("writing manifest to " +:+ filename) r, w')
  | Err e => (Err e, w)
  | Panic s => (Panic s, w)
  end.

(** ** Normalised paths *)

(** The path [l] spells, component by component. *)
Fixpoint push_all (out : string) (l : list string) : string :=
  match l with [] => out | x :: l => push_all (path_join out x) l end.

Definition normals (cs : list component) : list string :=
  filter_map (λ c, match c with Normal s => Some s | _ => None end) cs.

Definition ordinary (c : component) : bool :=
  match c with Normal _ | CurDir => true | _ => false end.

Lemma foldM_push value out cs :
  (∀ r, foldM_res (push_component value) out cs = Ok r ↔
     forallb ordinary cs = true ∧ r = push_all out (normals cs)).
Proof.
  revert out; induction cs as [|c cs IH]; intros out r; cbn.
  { split; [by intros [= <-] | by intros [_ ->]]. }
  destruct c; cbn; [split; [done|by intros []] | apply IH | split; [done|by intros []] | apply IH].
Qed.

Lemma path_join_plain out x :
  plain x → path_join out x =
    if bool_decide (out = "") || ends_with "/" out then out +:+ x else out +:+ "/" +:+ x.
Proof.
  intros (Hne & _ & _ & Hx). unfold path_join. destruct x as [|a x]; [done|].
  apply has_char_cons_false in Hx as [? _].
  by rewrite is_absolute_cons, bool_decide_eq_false_2.
Qed.

Lemma no_slash_end out x :
  plain x → ends_with "/" (out +:+ x) = false.
Proof.
  intros (Hne & _ & _ & Hx). apply not_true_is_false. intros (t & E)%ends_with_spec.
  apply str_last in Hne as (y & a & ->). rewrite <-str_app_assoc in E.
  apply str_app_inj_length in E as [_ [= ->]]; [|done]. by rewrite has_char_mid in Hx.
Qed.

Lemma push_all_join out l :
  Forall plain l → out ≠ "" → ends_with "/" out = false →
  push_all out l = join "/" (out :: l).
Proof.
  intros Hl. revert out; induction Hl as [|x l Hx Hl IH]; intros out Hne Hend; [done|].
  cbn [push_all]. rewrite path_join_plain by done.
  rewrite Hend, bool_decide_eq_false_2 by done. cbn [orb].
  rewrite IH.
  - destruct l; cbn; by rewrite ?str_app_assoc.
  - intros [-> _]%str_app_eq_nil. done.
  - rewrite <-str_app_assoc. by apply no_slash_end.
Qed.

Lemma push_all_nil l : Forall plain l → push_all "" l = join "/" l.
Proof.
  destruct 1 as [|x l Hx Hl]; [done|]. cbn [push_all].
  rewrite path_join_plain by done. rewrite bool_decide_eq_true_2 by done.
  rewrite str_nil_app. apply push_all_join; [done| by destruct Hx |].
  by apply (no_slash_end "").
Qed.

Lemma normals_plain p : Forall plain (normals (components p)).
Proof.
  apply Forall_forall. intros x (c & Hc & E)%elem_of_filter_map.
  destruct c; simplify_eq. by eapply components_plain.
Qed.

Lemma normals_fmap l : normals (Normal <$> l) = l.
Proof. induction l as [|x l IH]; [done|]. cbn. f_equal. exact IH. Qed.

Lemma join_nonempty l : Forall plain l → join "/" l = "" ↔ l = [].
Proof.
  intros Hl. split; [|by intros ->]. destruct Hl as [|x l (Hx & _) _]; [done|].
  destruct l; [done|]. rewrite join_cons by done. by intros [? _]%str_app_eq_nil.
Qed.

Lemma normalize_Ok p r :
  normalize_relative_path p = Ok r ↔
  is_absolute p = false ∧ forallb ordinary (components p) = true ∧
  normals (components p) ≠ [] ∧ r = join "/" (normals (components p)).
Proof.
  pose proof (normals_plain p) as Hpl.
  unfold normalize_relative_path. destruct (is_absolute p); [split; [done|by intros []]|].
  rewrite bind_Ok. setoid_rewrite foldM_push. rewrite push_all_nil by done. split.
  - intros (out & [? ->] & Hr). case_bool_decide as Hn; simplify_eq.
    rewrite join_nonempty in Hn by done. done.
  - intros (_ & ? & Hn & ->). eexists. split; [done|].
    by rewrite bool_decide_eq_false_2 by (by rewrite join_nonempty).
Qed.
End Manifest.

(** ** Properties *)

Module ManifestProps.
Import Manifest.

(** C25: Normalising a manifest path is total on relative paths without [..]
    and gives a path that cannot leave the base directory: the result is
    relative, consists of the ordinary components of the input only, in order,
    joined by single slashes, and normalising it again changes nothing. *)
Theorem normalize_safe p r :
  normalize_relative_path p = Ok r →
  is_absolute r = false ∧
  components r = (Normal <$> normals (components p)) ∧
  r = join "/" (normals (components p)) ∧
  ¬ (ParentDir ∈ components p) ∧
  normalize_relative_path r = Ok r.
Proof.
  intros (Hrel & Hord & Hne & ->)%normalize_Ok.
  pose proof (normals_plain p) as Hpl.
  pose proof (components_join _ Hpl) as Hc.
  assert (is_absolute (join "/" (normals (components p))) = false) as Habs.
  { apply not_true_is_false. intros Ha. unfold components at 1 in Hc.
    rewrite Ha in Hc. destruct (split _ _); [by destruct (normals _)|].
    by destruct (normals _). }
  repeat split; try done.
  - intros Hp. rewrite forallb_forall in Hord.
    by specialize (Hord _ (proj1 (list_elem_of_In _ _) Hp)).
  - apply normalize_Ok. rewrite Hc, normals_fmap. repeat split; [done| |done].
    apply forallb_forall. intros c Hin%list_elem_of_In.
    by apply list_elem_of_fmap in Hin as (x & -> & _).
Qed.

Lemma normalize_safe_witness :
  normalize_relative_path "./a//b/./c.raw" = Ok "a/b/c.raw" ∧
  normalize_relative_path "a/b/c.raw" = Ok "a/b/c.raw".
Proof.
  split; [reflexivity|].
  exact (proj2 (proj2 (proj2 (proj2 (normalize_safe "./a//b/./c.raw" "a/b/c.raw" eq_refl))))).
Defined.
End ManifestProps.
