(* ===== verification/ImageGroup.v ===== *)
(** * Kernel parameters and slot groups ([image/group.rs], part of
    [image/runtime.rs])

    A slot group pairs a root slot, a verity slot and a boot entry of one
    version.  [group_volumes] builds the groups from the slots and the managed
    boot entries; its theorems say nothing is lost, what ends up together
    belongs together, and when it fails. *)

From S2P Require Import Prelude RustStr RustInt RustPath ImagePipeline ImageSlot ImageUki.
From Stdlib Require Import Ascii.

Module KernelParams.
(** [store_hash] is private; only [from_cmdline] builds a value. *)
Record KernelParams := mkKernelParams {
  store_hash : option string;
  revision : option string
}.

Definition CMDLINE_ARG_NAME : string := "ghaf.storehash".
Definition GHAF_REVISION_NAME : string := "ghaf.revision".

Definition find_arg (cmdline key : string) : option string :=
  find_map (λ '(k, v), if bool_decide (k = key) then Some v else None)
    (filter_map (split_once "="%char) (split_whitespace cmdline)).

Definition valid_store_hash (h : string) : bool :=
  all_chars is_ascii_hexdigit h && (String.length h =? 64).

Definition from_cmdline (cmdline : string) : res KernelParams :=
  let store_hash := find_arg cmdline CMDLINE_ARG_NAME in
  _ ← ensure (match store_hash with Some h => valid_store_hash h | None => true end)
        "Invalid verity hash";
  Ok (mkKernelParams store_hash (find_arg cmdline GHAF_REVISION_NAME)).

(** [&h[..16]]: the slice is in range for every value [from_cmdline] builds
    ([fragment_in_range]). *)
Definition verity_hash_fragment (k : KernelParams) : option string :=
  take_bytes 16 <$> store_hash k.

Definition to_version (k : KernelParams) : option Version.Version :=
  (λ r, Version.new r (verity_hash_fragment k)) <$> revision k.

Definition wf (k : KernelParams) : Prop :=
  match store_hash k with Some h => valid_store_hash h = true | None => True end.

Lemma from_cmdline_wf cmdline k : from_cmdline cmdline = Ok k → wf k.
Proof.
  unfold from_cmdline. intros H. res_simp. unfold wf; cbn.
  by destruct (find_arg cmdline CMDLINE_ARG_NAME).
Qed.

Lemma hexdigit_not_continuation a : is_ascii_hexdigit a = true → is_continuation a = false.
Proof. destruct a as [[] [] [] [] [] [] [] []]; done. Qed.

Lemma fragment_in_range k h :
  wf k → store_hash k = Some h → slice_to 16 h = Ok (take_bytes 16 h).
Proof.
  unfold wf. intros Hk Eh. rewrite Eh in Hk.
  apply andb_true_iff in Hk as [Hhex Hlen%Nat.eqb_eq]. unfold slice_to.
  rewrite (ascii_boundary is_ascii_hexdigit); auto using hexdigit_not_continuation. lia.
Qed.

(** The hash fragment is sixteen hexadecimal digits. *)
Lemma fragment_hex k f :
  wf k → verity_hash_fragment k = Some f →
  String.length f = 16 ∧ all_chars is_ascii_hexdigit f = true.
Proof.
  unfold wf, verity_hash_fragment. intros Hk (h & Eh & ->)%fmap_Some. rewrite Eh in Hk.
  apply andb_true_iff in Hk as [Hhex Hlen%Nat.eqb_eq]. split.
  - apply take_bytes_length. lia.
  - by apply all_chars_take.
Qed.
End KernelParams.

Module Group.
Import Slot Uki.

Record SlotGroup := mkGroup {
  root : option Slot;
  verity : option Slot;
  boot : option BootEntry
}.

#[global] Instance SlotGroup_eq_dec : EqDecision SlotGroup.
Proof. solve_decision. Defined.

(** [#[derive(Default)]] *)
Definition default_group : SlotGroup := mkGroup None None None.

Definition is_some_and {A} (o : option A) (f : A → bool) : bool :=
  match o with Some a => f a | None => false end.

Definition matches_slot (g : SlotGroup) (s : Slot) : bool :=
  is_some_and (root g) (λ r, Slot.matches r s)
  || is_some_and (verity g) (λ v, Slot.matches v s).

Definition matches_boot (g : SlotGroup) (b : BootEntry) : bool :=
  let bv := boot_version b in
  is_some_and (root g) (λ r,
    bool_decide (Slot.version r = bv)
    || is_some_and (verity g) (λ v, bool_decide (Slot.version v = bv))).

Definition attach_slot (g : SlotGroup) (s : Slot) : res SlotGroup :=
  match Slot.kind s with
  | Root =>
      _ ← ensure (bool_decide (root g = None)) "Duplicate root slot in group";
      Ok (mkGroup (Some s) (verity g) (boot g))
  | Verity =>
      _ ← ensure (bool_decide (verity g = None)) "Duplicate verity slot in group";
      Ok (mkGroup (root g) (Some s) (boot g))
  end.

(** First loop of [group_volumes]: the first matching group takes the slot, a
    new group at the end when there is none. *)
Fixpoint add_slot (s : Slot) (groups : list SlotGroup) : res (list SlotGroup) :=
  match groups with
  | [] => g ← attach_slot default_group s; Ok [g]
  | g :: gs =>
      if matches_slot g s then g' ← attach_slot g s; Ok (g' :: gs)
      else gs' ← add_slot s gs; Ok (g :: gs')
  end.

(** Second loop: the first matching group takes the boot entry. *)
Fixpoint add_boot (b : BootEntry) (groups : list SlotGroup) : res (list SlotGroup) :=
  match groups with
  | [] => Ok [mkGroup None None (Some b)]
  | g :: gs =>
      if matches_boot g b then
        if bool_decide (is_Some (boot g)) then
          match boot_version b with
          | None => Panic "Invalid state: attached UKI have no version"
          | Some v => bail ("invalid state: multiple UKIs for version=" +:+ Version.display false v)
          end
        else Ok (mkGroup (root g) (verity g) (Some b) :: gs)
      else gs' ← add_boot b gs; Ok (g :: gs')
  end.

Definition group_volumes (slots : list Slot) (boots : list BootEntry) : res (list SlotGroup) :=
  groups ← foldM_res (λ gs s, add_slot s gs) [] slots;
  foldM_res (λ gs b, add_boot b gs) groups boots.

Definition version (g : SlotGroup) : option Version.Version :=
  match root g with
  | Some r => Slot.version r
  | None =>
      match verity g with
      | Some v => Slot.version v
      | None => match boot g with Some b => boot_version b | None => None end
      end
  end.

Definition empty_id (g : SlotGroup) : option string :=
  match root g with
  | Some r => Slot.empty_id r
  | None => match verity g with Some v => Slot.empty_id v | None => None end
  end.

Definition is_empty (g : SlotGroup) : bool :=
  match root g with
  | Some r =>
      Slot.is_empty r
      && match verity g with Some v => Slot.is_empty v | None => true end
  | None => match verity g with Some v => Slot.is_empty v | None => false end
  end.

Definition is_used (g : SlotGroup) : bool :=
  is_some_and (root g) (λ s, negb (Slot.is_empty s))
  || is_some_and (verity g) (λ s, negb (Slot.is_empty s))
  || bool_decide (is_Some (boot g)).

Definition is_complete (g : SlotGroup) : bool :=
  bool_decide (is_Some (root g)) && bool_decide (is_Some (verity g)).

Definition is_legacy (g : SlotGroup) : bool :=
  is_some_and (root g) Slot.is_legacy || is_some_and (verity g) Slot.is_legacy.

Definition is_active (g : SlotGroup) (kernel : KernelParams.KernelParams) : bool :=
  match version g, KernelParams.to_version kernel with
  | Some slot_v, Some kernel_v => bool_decide (slot_v = kernel_v)
  | Some _, None => is_legacy g
  | _, _ => false
  end.

Definition validate (g : SlotGroup) : res unit :=
  _ ← match root g, verity g with
      | Some r, Some v =>
          ensure (Slot.matches r v)
            ("root and verity slots do not match: " +:+ Slot.display r +:+ " vs " +:+ Slot.display v)
      | _, _ => Ok tt
      end;
  _ ← match boot g with
      | None => Ok tt
      | Some b =>
          _ ← match root g with
              | Some r => ensure (boot_matches b r)
                  ("UKI does not match root slot: " +:+ display_boot b +:+ " vs " +:+ Slot.display r)
              | None => Ok tt
              end;
          match verity g with
          | Some v => ensure (boot_matches b v)
              ("UKI does not match verity slot: " +:+ display_boot b +:+ " vs " +:+ Slot.display v)
          | None => Ok tt
          end
      end;
  ensure (is_empty g && bool_decide (is_Some (boot g))) "empty slot group contains UKI".

Definition classify (g : SlotGroup) (kernel : KernelParams.KernelParams) : SlotClass :=
  if negb (is_ok (validate g)) then Broken
  else if is_active g kernel then Active
  else if is_empty g then EmptyClass
  else Inactive.

Definition attach_uki (g : SlotGroup) (u : UkiEntry) : res SlotGroup :=
  _ ← ensure (bool_decide (boot g = None)) "Already have UKI (state error)";
  Ok (mkGroup (root g) (verity g) (Some (boot_of_uki u))).

(** ** The slots and boot entries of groups *)

Definition group_slots (g : SlotGroup) : list Slot :=
  option_list (root g) ++ option_list (verity g).
Definition all_slots (gs : list SlotGroup) : list Slot := gs ≫= group_slots.
Definition all_boots (gs : list SlotGroup) : list BootEntry := gs ≫= λ g, option_list (boot g).

(** The status its slots share; [None] for an orphan boot entry. *)
Definition group_key (g : SlotGroup) : option Status :=
  Slot.status <$> head (group_slots g).

(** Root and verity are of their kind and of one status; a boot entry on a
    group with slots is of that version and comes with a root slot. *)
Definition coherent (g : SlotGroup) : Prop :=
  (∀ r, root g = Some r → Slot.kind r = Root) ∧
  (∀ v, verity g = Some v → Slot.kind v = Verity) ∧
  (∀ r v, root g = Some r → verity g = Some v → Slot.status r = Slot.status v) ∧
  (∀ b, boot g = Some b → group_slots g ≠ [] →
     ∃ r, root g = Some r ∧ Slot.version r = boot_version b).

(** The keys of the groups that hold slots, in order. *)
Definition keys (gs : list SlotGroup) : list Status := filter_map group_key gs.

Definition grouped (gs : list SlotGroup) : Prop := Forall coherent gs ∧ NoDup (keys gs).

Lemma matches_slot_key g s :
  coherent g → matches_slot g s = true ↔ group_key g = Some (Slot.status s).
Proof.
  intros (_ & _ & Heq & _). unfold matches_slot, group_key, group_slots, Slot.matches.
  destruct (root g) as [r|], (verity g) as [v|]; cbn;
    rewrite ?orb_true_iff, ?bool_decide_eq_true; try rewrite (Heq r v) by done;
    intuition congruence.
Qed.

Lemma attach_slot_Ok g s g' :
  attach_slot g s = Ok g' →
  coherent g → boot g = None → (group_key g = None ∨ group_key g = Some (Slot.status s)) →
  coherent g' ∧ boot g' = None ∧ group_key g' = Some (Slot.status s) ∧
  group_slots g' ≡ₚ s :: group_slots g.
Proof.
  unfold attach_slot, group_key, group_slots, coherent. destruct g as [r v b]; cbn.
  intros H (Hr & Hv & Heq & Hb) -> Hk.
  destruct (Slot.kind s) eqn:Ek; res_simp; case_bool_decide; simplify_eq/=.
  - assert (∀ v', v = Some v' → Slot.status s = Slot.status v') as Hs.
    { intros v' ->. cbn in Hk. destruct Hk; simplify_eq/=; congruence. }
    repeat split; naive_solver.
  - assert (∀ r', r = Some r' → Slot.status r' = Slot.status s) as Hs.
    { intros r' ->. cbn in Hk. destruct Hk; simplify_eq/=; congruence. }
    destruct r as [r'|]; cbn in *.
    + rewrite (Hs r') by done. repeat split; try naive_solver. constructor.
    + repeat split; naive_solver.
Qed.

(** After the first loop: coherent groups with slots and no boot entry yet. *)
Definition slots_only (g : SlotGroup) : Prop :=
  coherent g ∧ boot g = None ∧ is_Some (group_key g).

Lemma attach_default s g :
  attach_slot default_group s = Ok g →
  slots_only g ∧ group_key g = Some (Slot.status s) ∧ group_slots g = [s].
Proof.
  unfold attach_slot, slots_only, coherent. destruct (Slot.kind s) eqn:Ek; cbn;
    intros [= <-]; unfold group_key, group_slots; cbn; repeat split; naive_solver.
Qed.

Lemma add_slot_Ok s gs gs' :
  add_slot s gs = Ok gs' → Forall slots_only gs →
  Forall slots_only gs' ∧ all_slots gs' ≡ₚ s :: all_slots gs ∧
  (if bool_decide (Slot.status s ∈ keys gs) then keys gs' = keys gs
   else keys gs' = keys gs ++ [Slot.status s]).
Proof.
  revert gs'; induction gs as [|g gs IH]; intros gs' H Hg; cbn in H.
  { res_simp. match goal with H : attach_slot _ _ = _ |- _ => apply attach_default in H as (? & Hk & Hs) end.
    unfold keys, all_slots; cbn. rewrite Hk, Hs. repeat split; [by apply Forall_singleton | done]. }
  apply Forall_cons in Hg as [(Hc & Hb & [k Hk]) Hgs].
  destruct (matches_slot g s) eqn:Hm.
  - apply matches_slot_key in Hm; [|done].
    res_simp. match goal with H : attach_slot _ _ = _ |- _ => apply attach_slot_Ok in H as (? & ? & Hk' & Hp); auto end.
    rewrite bool_decide_eq_true_2.
    + unfold keys, all_slots; cbn. rewrite Hk', Hm. repeat split.
      * constructor; [|done]. split; [done|]. split; [done|]. by rewrite Hk'.
      * by rewrite Hp.
    + unfold keys; cbn. rewrite Hm. set_solver.
  - assert (k ≠ Slot.status s) as Hne.
    { intros ->. apply not_true_iff_false in Hm. apply Hm. by apply matches_slot_key. }
    res_simp. edestruct IH as (? & Hp & Hif); [done..|].
    unfold keys, all_slots in *; cbn. rewrite Hk. repeat split.
    + by repeat (constructor; eauto).
    + rewrite Hp. by rewrite Permutation_middle.
    + case_bool_decide as H1; case_bool_decide as H2; rewrite elem_of_cons in H2;
        rewrite Hif; try done; exfalso; intuition congruence.
Qed.

Lemma keys_NoDup_add s gs gs' :
  add_slot s gs = Ok gs' → Forall slots_only gs → NoDup (keys gs) → NoDup (keys gs').
Proof.
  intros H Hg Hn. destruct (add_slot_Ok _ _ _ H Hg) as (_ & _ & Hk).
  case_bool_decide; rewrite Hk; [done|]. apply NoDup_app. repeat split; [done| |apply NoDup_singleton].
  intros x Hx ->%list_elem_of_singleton. done.
Qed.

Lemma add_slots_Ok slots gs gs' :
  foldM_res (λ gs s, add_slot s gs) gs slots = Ok gs' →
  Forall slots_only gs → NoDup (keys gs) →
  Forall slots_only gs' ∧ NoDup (keys gs') ∧ all_slots gs' ≡ₚ slots ++ all_slots gs.
Proof.
  revert gs; induction slots as [|s slots IH]; intros gs; cbn.
  { by intros [= <-]. }
  intros H Hg Hn. res_simp.
  match goal with H : add_slot _ _ = _ |- _ =>
    pose proof (keys_NoDup_add _ _ _ H Hg Hn); apply add_slot_Ok in H as (? & Hp & _); [|done] end.
  edestruct IH as (? & ? & Hp'); [done..|]. repeat split; [done..|].
  rewrite Hp', Hp. by rewrite Permutation_middle.
Qed.

(** ** Failure of the first loop *)

Definition slot_key (s : Slot) : Kind * Status := (Slot.kind s, Slot.status s).

Lemma elem_of_opt {A} (o : option A) x : x ∈ option_list o ↔ o = Some x.
Proof.
  destruct o; cbn; rewrite ?list_elem_of_singleton; [intuition congruence|].
  split; [by intros ?%elem_of_nil | done].
Qed.

Lemma coherent_slot g s :
  coherent g → s ∈ group_slots g → group_key g = Some (Slot.status s) ∧
  match Slot.kind s with Root => root g = Some s | Verity => verity g = Some s end.
Proof.
  intros (Hr & Hv & Heq & _). unfold group_slots, group_key, group_slots.
  rewrite elem_of_app, !elem_of_opt. intros [H|H].
  - rewrite (Hr s H), H. done.
  - rewrite (Hv s H). split; [|done]. destruct (root g) as [r|] eqn:Er; rewrite H; cbn; [|done].
    by rewrite (Heq r s).
Qed.

Lemma attach_slot_ok g s :
  coherent g → group_key g = Some (Slot.status s) →
  is_ok (attach_slot g s) = true ↔ slot_key s ∉ slot_key <$> group_slots g.
Proof.
  intros Hc Hk.
  assert (is_ok (attach_slot g s) = true ↔
    match Slot.kind s with Root => root g | Verity => verity g end = None) as ->.
  { unfold attach_slot. destruct (Slot.kind s); cbn; case_bool_decide; by cbn. }
  rewrite list_elem_of_fmap. split.
  - intros Hnone (s' & [= Ek _] & Hin). apply coherent_slot in Hin as [_ Hin]; [|done].
    rewrite <-Ek in Hin. destruct (Slot.kind s); congruence.
  - intros Hx. destruct (match Slot.kind s with Root => _ | _ => _ end) as [s'|] eqn:E; [|done].
    exfalso. apply Hx. exists s'.
    assert (s' ∈ group_slots g) as Hin.
    { unfold group_slots. destruct (Slot.kind s); rewrite E; set_solver. }
    split; [|done]. pose proof (coherent_slot _ _ Hc Hin) as [Hk' _].
    destruct Hc as (Hr & Hv & _). unfold slot_key.
    destruct (Slot.kind s); [rewrite (Hr s') by done | rewrite (Hv s') by done]; congruence.
Qed.

(** No slot of a later group has the key of an earlier one. *)
Lemma key_fresh gs st :
  Forall slots_only gs → st ∉ keys gs →
  ∀ s, Slot.status s = st → slot_key s ∉ slot_key <$> all_slots gs.
Proof.
  intros Hgs Hn s <- (s' & [= _ Es] & Hin)%list_elem_of_fmap.
  apply list_elem_of_bind in Hin as (g' & Hs' & Hg').
  rewrite Forall_forall in Hgs. destruct (Hgs g' Hg') as (Hc' & _ & _).
  apply coherent_slot in Hs' as [Hk' _]; [|done].
  apply Hn, elem_of_filter_map. exists g'. split; [done|]. congruence.
Qed.

(** Adding a slot fails exactly when a slot of the same kind and status is
    already there. *)
Lemma add_slot_ok s gs :
  Forall slots_only gs → NoDup (keys gs) →
  is_ok (add_slot s gs) = true ↔ slot_key s ∉ slot_key <$> all_slots gs.
Proof.
  induction gs as [|g gs IH]; cbn; intros Hg Hn.
  { unfold all_slots; cbn. unfold attach_slot. destruct (Slot.kind s); cbn; set_solver. }
  apply Forall_cons in Hg as [(Hc & Hb & [k Hk]) Hgs].
  unfold keys in Hn; cbn in Hn. rewrite Hk in Hn. apply NoDup_cons in Hn as [Hnk Hn].
  specialize (IH Hgs Hn).
  change (all_slots (g :: gs)) with (group_slots g ++ all_slots gs).
  rewrite fmap_app, not_elem_of_app. destruct (matches_slot g s) eqn:Hm.
  - apply matches_slot_key in Hm as Hks; [|done].
    transitivity (is_ok (attach_slot g s) = true); [by destruct (attach_slot g s)|].
    rewrite attach_slot_ok by done. split; [|by intros []].
    intros ?. split; [done|]. apply (key_fresh gs k); [done..|congruence].
  - transitivity (is_ok (add_slot s gs) = true); [by destruct (add_slot s gs)|].
    rewrite IH. split; [|by intros []]. intros ?; split; [|done].
    intros (s' & [= _ Es] & Hin)%list_elem_of_fmap.
    apply coherent_slot in Hin as [Hk' _]; [|done].
    apply not_true_iff_false in Hm. apply Hm, matches_slot_key; [done|]. congruence.
Qed.

(** ** Boot entries *)

Lemma status_version s s' : Slot.status s = Slot.status s' → Slot.version s = Slot.version s'.
Proof. unfold Slot.version. by intros ->. Qed.

(** Verity has the version of root, so a match is a match with root. *)
Lemma matches_boot_root g b :
  coherent g → matches_boot g b = true →
  ∃ r, root g = Some r ∧ Slot.version r = boot_version b.
Proof.
  intros (_ & _ & Heq & _). unfold matches_boot. destruct (root g) as [r|] eqn:Er; cbn; [|done].
  rewrite orb_true_iff, bool_decide_eq_true. intros [?|H]; [by exists r|].
  destruct (verity g) as [v|] eqn:Ev; cbn in H; [|done]. apply bool_decide_eq_true in H.
  exists r. split; [done|]. rewrite <-H. apply status_version. by apply Heq.
Qed.

Lemma add_boot_Ok b gs gs' :
  add_boot b gs = Ok gs' → Forall coherent gs →
  Forall coherent gs' ∧ all_slots gs' = all_slots gs ∧ keys gs' = keys gs ∧
  all_boots gs' ≡ₚ b :: all_boots gs.
Proof.
  revert gs'; induction gs as [|g gs IH]; intros gs' H Hg; cbn in H.
  { simplify_eq. repeat split; [|done..]. apply Forall_singleton.
    unfold coherent, group_slots; cbn. repeat split; naive_solver. }
  apply Forall_cons in Hg as [Hc Hgs]. destruct (matches_boot g b) eqn:Hm.
  - apply matches_boot_root in Hm as (r & Hr & Hv); [|done].
    case_bool_decide as Hb; [by destruct (boot_version b)|]. simplify_eq/=.
    apply eq_None_not_Some in Hb. unfold all_boots; cbn. rewrite Hb. repeat split; [|done..].
    constructor; [|done]. destruct Hc as (? & ? & ? & _). repeat split; try done.
    cbn. intros b' [= <-] _. by exists r.
  - res_simp. edestruct IH as (? & Hs & Hk & Hb); [done..|].
    unfold all_slots, keys, all_boots in *; cbn. rewrite Hs, Hk, Hb.
    repeat split; [by constructor|]. by rewrite Permutation_middle.
Qed.

Lemma add_boots_Ok boots gs gs' :
  foldM_res (λ gs b, add_boot b gs) gs boots = Ok gs' → Forall coherent gs →
  Forall coherent gs' ∧ all_slots gs' = all_slots gs ∧ keys gs' = keys gs ∧
  all_boots gs' ≡ₚ boots ++ all_boots gs.
Proof.
  revert gs; induction boots as [|b boots IH]; intros gs; cbn.
  { by intros [= <-]. }
  intros H Hg. res_simp.
  match goal with H : add_boot _ _ = _ |- _ => apply add_boot_Ok in H as (? & Hs & Hk & Hb); [|done] end.
  edestruct IH as (? & Hs' & Hk' & Hb'); [done..|].
  rewrite Hs', Hk', Hb', Hs, Hk, Hb. repeat split; [done|]. by rewrite Permutation_middle.
Qed.

(** A boot entry of a version not seen before is always attached. *)
Lemma add_boot_fresh b gs :
  Forall coherent gs → boot_version b ∉ boot_version <$> all_boots gs →
  is_ok (add_boot b gs) = true.
Proof.
  induction gs as [|g gs IH]; [done|]. intros [Hc Hgs]%Forall_cons Hn. cbn.
  unfold all_boots in Hn; cbn in Hn. rewrite fmap_app, not_elem_of_app in Hn.
  destruct Hn as [Hn Hns]. destruct (matches_boot g b) eqn:Hm.
  - apply matches_boot_root in Hm as (r & Hr & Hv); [|done].
    destruct (boot g) as [b'|] eqn:Hb; [|done].
    exfalso. apply Hn. cbn. apply list_elem_of_singleton.
    destruct Hc as (_ & _ & _ & Hbo). destruct (Hbo b' Hb) as (r' & Hr' & Hv').
    { unfold group_slots. by rewrite Hr. }
    congruence.
  - specialize (IH Hgs Hns). by destruct (add_boot b gs).
Qed.

Lemma add_boots_fresh boots gs :
  Forall coherent gs → NoDup (boot_version <$> boots ++ all_boots gs) →
  is_ok (foldM_res (λ gs b, add_boot b gs) gs boots) = true.
Proof.
  revert gs; induction boots as [|b boots IH]; intros gs Hg Hn; cbn in *; [done|].
  apply NoDup_cons in Hn as [Hb Hn]. rewrite fmap_app, not_elem_of_app in Hb.
  pose proof (add_boot_fresh b gs Hg (proj2 Hb)) as Hok.
  destruct (add_boot b gs) as [gs'| |] eqn:E; try done. cbn.
  apply add_boot_Ok in E as (? & _ & _ & Hp); [|done]. apply IH; [done|].
  rewrite fmap_app, Hp, <-fmap_app in *. cbn in *.
  rewrite fmap_app in *. cbn. rewrite <-Permutation_middle. constructor; [|done].
  rewrite not_elem_of_app. intuition.
Qed.

Lemma add_slots_ok slots gs :
  Forall slots_only gs → NoDup (keys gs) →
  NoDup (slot_key <$> slots ++ all_slots gs) →
  is_ok (foldM_res (λ gs s, add_slot s gs) gs slots) = true.
Proof.
  revert gs; induction slots as [|s slots IH]; intros gs Hg Hk Hn; cbn in *; [done|].
  apply NoDup_cons in Hn as [Hs Hn]. rewrite fmap_app, not_elem_of_app in Hs.
  pose proof (proj2 (add_slot_ok s gs Hg Hk) (proj2 Hs)) as Hok.
  destruct (add_slot s gs) as [gs'| |] eqn:E; try done. cbn.
  pose proof (keys_NoDup_add _ _ _ E Hg Hk).
  apply add_slot_Ok in E as (? & Hp & _); [|done]. apply IH; [done..|].
  rewrite fmap_app, Hp, <-fmap_app in *. cbn in *.
  rewrite fmap_app in *. cbn. rewrite <-Permutation_middle. constructor; [|done].
  rewrite not_elem_of_app. intuition.
Qed.

Lemma slots_only_boots gs : Forall slots_only gs → all_boots gs = [].
Proof.
  induction 1 as [|g gs (_ & Hb & _) _ IH]; [done|].
  unfold all_boots in *; cbn. by rewrite Hb, IH.
Qed.

Lemma slots_only_coherent gs : Forall slots_only gs → Forall coherent gs.
Proof. intros H. eapply Forall_impl; [exact H|]. by intros ? []. Qed.

Lemma group_volumes_sound slots boots gs :
  group_volumes slots boots = Ok gs →
  Forall coherent gs ∧ NoDup (keys gs) ∧ all_slots gs ≡ₚ slots ∧ all_boots gs ≡ₚ boots.
Proof.
  unfold group_volumes. intros H. res_simp.
  match goal with H : foldM_res _ [] _ = _ |- _ =>
    apply add_slots_Ok in H as (Hg & Hn & Hp); [|constructor..] end.
  pose proof (slots_only_coherent _ Hg).
  match goal with H : foldM_res _ _ _ = _ |- _ => apply add_boots_Ok in H as (? & Hs & Hk & Hb); [|done] end.
  rewrite Hs, Hk, Hb, Hp, slots_only_boots, !app_nil_r by done. done.
Qed.

(** ** Empty groups *)

(** An empty coherent group has no boot entry of a version. *)
Lemma empty_no_boot g :
  coherent g → is_empty g = true → ∀ b, boot g = Some b → boot_version b = None.
Proof.
  intros (_ & _ & _ & Hb) He b Eb. destruct (Hb b Eb) as (r & Er & <-).
  - unfold group_slots, is_empty in *. by destruct (root g), (verity g).
  - unfold is_empty in He. rewrite Er in He. apply andb_true_iff in He as [He _].
    unfold Slot.is_empty, Slot.version in *. by destruct (Slot.status r).
Qed.

Lemma managed_version b : is_managed b = true → is_Some (boot_version b).
Proof. unfold is_managed, boot_version, uki. by destruct (kind b). Qed.

Lemma empty_version g : is_empty g = true → is_complete g = true → version g = None.
Proof.
  unfold is_empty, is_complete, version, Slot.is_empty, Slot.version.
  destruct (root g) as [r|]; [|done]. destruct (verity g); [|done].
  intros [H _]%andb_true_iff _. by destruct (Slot.status r).
Qed.

Lemma empty_matches g b s :
  is_empty g = true → (root g = Some s ∨ verity g = Some s) → boot_matches b s = false.
Proof.
  intros He Hs. assert (Slot.is_empty s = true) as Hes.
  { unfold is_empty in He. destruct Hs as [E|E]; rewrite E in He.
    - by apply andb_true_iff in He as [? _].
    - destruct (root g); [by apply andb_true_iff in He as [_ ?] | done]. }
  unfold boot_matches, Uki.matches, Slot.version. unfold Slot.is_empty in Hes.
  destruct (kind b); [|done..]. by destruct (Slot.status s).
Qed.

Lemma validate_not_ok g : is_ok (validate g) = false.
Proof.
  destruct (validate g) as [u|e|m] eqn:E; [|done..]. exfalso. unfold validate in E. res_simp.
  match goal with H : is_empty g && _ = true |- _ => apply andb_true_iff in H as [He Hb] end.
  apply bool_decide_eq_true in Hb as [b Eb]. rewrite Eb in *. res_simp.
  pose proof (empty_matches g b) as Hm. destruct (root g) as [r|] eqn:Er.
  - res_simp. specialize (Hm r He ltac:(auto)). congruence.
  - destruct (verity g) as [v|] eqn:Ev.
    + res_simp. specialize (Hm v He ltac:(auto)). congruence.
    + unfold is_empty in He. by rewrite Er, Ev in He.
Qed.

Lemma coherent_boot_matches g b s :
  coherent g → boot g = Some b → is_managed b = true →
  root g = Some s ∨ verity g = Some s → boot_matches b s = true.
Proof.
  intros (_ & _ & Heq & Hb) Eb Hm Hs. destruct (Hb b Eb) as (r & Er & Hv).
  { unfold group_slots. destruct Hs as [->| ->]; destruct (root g), (verity g); done. }
  assert (Slot.version s = boot_version b) as Hsv.
  { destruct Hs as [E|E]; [congruence|]. rewrite <-Hv. symmetry. apply status_version. by apply Heq. }
  unfold boot_matches, Uki.matches, boot_version, uki, is_managed in *.
  destruct (kind b); [|done..]. by apply bool_decide_eq_true.
Qed.

Lemma validate_coherent g :
  coherent g → (∀ b, boot g = Some b → is_managed b = true) →
  validate g = bail "empty slot group contains UKI" ∧
  is_empty g && bool_decide (is_Some (boot g)) = false.
Proof.
  intros Hc Hm.
  assert (is_empty g && bool_decide (is_Some (boot g)) = false) as Hf.
  { apply not_true_is_false. intros [He [b Eb]%bool_decide_eq_true]%andb_true_iff.
    pose proof (empty_no_boot g Hc He b Eb) as Hn.
    destruct (managed_version b (Hm b Eb)). congruence. }
  split; [|done]. unfold validate. rewrite Hf.
  assert (∀ r v, root g = Some r → verity g = Some v → Slot.matches r v = true) as Hrv.
  { intros. apply bool_decide_eq_true. by apply Hc. }
  pose proof (coherent_boot_matches g) as Hbm.
  destruct (root g) as [r|], (verity g) as [v|], (boot g) as [b|]; cbn;
    repeat first [rewrite (Hrv r v) by done | rewrite (Hbm b r) by auto | rewrite (Hbm b v) by auto];
    done.
Qed.
End Group.

(** ** Properties *)

Module GroupProps.
Import Slot Uki Group.

(** C20: Grouping loses and invents nothing: the slots and boot entries of the
    groups are permutations of the inputs; in every group root and verity are
    of their kind and of the same status, and a boot entry that shares a group
    with slots has the version of its root slot; no two groups hold slots of
    the same status. *)
Theorem group_volumes_partition slots boots gs :
  group_volumes slots boots = Ok gs →
  slots ≡ₚ all_slots gs ∧ boots ≡ₚ all_boots gs ∧
  Forall coherent gs ∧ NoDup (keys gs).
Proof. by intros (? & ? & -> & ->)%group_volumes_sound. Qed.

(** Grouping succeeds, and does not panic, whenever no two slots have the
    same kind and status and no two boot entries have the same version. *)
Theorem group_volumes_total slots boots :
  NoDup (slot_key <$> slots) → NoDup (boot_version <$> boots) →
  ∃ gs, group_volumes slots boots = Ok gs.
Proof.
  intros Hs Hb. unfold group_volumes.
  pose proof (add_slots_ok slots [] ltac:(constructor) ltac:(constructor)) as H1.
  unfold all_slots in H1; cbn in H1. rewrite app_nil_r in H1. specialize (H1 Hs).
  destruct (foldM_res _ [] slots) as [gs| |] eqn:E; try done. cbn.
  apply add_slots_Ok in E as (Hg & _ & _); [|constructor..].
  pose proof (add_boots_fresh boots gs (slots_only_coherent _ Hg)) as H2.
  rewrite slots_only_boots, app_nil_r in H2 by done. specialize (H2 Hb).
  destruct (foldM_res _ gs boots) as [gs'| |]; try done. by exists gs'.
Qed.

(** The structural check rejects every group, so every group is classified
    as broken whatever the kernel parameters are: the last condition demands
    an empty group with a boot entry, which the earlier ones exclude. *)
Theorem classify_always_broken g kernel :
  is_ok (validate g) = false ∧ classify g kernel = Broken.
Proof. unfold classify. by rewrite validate_not_ok. Qed.

(** Every group made from slots and managed boot entries passes the
    matching checks and does not pair an empty slot with a boot entry, and yet
    is rejected with the message that it does. *)
Theorem validate_rejects_coherent slots boots gs g :
  group_volumes slots boots = Ok gs → Forall (λ b, is_managed b = true) boots → g ∈ gs →
  is_empty g && bool_decide (is_Some (boot g)) = false ∧
  validate g = bail "empty slot group contains UKI".
Proof.
  intros (Hc & _ & _ & Hb)%group_volumes_sound Hm Hg.
  apply and_comm, validate_coherent; [by rewrite Forall_forall in Hc; apply Hc|].
  intros b Eb. rewrite Forall_forall in Hm. apply Hm. rewrite <-Hb.
  apply list_elem_of_bind. exists g. split; [by rewrite Eb; left | done].
Qed.

Definition ex_vol (n : string) : Lvm.Volume := Lvm.mkVolume n "pool" None (Some 1024%Z).
Definition ex_slots : list Slot :=
  fst (from_volumes (ex_vol <$> ["root_1.0_abcd"; "verity_1.0_abcd"; "root_empty_0"; "verity_empty_0"; "swap"])).
Definition ex_uki : UkiEntry := mkUki (Version.new "1.0" (Some "abcd")) None.
Definition ex_boots : list BootEntry := [boot_of_uki ex_uki].
Definition ex_groups : list SlotGroup :=
  match group_volumes ex_slots ex_boots with Ok gs => gs | _ => [] end.

Lemma group_volumes_partition_witness :
  length ex_groups = 2 ∧ ex_slots ≡ₚ all_slots ex_groups.
Proof.
  split; [vm_compute; reflexivity|].
  apply (group_volumes_partition ex_slots ex_boots ex_groups). vm_compute. reflexivity.
Defined.

Lemma group_volumes_total_witness : ∃ gs, group_volumes ex_slots ex_boots = Ok gs.
Proof.
  apply group_volumes_total; apply (bool_decide_unpack _); vm_compute; exact I.
Defined.

Lemma validate_rejects_coherent_witness :
  Forall (λ g, validate g = bail "empty slot group contains UKI") ex_groups.
Proof.
  apply Forall_forall. intros g Hg.
  apply (validate_rejects_coherent ex_slots ex_boots ex_groups g);
    [vm_compute; reflexivity | by repeat constructor | exact Hg].
Defined.
End GroupProps.
