(* ===== verification/ImageRuntime.v ===== *)
(** * The runtime view of installed images ([image/runtime.rs])

    [Runtime] is assembled from the logical volumes, the kernel command line
    and the boot entries.  [select_update_slot] decides where an update goes:
    nowhere when its version is installed, into an empty inactive slot pair,
    or into a pair of volumes to be created. *)

From S2P Require Import Prelude RustStr RustInt RustPath.
From S2P Require Import ImagePipeline ImageSlot ImageUki ImageManifest ImageGroup.
From Stdlib Require Import Ascii.

Module Runtime.
Import Pipeline Lvm Slot Uki Group.

Record Runtime := mkRuntime {
  slotgroups : list SlotGroup;
  volumes : list Volume;
  kernel : KernelParams.KernelParams;
  boot_entries : list BootEntry;
  boot : string
}.

Inductive SlotSelection :=
| AlreadyInstalled
| Selected (slot : SlotGroup) (pre_steps : list Pipeline).

Definition is_none (s : SlotSelection) : bool :=
  match s with AlreadyInstalled => true | _ => false end.

Definition new (vols : list Volume) (cmdline : string)
    (bootctl : list Bootctl.BootctlItem) : res Runtime :=
  let '(slots, vols) := from_volumes vols in
  let entries := from_bootctl bootctl in
  let managed := keep is_managed entries in
  let unmanaged := keep (λ b, negb (is_managed b)) entries in
  groups ← group_volumes slots managed;
  k ← KernelParams.from_cmdline cmdline;
  Ok (mkRuntime groups vols k unmanaged "/boot").

Definition slots_by_class (rt : Runtime) (groups : list SlotGroup) (class : SlotClass)
    : list SlotGroup :=
  keep (λ g, bool_decide (classify g (kernel rt) = class)) groups.

Definition slot_groups (rt : Runtime) : list SlotGroup := slotgroups rt.

(** ** Locating groups *)

Definition find_exact_one_group (rt : Runtime) (predicate : SlotGroup → bool)
    (reason : string) : res (option SlotGroup) :=
  match keep predicate (slot_groups rt) with
  | [] => Ok None
  | [slot] => Ok (Some slot)
  | _ => bail ("ambiguous slot selection for " +:+ reason)
  end.

Definition find_slot_group (rt : Runtime) (version : Version.Version) : res SlotGroup :=
  let reason := "version=" +:+ Version.display false version in
  exact ← find_exact_one_group rt (λ g, bool_decide (Group.version g = Some version)) reason;
  match exact with
  | Some slot => Ok slot
  | None =>
      fallback ←
        (if Version.has_hash version then Ok None
         else find_exact_one_group rt
           (λ g, is_some_and (Group.version g) (λ v,
              bool_decide (Version.revision v = Version.revision version) && Version.has_hash v))
           (reason +:+ " (fallback by revision)"));
      match fallback with
      | Some slot => Ok slot
      | None => bail ("slot not found: " +:+ reason)
      end
  end.

Definition active_slot (rt : Runtime) : res SlotGroup :=
  found ← find_exact_one_group rt (λ g, is_active g (kernel rt)) "active slot";
  ok_or found "no active slot detected".

Definition has_empty_with_hash (rt : Runtime) (hash : string) : bool :=
  existsb (λ g, bool_decide (Group.empty_id g = Some hash)) (slot_groups rt).

Definition used_ids (rt : Runtime) : list string := filter_map Group.empty_id (slot_groups rt).

Definition allocate_empty_identifier (rt : Runtime) : res string :=
  ok_or (find_first (λ c, negb (bool_decide (c ∈ used_ids rt))) (pretty <$> seq 0 100))
    "empty identifier space exhausted".

(** ** Selecting the slot of an update *)

Definition resize_step (vol : Volume) (needed : Z) : Pipeline :=
  Pipeline.new (arg (vg_name vol +:+ "/" +:+ lv_name vol)
    (with_args ["-L"; pretty needed +:+ "b"] (arg "-f" (cmd "lvresize")))).

Definition resize_steps_for_slot (slot : SlotGroup) (m : Manifest.Manifest) : list Pipeline :=
  let pairs :=
    option_list (r ← root slot; n ← Manifest.unpacked_size (Manifest.store m); Some (r, n))
    ++ option_list (v ← verity slot; n ← Manifest.unpacked_size (Manifest.verity m); Some (v, n)) in
  let vols := (λ '(s, n), (volume s, n)) <$> pairs in
  let small := keep (λ '(vol, n), is_some_and (lv_size_bytes vol) (λ cur, (cur <? n)%Z)) vols in
  (λ '(vol, n), resize_step vol n) <$> small.

Definition lvcreate_step (size : Z) (lv vg : string) : Pipeline :=
  Pipeline.new (arg vg (with_args ["-n"; lv] (with_args ["-L"; pretty size +:+ "b"]
    (with_args ["--wipesignatures"; "y"] (arg "--yes" (cmd "lvcreate")))))).

(** One iteration of the loop of [create_empty_slot]. *)
Definition create_lv (vg empty_id : string)
    (spec : string * option Z * option Z) : res (Pipeline * Slot) :=
  let '(prefix, manifest_size, active_size) := spec in
  size ← ok_or (match manifest_size with Some s => Some s | None => active_size end)
    ("cannot determine " +:+ prefix +:+ " LV size: no unpacked_size in manifest and no active "
     +:+ prefix +:+ " size");
  let lv := prefix +:+ "_empty_" +:+ empty_id in
  let vol := mkVolume lv vg None (Some size) in
  slot ← ok_or (head (fst (from_volumes [vol]))) ("failed to parse created " +:+ prefix +:+ " slot");
  Ok (lvcreate_step size lv vg, slot).

Definition create_empty_slot (rt : Runtime) (m : Manifest.Manifest)
    : res (SlotGroup * list Pipeline) :=
  active ← active_slot rt;
  active_root ← ok_or (root active) "active slot has no root";
  active_verity ← ok_or (verity active) "active slot has no verity";
  let vg := vg_name (volume active_root) in
  empty_id ← allocate_empty_identifier rt;
  created ← mapM_res (create_lv vg empty_id)
    [("root", Manifest.unpacked_size (Manifest.store m), lv_size_bytes (volume active_root));
     ("verity", Manifest.unpacked_size (Manifest.verity m), lv_size_bytes (volume active_verity))];
  let slots := created.*2 in
  Ok (mkGroup (slots !! 0) (slots !! 1) None, created.*1).

Definition select_update_slot (rt : Runtime) (m : Manifest.Manifest) : res SlotSelection :=
  let slots := slot_groups rt in
  target ← Manifest.to_version m;
  if existsb (λ g, is_used g && is_complete g && bool_decide (Group.version g = Some target)) slots
  then Ok AlreadyInstalled
  else
    let entry := mkUki target None in
    match find_first (λ g, Group.is_empty g && negb (is_active g (kernel rt)) && is_complete g) slots with
    | Some slot =>
        let pre_steps := resize_steps_for_slot slot m in
        slot ← attach_uki slot entry;
        Ok (Selected slot pre_steps)
    | None =>
        '(slot, pre_steps) ← create_empty_slot rt m;
        slot ← attach_uki slot entry;
        Ok (Selected slot pre_steps)
    end.

(** ** Introspection *)

Definition newline : string := String "010"%char "".
Definition writeln (s : string) : string := s +:+ newline.
Definition show_bool (b : bool) : string := if b then "true" else "false".

(** [bytes as f64]: exact below 2^53, else rounded to 53 bits, ties to even. *)
Definition round_half_even (num den : Z) : Z :=
  let q := (num / den)%Z in
  let r := (num mod den)%Z in
  if (2 * r <? den)%Z then q
  else if (den <? 2 * r)%Z then (q + 1)%Z
  else if Z.even q then q else (q + 1)%Z.
Definition f64_of_u64 (z : Z) : Z :=
  let e := Z.max 0 (Z.log2 z - 52) in
  (round_half_even z (2 ^ e) * 2 ^ e)%Z.

(** [format_size]: [{:.1}] of the bytes over 2^30; the quotient is exact
    because the divisor is a power of two. *)
Definition format_size (size : option Z) : string :=
  match size with
  | None => ""
  | Some bytes =>
      let tenths := round_half_even (10 * f64_of_u64 bytes) (2 ^ 30) in
      " (" +:+ pretty (tenths / 10)%Z +:+ "." +:+ pretty (tenths mod 10)%Z +:+ "G)"
  end.

Definition inspect_volume (v : Volume) : string :=
  vg_name v +:+ "/" +:+ lv_name v +:+ format_size (lv_size_bytes v).

Definition inspect_slot (label : string) (s : option Slot) : string :=
  writeln ("  " +:+ label +:+ ": " +:+
    match s with Some s => inspect_volume (volume s) | None => "<missing>" end).

Definition inspect_group (k : KernelParams.KernelParams) (g : SlotGroup) : string :=
  writeln ("- slot: " +:+ (if is_used g then "used" else "empty")) +:+
  writeln (match Group.version g with
           | Some v =>
               "  version: " +:+ Version.revision v +:+
               match Version.hash v with Some h => " (hash=" +:+ h +:+ ")" | None => "" end
           | None =>
               match Group.empty_id g with
               | Some id => "  id: " +:+ id
               | None => "  id: <none>"
               end
           end) +:+
  writeln ("  legacy: " +:+ show_bool (is_legacy g)) +:+
  writeln ("  active: " +:+ show_bool (is_active g k)) +:+
  inspect_slot "root" (root g) +:+
  inspect_slot "verity" (verity g) +:+
  writeln ("  boot: " +:+ match Group.boot g with Some b => display_boot b | None => "<none>" end) +:+
  newline.

Definition inspect_boot (b : BootEntry) : string :=
  writeln (match kind b with
           | Managed u => "  [ERROR] managed: " +:+ Uki.display u +:+ " [id=" +:+ id b +:+ "]"
           | LegacyEntry => "  legacy: id=" +:+ id b
           | Unmanaged => "  unmanaged: id=" +:+ id b
           end).

Definition concat_str (l : list string) : string := foldr String.app "" l.

Definition inspect (rt : Runtime) : string :=
  writeln "Slot groups:" +:+
  concat_str (inspect_group (kernel rt) <$> slot_groups rt) +:+
  (if bool_decide (volumes rt = []) then ""
   else writeln "Unrecognized volumes:" +:+
        concat_str ((λ v, writeln ("- " +:+ inspect_volume v)) <$> volumes rt)) +:+
  (if bool_decide (boot_entries rt = []) then ""
   else writeln "Boot entries:" +:+ concat_str (inspect_boot <$> boot_entries rt)).

Example format_size_ex :
  format_size <$> [None; Some 1073741824; Some 1610612736; Some 53687091; Some 18446744073709551615]%Z
  = [""; " (1.0G)"; " (1.5G)"; " (0.0G)"; " (17179869184.0G)"].
Proof. vm_compute. reflexivity. Qed.

(** ** Well-formed runtimes *)

(** What [new] establishes. *)
Record rt_ok (rt : Runtime) : Prop := {
  rt_coherent : Forall coherent (slotgroups rt);
  rt_keys : NoDup (keys (slotgroups rt));
  rt_named : Forall named (all_slots (slotgroups rt));
  rt_managed : Forall (λ b, is_managed b = true) (all_boots (slotgroups rt));
  rt_kernel : KernelParams.wf (kernel rt)
}.

Lemma new_ok vols cmdline bootctl rt : new vols cmdline bootctl = Ok rt → rt_ok rt.
Proof.
  unfold new. rewrite from_volumes_eq. intros H. res_simp.
  match goal with H : group_volumes _ _ = _ |- _ =>
    apply group_volumes_sound in H as (? & ? & Hs & Hb) end.
  split; cbn; [done|done| | |by eapply KernelParams.from_cmdline_wf].
  - rewrite Hs. apply Forall_forall. intros s (v & _ & Hv)%elem_of_filter_map.
    by apply from_volume_Some in Hv as [_ ?].
  - rewrite Hb. apply Forall_forall. intros b Hin. by apply elem_of_keep in Hin as [_ ?].
Qed.

Lemma rt_group rt g :
  rt_ok rt → g ∈ slotgroups rt →
  coherent g ∧ (∀ s, s ∈ group_slots g → named s) ∧
  (∀ b, Group.boot g = Some b → is_managed b = true).
Proof.
  intros [Hc _ Hn Hm _] Hg. rewrite Forall_forall in Hc. rewrite Forall_forall in Hn.
  rewrite Forall_forall in Hm. split; [by apply Hc|]. split.
  - intros s Hs. apply Hn, list_elem_of_bind. by exists g.
  - intros b Eb. apply Hm, list_elem_of_bind. exists g. by rewrite Eb; split; [left|].
Qed.

(** An empty complete group has no boot entry. *)
Lemma rt_empty_boot rt g :
  rt_ok rt → g ∈ slotgroups rt → Group.is_empty g = true → Group.boot g = None.
Proof.
  intros Hrt Hg He. destruct (rt_group rt g Hrt Hg) as (Hc & _ & Hm).
  destruct (Group.boot g) as [b|] eqn:Eb; [|done].
  pose proof (empty_no_boot g Hc He b Eb).
  destruct (managed_version b (Hm b eq_refl)). congruence.
Qed.

(** ** Identifiers *)

Lemma allocate_Ok rt i :
  allocate_empty_identifier rt = Ok i ↔
  ∃ n, n < 100 ∧ i = pretty n ∧ (i ∉ used_ids rt) ∧ ∀ k, k < n → pretty k ∈ used_ids rt.
Proof.
  unfold allocate_empty_identifier. rewrite ok_or_Ok, find_first_Some. split.
  - intros (l1 & l2 & Hl & Hi & Hall).
    apply negb_true_iff, bool_decide_eq_false in Hi.
    assert (i = pretty (length l1) ∧ l1 = pretty <$> seq 0 (length l1) ∧ length l1 < 100)
      as (-> & Hl1 & Hlt).
    { assert (length l1 < 100) as Hlt.
      { apply (f_equal length) in Hl. rewrite length_fmap, length_seq, length_app in Hl. cbn in Hl. lia. }
      assert ((pretty <$> seq 0 100) !! length l1 = Some i) as Hi1
        by (rewrite Hl; by apply list_lookup_middle).
      rewrite list_lookup_fmap, lookup_seq_lt in Hi1 by done. cbn in Hi1. simplify_eq.
      split; [done|]. split; [|done]. apply (f_equal (take (length l1))) in Hl.
      rewrite take_app_length, <-fmap_take, take_seq, Nat.min_l in Hl by lia. by symmetry. }
    exists (length l1). repeat split; [done..|].
    intros k Hk. rewrite Forall_forall in Hall.
    assert (pretty k ∈ l1) as Hin.
    { rewrite Hl1. apply list_elem_of_fmap. exists k. split; [done|]. apply elem_of_seq. lia. }
    specialize (Hall _ Hin). by apply negb_false_iff, bool_decide_eq_true in Hall.
  - intros (n & Hn & -> & Hi & Hall).
    exists (pretty <$> seq 0 n), (pretty <$> seq (S n) (99 - n)). split; [|split].
    + rewrite <-fmap_cons, <-fmap_app. f_equal.
      change (n :: seq (S n) (99 - n)) with (seq n (S (99 - n))).
      rewrite <-seq_app. f_equal. lia.
    + by rewrite bool_decide_eq_false_2.
    + apply Forall_forall. intros x (k & -> & Hk%elem_of_seq)%list_elem_of_fmap.
      rewrite bool_decide_eq_true_2; [done|]. apply Hall. lia.
Qed.

Lemma allocate_exhausted rt :
  is_ok (allocate_empty_identifier rt) = false ↔ ∀ n, n < 100 → pretty n ∈ used_ids rt.
Proof.
  unfold allocate_empty_identifier.
  destruct (find_first _ _) as [c|] eqn:E; cbn.
  - split; [done|]. intros Hall. apply find_first_elem in E as [Hc Hn].
    apply list_elem_of_fmap in Hc as (n & -> & Hn'%elem_of_seq).
    rewrite bool_decide_eq_true_2 in Hn; [done|]. apply Hall. lia.
  - split; [|done]. intros _ n Hn. apply find_first_None in E. rewrite Forall_forall in E.
    specialize (E (pretty n)). apply negb_false_iff, bool_decide_eq_true in E; [done|].
    apply list_elem_of_fmap. exists n. split; [done|]. apply elem_of_seq. lia.
Qed.

Lemma identifier_wf i rt :
  allocate_empty_identifier rt = Ok i → has_char "_" i = false.
Proof.
  intros (n & _ & -> & _)%allocate_Ok.
  eapply all_chars_has_char; [apply pretty_N_digits | done].
Qed.
(** ** Creating a slot pair *)

Definition created_slot (k : Kind) (vg id : string) (size : Z) : Slot :=
  mkSlot k (Empty (Known id))
    (mkVolume (kind_to_string k +:+ "_empty_" +:+ id) vg None (Some size)).

Lemma create_lv_eq vg id k ms asz :
  has_char "_" id = false →
  create_lv vg id (kind_to_string k, ms, asz) =
  (size ← ok_or (match ms with Some s => Some s | None => asz end)
     ("cannot determine " +:+ kind_to_string k +:+ " LV size: no unpacked_size in manifest and no active "
      +:+ kind_to_string k +:+ " size");
   let s := created_slot k vg id size in
   Ok (lvcreate_step size (lv_name (volume s)) vg, s)).
Proof.
  intros Hid. unfold create_lv. destruct (match ms with Some s => Some s | None => asz end); [|done].
  cbn. pose proof (decode_display k (Empty (Known id)) Hid) as Hd. cbn in Hd. by rewrite Hd.
Qed.

Definition or_else {A} (o1 o2 : option A) : option A :=
  match o1 with Some a => Some a | None => o2 end.

(** What [create_empty_slot] needs and what it returns. *)
Lemma create_empty_slot_Ok rt m g pre :
  create_empty_slot rt m = Ok (g, pre) ↔
  ∃ active r v id rs vs,
    active_slot rt = Ok active ∧ root active = Some r ∧ verity active = Some v ∧
    allocate_empty_identifier rt = Ok id ∧
    or_else (Manifest.unpacked_size (Manifest.store m)) (lv_size_bytes (volume r)) = Some rs ∧
    or_else (Manifest.unpacked_size (Manifest.verity m)) (lv_size_bytes (volume v)) = Some vs ∧
    let vg := vg_name (volume r) in
    let sr := created_slot Root vg id rs in
    let sv := created_slot Verity vg id vs in
    g = mkGroup (Some sr) (Some sv) None ∧
    pre = [lvcreate_step rs (lv_name (volume sr)) vg; lvcreate_step vs (lv_name (volume sv)) vg].
Proof.
  unfold create_empty_slot, or_else. split.
  - intros (active & Ha & (r & Hr & (v & Hv & (id & Hid & H)%bind_Ok)%bind_Ok)%bind_Ok)%bind_Ok.
    apply ok_or_Ok in Hr, Hv. pose proof (identifier_wf _ _ Hid) as Hwf.
    cbn [mapM_res] in H. change "root" with (kind_to_string Root) in H.
    change "verity" with (kind_to_string Verity) in H. rewrite !create_lv_eq in H by done.
    res_simp. eexists active, r, v, id, _, _. repeat split; eauto.
  - intros (active & r & v & id & rs & vs & -> & Hr & Hv & Hid & Hrs & Hvs & -> & ->).
    pose proof (identifier_wf _ _ Hid) as Hwf. cbn [mbind res_bind].
    rewrite Hr, Hv, Hid. cbn [ok_or mbind res_bind mapM_res].
    change "root" with (kind_to_string Root).
    change "verity" with (kind_to_string Verity). rewrite !create_lv_eq by done.
    rewrite Hrs, Hvs. done.
Qed.

Lemma group_key_empty_id g id :
  group_key g = Some (Empty (Known id)) → Group.empty_id g = Some id.
Proof.
  unfold group_key, group_slots, Group.empty_id, Slot.empty_id.
  destruct (root g) as [[? st ?]|], (verity g) as [[? st' ?]|]; cbn; intros; by simplify_eq/=.
Qed.

(** A slot named like an empty one has that identifier in use. *)
Lemma created_fresh rt k vg id size s :
  rt_ok rt → id ∉ used_ids rt → has_char "_" id = false → s ∈ all_slots (slotgroups rt) →
  lv_name (volume (created_slot k vg id size)) ≠ lv_name (volume s).
Proof.
  intros Hrt Hid Hwf Hs Heq. apply Hid.
  apply list_elem_of_bind in Hs as (g & Hs & Hg).
  destruct (rt_group rt g Hrt Hg) as (Hc & Hn & _). destruct (Hn s Hs) as [Hd Hw].
  assert (decode_status (lv_name (volume s)) = Ok (k, Empty (Known id))) as H1.
  { rewrite <-Heq. by apply (decode_display k (Empty (Known id))). }
  rewrite <-Hd in H1. unfold Slot.display in H1. rewrite decode_display in H1 by done.
  simplify_eq. apply elem_of_filter_map. exists g. split; [done|].
  apply coherent_slot in Hs as [Hk _]; [|done]. apply group_key_empty_id. congruence.
Qed.

(** ** Activity *)

Lemma version_used g v s :
  coherent g → Group.version g = Some v → s ∈ group_slots g → Slot.version s = Some v.
Proof.
  intros Hc Hv Hs. pose proof (coherent_slot g s Hc Hs) as [Hk _].
  unfold group_key, group_slots, Group.version in *.
  destruct (root g) as [r|], (verity g) as [w|]; cbn in *; simplify_eq;
    rewrite <-?Hv; try (apply status_version; congruence); set_solver.
Qed.

Lemma active_used g kernel s :
  coherent g → is_active g kernel = true → s ∈ group_slots g → Slot.is_used s = true.
Proof.
  intros Hc Ha Hs. unfold is_active in Ha. destruct (Group.version g) as [v|] eqn:Ev; [|done].
  pose proof (version_used g v s Hc Ev Hs) as Hv.
  unfold Slot.version, Slot.is_used in *. by destruct (Slot.status s).
Qed.

Lemma empty_slots g s :
  Group.is_empty g = true → s ∈ group_slots g → Slot.is_empty s = true.
Proof.
  unfold Group.is_empty, group_slots. rewrite elem_of_app, !elem_of_opt.
  intros He [H|H]; rewrite H in He.
  - by apply andb_true_iff in He as [? _].
  - destruct (root g); [by apply andb_true_iff in He as [_ ?] | done].
Qed.

Lemma used_not_empty s : Slot.is_used s = negb (Slot.is_empty s).
Proof. unfold Slot.is_used, Slot.is_empty. by destruct (Slot.status s). Qed.

(** Two slots of a runtime with one volume name have one status. *)
Lemma same_name_status s t :
  named s → named t → lv_name (volume s) = lv_name (volume t) → Slot.status s = Slot.status t.
Proof.
  intros [Hs Hsw] [Ht Htw] E.
  assert (decode_status (Slot.display s) = decode_status (Slot.display t)) as Hd by congruence.
  unfold Slot.display in Hd. rewrite !decode_display in Hd by done. by simplify_eq.
Qed.

(** ** Selection *)

Lemma attach_uki_Ok g u g' :
  attach_uki g u = Ok g' ↔
  Group.boot g = None ∧ g' = mkGroup (root g) (verity g) (Some (boot_of_uki u)).
Proof.
  unfold attach_uki. case_bool_decide; cbn; [|by intuition].
  split; [by intros [= <-] | by intros [_ ->]].
Qed.

Definition candidate (rt : Runtime) (g : SlotGroup) : bool :=
  Group.is_empty g && negb (is_active g (kernel rt)) && is_complete g.

Definition installed (rt : Runtime) (target : Version.Version) : Prop :=
  ∃ g, g ∈ slotgroups rt ∧ is_complete g = true ∧ Group.version g = Some target.

Lemma installed_spec rt target :
  existsb (λ g, is_used g && is_complete g && bool_decide (Group.version g = Some target))
    (slot_groups rt) = true ↔ installed rt target.
Proof.
  rewrite existsb_true. unfold installed.
  split; intros (g & Hg & H); exists g; (split; [done|]).
  - apply andb_true_iff in H as [[_ ?]%andb_true_iff ?%bool_decide_eq_true]. done.
  - destruct H as [Hc Hv]. rewrite Hc, bool_decide_eq_true_2, !andb_true_r by done.
    unfold is_complete in Hc. apply andb_true_iff in Hc as [[r Hr]%bool_decide_eq_true _].
    unfold Group.version in Hv. rewrite Hr in Hv. unfold is_used. rewrite Hr. cbn.
    unfold Slot.version, Slot.is_empty in *. by destruct (Slot.status r).
Qed.

(** The three outcomes of a selection on a well-formed runtime. *)
Lemma select_shape rt m target :
  rt_ok rt → Manifest.to_version m = Ok target →
  (installed rt target ∧ select_update_slot rt m = Ok AlreadyInstalled) ∨
  (¬ installed rt target ∧ select_update_slot rt m =
     match find_first (candidate rt) (slotgroups rt) with
     | Some g =>
         Ok (Selected (mkGroup (root g) (verity g) (Some (boot_of_uki (mkUki target None))))
               (resize_steps_for_slot g m))
     | None =>
         '(g, pre) ← create_empty_slot rt m;
         Ok (Selected (mkGroup (root g) (verity g) (Some (boot_of_uki (mkUki target None)))) pre)
     end).
Proof.
  intros Hrt Ht. unfold select_update_slot. rewrite Ht. cbn [mbind res_bind].
  destruct (existsb _ _) eqn:Ei.
  { left. by apply installed_spec in Ei. }
  right. split; [rewrite <-installed_spec; congruence|].
  change (find_first (λ g, Group.is_empty g && negb (is_active g (kernel rt)) && is_complete g) (slot_groups rt))
    with (find_first (candidate rt) (slotgroups rt)).
  destruct (find_first _ _) as [g|] eqn:Ef.
  - apply find_first_elem in Ef as [Hg Hc].
    apply andb_true_iff in Hc as [[He _]%andb_true_iff _].
    by rewrite (proj2 (attach_uki_Ok _ _ _) (conj (rt_empty_boot rt g Hrt Hg He) eq_refl)).
  - destruct (create_empty_slot rt m) as [[g pre]| |] eqn:Ec; [|done..]. cbn.
    apply create_empty_slot_Ok in Ec as (?&?&?&?&?&?&_&_&_&_&_&_&->&_). done.
Qed.

Lemma select_cases rt m target :
  rt_ok rt → Manifest.to_version m = Ok target →
  (installed rt target ∧ select_update_slot rt m = Ok AlreadyInstalled) ∨
  (¬ installed rt target ∧ ∃ g, g ∈ slotgroups rt ∧ candidate rt g = true ∧
     select_update_slot rt m =
       Ok (Selected (mkGroup (root g) (verity g) (Some (boot_of_uki (mkUki target None))))
             (resize_steps_for_slot g m))) ∨
  (¬ installed rt target ∧ Forall (λ g, candidate rt g = false) (slotgroups rt) ∧
     select_update_slot rt m =
       ('(g, pre) ← create_empty_slot rt m;
        Ok (Selected (mkGroup (root g) (verity g) (Some (boot_of_uki (mkUki target None)))) pre))).
Proof.
  intros Hrt Ht. destruct (select_shape rt m target Hrt Ht) as [?|[Hn ->]]; [by left|right].
  destruct (find_first _ _) as [g|] eqn:Ef; [left|right].
  - apply find_first_elem in Ef as [Hg Hc]. eauto.
  - by apply find_first_None in Ef.
Qed.

Lemma candidate_spec rt g :
  candidate rt g = true →
  Group.is_empty g = true ∧ is_active g (kernel rt) = false ∧ is_complete g = true.
Proof.
  unfold candidate. rewrite !andb_true_iff, negb_true_iff. by intros [[? ?] ?].
Qed.

(** The pair a selection names, and that no image lies there. *)
Lemma select_disjoint rt m target slot pre :
  rt_ok rt → Manifest.to_version m = Ok target → select_update_slot rt m = Ok (Selected slot pre) →
  is_complete slot = true ∧ Group.is_empty slot = true ∧
  Group.boot slot = Some (boot_of_uki (mkUki target None)) ∧
  ∀ s t, s ∈ all_slots (slotgroups rt) → Slot.is_used s = true → t ∈ group_slots slot →
    lv_name (volume t) ≠ lv_name (volume s).
Proof.
  intros Hrt Ht Hs.
  destruct (select_cases rt m target Hrt Ht) as [[_ E]|[(_ & g & Hg & Hc & E)|(_ & _ & E)]];
    rewrite Hs in E; [done|..].
  - simplify_eq. apply candidate_spec in Hc as (He & _ & Hc). repeat split; [done..|].
    intros s t Hin Hu Ht' Heq. rewrite used_not_empty in Hu.
    apply (empty_slots g t He) in Ht' as Hte.
    destruct (rt_group rt g Hrt Hg) as (_ & Hn & _).
    pose proof (rt_named rt Hrt) as Hns. rewrite Forall_forall in Hns.
    pose proof (same_name_status t s (Hn t Ht') (Hns s Hin) Heq) as Hst.
    unfold Slot.is_empty in *. rewrite Hst in Hte. by rewrite Hte in Hu.
  - symmetry in E. res_simp.
    match goal with x : SlotGroup * _ |- _ => destruct x as [g pre'] end. simplify_eq.
    match goal with H : create_empty_slot _ _ = _ |- _ =>
      apply create_empty_slot_Ok in H as (a&r&v&id&rs&vs&_&_&_&Hid&_&_&->&_) end.
    repeat split; [done..|]. cbn. intros s t Hin _ Ht'.
    pose proof (identifier_wf _ _ Hid). apply allocate_Ok in Hid as (n & _ & _ & Hid & _).
    apply elem_of_cons in Ht' as [->|Ht']; [by apply created_fresh with rt|].
    apply list_elem_of_singleton in Ht' as ->. by apply created_fresh with rt.
Qed.
(** ** Selection in terms of the volumes *)

Definition pair_in_use (rt : Runtime) (target : Version.Version) : Prop :=
  ∃ g r v, g ∈ slotgroups rt ∧ root g = Some r ∧ verity g = Some v ∧
    Slot.status r = Used target ∧ Slot.status v = Used target.
Definition free_pair (g : SlotGroup) (r v : Slot) : Prop :=
  root g = Some r ∧ verity g = Some v ∧
  (∃ i, Slot.status r = Empty i) ∧ (∃ j, Slot.status v = Empty j).
Definition command_line (program : string) (args : list string) : Pipeline :=
  mkPipeline [mkCommandSpec program args].
Definition grow (s : Slot) (needed : option Z) : list Pipeline :=
  match lv_size_bytes (volume s), needed with
  | Some cur, Some n =>
      if (cur <? n)%Z then
        [command_line "lvresize" ["-f"; "-L"; pretty n +:+ "b"; vg_name (volume s) +:+ "/" +:+ lv_name (volume s)]]
      else []
  | _, _ => []
  end.
Definition new_size (f : Manifest.File) (s : Slot) (n : Z) : Prop :=
  Manifest.unpacked_size f = Some n ∨
  Manifest.unpacked_size f = None ∧ lv_size_bytes (volume s) = Some n.

Lemma installed_pair rt target : rt_ok rt → installed rt target ↔ pair_in_use rt target.
Proof.
  assert (∀ s v, Slot.version s = Some v → Slot.status s = Used v) as Hu.
  { intros s v. unfold Slot.version. destruct (Slot.status s); naive_solver. }
  intros Hrt. unfold installed, pair_in_use, is_complete. split.
  - intros (g & Hg & [[r Hr]%bool_decide_eq_true [v Hv]%bool_decide_eq_true]%andb_true_iff & Hver).
    destruct (rt_group rt g Hrt Hg) as (Hc & _ & _). exists g, r, v.
    split_and!; [done..| |]; apply Hu, (version_used g); try done;
      unfold group_slots; rewrite Hr, Hv; set_solver.
  - intros (g & r & v & Hg & Hr & Hv & Hs & _). exists g. rewrite Hr, Hv. split_and!; [done..|].
    unfold Group.version, Slot.version. by rewrite Hr, Hs.
Qed.

Lemma candidate_pair rt g : candidate rt g = true ↔ ∃ r v, free_pair g r v.
Proof.
  assert (∀ s, Slot.is_empty s = true ↔ ∃ i, Slot.status s = Empty i) as He.
  { intros s. unfold Slot.is_empty. destruct (Slot.status s); naive_solver. }
  unfold candidate, free_pair, is_complete, Group.is_empty.
  rewrite !andb_true_iff, negb_true_iff, !bool_decide_eq_true. split.
  - intros [[H1 _] [[r Hr] [v Hv]]]. rewrite Hr, Hv, andb_true_iff, !He in H1. exists r, v. tauto.
  - intros (r & v & Hr & Hv & Er & Ev). rewrite Hr, Hv, andb_true_iff, !He. split; [split; [done|]|by eauto].
    destruct Er as [i Er]. unfold is_active, Group.version, Slot.version. by rewrite Hr, Er.
Qed.

Lemma resize_grow g r v m :
  free_pair g r v →
  resize_steps_for_slot g m =
  grow r (Manifest.unpacked_size (Manifest.store m)) ++ grow v (Manifest.unpacked_size (Manifest.verity m)).
Proof.
  intros (Hr & Hv & _). unfold resize_steps_for_slot, grow. rewrite Hr, Hv.
  destruct (Manifest.unpacked_size (Manifest.store m)), (Manifest.unpacked_size (Manifest.verity m)); cbn;
    destruct (lv_size_bytes (volume r)), (lv_size_bytes (volume v)); cbn; try done;
    repeat match goal with |- context [(?a <? ?b)%Z] => destruct (a <? b)%Z end; done.
Qed.

Lemma first_pair rt m target sel :
  (∃ g, find_first (candidate rt) (slotgroups rt) = Some g ∧
     sel = Selected (mkGroup (root g) (verity g) (Some (boot_of_uki (mkUki target None))))
             (resize_steps_for_slot g m)) ↔
  ∃ l1 g l2 r v,
     slotgroups rt = l1 ++ g :: l2 ∧ free_pair g r v ∧ (∀ h r' v', h ∈ l1 → ¬ free_pair h r' v') ∧
     sel = Selected (mkGroup (Some r) (Some v) (Some (boot_of_uki (mkUki target None))))
             (grow r (Manifest.unpacked_size (Manifest.store m)) ++
              grow v (Manifest.unpacked_size (Manifest.verity m))).
Proof.
  setoid_rewrite find_first_Some. setoid_rewrite Forall_forall.
  assert (∀ l1 : list SlotGroup, (∀ h, h ∈ l1 → candidate rt h = false) ↔ ∀ h r' v', h ∈ l1 → ¬ free_pair h r' v') as Hno.
  { intros l1. setoid_rewrite <-not_true_iff_false. setoid_rewrite candidate_pair. naive_solver. }
  setoid_rewrite Hno. setoid_rewrite candidate_pair. split.
  - intros (g & (l1 & l2 & Hg & (r & v & Hp) & Hf) & ->). exists l1, g, l2, r, v.
    rewrite (resize_grow g r v m Hp). pose proof Hp as (-> & -> & _). done.
  - intros (l1 & g & l2 & r & v & Hg & Hp & Hf & ->). exists g.
    rewrite (resize_grow g r v m Hp). pose proof Hp as (-> & -> & _). naive_solver.
Qed.

Lemma no_pair rt :
  find_first (candidate rt) (slotgroups rt) = None ↔ ∀ h r v, h ∈ slotgroups rt → ¬ free_pair h r v.
Proof.
  rewrite find_first_None, Forall_forall. setoid_rewrite <-not_true_iff_false.
  setoid_rewrite candidate_pair. naive_solver.
Qed.

Lemma created_pair rt m target sel :
  ('(g, pre) ← create_empty_slot rt m;
   Ok (Selected (mkGroup (root g) (verity g) (Some (boot_of_uki (mkUki target None)))) pre)) = Ok sel ↔
  ∃ active r v n rs vs,
     active_slot rt = Ok active ∧ root active = Some r ∧ verity active = Some v ∧
     n < 100 ∧ (pretty n ∉ used_ids rt) ∧ (∀ k, k < n → pretty k ∈ used_ids rt) ∧
     new_size (Manifest.store m) r rs ∧ new_size (Manifest.verity m) v vs ∧
     let vg := vg_name (volume r) in
     let rn := "root_empty_" +:+ pretty n in
     let vn := "verity_empty_" +:+ pretty n in
     sel = Selected
       (mkGroup (Some (mkSlot Root (Empty (Known (pretty n))) (mkVolume rn vg None (Some rs))))
                (Some (mkSlot Verity (Empty (Known (pretty n))) (mkVolume vn vg None (Some vs))))
                (Some (boot_of_uki (mkUki target None))))
       [command_line "lvcreate" ["--yes"; "--wipesignatures"; "y"; "-L"; pretty rs +:+ "b"; "-n"; rn; vg];
        command_line "lvcreate" ["--yes"; "--wipesignatures"; "y"; "-L"; pretty vs +:+ "b"; "-n"; vn; vg]].
Proof.
  assert (∀ f s n, or_else (Manifest.unpacked_size f) (lv_size_bytes (volume s)) = Some n ↔ new_size f s n) as Hsz.
  { intros f s n. unfold or_else, new_size. destruct (Manifest.unpacked_size f); naive_solver. }
  split.
  - intros ([g pre] & Hc & [= <-])%bind_Ok.
    apply create_empty_slot_Ok in Hc as (a & r & v & id & rs & vs & Ha & Hr & Hv & Hid & Hrs & Hvs & -> & ->).
    apply allocate_Ok in Hid as (n & Hn & -> & Hu & Hl). rewrite Hsz in Hrs, Hvs.
    by exists a, r, v, n, rs, vs.
  - intros (a & r & v & n & rs & vs & Ha & Hr & Hv & Hn & Hu & Hl & Hrs & Hvs & ->).
    apply bind_Ok. eexists (_, _). split.
    + apply create_empty_slot_Ok. exists a, r, v, (pretty n), rs, vs.
      rewrite !Hsz, allocate_Ok. split_and!; first [done | by exists n | reflexivity].
    + done.
Qed.
End Runtime.

(** ** Properties *)

Module RuntimeProps.
Import Lvm Slot Uki Group Runtime.

(** The kernel command line is read safely: an accepted store hash has 64
    hexadecimal digits, so slicing off its first sixteen bytes cannot panic,
    and the version of the running system is the revision with exactly that
    fragment. *)
Theorem cmdline_hash_safe cmdline k h :
  KernelParams.from_cmdline cmdline = Ok k → KernelParams.store_hash k = Some h →
  slice_to 16 h = Ok (take_bytes 16 h) ∧
  String.length (take_bytes 16 h) = 16 ∧ all_chars is_ascii_hexdigit (take_bytes 16 h) = true ∧
  ∀ r, KernelParams.revision k = Some r →
    KernelParams.to_version k = Some (Version.new r (Some (take_bytes 16 h))).
Proof.
  intros Hk%KernelParams.from_cmdline_wf Hh.
  assert (KernelParams.verity_hash_fragment k = Some (take_bytes 16 h)) as Hf.
  { unfold KernelParams.verity_hash_fragment. by rewrite Hh. }
  split; [by eapply KernelParams.fragment_in_range|].
  destruct (KernelParams.fragment_hex k _ Hk Hf). repeat split; [done..|].
  intros r Hr. unfold KernelParams.to_version. by rewrite Hr, Hf.
Qed.

(** An update is reported as already installed exactly when some complete
    slot pair carries the manifest's version. *)
Theorem already_installed_iff vols cmdline bootctl rt m target :
  Runtime.new vols cmdline bootctl = Ok rt → Manifest.to_version m = Ok target →
  select_update_slot rt m = Ok AlreadyInstalled ↔ installed rt target.
Proof.
  intros Hrt%new_ok Ht.
  destruct (select_cases rt m target Hrt Ht) as [[Hi ->]|[(Hn & g & _ & _ & ->)|(Hn & _ & ->)]].
  - done.
  - by split.
  - split; [|done]. by destruct (create_empty_slot rt m) as [[]| |].
Qed.

(** A selected slot pair is complete, empty, carries the new boot entry,
    and none of its volumes has the name of a volume holding an installed
    image; in particular it is disjoint from the running system's volumes. *)
Theorem selected_slot_safe vols cmdline bootctl rt m target slot pre :
  Runtime.new vols cmdline bootctl = Ok rt → Manifest.to_version m = Ok target →
  select_update_slot rt m = Ok (Selected slot pre) →
  is_complete slot = true ∧ Group.is_empty slot = true ∧
  Group.boot slot = Some (boot_of_uki (mkUki target None)) ∧
  (∀ s t, s ∈ all_slots (slotgroups rt) → Slot.is_used s = true → t ∈ group_slots slot →
     lv_name (volume t) ≠ lv_name (volume s)) ∧
  (∀ g s t, g ∈ slotgroups rt → is_active g (kernel rt) = true → s ∈ group_slots g →
     t ∈ group_slots slot → lv_name (volume t) ≠ lv_name (volume s)).
Proof.
  intros Hrt%new_ok Ht Hs.
  destruct (select_disjoint rt m target slot pre Hrt Ht Hs) as (? & ? & ? & Hdis).
  repeat split; [done..|]. intros g s t Hg Ha Hsg. apply Hdis.
  - apply list_elem_of_bind. by exists g.
  - eapply active_used; [|done..]. by destruct (rt_group rt g Hrt Hg).
Qed.

(** C24: Which slot an update gets, completely.  The version is reported as
    installed exactly when a pair of volumes has it.  Otherwise the first pair
    of empty volumes is taken, each volume grown first if the manifest gives an
    unpacked size larger than its known size.  If there is none, a pair is
    created in the volume group of the running system's root volume, under the
    smallest identifier below 100 that is free, each volume of the unpacked size
    that the manifest gives or, if it gives none, of the size of the running
    system's volume.  Selection succeeds in these cases - so with the sizes from
    either source - and in no other. *)
Theorem select_total vols cmdline bootctl rt m target sel :
  Runtime.new vols cmdline bootctl = Ok rt → Manifest.to_version m = Ok target →
  select_update_slot rt m = Ok sel ↔
  (pair_in_use rt target ∧ sel = AlreadyInstalled) ∨
  (¬ pair_in_use rt target ∧ ∃ l1 g l2 r v,
     slotgroups rt = l1 ++ g :: l2 ∧ free_pair g r v ∧ (∀ h r' v', h ∈ l1 → ¬ free_pair h r' v') ∧
     sel = Selected (mkGroup (Some r) (Some v) (Some (boot_of_uki (mkUki target None))))
             (grow r (Manifest.unpacked_size (Manifest.store m)) ++
              grow v (Manifest.unpacked_size (Manifest.verity m)))) ∨
  (¬ pair_in_use rt target ∧ (∀ h r' v', h ∈ slotgroups rt → ¬ free_pair h r' v') ∧
   ∃ active r v n rs vs,
     active_slot rt = Ok active ∧ root active = Some r ∧ verity active = Some v ∧
     n < 100 ∧ (pretty n ∉ used_ids rt) ∧ (∀ k, k < n → pretty k ∈ used_ids rt) ∧
     new_size (Manifest.store m) r rs ∧ new_size (Manifest.verity m) v vs ∧
     let vg := vg_name (volume r) in
     let rn := "root_empty_" +:+ pretty n in
     let vn := "verity_empty_" +:+ pretty n in
     sel = Selected
       (mkGroup (Some (mkSlot Root (Empty (Known (pretty n))) (mkVolume rn vg None (Some rs))))
                (Some (mkSlot Verity (Empty (Known (pretty n))) (mkVolume vn vg None (Some vs))))
                (Some (boot_of_uki (mkUki target None))))
       [command_line "lvcreate" ["--yes"; "--wipesignatures"; "y"; "-L"; pretty rs +:+ "b"; "-n"; rn; vg];
        command_line "lvcreate" ["--yes"; "--wipesignatures"; "y"; "-L"; pretty vs +:+ "b"; "-n"; vn; vg]]).
Proof.
  intros Hrt%new_ok Ht. rewrite <-(first_pair rt m target sel), <-(created_pair rt m target sel), <-no_pair.
  rewrite <-!(installed_pair rt target Hrt).
  destruct (select_shape rt m target Hrt Ht) as [[Hi ->]|[Hn ->]]; [naive_solver|].
  destruct (find_first _ _); naive_solver.
Qed.

(** The identifier given to a new empty slot is the smallest decimal below
    100 that no group uses; allocation fails exactly when all hundred are
    taken. *)
Theorem identifier_least rt :
  (∀ i, allocate_empty_identifier rt = Ok i ↔
     ∃ n, n < 100 ∧ i = pretty n ∧ (i ∉ used_ids rt) ∧ ∀ k, k < n → pretty k ∈ used_ids rt) ∧
  (is_ok (allocate_empty_identifier rt) = false ↔ ∀ n, n < 100 → pretty n ∈ used_ids rt).
Proof. split; [apply allocate_Ok | apply allocate_exhausted]. Qed.

(** A concrete system: version 1.0 running, one empty pair, a manifest for
    version 2.0. *)
Definition ex_hash : string := "0123456789abcdef0123456789abcdef0123456789abcdef0123456789abcdef".
Definition ex_cmdline : string :=
  "init=/init ghaf.revision=1.0 ghaf.storehash=" +:+ ex_hash +:+ " quiet".
Definition ex_volume (n : string) : Volume := mkVolume n "pool" None (Some 1024%Z).
Definition ex_volumes : list Volume :=
  ex_volume <$> ["root_1.0_0123456789abcdef"; "verity_1.0_0123456789abcdef";
                 "root_empty_0"; "verity_empty_0"; "swap"].
Definition ex_item (type id : string) : Bootctl.BootctlItem :=
  Bootctl.mkItem type "" id "" "" "" "" "nixos" "" None "" None None None false false false None "".
Definition ex_bootctl : list Bootctl.BootctlItem :=
  [ex_item "type2" "ghaf-1.0-0123456789abcdef.efi"; ex_item "type1" "nixos.conf"].
Definition ex_file (n : string) : Manifest.File := Manifest.mkFile n "" (Some 2048%Z).
Definition ex_manifest (version : string) : Manifest.Manifest :=
  Manifest.mkManifest ∅ 1 None version ex_hash
    (ex_file "kernel.efi") (ex_file "root.zst") (ex_file "verity.zst").
Definition ex_target (version : string) : Version.Version :=
  Version.new version (Some "0123456789abcdef").
Definition ex_rt : Runtime :=
  match Runtime.new ex_volumes ex_cmdline ex_bootctl with
  | Ok rt => rt
  | _ => mkRuntime [] [] (KernelParams.mkKernelParams None None) [] ""
  end.
Definition ex_selected : SlotGroup :=
  match select_update_slot ex_rt (ex_manifest "2.0") with
  | Ok (Selected s _) => s
  | _ => default_group
  end.

Lemma ex_rt_new : Runtime.new ex_volumes ex_cmdline ex_bootctl = Ok ex_rt.
Proof. vm_compute. reflexivity. Qed.

Lemma cmdline_hash_safe_witness : slice_to 16 ex_hash = Ok "0123456789abcdef".
Proof.
  apply (cmdline_hash_safe ex_cmdline
    (KernelParams.mkKernelParams (Some ex_hash) (Some "1.0")) ex_hash);
    vm_compute; reflexivity.
Defined.

Lemma already_installed_iff_witness : installed ex_rt (ex_target "1.0").
Proof.
  apply (already_installed_iff ex_volumes ex_cmdline ex_bootctl ex_rt (ex_manifest "1.0"));
    [exact ex_rt_new | vm_compute; reflexivity | vm_compute; reflexivity].
Defined.

Lemma selected_slot_safe_witness :
  is_complete ex_selected = true ∧ Group.is_empty ex_selected = true.
Proof.
  destruct (selected_slot_safe ex_volumes ex_cmdline ex_bootctl ex_rt (ex_manifest "2.0")
    (ex_target "2.0") ex_selected (resize_steps_for_slot ex_selected (ex_manifest "2.0")))
    as (? & ? & _);
    [exact ex_rt_new | vm_compute; reflexivity | vm_compute; reflexivity | by split].
Defined.

(** Without an empty pair, and with a running pair whose sizes are unknown, the
    manifest's sizes serve. *)
Definition ex_small : list Volume :=
  (λ n, mkVolume n "pool" None None) <$> ["root_1.0_0123456789abcdef"; "verity_1.0_0123456789abcdef"].
Definition ex_rt_small : Runtime :=
  match Runtime.new ex_small ex_cmdline ex_bootctl with Ok rt => rt | _ => ex_rt end.

Lemma select_total_witness :
  ∃ g pre, select_update_slot ex_rt_small (ex_manifest "2.0") = Ok (Selected g pre).
Proof.
  do 2 eexists.
  apply (select_total ex_small ex_cmdline ex_bootctl ex_rt_small _ (ex_target "2.0"));
    [vm_compute; reflexivity | vm_compute; reflexivity |].
  right. right. split_and!.
  - intros (g & r & v & Hg & Hr & _ & Hs & _). vm_compute in Hg.
    apply list_elem_of_singleton in Hg as ->. injection Hr as <-. discriminate Hs.
  - intros h r v Hh (Hr & _ & [i Hi] & _). vm_compute in Hh.
    apply list_elem_of_singleton in Hh as ->. injection Hr as <-. discriminate Hi.
  - do 3 eexists. exists 0. do 2 eexists. split_and!; [vm_compute; reflexivity | vm_compute; reflexivity
      | vm_compute; reflexivity | lia | vm_compute; by intros ?%elem_of_nil | lia | left; reflexivity
      | left; reflexivity | reflexivity].
Defined.
End RuntimeProps.
