(* ===== verification/ImagePlan.v ===== *)
(** * Update plans and their execution ([image/plan.rs], [image/executor.rs],
    [image/install.rs])

    A plan is the list of pipelines to run.  [install] and [remove] build it
    from the runtime; an executor runs it, stopping at the first failure.  The
    class [LvmExecutor] states what the LVM tools promise about volume names;
    against it, a plan that ran to the end leaves the update installed. *)

From S2P Require Import Prelude RustStr RustInt RustPath ImagePipeline.
From S2P Require Import ImageSlot ImageUki ImageManifest ImageGroup ImageRuntime.
From Stdlib Require Import Ascii.

Module Plan.
Import Pipeline Lvm Slot Uki Group Runtime.

Record Plan := mkPlan { steps : list Pipeline }.

Definition install_volume (vol : Volume) (file : Manifest.File) (source : string) : Pipeline :=
  let target := device_file_string vol in
  let input := Manifest.full_name file source in
  if Manifest.is_compressed file then
    pipe (arg "status=progress" (arg "bs=4M" (arg ("of=" +:+ target) (cmd "dd"))))
      (Pipeline.new (arg input (cmd "zstdcat")))
  else
    Pipeline.new (arg "status=progress" (arg "bs=4M" (arg ("of=" +:+ target)
      (arg ("if=" +:+ input) (cmd "dd"))))).

Definition finalize_flush (vol : Volume) : Pipeline :=
  Pipeline.new (arg (device_file vol) (arg "--flushbufs" (cmd "blockdev"))).

Definition install_uki (slot : SlotGroup) (file : Manifest.File) (boot source : string)
    : res Pipeline :=
  name ← ok_or (b ← Group.boot slot; u ← uki b; Some (Uki.display u))
    "cannot determine UKI name for slot";
  Ok (Pipeline.new (arg (boot +:+ "/EFI/Linux/" +:+ name)
    (arg (Manifest.full_name file source) (arg "0644" (arg "-m" (cmd "install")))))).

Definition legacy_bootloader_migration (rt : Runtime) : list Pipeline :=
  [Pipeline.new (arg (boot rt +:+ "/loader/loader.conf")
     (arg "s/^default .*/default @saved/" (arg "-i" (cmd "sed"))));
   Pipeline.new (arg (boot rt +:+ "/loader/entries.srel") (arg "-f" (cmd "rm")));
   Pipeline.new (arg "auto" (arg "set-default" (cmd "bootctl")))].

Definition install_into_slot (rt : Runtime) (m : Manifest.Manifest) (slot : SlotGroup)
    (source : string) : res Plan :=
  r ← ok_or (root slot) "slot has no root volume";
  v ← ok_or (verity slot) "slot has no verity volume";
  let writes :=
    [install_volume (volume r) (Manifest.store m) source;
     install_volume (volume v) (Manifest.verity m) source;
     finalize_flush (volume r); finalize_flush (volume v)] in
  t ← Manifest.to_version m;
  r' ← into_version t r;
  t ← Manifest.to_version m;
  v' ← into_version t v;
  u ← install_uki slot (Manifest.kernel m) (boot rt) source;
  active ← active_slot rt;
  Ok (mkPlan (writes ++ [rename r'; rename v'; u] ++
    (if is_legacy active then legacy_bootloader_migration rt else []))).

Definition install (rt : Runtime) (m : Manifest.Manifest) (source : string) : res Plan :=
  selection ← select_update_slot rt m;
  match selection with
  | AlreadyInstalled => Ok (mkPlan [])
  | Selected slot pre_steps =>
      plan ← install_into_slot rt m slot source;
      Ok (mkPlan (pre_steps ++ steps plan))
  end.

Definition rename_slot_to_empty (slot : SlotGroup) (empty_id : string) : list Pipeline :=
  let step prefix s :=
    Pipeline.new (arg (prefix +:+ "_empty_" +:+ empty_id)
      (arg (lv_name (volume s)) (arg (vg_name (volume s)) (cmd "lvrename")))) in
  option_list (step "root" <$> root slot) ++ option_list (step "verity" <$> verity slot).

Definition remove (rt : Runtime) (version : Version.Version) : res Plan :=
  slot ← find_slot_group rt version;
  if is_active slot (kernel rt) then bail "cannot remove active slot"
  else
    empty_id ←
      match Group.empty_id slot with
      | Some h =>
          if negb (has_empty_with_hash rt h) then Ok h else allocate_empty_identifier rt
      | None => allocate_empty_identifier rt
      end;
    Ok (mkPlan (
      option_list (to_remove <$> Group.boot slot) ++
      (if is_legacy slot then to_remove <$> keep Uki.is_legacy (boot_entries rt) else []) ++
      rename_slot_to_empty slot empty_id)).

(** ** Executors *)

(** [trait Executor]: running a pipeline acts on the outside world [W]. *)
Class Executor (W : Type) := run_pipeline : Pipeline → W → res unit * W.

(** [Executor::run_plan] *)
Fixpoint run_steps `{Executor W} (l : list Pipeline) (w : W) : res unit * W :=
  match l with
  | [] => (Ok tt, w)
  | p :: l =>
      match run_pipeline p w with
      | (Ok _, w) => run_steps l w
      | failed => failed
      end
  end.
Definition run_plan `{Executor W} (p : Plan) (w : W) : res unit * W := run_steps (steps p) w.

(** [DryRunExecutor]: the world is what is printed. *)
Definition dry_run_executor (escape : string → string) : Executor (list string) :=
  λ p out, (Ok tt, out ++ ["DRY-RUN: " +:+ format_shell escape p]).

(** [ShellExecutor]: [sh] spawns [shell -c cmdline] and waits; the exit code
    is [None] when a signal killed it. *)
Definition shell_executor {W} (escape : string → string)
    (sh : string → string → W → res (option Z) * W) (shell : string) : Executor W :=
  λ p w,
    let cmdline := format_shell escape p in
    match sh shell cmdline w with
    | (Ok code, w') =>
        (if bool_decide (code = Some 0%Z) then Ok tt
         else bail ("pipeline failed (exit=" +:+ pretty (default (-1)%Z code) +:+ "): " +:+ cmdline),
         w')
    | (Err e, w') => (Err e, w')
    | (Panic s, w') => (Panic s, w')
    end.

(** [execute_plan]: [locked] runs its argument under the update lock. *)
Definition execute_plan {W} (plan : Plan) (dry_run : bool)
    (locked : (W → res unit * W) → W → res unit * W)
    (dry shell : Executor W) (w : W) : res unit * W :=
  if bool_decide (steps plan = []) then (Ok tt, w)
  else locked (run_plan (H := if dry_run then dry else shell) plan) w.

Section run_lemmas.
Context `{Executor W}.

Lemma run_steps_app l1 l2 w :
  run_steps (l1 ++ l2) w =
  match run_steps l1 w with
  | (Ok _, w') => run_steps l2 w'
  | failed => failed
  end.
Proof.
  revert w; induction l1 as [|p l1 IH]; intros w; cbn; [done|].
  destruct (run_pipeline p w) as [[]]; [apply IH|done..].
Qed.

(** A property of the world kept by every step is kept by the run. *)
Lemma run_steps_inv (P : W → Prop) l :
  (∀ p w w', p ∈ l → P w → run_pipeline p w = (Ok tt, w') → P w') →
  ∀ w w', P w → run_steps l w = (Ok tt, w') → P w'.
Proof.
  induction l as [|p l IH]; intros Hp w w' Hw; cbn; [by intros [= <-]|].
  destruct (run_pipeline p w) as [[[]| |] w1] eqn:E; [|done..].
  apply IH; [|by apply (Hp p w w1); [left|..]]. intros q w2 w3 Hq. apply Hp. by right.
Qed.
End run_lemmas.

(** ** The shape of an install plan *)

(** The name a slot gets when it becomes [t]. *)
Definition used_name (k : Kind) (t : Version.Version) : string := display_status k (Used t).

Definition lvrename (vg old new : string) : Pipeline :=
  Pipeline.new (arg new (arg old (arg vg (cmd "lvrename")))).

Definition write_steps (m : Manifest.Manifest) (source : string) (r v : Slot) : list Pipeline :=
  [install_volume (volume r) (Manifest.store m) source;
   install_volume (volume v) (Manifest.verity m) source;
   finalize_flush (volume r); finalize_flush (volume v)].

Definition boot_steps (rt : Runtime) (m : Manifest.Manifest) (source : string)
    (t : Version.Version) (legacy : bool) : list Pipeline :=
  Pipeline.new (arg (boot rt +:+ "/EFI/Linux/" +:+ Uki.display (mkUki t None))
    (arg (Manifest.full_name (Manifest.kernel m) source) (arg "0644" (arg "-m" (cmd "install"))))) ::
  (if legacy then legacy_bootloader_migration rt else []).

(** Write and flush both volumes, rename them, then install the boot entry. *)
Definition install_steps (rt : Runtime) (m : Manifest.Manifest) (source : string)
    (t : Version.Version) (r v : Slot) (legacy : bool) : list Pipeline :=
  write_steps m source r v ++
  lvrename (vg_name (volume r)) (lv_name (volume r)) (used_name (Slot.kind r) t) ::
  lvrename (vg_name (volume v)) (lv_name (volume v)) (used_name (Slot.kind v) t) ::
  boot_steps rt m source t legacy.

Lemma into_version_Ok t s s' :
  into_version t s = Ok s' → s' = mkSlot (Slot.kind s) (Used t) (volume s).
Proof. unfold into_version. intros H. by res_simp. Qed.

Lemma install_into_slot_Ok rt m slot source t plan :
  Manifest.to_version m = Ok t → Group.boot slot = Some (boot_of_uki (mkUki t None)) →
  install_into_slot rt m slot source = Ok plan →
  ∃ r v active, root slot = Some r ∧ verity slot = Some v ∧ active_slot rt = Ok active ∧
    steps plan = install_steps rt m source t r v (is_legacy active).
Proof.
  unfold install_into_slot, install_uki. intros Ht Hb. rewrite Ht, Hb. intros H. res_simp.
  repeat match goal with H : into_version _ _ = _ |- _ => apply into_version_Ok in H; subst end.
  by do 3 eexists.
Qed.

(** The slots of a selection: root then verity, of their kinds. *)
Lemma selected_kinds rt m t slot pre :
  rt_ok rt → Manifest.to_version m = Ok t →
  select_update_slot rt m = Ok (Selected slot pre) →
  ∃ r v, root slot = Some r ∧ verity slot = Some v ∧
    Slot.kind r = Root ∧ Slot.kind v = Verity ∧ named r ∧ named v.
Proof.
  intros Hrt Ht Hs.
  destruct (select_cases rt m t Hrt Ht) as [[_ E]|[(_ & g & Hg & Hc & E)|(_ & _ & E)]];
    rewrite Hs in E; [done|..].
  - simplify_eq. apply candidate_spec in Hc as (_ & _ & Hc). unfold is_complete in Hc.
    apply andb_true_iff in Hc as [[r Hr]%bool_decide_eq_true [v Hv]%bool_decide_eq_true].
    destruct (rt_group rt g Hrt Hg) as ((Hkr & Hkv & _) & Hn & _). exists r, v.
    unfold group_slots in Hn. rewrite Hr, Hv in Hn. cbn in Hn.
    repeat split; auto; apply Hn; set_solver.
  - symmetry in E. res_simp.
    match goal with x : SlotGroup * _ |- _ => destruct x as [g pre'] end. simplify_eq.
    match goal with H : create_empty_slot _ _ = _ |- _ =>
      apply create_empty_slot_Ok in H as (a&r&v&id&rs&vs&_&_&_&Hid&_&_&->&_) end.
    pose proof (identifier_wf _ _ Hid). by do 2 eexists.
Qed.

(** ** What the LVM tools promise *)

(** The (group, volume) names a rename leaves behind. *)
Definition rename_in (vg old new : string) (l : list (string * string)) : list (string * string) :=
  (λ p, if bool_decide (p = (vg, old)) then (vg, new) else p) <$> l.

#[global] Instance rename_in_proper vg old new :
  Proper (Permutation ==> Permutation) (rename_in vg old new).
Proof. intros l l' Hl. unfold rename_in. by rewrite Hl. Qed.

(** Command lines that leave the names of the logical volumes alone: writing or
    flushing the device file of a logical volume, giving a logical volume
    another size, and handling files and boot entries. *)
Inductive keeps_names : Pipeline → Prop :=
| k_dd (v : Volume) input :
    keeps_names (command_line "dd" ["if=" +:+ input; "of=" +:+ device_file v; "bs=4M"; "status=progress"])
| k_zstd (v : Volume) input :
    keeps_names (mkPipeline [mkCommandSpec "zstdcat" [input];
                             mkCommandSpec "dd" ["of=" +:+ device_file v; "bs=4M"; "status=progress"]])
| k_flush (v : Volume) : keeps_names (command_line "blockdev" ["--flushbufs"; device_file v])
| k_resize vg lv size : keeps_names (command_line "lvresize" ["-f"; "-L"; size; vg +:+ "/" +:+ lv])
| k_install src dst : keeps_names (command_line "install" ["-m"; "0644"; src; dst])
| k_sed script f : keeps_names (command_line "sed" ["-i"; script; f])
| k_rm f : keeps_names (command_line "rm" ["-f"; f])
| k_bootctl verb what : keeps_names (command_line "bootctl" [verb; what]).

Class LvmExecutor (W : Type) `{Executor W} := {
  names : W → list (string * string);
  run_lvrename w w' vg old new :
    run_pipeline (command_line "lvrename" [vg; old; new]) w = (Ok tt, w') →
    names w' ≡ₚ rename_in vg old new (names w);
  run_lvcreate w w' size lv vg :
    run_pipeline (command_line "lvcreate" ["--yes"; "--wipesignatures"; "y"; "-L"; size; "-n"; lv; vg]) w
      = (Ok tt, w') → names w' ≡ₚ (vg, lv) :: names w;
  run_other w w' p :
    keeps_names p → run_pipeline p w = (Ok tt, w') → names w' ≡ₚ names w
}.

Definition volume_name (v : Volume) : string * string := (vg_name v, lv_name v).
Definition volume_names (vols : list Volume) : list (string * string) := volume_name <$> vols.

Lemma keeps_install_volume v f src : keeps_names (install_volume v f src).
Proof. unfold install_volume. case_match; constructor. Qed.
Lemma keeps_flush v : keeps_names (finalize_flush v).
Proof. constructor. Qed.
Lemma keeps_migration rt p : p ∈ legacy_bootloader_migration rt → keeps_names p.
Proof.
  unfold legacy_bootloader_migration. rewrite !elem_of_cons, elem_of_nil.
  intros [->|[->|[->|[]]]]; constructor.
Qed.
Lemma keeps_resize slot m p : p ∈ resize_steps_for_slot slot m → keeps_names p.
Proof.
  unfold resize_steps_for_slot. intros ([vol n] & -> & _)%list_elem_of_fmap. apply k_resize.
Qed.

#[export] Hint Resolve keeps_install_volume keeps_flush keeps_migration keeps_resize : givc.

Section lvm.
Context `{LvmExecutor W}.

Lemma rename_in_other vg old new x l :
  x ≠ (vg, old) → x ∈ l → x ∈ rename_in vg old new l.
Proof.
  intros Hne Hx. apply list_elem_of_fmap. exists x. by rewrite bool_decide_eq_false_2.
Qed.
Lemma rename_in_self vg old new l :
  (vg, old) ∈ l → (vg, new) ∈ rename_in vg old new l.
Proof.
  intros Hx. apply list_elem_of_fmap. exists (vg, old). by rewrite bool_decide_eq_true_2.
Qed.

Lemma run_keeps l w w' x :
  (∀ p, p ∈ l → keeps_names p) → run_steps l w = (Ok tt, w') →
  x ∈ names w ↔ x ∈ names w'.
Proof.
  intros Hk. apply (run_steps_inv (λ u, x ∈ names w ↔ x ∈ names u)); [|done].
  intros p u u' Hp Hu Hr. rewrite (run_other u u' p) by auto. done.
Qed.

(** The volumes a selection names exist once the preparation steps ran. *)
Lemma pre_steps_names rt m t slot pre w w' s :
  rt_ok rt → Manifest.to_version m = Ok t →
  (∀ s, s ∈ all_slots (slotgroups rt) → volume_name (volume s) ∈ names w) →
  select_update_slot rt m = Ok (Selected slot pre) →
  run_steps pre w = (Ok tt, w') → s ∈ group_slots slot → volume_name (volume s) ∈ names w'.
Proof.
  intros Hrt Ht Hw Hs Hr Hin.
  destruct (select_cases rt m t Hrt Ht) as [[_ E]|[(_ & g & Hg & Hc & E)|(_ & _ & E)]];
    rewrite Hs in E; [done|..].
  - simplify_eq. refine (proj1 (run_keeps _ _ _ _ _ Hr) _); [eauto with givc|].
    apply Hw, list_elem_of_bind. by exists g.
  - symmetry in E. res_simp.
    match goal with x : SlotGroup * _ |- _ => destruct x as [g pre'] end. simplify_eq.
    match goal with H : create_empty_slot _ _ = _ |- _ =>
      apply create_empty_slot_Ok in H as (a&r&v&id&rs&vs&_&_&_&_&_&_&->&->) end.
    cbn in Hr.
    destruct (run_pipeline (lvcreate_step rs _ _) w) as [[[]| |] w1] eqn:E1; [|done..].
    destruct (run_pipeline (lvcreate_step vs _ _) w1) as [[[]| |] w2] eqn:E2; [|done..].
    simplify_eq. apply run_lvcreate in E1, E2. rewrite E2, E1.
    cbn in Hin. set_solver.
Qed.

(** After the steps of an install both volumes carry the new version. *)
Lemma install_steps_names rt m src t r v legacy w w' :
  Slot.kind r = Root → Slot.kind v = Verity → named r → named v →
  volume_name (volume r) ∈ names w → volume_name (volume v) ∈ names w →
  run_steps (install_steps rt m src t r v legacy) w = (Ok tt, w') →
  (vg_name (volume r), used_name Root t) ∈ names w' ∧
  (vg_name (volume v), used_name Verity t) ∈ names w'.
Proof.
  intros Hkr Hkv [Hnr _] [Hnv _] Hr Hv Hrun.
  unfold install_steps in Hrun. rewrite Hkr, Hkv, run_steps_app in Hrun.
  destruct (run_steps (write_steps _ _ _ _) w) as [[[]| |] w1] eqn:E1; [|done..].
  assert (∀ x, x ∈ names w ↔ x ∈ names w1) as H1.
  { intros x. eapply run_keeps; [|exact E1]. intros p. unfold write_steps.
    rewrite !elem_of_cons, elem_of_nil. intros [->|[->|[->|[->|[]]]]]; auto with givc. }
  rewrite H1 in Hr, Hv. cbn [run_steps] in Hrun.
  destruct (run_pipeline (lvrename _ _ _) w1) as [[[]| |] w2] eqn:E2; [|done..].
  destruct (run_pipeline (lvrename _ _ _) w2) as [[[]| |] w3] eqn:E3; [|done..].
  apply run_lvrename in E2, E3.
  assert (∀ x, x ∈ names w3 ↔ x ∈ names w') as H4.
  { intros x. eapply run_keeps; [|exact Hrun]. intros p [->|Hp]%elem_of_cons.
    - constructor.
    - destruct legacy; [by eapply keeps_migration|]. set_solver. }
  rewrite <-!H4, E3, E2. unfold Slot.display in *. rewrite Hkr in Hnr. rewrite Hkv in Hnv.
  split.
  - apply rename_in_other; [|by apply rename_in_self].
    intros [= _ E]. rewrite <-Hnv in E. by destruct (Slot.status v) as [|[]].
  - apply rename_in_self, rename_in_other; [|done].
    intros [= _ E]. rewrite <-Hnr, <-Hnv in E.
    by destruct (Slot.status v) as [|[]], (Slot.status r) as [|[]].
Qed.
End lvm.

(** ** Reading the result back *)

Lemma volume_in_slots vols cmdline bootctl rt vg k st :
  Runtime.new vols cmdline bootctl = Ok rt → wf_status st →
  (vg, display_status k st) ∈ volume_names vols →
  ∃ s, s ∈ all_slots (slotgroups rt) ∧ Slot.kind s = k ∧ Slot.status s = st.
Proof.
  unfold Runtime.new. rewrite from_volumes_eq. intros Hn Hwf Hin. res_simp.
  match goal with H : group_volumes _ _ = _ |- _ =>
    apply group_volumes_sound in H as (_ & _ & Hs & _) end.
  apply list_elem_of_fmap in Hin as (v & [= -> Hd] & Hv).
  exists (mkSlot k st v). repeat split. cbn. rewrite Hs.
  apply elem_of_filter_map. exists v. split; [done|]. by apply from_volume_Some.
Qed.

(** Slots of one status are in one group. *)
Lemma same_group gs g1 g2 st :
  NoDup (keys gs) → g1 ∈ gs → g2 ∈ gs →
  group_key g1 = Some st → group_key g2 = Some st → g1 = g2.
Proof.
  unfold keys. induction gs as [|g gs IH]; cbn; [set_solver|].
  intros Hn H1 H2 E1 E2.
  assert (∀ h, h ∈ gs → group_key h = Some st → st ∈ filter_map group_key gs) as Hin.
  { intros h Hh Eh. apply elem_of_filter_map. by exists h. }
  apply elem_of_cons in H1 as [->|H1]; apply elem_of_cons in H2 as [->|H2]; [done|..].
  - rewrite E1 in Hn. apply NoDup_cons in Hn as [Hn _]. by destruct Hn; eapply Hin.
  - rewrite E2 in Hn. apply NoDup_cons in Hn as [Hn _]. by destruct Hn; eapply Hin.
  - apply IH; try done. destruct (group_key g); [by apply NoDup_cons in Hn as [_ ?] | done].
Qed.

Lemma both_slots_installed rt t r v :
  rt_ok rt → r ∈ all_slots (slotgroups rt) → v ∈ all_slots (slotgroups rt) →
  Slot.kind r = Root → Slot.kind v = Verity →
  Slot.status r = Used t → Slot.status v = Used t → installed rt t.
Proof.
  intros Hrt (g1 & Hr & Hg1)%list_elem_of_bind (g2 & Hv & Hg2)%list_elem_of_bind Hkr Hkv Hsr Hsv.
  destruct (rt_group rt g1 Hrt Hg1) as (Hc1 & _), (rt_group rt g2 Hrt Hg2) as (Hc2 & _).
  apply coherent_slot in Hr as [K1 Hr]; [|done]. apply coherent_slot in Hv as [K2 Hv]; [|done].
  rewrite Hkr in Hr. rewrite Hkv in Hv. rewrite Hsr in K1. rewrite Hsv in K2.
  assert (g1 = g2) as <- by (by eapply same_group; [apply Hrt|..]).
  exists g1. split; [done|]. unfold is_complete, Group.version, Slot.version.
  rewrite Hr, Hv, Hsr. done.
Qed.

Lemma slot_volume vols cmdline bootctl rt s :
  Runtime.new vols cmdline bootctl = Ok rt → s ∈ all_slots (slotgroups rt) →
  volume_name (volume s) ∈ volume_names vols.
Proof.
  unfold Runtime.new. rewrite from_volumes_eq. intros Hn Hin. res_simp.
  match goal with H : group_volumes _ _ = _ |- _ =>
    apply group_volumes_sound in H as (_ & _ & Hs & _) end.
  rewrite Hs in Hin. apply elem_of_filter_map in Hin as (v & Hv & [<- _]%from_volume_Some).
  apply list_elem_of_fmap. by exists (volume s).
Qed.

(** A version is installed exactly when volumes of its two names exist. *)
Lemma installed_names vols cmdline bootctl rt t :
  Runtime.new vols cmdline bootctl = Ok rt → wf_status (Used t) →
  installed rt t ↔
  ∃ vg1 vg2, (vg1, used_name Root t) ∈ volume_names vols ∧
             (vg2, used_name Verity t) ∈ volume_names vols.
Proof.
  intros Hnew Hwf. pose proof (new_ok _ _ _ _ Hnew) as Hrt. split.
  - intros (g & Hg & Hc & Hv). destruct (rt_group rt g Hrt Hg) as ((Hkr & Hkv & Heq & _) & Hn & _).
    unfold is_complete in Hc.
    apply andb_true_iff in Hc as [[r Hr]%bool_decide_eq_true [v Hvr]%bool_decide_eq_true].
    unfold Group.version, Slot.version in Hv. rewrite Hr in Hv.
    assert (Slot.status r = Used t) as Hsr by (by destruct (Slot.status r); simplify_eq).
    assert (Slot.status v = Used t) as Hsv by (by rewrite <-(Heq r v)).
    assert (∀ s, s ∈ group_slots g → volume_name (volume s) ∈ volume_names vols) as Hin.
    { intros s Hs. eapply slot_volume; [done|]. apply list_elem_of_bind. by exists g. }
    assert (r ∈ group_slots g ∧ v ∈ group_slots g) as [Hri Hvi].
    { unfold group_slots. rewrite Hr, Hvr. set_solver. }
    exists (vg_name (volume r)), (vg_name (volume v)).
    assert (used_name Root t = lv_name (volume r)) as ->.
    { destruct (Hn r Hri) as [<- _]. unfold Slot.display. by rewrite (Hkr r Hr), Hsr. }
    assert (used_name Verity t = lv_name (volume v)) as ->.
    { destruct (Hn v Hvi) as [<- _]. unfold Slot.display. by rewrite (Hkv v Hvr), Hsv. }
    by split; apply Hin.
  - intros (vg1 & vg2 & H1 & H2).
    destruct (volume_in_slots _ _ _ _ _ _ _ Hnew Hwf H1) as (r & ? & ? & ?).
    destruct (volume_in_slots _ _ _ _ _ _ _ Hnew Hwf H2) as (v & ? & ? & ?).
    by apply (both_slots_installed rt t r v).
Qed.

(** A run of an install plan leaves volumes of the new version's names. *)
Lemma install_run_names `{LvmExecutor W} (w w' : W) vols cmdline bootctl rt m t source slot pre plan :
  Runtime.new vols cmdline bootctl = Ok rt → volume_names vols ≡ₚ names w →
  Manifest.to_version m = Ok t → select_update_slot rt m = Ok (Selected slot pre) →
  Group.boot slot = Some (boot_of_uki (mkUki t None)) →
  install_into_slot rt m slot source = Ok plan →
  run_steps (pre ++ steps plan) w = (Ok tt, w') →
  ∃ vg1 vg2, (vg1, used_name Root t) ∈ names w' ∧ (vg2, used_name Verity t) ∈ names w'.
Proof.
  intros Hnew Hw Ht Hs Hb Hp Hrun. pose proof (new_ok _ _ _ _ Hnew) as Hrt.
  destruct (selected_kinds rt m t slot pre Hrt Ht Hs) as (r & v & Hr & Hv & Hkr & Hkv & Hnr & Hnv).
  apply install_into_slot_Ok with (t := t) in Hp as (r' & v' & a & Hr' & Hv' & _ & Hst); [|done..].
  rewrite Hr in Hr'. rewrite Hv in Hv'. injection Hr' as <-. injection Hv' as <-.
  rewrite run_steps_app, Hst in Hrun.
  destruct (run_steps pre w) as [[[]| |] w1] eqn:E1; [|done..].
  assert (∀ s, s ∈ group_slots slot → volume_name (volume s) ∈ names w1) as H1.
  { intros s Hin. eapply (pre_steps_names rt m t slot pre); try done.
    intros s' Hs'. rewrite <-Hw. by eapply slot_volume. }
  eapply install_steps_names in Hrun as [? ?]; [by do 2 eexists|done..| |];
    apply H1; unfold group_slots; rewrite Hr, Hv; set_solver.
Qed.

Lemma selected_boot rt m t slot pre :
  rt_ok rt → Manifest.to_version m = Ok t → select_update_slot rt m = Ok (Selected slot pre) →
  Group.boot slot = Some (boot_of_uki (mkUki t None)).
Proof.
  intros Hrt Ht Hs.
  destruct (select_cases rt m t Hrt Ht) as [[_ E]|[(_ & g & _ & _ & E)|(_ & _ & E)]];
    rewrite Hs in E; [done|by simplify_eq|].
  destruct (create_empty_slot rt m) as [[]| |]; by simplify_eq/=.
Qed.

Lemma select_installed rt m t :
  rt_ok rt → Manifest.to_version m = Ok t →
  select_update_slot rt m = Ok AlreadyInstalled ↔ installed rt t.
Proof.
  intros Hrt Ht.
  destruct (select_cases rt m t Hrt Ht) as [[Hi ->]|[(Hn & g & _ & _ & ->)|(Hn & _ & ->)]]; [done|by split|].
  split; [|done]. by destruct (create_empty_slot rt m) as [[]| |].
Qed.

(** What an install plan consists of. *)
Lemma install_plan_Ok rt m t source plan :
  rt_ok rt → Manifest.to_version m = Ok t → install rt m source = Ok plan →
  (installed rt t ∧ steps plan = []) ∨
  (∃ slot pre r v active,
     select_update_slot rt m = Ok (Selected slot pre) ∧
     root slot = Some r ∧ verity slot = Some v ∧ active_slot rt = Ok active ∧
     Slot.kind r = Root ∧ Slot.kind v = Verity ∧ named r ∧ named v ∧
     steps plan = pre ++ install_steps rt m source t r v (is_legacy active)).
Proof.
  intros Hrt Ht Hp. unfold install in Hp.
  apply bind_Ok in Hp as (sel & Hs & Hp). destruct sel as [|slot pre].
  - left. simplify_eq. by apply (select_installed rt m t Hrt Ht) in Hs.
  - right. destruct (selected_kinds rt m t slot pre Hrt Ht Hs) as (r & v & Hr & Hv & ? & ? & ? & ?).
    pose proof (selected_boot _ _ _ _ _ Hrt Ht Hs).
    apply bind_Ok in Hp as (plan' & Hp & [= <-]).
    apply install_into_slot_Ok with (t := t) in Hp as (r' & v' & a & Hr' & Hv' & Ha & Hst); [|done..].
    simplify_eq. exists slot, pre, r', v', a. by rewrite Hst.
Qed.

(** ** Removal *)

Lemma find_exact_Some rt p reason g :
  find_exact_one_group rt p reason = Ok (Some g) ↔ keep p (slotgroups rt) = [g].
Proof.
  unfold find_exact_one_group, slot_groups.
  destruct (keep p (slotgroups rt)) as [|x [|y l]]; cbn; split; by intros [= ->] || done.
Qed.

Lemma find_exact_None rt p reason :
  find_exact_one_group rt p reason = Ok None ↔ keep p (slotgroups rt) = [].
Proof.
  unfold find_exact_one_group, slot_groups.
  destruct (keep p (slotgroups rt)) as [|x [|y l]]; cbn; done.
Qed.

(** The group found is the only one of the version, or the only one with a
    hash of that revision when the version gives no hash. *)
Definition designates (rt : Runtime) (v : Version.Version) (g : SlotGroup) : Prop :=
  keep (λ g, bool_decide (Group.version g = Some v)) (slotgroups rt) = [g] ∨
  (keep (λ g, bool_decide (Group.version g = Some v)) (slotgroups rt) = [] ∧
   Version.hash v = None ∧
   keep (λ g, is_some_and (Group.version g) (λ w,
     bool_decide (Version.revision w = Version.revision v) && Version.has_hash w))
     (slotgroups rt) = [g]).

Lemma find_slot_group_Ok rt v g :
  find_slot_group rt v = Ok g ↔ designates rt v g.
Proof.
  unfold find_slot_group, designates. rewrite bind_Ok. split.
  - intros ([g'|] & H1 & H2).
    + simplify_eq. left. by apply find_exact_Some in H1.
    + right. apply find_exact_None in H1. split; [done|].
      apply bind_Ok in H2 as ([g'|] & H2 & H3); [|done]. simplify_eq.
      unfold Version.has_hash in H2. case_bool_decide as Hh; [done|].
      apply find_exact_Some in H2. split; [by apply eq_None_not_Some | done].
  - intros [H1|(H1 & Hh & H2)].
    + exists (Some g). split; [by apply find_exact_Some | done].
    + exists None. split; [by apply find_exact_None|].
      unfold Version.has_hash at 1. rewrite Hh, bool_decide_eq_false_2 by (by intros []).
      apply bind_Ok. exists (Some g). split; [by apply find_exact_Some | done].
Qed.

Lemma designates_version rt v g :
  designates rt v g → g ∈ slotgroups rt ∧
  ∃ w, Group.version g = Some w ∧ Version.revision w = Version.revision v ∧
    (Version.hash v = Version.hash w ∨ Version.hash v = None).
Proof.
  intros [H|(_ & Hh & H)].
  - assert (g ∈ keep (λ g, bool_decide (Group.version g = Some v)) (slotgroups rt)) as Hin
      by (rewrite H; by left).
    apply elem_of_keep in Hin as [? ?%bool_decide_eq_true]. split; [done|]. exists v. auto.
  - match type of H with ?l = _ => assert (g ∈ l) as Hin by (rewrite H; by left) end.
    apply elem_of_keep in Hin as [Hg Hv]. split; [done|].
    destruct (Group.version g) as [w|]; [|done]. cbn in Hv.
    apply andb_true_iff in Hv as [?%bool_decide_eq_true _]. exists w. auto.
Qed.

Lemma version_no_empty_id g v : Group.version g = Some v → Group.empty_id g = None.
Proof.
  unfold Group.version, Group.empty_id, Slot.version, Slot.empty_id.
  destruct (root g) as [r|]; [by destruct (Slot.status r)|].
  destruct (verity g) as [w|]; [by destruct (Slot.status w) | done].
Qed.
End Plan.

(** ** Properties *)

Module PlanProps.
Import Pipeline Lvm Slot Uki Group Runtime Plan.

(** An install plan is empty when the version is installed; otherwise it
    runs, in this order, the preparation steps of the selected pair, the writes
    of root and verity, the two flushes, the two renames to the new version's
    names, the copy of the kernel to the boot partition, and the boot loader
    migration only when the running slot is a legacy one. Nothing is renamed
    before it is written and flushed, and no boot entry appears before both
    renames. *)
Theorem install_plan_shape vols cmdline bootctl rt m t source plan :
  Runtime.new vols cmdline bootctl = Ok rt → Manifest.to_version m = Ok t →
  install rt m source = Ok plan →
  (installed rt t ∧ steps plan = []) ∨
  (∃ slot pre r v active,
     select_update_slot rt m = Ok (Selected slot pre) ∧
     root slot = Some r ∧ verity slot = Some v ∧ active_slot rt = Ok active ∧
     Slot.kind r = Root ∧ Slot.kind v = Verity ∧
     steps plan = pre ++ install_steps rt m source t r v (is_legacy active)).
Proof.
  intros Hrt%new_ok Ht Hp.
  destruct (install_plan_Ok rt m t source plan Hrt Ht Hp) as [?|(slot & pre & r & v & a & ?)]; [by left|right].
  exists slot, pre, r, v, a. naive_solver.
Qed.

(** C6: The update is idempotent against any executor on which [lvrename] and
    [lvcreate] do to the volume names what their manuals say and the command
    lines of [keeps_names] - and no others - leave the names alone: when the plan
    of an update ran to the end and the volumes are read again, the same manifest
    is reported as already installed, as long as its version can be told from a
    volume name. *)
Theorem install_then_installed `{LvmExecutor W} (w w' : W)
    vols cmdline bootctl rt m t source plan vols' cmdline' bootctl' rt' :
  Runtime.new vols cmdline bootctl = Ok rt → volume_names vols ≡ₚ names w →
  Manifest.to_version m = Ok t → wf_status (Used t) →
  install rt m source = Ok plan → run_plan plan w = (Ok tt, w') →
  Runtime.new vols' cmdline' bootctl' = Ok rt' → volume_names vols' ≡ₚ names w' →
  select_update_slot rt' m = Ok AlreadyInstalled.
Proof.
  intros Hnew Hw Ht Hwf Hp Hrun Hnew' Hw'.
  pose proof (new_ok _ _ _ _ Hnew) as Hrt. pose proof (new_ok _ _ _ _ Hnew') as Hrt'.
  apply (select_installed rt' m t Hrt' Ht). apply (installed_names _ _ _ _ _ Hnew' Hwf).
  setoid_rewrite Hw'. unfold install in Hp. apply bind_Ok in Hp as (sel & Hs & Hp).
  destruct sel as [|slot pre].
  - simplify_eq. cbn in Hrun. injection Hrun as <-. setoid_rewrite <-Hw.
    apply (installed_names _ _ _ _ _ Hnew Hwf). by apply (select_installed rt m t Hrt Ht).
  - apply bind_Ok in Hp as (plan' & Hp & [= <-]).
    eapply (install_run_names w w');
      [exact Hnew|exact Hw|exact Ht|exact Hs|exact (selected_boot _ _ _ _ _ Hrt Ht Hs)|exact Hp|exact Hrun].
Qed.

(** Removal refuses the running slot, and otherwise designates one group
    by version: the only one of that version, or the only one with a hash of
    that revision when no hash is given. Its boot entries are unlinked before
    its volumes are renamed, and the volumes are renamed to the identifier no
    empty slot uses. *)
Theorem remove_plan_shape rt v plan :
  remove rt v = Ok plan ↔
  ∃ g id, designates rt v g ∧ is_active g (kernel rt) = false ∧
    allocate_empty_identifier rt = Ok id ∧
    steps plan =
      option_list (to_remove <$> Group.boot g) ++
      (if is_legacy g then to_remove <$> keep Uki.is_legacy (boot_entries rt) else []) ++
      rename_slot_to_empty g id.
Proof.
  unfold remove. rewrite bind_Ok. setoid_rewrite find_slot_group_Ok. split.
  - intros (g & Hg & Hp). exists g.
    destruct (designates_version rt v g Hg) as (_ & w & Hv & _).
    destruct (is_active g (kernel rt)); [done|].
    rewrite (version_no_empty_id g w Hv) in Hp.
    apply bind_Ok in Hp as (id & Hid & [= <-]). by exists id.
  - intros (g & id & Hg & Ha & Hid & Hst). exists g. split; [done|]. rewrite Ha.
    destruct (designates_version rt v g Hg) as (_ & w & Hv & _).
    rewrite (version_no_empty_id g w Hv), Hid. cbn. destruct plan. cbn in Hst. by rewrite Hst.
Qed.

(** An executor that interprets the LVM commands on the list of names. *)
Definition model_run (p : Pipeline) (w : list (string * string)) : res unit * list (string * string) :=
  match stages p with
  | [c] =>
      if bool_decide (program c = "lvrename") then
        match args c with
        | [vg; old; new] => (Ok tt, rename_in vg old new w)
        | _ => (bail "usage", w)
        end
      else if bool_decide (program c = "lvcreate") then
        match args c with
        | [_; _; _; _; _; _; lv; vg] => (Ok tt, (vg, lv) :: w)
        | _ => (bail "usage", w)
        end
      else (Ok tt, w)
  | _ => (Ok tt, w)
  end.
#[local] Instance model_executor : Executor (list (string * string)) := model_run.

Lemma model_other p w w' :
  keeps_names p → model_run p w = (Ok tt, w') → w' = w.
Proof.
  unfold model_run. by intros []; intros [= <-].
Qed.

#[local] Instance model_lvm : LvmExecutor (list (string * string)).
Proof.
  refine {| names := λ w, w |}.
  - by intros w w' vg old new [= <-].
  - by intros w w' size lv vg [= <-].
  - intros w w' p Hk Hr. by rewrite (model_other p w w' Hk Hr).
Defined.

Import RuntimeProps.

Definition ex_plan : Plan :=
  match install ex_rt (ex_manifest "2.0") "/tmp/ota" with Ok p => p | _ => mkPlan [] end.
Definition ex_names' : list (string * string) := snd (run_plan ex_plan (volume_names ex_volumes)).
Definition ex_volumes' : list Volume := (λ '(vg, lv), mkVolume lv vg None None) <$> ex_names'.
Definition ex_rt' : Runtime :=
  match Runtime.new ex_volumes' ex_cmdline ex_bootctl with Ok rt => rt | _ => ex_rt end.

Lemma install_plan_shape_witness :
  ∃ slot pre r v active,
    select_update_slot ex_rt (ex_manifest "2.0") = Ok (Selected slot pre) ∧
    steps ex_plan = pre ++ install_steps ex_rt (ex_manifest "2.0") "/tmp/ota" (ex_target "2.0")
                      r v (is_legacy active).
Proof.
  destruct (install_plan_shape ex_volumes ex_cmdline ex_bootctl ex_rt (ex_manifest "2.0")
    (ex_target "2.0") "/tmp/ota" ex_plan) as [[_ H]|(slot & pre & r & v & a & H1 & _ & _ & _ & _ & _ & H2)].
  - exact ex_rt_new.
  - vm_compute; reflexivity.
  - vm_compute; reflexivity.
  - vm_compute in H. discriminate H.
  - exists slot, pre, r, v, a. split; [exact H1 | exact H2].
Defined.

Lemma install_then_installed_witness :
  select_update_slot ex_rt' (ex_manifest "2.0") = Ok AlreadyInstalled.
Proof.
  apply (install_then_installed (volume_names ex_volumes) ex_names'
    ex_volumes ex_cmdline ex_bootctl ex_rt (ex_manifest "2.0") (ex_target "2.0") "/tmp/ota" ex_plan
    ex_volumes' ex_cmdline ex_bootctl ex_rt').
  - exact ex_rt_new.
  - reflexivity.
  - vm_compute; reflexivity.
  - vm_compute. repeat split; discriminate.
  - vm_compute; reflexivity.
  - vm_compute; reflexivity.
  - vm_compute; reflexivity.
  - vm_compute. reflexivity.
Defined.
End PlanProps.
