(* ===== verification/ImageDevice.v ===== *)
(** * Update plans on a device ([image/plan.rs], [image/executor.rs])

    What the commands of a plan do to the contents of logical volumes and to
    files, also when a command fails or the power is cut while it runs.  The
    class [Device] states what is relied on of the tools, as they document it:
    which command line means which effect ([command]), what an effect achieves
    ([achieves]) and what it can leave behind when it does not end ([torn]).
    Against it: an install that stops anywhere leaves every installed image as
    it was, and one that ends has the image's bytes in place.

    [SimDevice] is a device that keeps these promises; on it the states an
    interrupted install leaves are computed. *)

From S2P Require Import Prelude RustStr RustInt RustPath ImagePipeline.
From S2P Require Import ImageSlot ImageUki ImageManifest ImageGroup ImageRuntime ImagePlan.
From Stdlib Require Import Ascii.

Module Device.
Import Pipeline Lvm Slot Uki Group Runtime Plan.

(** A logical volume by its group and its name. *)
Abbreviation lv_id := (string * string)%type.

Record Disk := mkDisk { lvs : gmap lv_id string; files : gmap string string }.

(** ** Command lines and their effects *)

Inductive Effect :=
| Overwrite (v : lv_id) (input : string) (zstd : bool)
| Flush
| Rename (vg old new : string)
| Create (v : lv_id)
| Resize (v : lv_id)
| CopyFile (src dst : string)
| EditFile (f : string)
| RemoveFile (f : string)
| SetDefault
| UnlinkEntry (id : string).

(** LVM's device-mapper names: hyphens of the two names are doubled. *)
Fixpoint double_hyphens (s : string) : string :=
  match s with
  | "" => ""
  | String a s =>
      if bool_decide (a = "-"%char) then String a (String a (double_hyphens s))
      else String a (double_hyphens s)
  end.
Definition dm_path (v : lv_id) : string :=
  "/dev/mapper/" +:+ double_hyphens v.1 +:+ "-" +:+ double_hyphens v.2.

Definition line (program : string) (args : list string) : Pipeline :=
  mkPipeline [mkCommandSpec program args].

(** Names LVM accepts do not begin with a hyphen and have no slash. *)
Definition lv_valid (v : lv_id) : Prop :=
  has_char "/" v.1 = false ∧ starts_with "-" v.1 = false ∧ starts_with "-" v.2 = false.

Inductive command : Pipeline → Effect → Prop :=
| c_dd v input :
    lv_valid v →
    command (line "dd" ["if=" +:+ input; "of=" +:+ dm_path v; "bs=4M"; "status=progress"])
      (Overwrite v input false)
| c_zstd v input :
    lv_valid v →
    command (mkPipeline [mkCommandSpec "zstdcat" [input];
                         mkCommandSpec "dd" ["of=" +:+ dm_path v; "bs=4M"; "status=progress"]])
      (Overwrite v input true)
| c_flush v : lv_valid v → command (line "blockdev" ["--flushbufs"; dm_path v]) Flush
| c_rename vg old new : command (line "lvrename" [vg; old; new]) (Rename vg old new)
| c_create vg lv (size : Z) :
    command (line "lvcreate" ["--yes"; "--wipesignatures"; "y"; "-L"; pretty size +:+ "b"; "-n"; lv; vg])
      (Create (vg, lv))
| c_resize vg lv (size : Z) :
    lv_valid (vg, lv) →
    command (line "lvresize" ["-f"; "-L"; pretty size +:+ "b"; vg +:+ "/" +:+ lv]) (Resize (vg, lv))
| c_install src dst : command (line "install" ["-m"; "0644"; src; dst]) (CopyFile src dst)
| c_sed script f : command (line "sed" ["-i"; script; f]) (EditFile f)
| c_rm f : command (line "rm" ["-f"; f]) (RemoveFile f)
| c_default : command (line "bootctl" ["set-default"; "auto"]) SetDefault
| c_unlink id : command (line "bootctl" ["unlink"; id]) (UnlinkEntry id).

(** The one existing volume an effect changes, and the files it may change;
    [sed -i] works on a temporary file [sedXXXXXX] beside its target. *)
Definition victim (e : Effect) : option lv_id :=
  match e with
  | Overwrite v _ _ | Resize v => Some v
  | Rename vg old _ => Some (vg, old)
  | _ => None
  end.

Section effects.
(** The decompressor, and the files a boot entry consists of. *)
Context (unzstd : string → option string) (entry_file : string → string → bool).

Definition may_write (e : Effect) (p : string) : bool :=
  match e with
  | CopyFile _ f | RemoveFile f => bool_decide (p = f)
  | EditFile f =>
      bool_decide (p = f) ||
      match parent f with Some dir => starts_with (dir +:+ "/sed") p | None => false end
  | UnlinkEntry id => entry_file id p
  | _ => false
  end.

(** What an effect that does not end can leave: nothing done or everything for
    a change of LVM's metadata, anything in the volume or the file otherwise. *)
Definition renamed (vg old new : string) (d d' : Disk) : Prop :=
  ∃ c, lvs d !! (vg, old) = Some c ∧ lvs d !! (vg, new) = None ∧
    d' = mkDisk (<[(vg, new) := c]> (delete (vg, old) (lvs d))) (files d).
Definition torn (e : Effect) (d d' : Disk) : Prop :=
  (∀ p, may_write e p = false → files d' !! p = files d !! p) ∧
  match e with
  | Overwrite v _ _ | Resize v =>
      lvs d' = lvs d ∨ ∃ old c, lvs d !! v = Some old ∧ lvs d' = <[v := c]> (lvs d)
  | Rename vg old new => lvs d' = lvs d ∨ renamed vg old new d d'
  | Create v => lvs d' = lvs d ∨ lvs d !! v = None ∧ ∃ c, lvs d' = <[v := c]> (lvs d)
  | _ => lvs d' = lvs d
  end.

(** What an effect that ended with success has achieved.  A pipeline's status is
    that of its last command: for a compressed image nothing is known of what
    was written unless the input decompresses. *)
Definition achieves (e : Effect) (d d' : Disk) : Prop :=
  torn e d d' ∧
  match e with
  | Overwrite v input false =>
      ∃ c rest, files d !! input = Some c ∧ lvs d' !! v = Some (c +:+ rest)
  | Overwrite v input true =>
      is_Some (lvs d' !! v) ∧
      ∀ c image, files d !! input = Some c → unzstd c = Some image →
        ∃ rest, lvs d' !! v = Some (image +:+ rest)
  | Rename vg old new => renamed vg old new d d'
  | Create v => is_Some (lvs d' !! v)
  | CopyFile src dst => ∃ c, files d !! src = Some c ∧ files d' !! dst = Some c
  | RemoveFile f => files d' !! f = None
  | UnlinkEntry id => ∀ p, entry_file id p = true → files d' !! p = None
  | _ => True
  end.

(** A step whose effect spares a volume, or a file. *)
Definition spares_lv (x : lv_id) (p : Pipeline) : Prop := ∃ e, command p e ∧ victim e ≠ Some x.
Definition spares_file (f : string) (p : Pipeline) : Prop :=
  ∃ e, command p e ∧ may_write e f = false.
End effects.

(** ** The interface *)

Class Device (W : Type) `{Executor W} := {
  view : W → Disk;
  unzstd : string → option string;
  entry_file : string → string → bool;
  (** the states in which a power cut during a command can leave the device *)
  cut : Pipeline → W → W → Prop;
  run_achieves p e w w' :
    command p e → run_pipeline p w = (Ok tt, w') → achieves unzstd entry_file e (view w) (view w');
  run_fails p e w r w' :
    command p e → run_pipeline p w = (r, w') → r ≠ Ok tt → torn entry_file e (view w) (view w');
  cut_torn p e w w' : command p e → cut p w w' → torn entry_file e (view w) (view w')
}.

(** The states the device passes through while a list of steps runs, the ends of
    a failed run and of a power cut included. *)
Inductive moment `{Device W} : list Pipeline → W → W → Prop :=
| m_start l w : moment l w w
| m_cut p l w w' : cut p w w' → moment (p :: l) w w'
| m_failed p l w r w' : run_pipeline p w = (r, w') → r ≠ Ok tt → moment (p :: l) w w'
| m_later p l w w1 w' : run_pipeline p w = (Ok tt, w1) → moment l w1 w' → moment (p :: l) w w'.

#[local] Set Default Proof Using "Type".

Section moments.
Context `{Device W}.

Lemma torn_lv e d d' x c :
  torn entry_file e d d' → victim e ≠ Some x → lvs d !! x = Some c → lvs d' !! x = Some c.
Proof.
  intros [_ Ht] Hv Hx. destruct e as [v i z| |vg old new|v|v|src dst|f|f| |id]; cbn in Ht, Hv;
    try by rewrite Ht.
  - destruct Ht as [->|(o & c' & _ & ->)]; [done|]. rewrite lookup_insert_ne by congruence. done.
  - destruct Ht as [->|(c' & _ & Hn & ->)]; [done|]. cbn.
    rewrite lookup_insert_ne by congruence. rewrite lookup_delete_ne by congruence. done.
  - destruct Ht as [->|(Hn & c' & ->)]; [done|]. rewrite lookup_insert_ne by congruence. done.
  - destruct Ht as [->|(o & c' & _ & ->)]; [done|]. rewrite lookup_insert_ne by congruence. done.
Qed.

(** A property of the disk that no step can tear holds at every moment. *)
Lemma moment_inv (P : Disk → Prop) l :
  (∀ p, p ∈ l → ∃ e, command p e ∧ ∀ d d', torn entry_file e d d' → P d → P d') →
  ∀ w w', moment l w w' → P (view w) → P (view w').
Proof.
  intros Hl w w' Hm. induction Hm as [l w|p l w w' Hc|p l w r w' Hr Hne|p l w w1 w' Hr _ IH]; [done|..].
  - intros HP. destruct (Hl p ltac:(by left)) as (e & Hp & Hk).
    eapply Hk; [by eapply cut_torn | done].
  - intros HP. destruct (Hl p ltac:(by left)) as (e & Hp & Hk).
    eapply Hk; [by eapply run_fails | done].
  - intros HP. apply IH; [intros q Hq; apply Hl; by right|].
    destruct (Hl p ltac:(by left)) as (e & Hp & Hk).
    eapply Hk; [|done]. by eapply run_achieves in Hr as [Ht _].
Qed.

Lemma run_moment l w r w' : run_steps l w = (r, w') → moment l w w'.
Proof.
  revert w. induction l as [|p l IH]; intros w; cbn; [intros [= _ <-]; constructor|].
  destruct (run_pipeline p w) as [[[]|e|s] w1] eqn:E.
  - intros Hr. eapply m_later; [done|]. by apply IH.
  - intros [= _ <-]. by eapply m_failed.
  - intros [= _ <-]. by eapply m_failed.
Qed.

Lemma moment_app l1 l2 w w1 w' :
  run_steps l1 w = (Ok tt, w1) → moment l2 w1 w' → moment (l1 ++ l2) w w'.
Proof.
  revert w. induction l1 as [|p l1 IH]; intros w; cbn; [by intros [= ->]|].
  destruct (run_pipeline p w) as [[[]|e|s] w2] eqn:E; [|done..]. intros Hr Hm.
  eapply m_later; [done|]. by apply IH.
Qed.

Lemma moment_lv l w w' x c :
  Forall (spares_lv x) l → moment l w w' → lvs (view w) !! x = Some c → lvs (view w') !! x = Some c.
Proof.
  intros Hl. rewrite Forall_forall in Hl. apply (moment_inv (λ d, lvs d !! x = Some c)).
  intros p Hp. destruct (Hl p Hp) as (e & He & Hv). exists e. split; [done|].
  intros d d' Ht. by apply (torn_lv e).
Qed.

Lemma moment_file l w w' f :
  Forall (spares_file entry_file f) l → moment l w w' → files (view w') !! f = files (view w) !! f.
Proof.
  intros Hl Hm. rewrite Forall_forall in Hl.
  refine (moment_inv (λ d, files d !! f = files (view w) !! f) l _ w w' Hm eq_refl).
  intros p Hp. destruct (Hl p Hp) as (e & He & Hf). exists e. split; [done|].
  intros d d' [Ht _] <-. by apply Ht.
Qed.
End moments.

(** ** The commands of the plans *)

(** Names in which LVM doubles nothing. *)
Definition plain_vg (vg : string) : Prop :=
  vg ≠ "" ∧ has_char "/" vg = false ∧ has_char "-" vg = false.
Definition plain (v : Volume) : Prop := plain_vg (vg_name v) ∧ has_char "-" (lv_name v) = false.

(** The volume groups have plain names, and so have the empty volumes. *)
Definition plain_rt (rt : Runtime) : Prop :=
  ∀ s, s ∈ all_slots (slotgroups rt) →
    plain_vg (vg_name (volume s)) ∧
    (Slot.is_empty s = true → has_char "-" (lv_name (volume s)) = false).

Lemma double_hyphens_plain s : has_char "-" s = false → double_hyphens s = s.
Proof.
  induction s as [|a s IH]; [done|]. intros [Ha Hs]%has_char_cons_false. cbn.
  rewrite bool_decide_eq_false_2 by done. by rewrite IH.
Qed.

Lemma no_char_start a s : has_char a s = false → starts_with (String a "") s = false.
Proof.
  intros Hs. destruct (starts_with _ s) eqn:E; [|done]. apply starts_with_spec in E as [t ->].
  by apply has_char_cons_false in Hs as [? _].
Qed.

Lemma plain_valid v : plain v → lv_valid (volume_name v).
Proof. intros ((_ & Hs & Hg) & Hl). split; [done|]. split; by apply no_char_start. Qed.

Lemma device_dm v : plain v → device_file v = dm_path (volume_name v).
Proof.
  intros ((Hne & Ha & Hg) & Hl). rewrite device_file_eq; [|done|by apply no_char_start].
  unfold dm_path. cbn. by rewrite !double_hyphens_plain.
Qed.

Lemma command_install_volume v f src :
  plain v → command (install_volume v f src)
    (Overwrite (volume_name v) (Manifest.full_name f src) (Manifest.is_compressed f)).
Proof.
  intros Hv. unfold install_volume, device_file_string. rewrite device_dm by done.
  destruct (Manifest.is_compressed f); [apply c_zstd | apply c_dd]; by apply plain_valid.
Qed.
Lemma command_flush v : plain v → command (finalize_flush v) Flush.
Proof. intros Hv. unfold finalize_flush. rewrite device_dm by done. by apply c_flush, plain_valid. Qed.
Lemma command_rename vg old new : command (lvrename vg old new) (Rename vg old new).
Proof. apply c_rename. Qed.
Lemma command_create size lv vg : command (lvcreate_step size lv vg) (Create (vg, lv)).
Proof. apply c_create. Qed.
Lemma command_resize v size : plain v → command (resize_step v size) (Resize (volume_name v)).
Proof. intros Hv. by apply c_resize, (plain_valid v). Qed.

#[local] Hint Resolve command_install_volume command_flush command_rename command_create
  command_resize : core.
#[local] Hint Extern 2 (command (Pipeline.new _) _) =>
  first [apply c_install | apply c_sed | apply c_rm | apply c_default | apply c_unlink] : core.

(** The files written are the boot entry and, for a legacy system, the boot
    loader's. *)
Definition uki_path (rt : Runtime) (t : Version.Version) : string :=
  boot rt +:+ "/EFI/Linux/" +:+ Uki.display (mkUki t None).
Definition loader_file (rt : Runtime) (f : string) : bool :=
  bool_decide (f = boot rt +:+ "/loader/loader.conf") ||
  bool_decide (f = boot rt +:+ "/loader/entries.srel") ||
  starts_with (boot rt +:+ "/loader/sed") f.

(** The boot loader's configuration: two files, and the temporary files of an
    edit in place. *)
Definition loader_config (f : string) : Prop :=
  f = "/boot/loader/loader.conf" ∨ f = "/boot/loader/entries.srel" ∨ starts_with "/boot/loader/sed" f = true.
Lemma loader_file_config rt f : boot rt = "/boot" → loader_file rt f = true → loader_config f.
Proof.
  unfold loader_file, loader_config. intros ->.
  rewrite !orb_true_iff, !bool_decide_eq_true. cbn. tauto.
Qed.

(** A slot of the old layout: its name has no verity hash or, for an empty one,
    no identifier. *)
Definition old_layout (s : Slot) : Prop :=
  Slot.status s = Empty Legacy ∨ ∃ v, Slot.status s = Used v ∧ Version.hash v = None.
Lemma is_legacy_iff g : is_legacy g = true ↔ ∃ s, s ∈ group_slots g ∧ old_layout s.
Proof.
  assert (∀ s, Slot.is_legacy s = true ↔ old_layout s) as Hs.
  { intros s. unfold Slot.is_legacy, old_layout, Version.has_hash.
    destruct (Slot.status s) as [v|[]]; [destruct (Version.hash v) eqn:E|..]; naive_solver. }
  unfold is_legacy, group_slots.
  destruct (root g) as [r|], (verity g) as [v|]; cbn; rewrite ?orb_true_iff, ?orb_false_r, ?Hs;
    set_solver.
Qed.

Section plans.
Context (entry_file : string → string → bool).

(** A step of the preparation works on the selected volumes only. *)
Definition prepares (slot : SlotGroup) (p : Pipeline) : Prop :=
  ∃ e, command p e ∧ (∀ f, may_write entry_file e f = false) ∧
    ∀ x, victim e = Some x → ∃ s, s ∈ group_slots slot ∧ x = volume_name (volume s).

Lemma resize_command slot m p :
  (∀ s, s ∈ group_slots slot → plain (volume s)) → p ∈ resize_steps_for_slot slot m →
  ∃ s, s ∈ group_slots slot ∧ command p (Resize (volume_name (volume s))).
Proof.
  intros Hpl. unfold resize_steps_for_slot. intros ([vol n] & -> & [Hin _]%elem_of_keep)%list_elem_of_fmap.
  apply list_elem_of_fmap in Hin as ([s k] & [= -> ->] & Hin).
  assert (s ∈ group_slots slot) as Hs; [|exists s; by auto].
  unfold group_slots. apply elem_of_app in Hin as [Hin|Hin].
  - destruct (root slot) as [r|]; [|by apply elem_of_nil in Hin].
    destruct (Manifest.unpacked_size _); [|by apply elem_of_nil in Hin].
    apply list_elem_of_singleton in Hin as [= -> _]. by left.
  - apply elem_of_app. right. destruct (verity slot) as [r|]; [|by apply elem_of_nil in Hin].
    destruct (Manifest.unpacked_size (Manifest.verity m)); [|by apply elem_of_nil in Hin].
    apply list_elem_of_singleton in Hin as [= -> _]. by left.
Qed.

Lemma resize_prepares slot m p :
  (∀ s, s ∈ group_slots slot → plain (volume s)) → p ∈ resize_steps_for_slot slot m → prepares slot p.
Proof.
  intros Hpl (s & Hs & Hc)%resize_command; [|done]. eexists. split; [exact Hc|]. split; [done|].
  intros x [= <-]. by exists s.
Qed.

Lemma selected_plain rt m t slot pre s :
  rt_ok rt → plain_rt rt → Manifest.to_version m = Ok t →
  select_update_slot rt m = Ok (Selected slot pre) → s ∈ group_slots slot → plain (volume s).
Proof.
  intros Hrt Hpl Ht Hs Hin.
  destruct (select_cases rt m t Hrt Ht) as [[_ E]|[(_ & g & Hg & Hc & E)|(_ & _ & E)]];
    rewrite Hs in E; [done|..].
  - simplify_eq. apply candidate_spec in Hc as (He & _ & _).
    destruct (Hpl s) as [Hvg Hlv]; [apply list_elem_of_bind; by exists g|].
    split; [done|]. apply Hlv. by apply (empty_slots g).
  - symmetry in E. res_simp.
    match goal with x : SlotGroup * _ |- _ => destruct x as [g pre'] end. simplify_eq.
    match goal with H : create_empty_slot _ _ = _ |- _ =>
      apply create_empty_slot_Ok in H as (a&r&v&id&rs&vs&Ha&Hr&_&Hid&_&_&->&_) end.
    assert (plain_vg (vg_name (volume r))) as Hvg.
    { unfold active_slot in Ha. res_simp.
      match goal with H : find_exact_one_group _ _ _ = Ok _ |- _ => apply find_exact_Some in H as Hk end.
      apply Hpl, list_elem_of_bind. exists a. split; [unfold group_slots; rewrite Hr; by left|].
      assert (a ∈ keep (λ g, is_active g (kernel rt)) (slotgroups rt)) as Hka by (rewrite Hk; by left).
      by apply elem_of_keep in Hka as [? _]. }
    assert (has_char "-" id = false) as Hi.
    { apply allocate_Ok in Hid as (n & _ & -> & _).
      eapply all_chars_has_char; [apply pretty_N_digits | done]. }
    cbn in Hin. apply elem_of_cons in Hin as [->|Hin%list_elem_of_singleton]; [|subst s];
      (split; [done|]); cbn; exact Hi.
Qed.

Lemma pre_prepares rt m t slot pre :
  rt_ok rt → plain_rt rt → Manifest.to_version m = Ok t → select_update_slot rt m = Ok (Selected slot pre) →
  Forall (prepares slot) pre.
Proof.
  intros Hrt Hpl Ht Hs. apply Forall_forall. intros p Hp.
  pose proof (λ s, selected_plain rt m t slot pre s Hrt Hpl Ht Hs) as Hsp.
  destruct (select_cases rt m t Hrt Ht) as [[_ E]|[(_ & g & Hg & Hc & E)|(_ & _ & E)]];
    rewrite Hs in E; [done|..].
  - simplify_eq. by apply (resize_prepares _ m p Hsp).
  - symmetry in E. res_simp.
    match goal with x : SlotGroup * _ |- _ => destruct x as [g pre'] end. simplify_eq.
    match goal with H : create_empty_slot _ _ = _ |- _ =>
      apply create_empty_slot_Ok in H as (a&r&v&id&rs&vs&_&_&_&_&_&_&->&->) end.
    assert (∃ size lv vg, p = lvcreate_step size lv vg) as (size & lv & vg & ->).
    { apply elem_of_cons in Hp as [->|Hp]; [by do 3 eexists|].
      apply list_elem_of_singleton in Hp as ->. by do 3 eexists. }
    eexists. split; [apply command_create|]. done.
Qed.

(** The volumes written are the two selected ones. *)
Lemma install_steps_lv rt m source t r v legacy x :
  plain (volume r) → plain (volume v) → x ≠ volume_name (volume r) → x ≠ volume_name (volume v) →
  Forall (spares_lv x) (install_steps rt m source t r v legacy).
Proof.
  intros Hr Hv Hxr Hxv. unfold install_steps, write_steps, boot_steps.
  repeat (apply Forall_cons; split); [..|destruct legacy; repeat (apply Forall_cons; split); try by apply Forall_nil];
    eexists; (split; [eauto|]); cbn; unfold volume_name in *; congruence.
Qed.

Lemma migration_file rt f :
  boot rt = "/boot" → loader_file rt f = false →
  Forall (spares_file entry_file f) (legacy_bootloader_migration rt).
Proof.
  unfold loader_file, legacy_bootloader_migration. intros ->.
  intros [[H1%bool_decide_eq_false H2%bool_decide_eq_false]%orb_false_iff H3]%orb_false_iff.
  repeat (apply Forall_cons; split); [..|by apply Forall_nil].
  - exists (EditFile "/boot/loader/loader.conf"). split; [apply c_sed|]. cbn [may_write].
    rewrite bool_decide_eq_false_2 by done. exact H3.
  - exists (RemoveFile "/boot/loader/entries.srel"). split; [apply c_rm|]. by apply bool_decide_eq_false.
  - by exists SetDefault; split; [apply c_default|].
Qed.

Lemma install_steps_file rt m source t r v legacy f :
  boot rt = "/boot" → plain (volume r) → plain (volume v) →
  f ≠ uki_path rt t → (legacy = true → loader_file rt f = false) →
  Forall (spares_file entry_file f) (install_steps rt m source t r v legacy).
Proof.
  intros Hb Hr Hv Hf Hl. unfold install_steps, write_steps, boot_steps. cbn [app].
  repeat (apply Forall_cons; split); [..|destruct legacy; [by apply migration_file; auto|by apply Forall_nil]];
    try (eexists; split; [eauto|done]).
  exists (CopyFile (Manifest.full_name (Manifest.kernel m) source) (uki_path rt t)).
  split; [apply c_install | by apply bool_decide_eq_false].
Qed.
End plans.

(** ** Installing *)

Lemma new_boot vols cmdline bootctl rt : Runtime.new vols cmdline bootctl = Ok rt → boot rt = "/boot".
Proof. unfold Runtime.new. destruct (from_volumes vols). intros Hn. by res_simp. Qed.

Lemma names_differ r v :
  Slot.kind r = Root → Slot.kind v = Verity → named r → named v →
  lv_name (volume r) ≠ lv_name (volume v).
Proof.
  intros Hr Hv [<- _] [<- _]. unfold Slot.display. rewrite Hr, Hv.
  by destruct (Slot.status v) as [|[]], (Slot.status r) as [|[]].
Qed.

Section install.
Context `{Device W}.

Lemma prepares_lv slot x :
  (∀ s, s ∈ group_slots slot → x ≠ volume_name (volume s)) →
  ∀ pre, Forall (prepares entry_file slot) pre → Forall (spares_lv x) pre.
Proof.
  intros Hx pre Hp. eapply Forall_impl; [exact Hp|]. intros p (e & Hc & _ & Hv). exists e. split; [done|].
  intros E. destruct (Hv x E) as (s & Hs & Es). by apply (Hx s).
Qed.
Lemma prepares_file slot f pre :
  Forall (prepares entry_file slot) pre → Forall (spares_file entry_file f) pre.
Proof. intros Hp. eapply Forall_impl; [exact Hp|]. intros p (e & Hc & Hf & _). by exists e. Qed.

(** The volumes and files an install plan can change. *)
Lemma install_spares vols cmdline bootctl rt m t source plan :
  Runtime.new vols cmdline bootctl = Ok rt → plain_rt rt → Manifest.to_version m = Ok t →
  install rt m source = Ok plan →
  (∀ x, (∀ slot pre s, select_update_slot rt m = Ok (Selected slot pre) →
           s ∈ group_slots slot → x ≠ volume_name (volume s)) → Forall (spares_lv x) (steps plan)) ∧
  (∀ f, f ≠ uki_path rt t → (∀ a, active_slot rt = Ok a → is_legacy a = true → loader_file rt f = false) →
     Forall (spares_file entry_file f) (steps plan)).
Proof.
  intros Hnew Hpl Ht Hi. pose proof (new_ok _ _ _ _ Hnew) as Hrt. pose proof (new_boot _ _ _ _ Hnew) as Hb.
  destruct (install_plan_Ok rt m t source plan Hrt Ht Hi)
    as [[_ ->]|(slot & pre & r & v & a & Hs & Hr & Hv & Ha & _ & _ & _ & _ & ->)]; [done|].
  assert (r ∈ group_slots slot ∧ v ∈ group_slots slot) as [Hri Hvi].
  { unfold group_slots. rewrite Hr, Hv. set_solver. }
  pose proof (selected_plain rt m t slot pre r Hrt Hpl Ht Hs Hri) as Pr.
  pose proof (selected_plain rt m t slot pre v Hrt Hpl Ht Hs Hvi) as Pv.
  pose proof (pre_prepares entry_file rt m t slot pre Hrt Hpl Ht Hs) as Hpre. split.
  - intros x Hx. apply Forall_app. split; [by eapply prepares_lv; eauto|].
    apply install_steps_lv; by eauto.
  - intros f Hf Hl. apply Forall_app. split; [by eapply prepares_file|].
    apply install_steps_file; [done..|exact (Hl a Ha)].
Qed.

(** The bytes an image file stands for. *)
Definition image_of (f : Manifest.File) (c : string) : option string :=
  if Manifest.is_compressed f then unzstd c else Some c.

Lemma run_cons p l w w' :
  run_steps (p :: l) w = (Ok tt, w') →
  ∃ w1, run_pipeline p w = (Ok tt, w1) ∧ run_steps l w1 = (Ok tt, w').
Proof. cbn. destruct (run_pipeline p w) as [[[]|e|s] w1]; [|done..]. by exists w1. Qed.

Lemma run_app l k w w' :
  run_steps (l ++ k) w = (Ok tt, w') →
  ∃ w1, run_steps l w = (Ok tt, w1) ∧ run_steps k w1 = (Ok tt, w').
Proof. rewrite run_steps_app. destruct (run_steps l w) as [[[]|e|s] w1]; [|done..]. by exists w1. Qed.

Lemma run_lv l w w' x c :
  Forall (spares_lv x) l → run_steps l w = (Ok tt, w') →
  lvs (view w) !! x = Some c → lvs (view w') !! x = Some c.
Proof. intros Hl Hr. apply (moment_lv l); [done|]. by eapply run_moment. Qed.
Lemma run_file l w w' f :
  Forall (spares_file entry_file f) l → run_steps l w = (Ok tt, w') →
  files (view w') !! f = files (view w) !! f.
Proof. intros Hl Hr. apply (moment_file l); [done|]. by eapply run_moment. Qed.

Lemma run_write vol f src w w' c img :
  plain vol → run_pipeline (install_volume vol f src) w = (Ok tt, w') →
  files (view w) !! Manifest.full_name f src = Some c → image_of f c = Some img →
  ∃ rest, lvs (view w') !! volume_name vol = Some (img +:+ rest).
Proof.
  intros Hp Hr Hf Hi. eapply run_achieves in Hr as [_ Ha]; [|by apply command_install_volume].
  unfold image_of in Hi. destruct (Manifest.is_compressed f) eqn:E; rewrite ?E in Ha, Hi; cbn in Ha.
  - destruct Ha as [_ Ha]. by eapply Ha.
  - destruct Ha as (c' & rest & Hc & Hl). simplify_eq. by exists rest.
Qed.

Lemma run_rename vg old new w w' c :
  run_pipeline (lvrename vg old new) w = (Ok tt, w') → lvs (view w) !! (vg, old) = Some c →
  lvs (view w') !! (vg, new) = Some c.
Proof.
  intros Hr Hc. pose proof (run_achieves _ _ _ _ (command_rename vg old new) Hr) as [_ (c' & Hc' & _ & ->)].
  cbn. rewrite lookup_insert_eq. congruence.
Qed.

Lemma spares_one x p e : command p e → victim e ≠ Some x → Forall (spares_lv x) [p].
Proof. intros. repeat constructor. by exists e. Qed.

(** Both writes: the images are in the volumes when they have been flushed. *)
Lemma write_steps_images m src r v w w' cr cv ir iv :
  plain (volume r) → plain (volume v) → volume_name (volume r) ≠ volume_name (volume v) →
  files (view w) !! Manifest.full_name (Manifest.store m) src = Some cr →
  image_of (Manifest.store m) cr = Some ir →
  files (view w) !! Manifest.full_name (Manifest.verity m) src = Some cv →
  image_of (Manifest.verity m) cv = Some iv →
  run_steps (write_steps m src r v) w = (Ok tt, w') →
  (∃ rest, lvs (view w') !! volume_name (volume r) = Some (ir +:+ rest)) ∧
  (∃ rest, lvs (view w') !! volume_name (volume v) = Some (iv +:+ rest)) ∧
  ∀ f, files (view w') !! f = files (view w) !! f.
Proof.
  intros Pr Pv Hne Hcr Hir Hcv Hiv Hrun.
  assert (∀ f, Forall (spares_file entry_file f) (write_steps m src r v)) as Hsf.
  { intros f. unfold write_steps. repeat (apply Forall_cons; split); [..|by apply Forall_nil];
      eexists; (split; [eauto|done]). }
  assert (∀ f, files (view w') !! f = files (view w) !! f) as Hfiles by (intros f; by eapply run_file).
  unfold write_steps in Hrun. apply run_cons in Hrun as (w1 & H1 & Hrun).
  destruct (run_write _ _ _ _ _ _ _ Pr H1 Hcr Hir) as [rest1 Hr1].
  assert (files (view w1) !! Manifest.full_name (Manifest.verity m) src = Some cv) as Hcv1.
  { rewrite <-Hcv. eapply (run_file [_]); [|cbn; by rewrite H1].
    repeat constructor. eexists. split; [by eauto|done]. }
  apply run_cons in Hrun as (w2 & H2 & Hrun).
  destruct (run_write _ _ _ _ _ _ _ Pv H2 Hcv1 Hiv) as [rest2 Hv2].
  split; [|split; [|done]].
  - exists rest1. eapply (run_lv (install_volume (volume v) (Manifest.verity m) src :: _));
      [|cbn [run_steps]; rewrite H2; exact Hrun|exact Hr1].
    repeat (apply Forall_cons; split); [..|by apply Forall_nil]; eexists; (split; [by eauto|cbn; congruence]).
  - exists rest2. eapply run_lv; [|exact Hrun|exact Hv2].
    repeat (apply Forall_cons; split); [..|by apply Forall_nil]; eexists; (split; [by eauto|cbn; congruence]).
Qed.

(** The renames and the boot entry: the volumes have their new names, the kernel
    is on the boot partition. *)
Lemma boot_steps_lv rt m src t legacy x : Forall (spares_lv x) (boot_steps rt m src t legacy).
Proof.
  unfold boot_steps. apply Forall_cons. split; [eexists; (split; [by eauto|done])|].
  destruct legacy; [|by apply Forall_nil].
  repeat (apply Forall_cons; split); [..|by apply Forall_nil]; eexists; (split; [by eauto|done]).
Qed.

Lemma boot_steps_kernel rt m src t legacy w w' :
  boot rt = "/boot" → run_steps (boot_steps rt m src t legacy) w = (Ok tt, w') →
  ∃ c, files (view w) !! Manifest.full_name (Manifest.kernel m) src = Some c ∧
    files (view w') !! uki_path rt t = Some c.
Proof.
  intros Hb Hrun. apply run_cons in Hrun as (w1 & H1 & Hrun).
  pose proof (run_achieves _ _ _ _ (c_install _ _) H1) as [_ (c & Hc & Hu)]. exists c. split; [done|].
  rewrite <-Hu. apply (run_file _ w1 w' (uki_path rt t)) in Hrun; [done|].
  destruct legacy; [|by apply Forall_nil]. apply migration_file; [done|].
  unfold loader_file, uki_path. rewrite Hb. cbn. by rewrite !bool_decide_eq_false_2.
Qed.

Lemma install_steps_images rt m src t r v legacy w w' cr cv ir iv :
  boot rt = "/boot" → plain (volume r) → plain (volume v) →
  Slot.kind r = Root → Slot.kind v = Verity → named r → named v →
  files (view w) !! Manifest.full_name (Manifest.store m) src = Some cr →
  image_of (Manifest.store m) cr = Some ir →
  files (view w) !! Manifest.full_name (Manifest.verity m) src = Some cv →
  image_of (Manifest.verity m) cv = Some iv →
  run_steps (install_steps rt m src t r v legacy) w = (Ok tt, w') →
  (∃ rest, lvs (view w') !! (vg_name (volume r), used_name Root t) = Some (ir +:+ rest)) ∧
  (∃ rest, lvs (view w') !! (vg_name (volume v), used_name Verity t) = Some (iv +:+ rest)) ∧
  ∃ ck, files (view w) !! Manifest.full_name (Manifest.kernel m) src = Some ck ∧
    files (view w') !! uki_path rt t = Some ck.
Proof.
  intros Hb Pr Pv Kr Kv Nr Nv Hcr Hir Hcv Hiv Hrun.
  pose proof (names_differ r v Kr Kv Nr Nv) as Hne.
  unfold install_steps in Hrun. rewrite Kr, Kv in Hrun. apply run_app in Hrun as (w1 & H1 & Hrun).
  destruct (write_steps_images m src r v w w1 cr cv ir iv) as ([rr Hr1] & [rv Hv1] & Hf1);
    try done; [by intros [=]|].
  apply run_cons in Hrun as (w2 & H2 & Hrun). apply run_cons in Hrun as (w3 & H3 & Hrun).
  pose proof (run_rename _ _ _ _ _ _ H2 Hr1) as Hr2.
  assert (∀ vg old new w w' x c, run_pipeline (lvrename vg old new) w = (Ok tt, w') → x ≠ (vg, old) →
    lvs (view w) !! x = Some c → lvs (view w') !! x = Some c) as Hkeep.
  { intros vg old new u u' x c Hr Hx. eapply (run_lv [_]); [|cbn; by rewrite Hr].
    eapply spares_one; [apply command_rename|]. cbn. congruence. }
  assert (lvs (view w2) !! volume_name (volume v) = Some (iv +:+ rv)) as Hv2.
  { eapply Hkeep; [exact H2| |exact Hv1]. unfold volume_name. congruence. }
  pose proof (run_rename _ _ _ _ _ _ H3 Hv2) as Hv3.
  assert (lvs (view w3) !! (vg_name (volume r), used_name Root t) = Some (ir +:+ rr)) as Hr3.
  { eapply Hkeep; [exact H3| |exact Hr2]. intros [= _ E]. destruct Nv as [Nv _].
    rewrite <-Nv in E. unfold Slot.display in E. rewrite Kv in E. by destruct (Slot.status v) as [|[]]. }
  split; [|split].
  - exists rr. by eapply run_lv; [apply boot_steps_lv|..].
  - exists rv. by eapply run_lv; [apply boot_steps_lv|..].
  - destruct (boot_steps_kernel _ _ _ _ _ _ _ Hb Hrun) as (ck & Hck & Hu). exists ck. split; [|done].
    rewrite <-Hf1, <-Hck.
    assert (∀ vg old new w w' f, run_pipeline (lvrename vg old new) w = (Ok tt, w') →
      files (view w') !! f = files (view w) !! f) as Hfk.
    { intros vg old new u u' f Hr. eapply (run_file [_]); [|cbn; by rewrite Hr].
      repeat constructor. by exists (Rename vg old new). }
    by rewrite (Hfk _ _ _ _ _ _ H3), (Hfk _ _ _ _ _ _ H2).
Qed.
End install.

(** ** Removing *)

(** The shape of a removal. *)
Definition unlink_steps (rt : Runtime) (g : SlotGroup) : list Pipeline :=
  option_list (to_remove <$> Group.boot g) ++
  (if is_legacy g then to_remove <$> keep Uki.is_legacy (boot_entries rt) else []).

Lemma remove_Ok rt v plan :
  remove rt v = Ok plan → ∃ g id, designates rt v g ∧ is_active g (kernel rt) = false ∧
    allocate_empty_identifier rt = Ok id ∧ steps plan = unlink_steps rt g ++ rename_slot_to_empty g id.
Proof.
  unfold remove. intros (g & Hg%find_slot_group_Ok & Hp)%bind_Ok. exists g.
  destruct (designates_version rt v g Hg) as (_ & w & Hv & _).
  destruct (is_active g (kernel rt)); [done|]. rewrite (version_no_empty_id g w Hv) in Hp.
  apply bind_Ok in Hp as (id & Hid & [= <-]). exists id. split_and!; [done..|].
  unfold unlink_steps. by rewrite <-app_assoc.
Qed.

Lemma unlink_step rt g p :
  p ∈ unlink_steps rt g → ∃ b, p = to_remove b ∧ command p (UnlinkEntry (id b)).
Proof.
  intros Hp. assert (∃ b, p = to_remove b) as [b ->]; [|exists b; split; [done|apply c_unlink]].
  apply elem_of_app in Hp as [Hp|Hp].
  - destruct (Group.boot g) as [b|]; [|by apply elem_of_nil in Hp].
    apply list_elem_of_singleton in Hp as ->. by exists b.
  - destruct (is_legacy g); [|by apply elem_of_nil in Hp].
    apply list_elem_of_fmap in Hp as (b & -> & _). by exists b.
Qed.

(** The renames, and the name a volume gets. *)
Definition empty_name (k : Kind) (id : string) : string := display_status k (Empty (Known id)).

Lemma rename_steps_eq g id :
  coherent g →
  rename_slot_to_empty g id =
  (λ s, lvrename (vg_name (volume s)) (lv_name (volume s)) (empty_name (Slot.kind s) id)) <$> group_slots g.
Proof.
  intros (Hr & Hv & _). unfold rename_slot_to_empty, group_slots. rewrite fmap_app. f_equal.
  - destruct (root g) as [r|] eqn:E; [|done]. cbn. by rewrite (Hr r).
  - destruct (verity g) as [r|] eqn:E; [|done]. cbn. by rewrite (Hv r).
Qed.

(** Volumes of two groups have different names. *)
Lemma other_group_name rt g h s s' :
  rt_ok rt → g ∈ slotgroups rt → h ∈ slotgroups rt → s ∈ group_slots g → s' ∈ group_slots h →
  g ≠ h → lv_name (volume s) ≠ lv_name (volume s').
Proof.
  intros Hrt Hg Hh Hs Hs' Hne E. apply Hne.
  destruct (rt_group rt g Hrt Hg) as (Cg & Ng & _), (rt_group rt h Hrt Hh) as (Ch & Nh & _).
  pose proof (same_name_status s s' (Ng s Hs) (Nh s' Hs') E) as Hst.
  destruct (coherent_slot g s Cg Hs) as [Kg _], (coherent_slot h s' Ch Hs') as [Kh _].
  eapply same_group; [apply Hrt|done|done|exact Kg|]. by rewrite Kh, Hst.
Qed.

Lemma version_slot_used g v s :
  coherent g → Group.version g = Some v → s ∈ group_slots g → Slot.status s = Used v.
Proof.
  intros Hc Hv Hs. pose proof (version_used g v s Hc Hv Hs) as Hu. unfold Slot.version in Hu.
  destruct (Slot.status s); by simplify_eq.
Qed.

(** An empty name is not the name of a volume in use. *)
Lemma empty_name_fresh rt id k s v :
  allocate_empty_identifier rt = Ok id → named s → Slot.status s = Used v →
  empty_name k id ≠ lv_name (volume s).
Proof.
  intros Hid Hn Hst E. pose proof (identifier_wf _ _ Hid) as Hwf.
  pose proof (same_name_status (mkSlot k (Empty (Known id)) (mkVolume (empty_name k id) "" None None)) s) as Hs.
  cbn in Hs. rewrite Hst in Hs. by discriminate Hs.
Qed.

Lemma group_names_distinct g :
  coherent g → (∀ s, s ∈ group_slots g → named s) → NoDup (volume_name ∘ volume <$> group_slots g).
Proof.
  intros (Hr & Hv & _) Hn. unfold group_slots in *.
  destruct (root g) as [r|], (verity g) as [v|]; cbn in *; repeat constructor; try set_solver.
  intros [= _ E]%list_elem_of_singleton. revert E.
  apply names_differ; auto; apply Hn; set_solver.
Qed.

Section remove.
Context `{Device W}.

Definition rename_empty (id : string) (s : Slot) : Pipeline :=
  lvrename (vg_name (volume s)) (lv_name (volume s)) (empty_name (Slot.kind s) id).

Lemma run_renames id L w w' :
  NoDup (volume_name ∘ volume <$> L) →
  (∀ s s', s ∈ L → s' ∈ L → (vg_name (volume s), empty_name (Slot.kind s) id) ≠ volume_name (volume s')) →
  run_steps (rename_empty id <$> L) w = (Ok tt, w') →
  ∀ s c, s ∈ L → lvs (view w) !! volume_name (volume s) = Some c →
    lvs (view w') !! (vg_name (volume s), empty_name (Slot.kind s) id) = Some c.
Proof.
  revert w. induction L as [|a L IH]; intros w Hnd Hne Hrun s c Hs Hc; [by apply elem_of_nil in Hs|].
  rewrite fmap_cons in Hnd. apply NoDup_cons in Hnd as [Ha Hnd].
  rewrite fmap_cons in Hrun. apply run_cons in Hrun as (w1 & H1 & Hrun).
  apply elem_of_cons in Hs as [->|Hs].
  - eapply run_lv; [|exact Hrun|by eapply run_rename]. apply Forall_fmap, Forall_forall. intros s' Hs'.
    exists (Rename (vg_name (volume s')) (lv_name (volume s')) (empty_name (Slot.kind s') id)).
    split; [apply command_rename|]. intros [= E1 E2]. apply (Hne a s'); [by left|by right|].
    unfold volume_name. congruence.
  - apply (IH w1); [done| |done|done|].
    + intros s1 s2 H1' H2'. apply Hne; by right.
    + eapply (run_lv [rename_empty id a]); [|cbn; by rewrite H1|exact Hc].
      eapply spares_one; [apply command_rename|]. intros [= E1 E2]. apply Ha.
      apply list_elem_of_fmap. exists s. split; [|done]. unfold compose, volume_name. congruence.
Qed.

(** A removal changes the volumes of the removed group only. *)
Lemma remove_spares rt g id x :
  coherent g → (∀ s, s ∈ group_slots g → x ≠ volume_name (volume s)) →
  Forall (spares_lv x) (unlink_steps rt g ++ rename_slot_to_empty g id).
Proof.
  intros Hc Hx. apply Forall_app. split.
  - apply Forall_forall. intros p (b & _ & Hp)%unlink_step. by exists (UnlinkEntry (Uki.id b)).
  - rewrite rename_steps_eq by done. apply Forall_fmap, Forall_forall. intros s Hs.
    eexists. split; [apply command_rename|]. intros [= <-]. by apply (Hx s).
Qed.

(** A removal unlinks the removed group's boot entry and, if the group is of the
    old layout, the old boot entries. *)
Lemma remove_spares_file rt g id f :
  coherent g → (∀ b, Group.boot g = Some b → entry_file (Uki.id b) f = false) →
  (is_legacy g = true → ∀ b, b ∈ boot_entries rt → Uki.kind b = LegacyEntry → entry_file (Uki.id b) f = false) →
  Forall (spares_file entry_file f) (unlink_steps rt g ++ rename_slot_to_empty g id).
Proof.
  intros Hc Hb Hl. apply Forall_app. split; [apply Forall_app; split|].
  - destruct (Group.boot g) as [b|]; [|by apply Forall_nil]. repeat constructor.
    exists (UnlinkEntry (Uki.id b)). split; [apply c_unlink|by apply Hb].
  - destruct (is_legacy g); [|by apply Forall_nil]. apply Forall_fmap, Forall_forall. intros b Hin.
    apply elem_of_keep in Hin as [Hin Hk]. exists (UnlinkEntry (Uki.id b)). split; [apply c_unlink|].
    apply Hl; [done..|]. unfold Uki.is_legacy in Hk. by destruct (Uki.kind b).
  - rewrite rename_steps_eq by done. apply Forall_fmap, Forall_forall. intros s Hs.
    eexists. split; [apply command_rename|done].
Qed.

(** What an unlinked entry consisted of stays away. *)
Lemma unlink_gone rt g id b f w w' :
  coherent g → Group.boot g = Some b → entry_file (Uki.id b) f = true →
  run_steps (unlink_steps rt g ++ rename_slot_to_empty g id) w = (Ok tt, w') →
  files (view w') !! f = None.
Proof.
  intros Hc Hb Hf Hrun. unfold unlink_steps in Hrun. rewrite Hb in Hrun. cbn [fmap option_fmap option_list] in Hrun.
  rewrite <-app_assoc in Hrun. apply run_cons in Hrun as (w1 & H1 & Hrun).
  pose proof (run_achieves _ _ _ _ (c_unlink _) H1) as [_ Hgone]. specialize (Hgone f Hf).
  refine (run_steps_inv (λ u, files (view u) !! f = None) _ _ w1 w' Hgone Hrun).
  intros p u u' Hp Hu Hr. apply elem_of_app in Hp as [Hp|Hp].
  - destruct (unlink_step rt g p) as (b' & _ & Hcmd); [apply elem_of_app; by right|].
    pose proof (run_achieves _ _ _ _ Hcmd Hr) as [[Hfr _] Hg].
    destruct (entry_file (Uki.id b') f) eqn:E; [by apply Hg|]. by rewrite Hfr.
  - rewrite rename_steps_eq in Hp by done. apply list_elem_of_fmap in Hp as (s & -> & _).
    pose proof (run_achieves _ _ _ _ (command_rename _ _ _) Hr) as [[Hfr _] _]. by rewrite Hfr.
Qed.
End remove.

(** An install that ended. *)
Lemma installed_image `{Device W} (w w' : W)
    vols cmdline bootctl rt m t source plan cr cv ir iv :
  Runtime.new vols cmdline bootctl = Ok rt → plain_rt rt → Manifest.to_version m = Ok t →
  install rt m source = Ok plan → steps plan ≠ [] →
  files (view w) !! Manifest.full_name (Manifest.store m) source = Some cr →
  image_of (Manifest.store m) cr = Some ir →
  files (view w) !! Manifest.full_name (Manifest.verity m) source = Some cv →
  image_of (Manifest.verity m) cv = Some iv →
  run_plan plan w = (Ok tt, w') →
  ∃ vg vg' rest rest' ck,
    lvs (view w') !! (vg, used_name Root t) = Some (ir +:+ rest) ∧
    lvs (view w') !! (vg', used_name Verity t) = Some (iv +:+ rest') ∧
    files (view w) !! Manifest.full_name (Manifest.kernel m) source = Some ck ∧
    files (view w') !! ("/boot/EFI/Linux/" +:+ Uki.display (mkUki t None)) = Some ck.
Proof.
  intros Hnew Hpl Ht Hi Hne Hcr Hir Hcv Hiv Hrun.
  pose proof (new_ok _ _ _ _ Hnew) as Hrt. pose proof (new_boot _ _ _ _ Hnew) as Hb.
  destruct (install_plan_Ok rt m t source plan Hrt Ht Hi)
    as [[_ ?]|(slot & pre & r & v & a & Hs & Hr & Hv & _ & Kr & Kv & Nr & Nv & Hst)]; [done|].
  unfold run_plan in Hrun. rewrite Hst in Hrun. apply run_app in Hrun as (w1 & H1 & Hrun).
  assert (r ∈ group_slots slot ∧ v ∈ group_slots slot) as [Hri Hvi].
  { unfold group_slots. rewrite Hr, Hv. set_solver. }
  assert (∀ f, files (view w1) !! f = files (view w) !! f) as Hf.
  { intros f. eapply run_file; [|exact H1]. eapply prepares_file, pre_prepares; done. }
  destruct (install_steps_images rt m source t r v (is_legacy a) w1 w' cr cv ir iv)
    as ([rest Hlr] & [rest' Hlv] & ck & Hk & Hu); try done;
    [by eapply selected_plain|by eapply selected_plain|by rewrite Hf..|].
  exists (vg_name (volume r)), (vg_name (volume v)), rest, rest', ck. rewrite <-Hf.
  unfold uki_path in Hu. by rewrite Hb in Hu.
Qed.
End Device.

(** ** A simulated device *)

Module SimDevice.
Import Pipeline Lvm Slot Uki Group Runtime Plan Device.

(** Reading command lines back. *)
Definition dm_decode (p : string) : option lv_id :=
  rest ← strip_prefix "/dev/mapper/" p;
  '(a, b) ← split_once "-" rest;
  if has_char "-" b then None else Some (a, b).

Definition meaning1 (c : CommandSpec) : option Effect :=
  match bool_decide (program c = "dd"), args c with
  | true, [i; o; _; _] =>
      i ← strip_prefix "if=" i; o ← strip_prefix "of=" o; v ← dm_decode o; Some (Overwrite v i false)
  | true, _ => None
  | false, l =>
      if bool_decide (program c = "blockdev") then Some Flush
      else if bool_decide (program c = "lvrename") then
        match l with [vg; old; new] => Some (Rename vg old new) | _ => None end
      else if bool_decide (program c = "lvcreate") then
        match l with [_; _; _; _; _; _; lv; vg] => Some (Create (vg, lv)) | _ => None end
      else if bool_decide (program c = "lvresize") then
        match l with [_; _; _; p] => Resize <$> split_once "/" p | _ => None end
      else if bool_decide (program c = "install") then
        match l with [_; _; src; dst] => Some (CopyFile src dst) | _ => None end
      else if bool_decide (program c = "sed") then
        match l with [_; _; f] => Some (EditFile f) | _ => None end
      else if bool_decide (program c = "rm") then
        match l with [_; f] => Some (RemoveFile f) | _ => None end
      else if bool_decide (program c = "bootctl") then
        match l with
        | [verb; id] => Some (if bool_decide (verb = "unlink") then UnlinkEntry id else SetDefault)
        | _ => None
        end
      else None
  end.
Definition meaning (p : Pipeline) : option Effect :=
  match stages p with
  | [c] => meaning1 c
  | [c; d] =>
      match args c, args d with
      | [i], [o; _; _] => o ← strip_prefix "of=" o; v ← dm_decode o; Some (Overwrite v i true)
      | _, _ => None
      end
  | _ => None
  end.

(** A compressed file begins with [z]; a boot entry is one file. *)
Definition sim_unzstd (c : string) : option string := strip_prefix "z" c.
Definition sim_entry (id f : string) : bool := bool_decide (f = "/boot/EFI/Linux/" +:+ id).

(** Writing over the beginning of a volume. *)
Definition write_over (old img : string) : string := img +:+ drop_bytes (String.length img) old.

Definition apply (e : Effect) (d : Disk) : res unit * Disk :=
  let failed : res unit * Disk := (bail "command failed", d) in
  match e with
  | Overwrite v i zstd =>
      match lvs d !! v, files d !! i with
      | Some old, Some c =>
          (Ok tt, mkDisk (<[v := write_over old (if zstd then default "" (sim_unzstd c) else c)]> (lvs d)) (files d))
      | Some old, None => if zstd then (Ok tt, d) else failed
      | None, _ => failed
      end
  | Flush | EditFile _ | SetDefault => (Ok tt, d)
  | Resize v => match lvs d !! v with Some _ => (Ok tt, d) | None => failed end
  | Rename vg old new =>
      match lvs d !! (vg, old), lvs d !! (vg, new) with
      | Some c, None => (Ok tt, mkDisk (<[(vg, new) := c]> (delete (vg, old) (lvs d))) (files d))
      | _, _ => failed
      end
  | Create v =>
      match lvs d !! v with
      | Some _ => failed
      | None => (Ok tt, mkDisk (<[v := ""]> (lvs d)) (files d))
      end
  | CopyFile src dst =>
      match files d !! src with
      | Some c => (Ok tt, mkDisk (lvs d) (<[dst := c]> (files d)))
      | None => failed
      end
  | RemoveFile f => (Ok tt, mkDisk (lvs d) (delete f (files d)))
  | UnlinkEntry id => (Ok tt, mkDisk (lvs d) (delete ("/boot/EFI/Linux/" +:+ id) (files d)))
  end.
#[export] Instance sim_executor : Executor Disk := λ p d,
  match meaning p with Some e => apply e d | None => (bail "unknown command", d) end.

Lemma hyphens_split a b s t :
  has_char "-" a = false → has_char "-" b = false →
  double_hyphens s +:+ String "-" (double_hyphens t) = a +:+ String "-" b → s = a ∧ t = b.
Proof.
  intros Ha Hb. revert a Ha. induction s as [|c s IH]; intros a Ha.
  - destruct a as [|c a]; cbn; intros [= E].
    + split; [done|]. assert (has_char "-" t = false) as Ht; [|by rewrite double_hyphens_plain in E].
      rewrite <-E in Hb. clear -Hb. induction t as [|c t IH]; [done|]. cbn in Hb.
      case_bool_decide as Hc; [by subst; apply has_char_cons_false in Hb as [? _]|].
      apply has_char_cons_false in Hb as [? Hb]. cbn. rewrite bool_decide_eq_false_2 by done. by apply IH.
    + subst. by apply has_char_cons_false in Ha as [? _].
  - cbn. case_bool_decide as Hc.
    + subst. destruct a as [|x a]; cbn; intros [= E].
      * subst b. by apply has_char_cons_false in Hb as [? _].
      * subst. by apply has_char_cons_false in Ha as [? _].
    + destruct a as [|x a]; cbn; intros [= E1 E2]; [done|]. subst x.
      apply has_char_cons_false in Ha as [_ Ha]. destruct (IH a Ha E2) as [-> ->]. done.
Qed.

Lemma dm_decode_path v v' : dm_decode (dm_path v) = Some v' → v' = v.
Proof.
  unfold dm_decode, dm_path. rewrite strip_prefix_app. cbn [mbind option_bind].
  intros ([a b] & Hs & Hb)%bind_Some. destruct (has_char "-" b) eqn:Eb; [done|]. simplify_eq.
  apply split_once_Some in Hs as [E Ea]. destruct v as [g l]. cbn [fst snd] in E.
  by apply hyphens_split in E as [-> ->].
Qed.

Lemma meaning_command p e e' : command p e → meaning p = Some e' → e' = e.
Proof.
  destruct 1 as [v i Hv|v i Hv|v Hv|vg old new|vg lv size|vg lv size Hv|src dst|script f|f| |id];
    unfold meaning, meaning1; cbn [stages line program args bool_decide]; try by intros [= <-].
  - rewrite !strip_prefix_app. cbn [mbind option_bind]. intros (v' & ->%dm_decode_path & [= <-])%bind_Some. done.
  - rewrite strip_prefix_app. cbn [mbind option_bind]. intros (v' & ->%dm_decode_path & [= <-])%bind_Some. done.
  - destruct Hv as (Hv & _). cbn in Hv. change (vg +:+ "/" +:+ lv) with (vg +:+ String "/" lv).
    rewrite split_once_app by done. by intros [= <-].
Qed.
Lemma apply_torn e d r d' : apply e d = (r, d') → torn sim_entry e d d'.
Proof.
  assert (∀ e, torn sim_entry e d d) as Hrefl.
  { intros e'. split; [done|]. destruct e'; try done; by left. }
  destruct e as [v i z| |vg old new|v|v|src dst|f|f| |id]; unfold apply.
  - destruct (lvs d !! v) as [old|] eqn:Ev, (files d !! i) as [c|], z; intros [= _ <-]; try apply Hrefl.
    all: split; [done|right; eauto].
  - intros [= _ <-]. apply Hrefl.
  - destruct (lvs d !! (vg, old)) as [c|] eqn:Eo, (lvs d !! (vg, new)) eqn:En; intros [= _ <-]; try apply Hrefl.
    split; [done|right]. by exists c.
  - destruct (lvs d !! v) eqn:Ev; intros [= _ <-]; [apply Hrefl|]. split; [done|right; eauto].
  - destruct (lvs d !! v); intros [= _ <-]; apply Hrefl.
  - destruct (files d !! src); intros [= _ <-]; [|apply Hrefl]. split; [|done]. intros p Hp.
    cbn in *. case_bool_decide; [done|]. by rewrite lookup_insert_ne.
  - intros [= _ <-]. apply Hrefl.
  - intros [= _ <-]. split; [|done]. intros p Hp. cbn in *. case_bool_decide; [done|]. by rewrite lookup_delete_ne.
  - intros [= _ <-]. apply Hrefl.
  - intros [= _ <-]. split; [|done]. intros p Hp. unfold may_write, sim_entry in Hp. cbn [files].
    case_bool_decide; [done|]. by rewrite lookup_delete_ne.
Qed.

Lemma apply_achieves e d d' : apply e d = (Ok tt, d') → achieves sim_unzstd sim_entry e d d'.
Proof.
  intros E. split; [by eapply apply_torn|]. revert E.
  destruct e as [v i z| |vg old new|v|v|src dst|f|f| |id]; unfold apply; try done.
  - destruct (lvs d !! v) as [old|] eqn:Ev, (files d !! i) as [c|] eqn:Ei, z; intros [= <-]; try done; cbn.
    + rewrite lookup_insert_eq. split; [by eauto|]. intros c' im [= <-] ->. by eexists.
    + rewrite lookup_insert_eq. by repeat eexists.
  - destruct (lvs d !! (vg, old)) as [c|] eqn:Eo, (lvs d !! (vg, new)) eqn:En; intros [= <-]; try done. by exists c.
  - destruct (lvs d !! v) eqn:Ev; intros [= <-]. cbn. rewrite lookup_insert_eq. by eauto.
  - destruct (files d !! src) as [c|] eqn:Es; intros [= <-]. exists c. cbn. by rewrite lookup_insert_eq.
  - intros [= <-]. cbn. by rewrite lookup_delete_eq.
  - intros [= <-] p Hp. apply bool_decide_eq_true in Hp as ->. cbn. by rewrite lookup_delete_eq.
Qed.

(** The simulated device keeps the promises; a power cut can leave whatever the
    command can leave. *)
#[export] Program Instance sim_device : Device Disk := {
  view := λ d, d; unzstd := sim_unzstd; entry_file := sim_entry;
  cut p d d' := ∃ e, meaning p = Some e ∧ torn sim_entry e d d'
}.
Next Obligation.
  intros p e w w' Hp. unfold run_pipeline, sim_executor. destruct (meaning p) as [e'|] eqn:E; [|done].
  apply (meaning_command _ _ _ Hp) in E as ->. apply apply_achieves.
Qed.
Next Obligation.
  intros p e w r w' Hp. unfold run_pipeline, sim_executor. destruct (meaning p) as [e'|] eqn:E.
  - apply (meaning_command _ _ _ Hp) in E as ->. intros Hr _. by eapply apply_torn.
  - intros [= _ <-] _. split; [done|]. destruct e; try done; by left.
Qed.
Next Obligation.
  intros p e w w' Hp (e' & E & Ht). apply (meaning_command _ _ _ Hp) in E as ->. done.
Qed.
End SimDevice.

(** ** Properties *)

Module DeviceProps.
Import Pipeline Lvm Slot Uki Group Runtime Plan Device.

(** C2: An install can stop anywhere: at every moment of running an install
    plan - between two steps, after a step that failed, or when the power is
    cut during one - every volume that held an installed image, the running
    one's included, has its name and its contents, and so has every volume but
    the selected pair; no file has changed but the new boot entry's and, only if
    a volume of the running system has no verity hash in its name,
    [loader.conf], [entries.srel] and the temporary files of the edit in
    [/boot/loader].  Relied on: each tool touches what its manual says and no
    more, also when it fails or is cut off ([Device]); volume groups and empty
    volumes have names without hyphens ([plain_rt]). *)
Theorem install_interrupted_safe `{Device W} (w w' : W)
    vols cmdline bootctl rt m t source plan :
  Runtime.new vols cmdline bootctl = Ok rt → plain_rt rt → Manifest.to_version m = Ok t →
  install rt m source = Ok plan → moment (steps plan) w w' →
  (∀ s c, s ∈ all_slots (slotgroups rt) → Slot.is_used s = true →
     lvs (view w) !! volume_name (volume s) = Some c →
     lvs (view w') !! volume_name (volume s) = Some c) ∧
  (∀ x c, (∀ slot pre s, select_update_slot rt m = Ok (Selected slot pre) → s ∈ group_slots slot →
             x ≠ volume_name (volume s)) →
     lvs (view w) !! x = Some c → lvs (view w') !! x = Some c) ∧
  (∀ f, f ≠ "/boot/EFI/Linux/" +:+ Uki.display (mkUki t None) →
     (loader_config f → ∀ a s, active_slot rt = Ok a → s ∈ group_slots a → ¬ old_layout s) →
     files (view w') !! f = files (view w) !! f).
Proof.
  intros Hnew Hpl Ht Hi Hm. pose proof (new_ok _ _ _ _ Hnew) as Hrt. pose proof (new_boot _ _ _ _ Hnew) as Hb.
  destruct (install_spares vols cmdline bootctl rt m t source plan) as [Hlv Hfile]; [done..|].
  assert (∀ x c, (∀ slot pre s, select_update_slot rt m = Ok (Selected slot pre) → s ∈ group_slots slot →
             x ≠ volume_name (volume s)) →
     lvs (view w) !! x = Some c → lvs (view w') !! x = Some c) as Hx.
  { intros x c Hx. eapply moment_lv; [by apply Hlv | done]. }
  split_and!; [|done|].
  - intros s c Hs Hu. apply Hx. intros slot pre s' Hsel Hs' E.
    destruct (select_disjoint rt m t slot pre Hrt Ht Hsel) as (_ & _ & _ & Hd).
    apply (Hd s s' Hs Hu Hs'). unfold volume_name in E. congruence.
  - intros f Hf Hl. eapply moment_file; [|done]. apply Hfile.
    + unfold uki_path. by rewrite Hb.
    + intros a Ha (s & Hs & Ho)%is_legacy_iff. destruct (loader_file rt f) eqn:E; [|done].
      by destruct (Hl (loader_file_config rt f Hb E) a s Ha Hs).
Qed.

(** An install that ended has written the image: both volumes are there under
    the names of the new version, beginning with the bytes of the manifest's
    root and verity images - decompressed if the files are compressed - and the
    boot partition has the kernel under the name that makes it a boot entry of
    this version. *)
Theorem install_writes_image `{Device W} (w w' : W)
    vols cmdline bootctl rt m t source plan cr cv ir iv :
  Runtime.new vols cmdline bootctl = Ok rt → plain_rt rt → Manifest.to_version m = Ok t →
  install rt m source = Ok plan → steps plan ≠ [] →
  files (view w) !! Manifest.full_name (Manifest.store m) source = Some cr →
  image_of (Manifest.store m) cr = Some ir →
  files (view w) !! Manifest.full_name (Manifest.verity m) source = Some cv →
  image_of (Manifest.verity m) cv = Some iv →
  run_plan plan w = (Ok tt, w') →
  ∃ vg vg' rest rest' ck,
    lvs (view w') !! (vg, used_name Root t) = Some (ir +:+ rest) ∧
    lvs (view w') !! (vg', used_name Verity t) = Some (iv +:+ rest') ∧
    files (view w) !! Manifest.full_name (Manifest.kernel m) source = Some ck ∧
    files (view w') !! ("/boot/EFI/Linux/" +:+ Uki.display (mkUki t None)) = Some ck.
Proof. apply installed_image. Qed.

(** C10: A removal frees its slot and nothing else: at every moment of running
    it - also after a failed step or a power cut - the volumes of all other
    groups, the running one's among them, have their names and contents, and no
    file has changed that belongs neither to the removed group's boot entry nor,
    if a volume of the removed group has no verity hash in its name, to a boot
    entry of the old kind (type 1); when it has ended, the volumes of the
    removed group have the names of an empty pair with an identifier that no
    empty volume had, and the files of its boot entry are gone.  Relied on of the
    tools is the class [Device]. *)
Theorem remove_frees_slot `{Device W} (w w' : W) vols cmdline bootctl rt v plan :
  Runtime.new vols cmdline bootctl = Ok rt → remove rt v = Ok plan →
  ∃ g id, designates rt v g ∧ is_active g (kernel rt) = false ∧ (id ∉ used_ids rt) ∧
    (moment (steps plan) w w' → ∀ h s c, h ∈ slotgroups rt → h ≠ g → s ∈ group_slots h →
       lvs (view w) !! volume_name (volume s) = Some c → lvs (view w') !! volume_name (volume s) = Some c) ∧
    (moment (steps plan) w w' → ∀ f,
       (∀ b, Group.boot g = Some b → entry_file (Uki.id b) f = false) →
       ((∃ s, s ∈ group_slots g ∧ old_layout s) →
          ∀ b, b ∈ boot_entries rt → Uki.kind b = LegacyEntry → entry_file (Uki.id b) f = false) →
       files (view w') !! f = files (view w) !! f) ∧
    (run_plan plan w = (Ok tt, w') →
       (∀ s c, s ∈ group_slots g → lvs (view w) !! volume_name (volume s) = Some c →
          lvs (view w') !! (vg_name (volume s), empty_name (Slot.kind s) id) = Some c) ∧
       (∀ b f, Group.boot g = Some b → entry_file (Uki.id b) f = true → files (view w') !! f = None)).
Proof.
  intros Hnew Hrm. pose proof (new_ok _ _ _ _ Hnew) as Hrt.
  destruct (remove_Ok rt v plan Hrm) as (g & id & Hg & Ha & Hid & Hst).
  destruct (designates_version rt v g Hg) as (Hin & ver & Hver & _).
  destruct (rt_group rt g Hrt Hin) as (Hc & Hn & _).
  exists g, id. split; [done|]. split; [done|]. split; [by apply allocate_Ok in Hid as (? & _ & _ & ? & _)|].
  rewrite Hst. unfold run_plan. rewrite Hst. split_and!.
  - intros Hm h s c Hh Hne Hs. eapply moment_lv; [|exact Hm]. apply remove_spares; [done|].
    intros s' Hs' E. eapply (other_group_name rt h g s s'); [done..|]. unfold volume_name in E. congruence.
  - intros Hm f Hb Hl. eapply moment_file; [|exact Hm]. apply remove_spares_file; [done..|].
    rewrite is_legacy_iff. done.
  - intros Hrun. split; [|intros b f Hb Hf; by eapply unlink_gone].
    rewrite rename_steps_eq in Hrun by done. apply run_app in Hrun as (w1 & H1 & Hrun).
    intros s c Hs Hc0. eapply (run_renames id (group_slots g) w1); [| |exact Hrun|exact Hs|].
    + by apply group_names_distinct.
    + intros s1 s2 Hs1 Hs2 [= _ E]. eapply empty_name_fresh; [exact Hid|by apply Hn| |exact E].
      by eapply version_slot_used.
    + eapply run_lv; [|exact H1|exact Hc0]. apply Forall_forall. intros p (b & _ & Hp)%unlink_step.
      by exists (UnlinkEntry (Uki.id b)).
Qed.

Import SimDevice RuntimeProps PlanProps.

(** A concrete device: version 1.0 is running, one pair is empty, the files of
    version 2.0 are in [/tmp/ota]. *)
Definition ex_boot (v : string) : string := "/boot/EFI/Linux/ghaf-" +:+ v +:+ "-0123456789abcdef.efi".
Definition ex_disk : Disk := {|
  lvs := {[ ("pool", "root_1.0_0123456789abcdef") := "old root";
            ("pool", "verity_1.0_0123456789abcdef") := "old verity";
            ("pool", "root_empty_0") := "0000000000"; ("pool", "verity_empty_0") := "0000000000";
            ("pool", "swap") := "swapped" ]};
  files := {[ "/tmp/ota/root.zst" := "znew root"; "/tmp/ota/verity.zst" := "znew ver";
              "/tmp/ota/kernel.efi" := "kernel 2"; ex_boot "1.0" := "kernel 1" ]}
|}.
Definition ex_disk' : Disk := snd (run_plan ex_plan ex_disk).

Lemma ex_plain : plain_rt ex_rt.
Proof.
  assert (Forall (λ s, (vg_name (volume s) = "pool") ∧
    (Slot.is_empty s = true → has_char "-" (lv_name (volume s)) = false)) (all_slots (slotgroups ex_rt))) as H.
  { vm_compute. repeat constructor. }
  rewrite Forall_forall in H. intros s Hs. destruct (H s Hs) as [-> He]. split; [|done]. by vm_compute.
Qed.

(** The power is cut while the root image is written. *)
Definition ex_torn : Disk := mkDisk (<[("pool", "root_empty_0") := "new 0000"]> (lvs ex_disk)) (files ex_disk).

Lemma ex_torn_moment l : take 3 l = take 3 (steps ex_plan) → moment l ex_disk ex_torn.
Proof.
  intros Hl. rewrite <-(take_drop 3 l), Hl.
  apply (moment_app (take 2 (steps ex_plan)) (nth 2 (steps ex_plan) (mkPipeline []) :: drop 3 l) ex_disk ex_disk);
    [vm_compute; reflexivity|].
  apply m_cut. exists (Overwrite ("pool", "root_empty_0") "/tmp/ota/root.zst" true).
  split; [vm_compute; reflexivity|]. split; [reflexivity|right]. exists "0000000000", "new 0000".
  split; [vm_compute; reflexivity | reflexivity].
Qed.

Lemma install_interrupted_safe_witness :
  moment (steps ex_plan) ex_disk ex_torn ∧
  lvs ex_torn !! ("pool", "root_1.0_0123456789abcdef") = Some "old root" ∧
  files ex_torn !! ex_boot "1.0" = Some "kernel 1".
Proof.
  pose proof (ex_torn_moment (steps ex_plan) eq_refl) as Hm.
  destruct (install_interrupted_safe ex_disk ex_torn ex_volumes ex_cmdline ex_bootctl ex_rt (ex_manifest "2.0")
    (ex_target "2.0") "/tmp/ota" ex_plan) as (_ & Hlv & Hf).
  - exact ex_rt_new.
  - exact ex_plain.
  - vm_compute; reflexivity.
  - vm_compute; reflexivity.
  - exact Hm.
  - split; [exact Hm|]. split.
    + apply Hlv; [|vm_compute; reflexivity]. intros slot pre s Hs Hin E.
      assert (Some slot = Some ex_selected) as [= ->].
      { unfold ex_selected. by rewrite Hs. }
      assert (Forall (λ s, volume_name (volume s) ≠ ("pool", "root_1.0_0123456789abcdef"))
        (group_slots ex_selected)) as Hall.
      { vm_compute. repeat constructor; discriminate. }
      rewrite Forall_forall in Hall. by apply (Hall s Hin).
    + rewrite Hf; [vm_compute; reflexivity | vm_compute; discriminate |].
      intros [E|[E|E]]; vm_compute in E; discriminate E.
Defined.

Lemma install_writes_image_witness :
  ∃ rest rest' ck,
    lvs ex_disk' !! ("pool", "root_2.0_0123456789abcdef") = Some ("new root" +:+ rest) ∧
    lvs ex_disk' !! ("pool", "verity_2.0_0123456789abcdef") = Some ("new ver" +:+ rest') ∧
    files ex_disk' !! ex_boot "2.0" = Some ck.
Proof.
  destruct (install_writes_image ex_disk ex_disk' ex_volumes ex_cmdline ex_bootctl ex_rt (ex_manifest "2.0")
    (ex_target "2.0") "/tmp/ota" ex_plan "znew root" "znew ver" "new root" "new ver")
    as (vg & vg' & rest & rest' & ck & Hr & Hv & _ & Hk).
  - exact ex_rt_new.
  - exact ex_plain.
  - vm_compute; reflexivity.
  - vm_compute; reflexivity.
  - vm_compute; discriminate.
  - vm_compute; reflexivity.
  - vm_compute; reflexivity.
  - vm_compute; reflexivity.
  - vm_compute; reflexivity.
  - vm_compute; reflexivity.
  - assert (∀ g n c, lvs ex_disk' !! (g, n) = Some c → g = "pool") as Hpool.
    { intros g n c Hc. apply elem_of_map_to_list in Hc.
      assert (Forall (λ x : lv_id * string, x.1.1 = "pool") (map_to_list (lvs ex_disk'))) as Hall.
      { vm_compute. repeat constructor. }
      rewrite Forall_forall in Hall. exact (Hall _ Hc). }
    pose proof (Hpool _ _ _ Hr). pose proof (Hpool _ _ _ Hv). subst vg vg'.
    exists rest, rest', ck. split; [exact Hr|]. split; [exact Hv | exact Hk].
Defined.

(** The device after the install, its new boot entry listed by [bootctl]. *)
Definition ex_bootctl2 : list Bootctl.BootctlItem :=
  ex_bootctl ++ [ex_item "type2" "ghaf-2.0-0123456789abcdef.efi"].
Definition volumes_of (d : Disk) : list Volume :=
  (λ x, mkVolume x.1.2 x.1.1 None (Some 1024%Z)) <$> map_to_list (lvs d).
Definition ex_rt2 : Runtime :=
  match Runtime.new (volumes_of ex_disk') ex_cmdline ex_bootctl2 with Ok rt => rt | _ => ex_rt end.
Definition ex_removal : Plan :=
  match remove ex_rt2 (ex_target "2.0") with Ok p => p | _ => mkPlan [] end.
Definition ex_removed : Disk := snd (run_plan ex_removal ex_disk').

Lemma remove_frees_slot_witness :
  ∃ g id, designates ex_rt2 (ex_target "2.0") g ∧
    ∀ s c, s ∈ group_slots g → lvs ex_disk' !! volume_name (volume s) = Some c →
      lvs ex_removed !! (vg_name (volume s), empty_name (Slot.kind s) id) = Some c.
Proof.
  destruct (remove_frees_slot ex_disk' ex_removed (volumes_of ex_disk') ex_cmdline ex_bootctl2 ex_rt2
    (ex_target "2.0") ex_removal) as (g & id & Hg & _ & _ & _ & _ & H).
  - vm_compute; reflexivity.
  - vm_compute; reflexivity.
  - destruct H as [H _]; [vm_compute; reflexivity|]. exists g, id. split; [exact Hg | exact H].
Defined.

(** ** States an interrupted install leaves *)

(** Finding: the device file of a volume is not the one LVM makes if its group
    or its name has a hyphen: LVM doubles it. *)
Lemma device_file_hyphens :
  device_file (mkVolume "root_empty_0" "my-pool" None None) = "/dev/mapper/my-pool-root_empty_0" ∧
  dm_path ("my-pool", "root_empty_0") = "/dev/mapper/my--pool-root_empty_0".
Proof. split; vm_compute; reflexivity. Qed.

(** Finding: the decompressor's failure goes unnoticed, because a pipeline's
    status is that of [dd]: with a file that does not decompress the install
    ends with success, the new version's volume holding what was there before,
    and the boot entry in place. *)
Definition ex_garbled : Disk := mkDisk (lvs ex_disk) (<["/tmp/ota/root.zst" := "garbled"]> (files ex_disk)).
Lemma garbled_image_installs :
  let '(r, d) := run_plan ex_plan ex_garbled in
  r = Ok tt ∧ lvs d !! ("pool", "root_2.0_0123456789abcdef") = Some "0000000000" ∧
  files d !! ex_boot "2.0" = Some "kernel 2".
Proof. vm_compute. auto. Qed.

(** The device as it is when the power is cut before step [n], and what a later
    run of the updater finds there. *)
Definition ex_before (n : nat) : Disk := snd (run_steps (take n (steps ex_plan)) ex_disk).
Definition ex_reread (n : nat) : res Runtime := Runtime.new (volumes_of (ex_before n)) ex_cmdline ex_bootctl.

(** Finding: after a power cut between the renames and the copy of the kernel
    the next install of the version does nothing, for the volumes have the
    version's names, and it has no boot entry. *)
Lemma cut_before_kernel_stays :
  (rt ← ex_reread 8; install rt (ex_manifest "2.0") "/tmp/ota") = Ok (mkPlan []) ∧
  files (ex_before 8) !! ex_boot "2.0" = None.
Proof. vm_compute. auto. Qed.

(** Finding: after a power cut between the two renames no later install of the
    version can end: it prepares another pair, writes it, and fails to give the
    root volume the name that the first attempt's has. *)
Definition ex_retry : res unit * Disk :=
  match rt ← ex_reread 7; install rt (ex_manifest "2.0") "/tmp/ota" with
  | Ok p => run_plan p (ex_before 7)
  | _ => (Ok tt, ex_before 7)
  end.
Lemma cut_between_renames_blocks :
  is_ok (fst ex_retry) = false ∧
  lvs (snd ex_retry) !! ("pool", "root_2.0_0123456789abcdef") = Some "new root00" ∧
  lvs (snd ex_retry) !! ("pool", "root_empty_1") = Some "new root" ∧
  files (snd ex_retry) !! ex_boot "2.0" = None.
Proof. vm_compute. auto. Qed.
End DeviceProps.
