(* ===== verification/ImageResume.v ===== *)
(** * Trying an interrupted install again ([image/runtime.rs], [image/plan.rs])

    Until its first rename an install changes no volume's name.  What the
    updater makes of the volumes it reads depends on sizes and attributes only
    in the steps that resize: everything else commutes with [bare], which
    forgets them.  So after an interruption the updater, started again, plans
    the same install into the same pair. *)

From S2P Require Import Prelude RustStr RustInt RustPath ImagePipeline.
From S2P Require Import ImageSlot ImageUki ImageManifest ImageGroup ImageRuntime ImagePlan ImageDevice.

Module Resume.
Import Pipeline Lvm Slot Uki Group Runtime Plan Device.

(** Forgetting sizes and attributes. *)
Definition bare (v : Volume) : Volume := mkVolume (lv_name v) (vg_name v) None None.
Definition bare_slot (s : Slot) : Slot := mkSlot (Slot.kind s) (status s) (bare (volume s)).
Definition bare_group (g : SlotGroup) : SlotGroup :=
  mkGroup (bare_slot <$> root g) (bare_slot <$> verity g) (Group.boot g).
Definition bare_rt (rt : Runtime) : Runtime :=
  mkRuntime (bare_group <$> slotgroups rt) (bare <$> volumes rt) (kernel rt) (boot_entries rt) (Runtime.boot rt).

Lemma bare_names (vols vols' : list Volume) : volume_name <$> vols = volume_name <$> vols' → bare <$> vols = bare <$> vols'.
Proof.
  revert vols'. induction vols as [|v vols IH]; intros [|v' vols']; cbn; [done..|].
  intros [= Hg Hl E]. f_equal; [|by apply IH]. unfold bare. by rewrite Hg, Hl.
Qed.

(** ** Grouping *)

Lemma from_volumes_bare (vols : list Volume) :
  from_volumes (bare <$> vols) = (bare_slot <$> (from_volumes vols).1, bare <$> (from_volumes vols).2).
Proof.
  induction vols as [|v vols IH]; [done|]. cbn. rewrite IH. destruct (from_volumes vols) as [ss us].
  by destruct (decode_status (lv_name v)) as [[k st]| |].
Qed.

Lemma matches_slot_bare g s : matches_slot (bare_group g) (bare_slot s) = matches_slot g s.
Proof. unfold matches_slot. cbn. by destruct (root g), (verity g). Qed.

Lemma attach_slot_bare g s : attach_slot (bare_group g) (bare_slot s) = bare_group <$> attach_slot g s.
Proof. unfold attach_slot. cbn. by destruct (Slot.kind s), (root g), (verity g). Qed.

Lemma add_slot_bare s (gs : list SlotGroup) : add_slot (bare_slot s) (bare_group <$> gs) = fmap (M:=list) bare_group <$> add_slot s gs.
Proof.
  induction gs as [|g gs IH]; cbn.
  - rewrite (attach_slot_bare default_group s : attach_slot default_group (bare_slot s) = _).
    by destruct (attach_slot default_group s).
  - rewrite matches_slot_bare. destruct (matches_slot g s).
    + rewrite attach_slot_bare. by destruct (attach_slot g s).
    + change (list_fmap _ _ bare_group gs) with (bare_group <$> gs). rewrite IH. by destruct (add_slot s gs).
Qed.

Lemma matches_boot_bare g b : matches_boot (bare_group g) b = matches_boot g b.
Proof. unfold matches_boot. cbn. by destruct (root g), (verity g). Qed.

Lemma add_boot_bare b (gs : list SlotGroup) : add_boot b (bare_group <$> gs) = fmap (M:=list) bare_group <$> add_boot b gs.
Proof.
  induction gs as [|g gs IH]; cbn; [done|]. rewrite matches_boot_bare. destruct (matches_boot g b).
  - destruct (Group.boot g); cbn; [by destruct (boot_version b) | done].
  - change (list_fmap _ _ bare_group gs) with (bare_group <$> gs). rewrite IH. by destruct (add_boot b gs).
Qed.

(** A fold commutes with a map its steps commute with. *)
Lemma foldM_fmap {A B C D} (f : A → B → res A) (f' : C → D → res C) (h : A → C) (k : B → D) l a :
  (∀ a b, f' (h a) (k b) = h <$> f a b) → foldM_res f' (h a) (k <$> l) = h <$> foldM_res f a l.
Proof.
  intros Hf. revert a. induction l as [|b l IH]; intros a; cbn; [done|].
  rewrite Hf. destruct (f a b); cbn; [apply IH | done..].
Qed.

Lemma group_volumes_bare (slots : list Slot) boots :
  group_volumes (bare_slot <$> slots) boots = fmap (M:=list) bare_group <$> group_volumes slots boots.
Proof.
  unfold group_volumes.
  pose proof (foldM_fmap (λ gs s, add_slot s gs) (λ gs s, add_slot s gs) (fmap (M:=list) bare_group) bare_slot
    slots [] (λ gs s, add_slot_bare s gs)) as E. cbn [fmap list_fmap] in E. rewrite E.
  destruct (foldM_res _ [] slots) as [gs| |]; cbn; [|done..].
  pose proof (foldM_fmap (λ gs b, add_boot b gs) (λ gs b, add_boot b gs) (fmap (M:=list) bare_group) (λ b, b)
    boots gs (λ gs b, add_boot_bare b gs)) as E'. by rewrite list_fmap_id in E'.
Qed.

Lemma new_bare (vols : list Volume) cmdline bootctl :
  Runtime.new (bare <$> vols) cmdline bootctl = bare_rt <$> Runtime.new vols cmdline bootctl.
Proof.
  unfold Runtime.new. rewrite from_volumes_bare. destruct (from_volumes vols) as [ss us]. cbn [fst snd].
  rewrite group_volumes_bare. destruct (group_volumes ss _); cbn; [|done..].
  by destruct (KernelParams.from_cmdline cmdline).
Qed.

(** ** Selecting and planning *)

Lemma find_first_fmap {A B} (p : A → bool) (q : B → bool) (f : A → B) (l : list A) :
  (∀ a, q (f a) = p a) → find_first q (f <$> l) = f <$> find_first p l.
Proof. intros Hf. induction l as [|a l IH]; cbn; [done|]. rewrite Hf. by destruct (p a). Qed.
Lemma keep_fmap {A B} (p : A → bool) (q : B → bool) (f : A → B) (l : list A) :
  (∀ a, q (f a) = p a) → keep q (f <$> l) = f <$> keep p l.
Proof. intros Hf. induction l as [|a l IH]; cbn; [done|]. rewrite Hf. destruct (p a); cbn; by f_equal. Qed.
Lemma existsb_fmap {A B} (p : A → bool) (q : B → bool) (f : A → B) (l : list A) :
  (∀ a, q (f a) = p a) → existsb q (f <$> l) = existsb p l.
Proof. intros Hf. induction l as [|a l IH]; cbn; [done|]. by rewrite Hf, IH. Qed.

(** Every question about a group but its sizes. *)
Ltac bare_group := intros [[[]|] [[]|] []]; done.
Lemma version_bare g : Group.version (bare_group g) = Group.version g.
Proof. revert g. bare_group. Qed.
Lemma is_legacy_bare g : Group.is_legacy (bare_group g) = Group.is_legacy g.
Proof. revert g. bare_group. Qed.
Lemma is_active_bare g k : is_active (bare_group g) k = is_active g k.
Proof. unfold is_active. by rewrite version_bare, is_legacy_bare. Qed.
Lemma candidate_bare rt g : candidate (bare_rt rt) (bare_group g) = candidate rt g.
Proof. unfold candidate. cbn. rewrite is_active_bare. revert g. bare_group. Qed.
Lemma installed_bare t g :
  is_used (bare_group g) && is_complete (bare_group g) && bool_decide (Group.version (bare_group g) = Some t) =
  is_used g && is_complete g && bool_decide (Group.version g = Some t).
Proof. rewrite version_bare. revert g. bare_group. Qed.

Lemma active_slot_bare rt : active_slot (bare_rt rt) = bare_group <$> active_slot rt.
Proof.
  unfold active_slot, find_exact_one_group, slot_groups. cbn.
  rewrite (keep_fmap (λ g, is_active g (kernel rt))) by (intros; apply is_active_bare).
  by destruct (keep _ (slotgroups rt)) as [|? [|]].
Qed.

Lemma install_into_bare rt m slot source :
  install_into_slot (bare_rt rt) m (bare_group slot) source = install_into_slot rt m slot source.
Proof.
  unfold install_into_slot. rewrite active_slot_bare. destruct slot as [[r|] [v|] b]; cbn; [|done..].
  destruct (Manifest.to_version m); cbn; [|done..]. unfold into_version, install_uki. cbn.
  unfold Slot.is_used. cbn. destruct (status r), (status v); cbn; try done.
  destruct (ok_or _ _); cbn; [|done..]. destruct (active_slot rt); cbn; [|done..]. by rewrite is_legacy_bare.
Qed.

(** A pair the update can go into is there. *)
Definition has_candidate (rt : Runtime) : bool := existsb (candidate rt) (slotgroups rt).

Definition runs (program : string) (p : Pipeline) : bool :=
  existsb (λ c, bool_decide (Pipeline.program c = program)) (stages p).

(** The steps until volumes are renamed, and those once they have their size. *)
Fixpoint before_rename (l : list Pipeline) : list Pipeline :=
  match l with
  | [] => []
  | p :: l => if runs "lvrename" p then [] else p :: before_rename l
  end.
Fixpoint after_resize (l : list Pipeline) : list Pipeline :=
  match l with
  | [] => []
  | p :: k => if runs "lvresize" p then after_resize k else l
  end.

Lemma after_resize_app l k : Forall (λ p, runs "lvresize" p = true) l → after_resize (l ++ k) = after_resize k.
Proof. induction 1 as [|p l Hp _ IH]; cbn; [done|]. by rewrite Hp. Qed.
Lemma before_rename_app l k :
  Forall (λ p, runs "lvrename" p = false) l → before_rename (l ++ k) = l ++ before_rename k.
Proof. induction 1 as [|p l Hp _ IH]; cbn; [done|]. by rewrite Hp, IH. Qed.

Lemma resize_steps_run slot m :
  Forall (λ p, runs "lvresize" p = true ∧ runs "lvrename" p = false) (resize_steps_for_slot slot m).
Proof.
  unfold resize_steps_for_slot. apply Forall_fmap, Forall_forall. by intros [v n] _.
Qed.
Lemma resize_steps_bare slot m : resize_steps_for_slot (bare_group slot) m = [].
Proof.
  unfold resize_steps_for_slot. destruct slot as [[r|] [v|] b]; cbn;
    by destruct (Manifest.unpacked_size (Manifest.store m)), (Manifest.unpacked_size (Manifest.verity m)).
Qed.

(** The plan but for its resizing is that of the volumes without their sizes. *)
Lemma install_bare rt m source :
  has_candidate rt = true →
  (λ p, after_resize (steps p)) <$> install (bare_rt rt) m source =
  (λ p, after_resize (steps p)) <$> install rt m source.
Proof.
  intros Hc. unfold install, select_update_slot, slot_groups. destruct (Manifest.to_version m) as [t| |]; cbn; [|done..].
  rewrite (existsb_fmap (λ g, is_used g && is_complete g && bool_decide (Group.version g = Some t)))
    by (intros; apply installed_bare).
  destruct (existsb _ _); cbn; [done|].
  pose proof (find_first_fmap (candidate rt) (candidate (bare_rt rt)) bare_group (slotgroups rt)
    (candidate_bare rt)) as E. unfold candidate in E at 1. cbn in E. rewrite E.
  destruct (find_first (candidate rt) (slotgroups rt)) as [g|] eqn:Eg; unfold candidate in Eg; rewrite Eg.
  2:{ apply existsb_true in Hc as (g & Hg & Hc). apply find_first_None in Eg. rewrite Forall_forall in Eg.
      specialize (Eg g Hg). cbn in Eg. unfold candidate in Hc. congruence. }
  cbn. unfold attach_uki. cbn. destruct (ensure _ _); cbn; [|done..].
  pose proof (install_into_bare rt m (mkGroup (root g) (verity g) (Some (boot_of_uki (mkUki t None)))) source)
    as Ei. unfold bare_group in Ei at 1. cbn in Ei. rewrite Ei, resize_steps_bare. clear Ei.
  destruct (install_into_slot _ _ _ _) as [plan| |]; cbn; [|done..]. f_equal. symmetry.
  apply after_resize_app. eapply Forall_impl; [apply resize_steps_run|]. by intros p [? _].
Qed.

Lemma has_candidate_bare rt : has_candidate (bare_rt rt) = has_candidate rt.
Proof. apply existsb_fmap, candidate_bare. Qed.

(** Volumes of the same names are read as the same groups, and the same update
    has the same plan but for its resizing. *)
Lemma same_names_same_plan (vols vols' : list Volume) cmdline bootctl rt m source plan :
  volume_name <$> vols = volume_name <$> vols' → Runtime.new vols cmdline bootctl = Ok rt →
  has_candidate rt = true → install rt m source = Ok plan →
  ∃ rt' plan', Runtime.new vols' cmdline bootctl = Ok rt' ∧ bare_rt rt' = bare_rt rt ∧ install rt' m source = Ok plan' ∧
    after_resize (steps plan') = after_resize (steps plan).
Proof.
  intros Hv Hn Hc Hi. pose proof (new_bare vols cmdline bootctl) as E.
  rewrite (bare_names _ _ Hv), new_bare, Hn in E. apply fmap_Ok in E as (rt' & Hn' & Er). exists rt'.
  assert (has_candidate rt' = true) as Hc' by (rewrite <-has_candidate_bare, Er, has_candidate_bare; done).
  pose proof (install_bare rt' m source Hc') as Ei. rewrite Er, install_bare, Hi in Ei by done.
  symmetry in Ei. apply fmap_Ok in Ei as (plan' & Hp & Ep). by exists plan'.
Qed.

(** ** Until the first rename *)

Section moments.
Context `{Device W}.

(** Effects that leave the names of volumes and all files. *)
Definition quiet (e : Effect) : bool :=
  match e with Overwrite _ _ _ | Flush | Resize _ => true | _ => false end.

Lemma torn_quiet e d d' :
  quiet e = true → torn entry_file e d d' → dom (lvs d') = dom (lvs d) ∧ files d' = files d.
Proof.
  intros Hq [Hf Ht]. split.
  - destruct e; cbn in Ht; try done; [|by rewrite Ht|];
      (destruct Ht as [->|(o & c & Ho & ->)]; [done|]);
      rewrite dom_insert_L; apply elem_of_dom_2 in Ho; set_solver.
  - apply map_eq. intros p. apply Hf. by destruct e.
Qed.

Lemma quiet_moment l (w w' : W) :
  Forall (λ p, ∃ e, command p e ∧ quiet e = true) l → moment l w w' →
  dom (lvs (view w')) = dom (lvs (view w)) ∧ files (view w') = files (view w).
Proof.
  intros Hl Hm. rewrite Forall_forall in Hl.
  refine (moment_inv (λ d, dom (lvs d) = dom (lvs (view w)) ∧ files d = files (view w)) l _ w w' Hm _); [|done].
  intros p Hp. destruct (Hl p Hp) as (e & He & Hq). exists e. split; [done|].
  intros d d' [-> ->]%torn_quiet [? ?]; done.
Qed.

(** The plan into a pair that is there. *)
Lemma candidate_plan rt m t source plan :
  rt_ok rt → plain_rt rt → has_candidate rt = true → Manifest.to_version m = Ok t →
  install rt m source = Ok plan → steps plan ≠ [] →
  ∃ g r v legacy, (∀ s, s ∈ group_slots g → plain (volume s)) ∧ plain (volume r) ∧ plain (volume v) ∧
    steps plan = resize_steps_for_slot g m ++ install_steps rt m source t r v legacy.
Proof.
  intros Hrt Hpl (c & Hcin & Hc)%existsb_true Ht Hi Hne.
  destruct (install_plan_Ok rt m t source plan Hrt Ht Hi)
    as [[_ ?]|(slot & pre & r & v & a & Hs & Hr & Hv & _ & _ & _ & _ & _ & ->)]; [done|].
  pose proof (λ s, selected_plain rt m t slot pre s Hrt Hpl Ht Hs) as Hsp.
  destruct (select_cases rt m t Hrt Ht) as [[_ E]|[(_ & g & Hg & _ & E)|(_ & Hno & _)]];
    [by rewrite Hs in E| |rewrite Forall_forall in Hno; by rewrite (Hno c Hcin) in Hc].
  rewrite Hs in E. injection E as -> ->. exists g, r, v, (is_legacy a). split; [exact Hsp|].
  cbn in Hr, Hv. split_and!; [..|done]; apply Hsp; unfold group_slots; cbn; rewrite Hr, Hv; set_solver.
Qed.

Lemma before_rename_quiet rt m t source plan :
  rt_ok rt → plain_rt rt → has_candidate rt = true → Manifest.to_version m = Ok t →
  install rt m source = Ok plan →
  Forall (λ p, ∃ e, command p e ∧ quiet e = true) (before_rename (steps plan)).
Proof.
  intros Hrt Hpl Hc Ht Hi. destruct (decide (steps plan = [])) as [->|Hne]; [by constructor|].
  destruct (candidate_plan rt m t source plan) as (g & r & v & legacy & Hg & Pr & Pv & ->); [done..|].
  rewrite before_rename_app by (eapply Forall_impl; [apply resize_steps_run|by intros p [_ ?]]).
  unfold install_steps. rewrite before_rename_app.
  2:{ unfold write_steps, install_volume. repeat (apply Forall_cons; split); [..|by apply Forall_nil];
        by try case_match. }
  cbn [before_rename runs stages lvrename Pipeline.new existsb]. rewrite app_nil_r. apply Forall_app. split.
  - apply Forall_forall. intros p Hp. destruct (resize_command g m p Hg Hp) as (s & _ & Hr). by eexists.
  - unfold write_steps. repeat (apply Forall_cons; split); [..|by apply Forall_nil]; eexists;
      (split; [by first [apply command_install_volume | apply command_flush]|done]).
Qed.

Lemma candidate_after_resize rt m t source plan :
  rt_ok rt → plain_rt rt → has_candidate rt = true → Manifest.to_version m = Ok t →
  install rt m source = Ok plan → steps plan ≠ [] → after_resize (steps plan) ≠ [].
Proof.
  intros Hrt Hpl Hc Ht Hi Hne.
  destruct (candidate_plan rt m t source plan) as (g & r & v & legacy & _ & _ & _ & ->); [done..|].
  rewrite after_resize_app by (eapply Forall_impl; [apply resize_steps_run|by intros p [? _]]).
  unfold install_steps, write_steps, install_volume. by destruct (Manifest.is_compressed (Manifest.store m)).
Qed.

Lemma plain_bare rt : plain_rt (bare_rt rt) ↔ plain_rt rt.
Proof.
  assert (all_slots (slotgroups (bare_rt rt)) = bare_slot <$> all_slots (slotgroups rt)) as E.
  { unfold all_slots. cbn. induction (slotgroups rt) as [|g gs IH]; [done|]. cbn. rewrite fmap_app. f_equal; [|done].
    by destruct g as [[] [] ?]. }
  unfold plain_rt. rewrite E. split.
  - intros Hs s Hin. apply (Hs (bare_slot s)). apply list_elem_of_fmap. by exists s.
  - intros Hs s (s' & -> & Hin)%list_elem_of_fmap. by apply (Hs s').
Qed.
End moments.
End Resume.

Module ResumeProps.
Import Pipeline Lvm Slot Uki Group Runtime Plan Device Resume.

(** C3: An interrupted install can be tried again: when an empty pair is there,
    then at every moment before the first rename - the image half written, a
    volume resized or not, a step failed, the power cut - the updater started
    again on what it then reads of the device, whatever the sizes, plans the
    install into the same pair: the same steps once the volumes have their size.
    If that run ends, the image and its kernel are in place. *)
Theorem install_resumes `{Device W} (w w' : W) (list_lvs : gset lv_id → list lv_id)
    (list_boot : gmap string string → list Bootctl.BootctlItem)
    (vols vols' : list Volume) cmdline rt m t source plan cr cv ir iv :
  volume_name <$> vols = list_lvs (dom (lvs (view w))) →
  Runtime.new vols cmdline (list_boot (files (view w))) = Ok rt →
  plain_rt rt → has_candidate rt = true → Manifest.to_version m = Ok t →
  install rt m source = Ok plan → steps plan ≠ [] →
  files (view w) !! Manifest.full_name (Manifest.store m) source = Some cr →
  image_of (Manifest.store m) cr = Some ir →
  files (view w) !! Manifest.full_name (Manifest.verity m) source = Some cv →
  image_of (Manifest.verity m) cv = Some iv →
  moment (before_rename (steps plan)) w w' →
  volume_name <$> vols' = list_lvs (dom (lvs (view w'))) →
  ∃ rt' plan',
    Runtime.new vols' cmdline (list_boot (files (view w'))) = Ok rt' ∧ install rt' m source = Ok plan' ∧
    after_resize (steps plan') = after_resize (steps plan) ∧
    ∀ w'', run_plan plan' w' = (Ok tt, w'') →
      ∃ vg vg' rest rest' ck,
        lvs (view w'') !! (vg, used_name Root t) = Some (ir +:+ rest) ∧
        lvs (view w'') !! (vg', used_name Verity t) = Some (iv +:+ rest') ∧
        files (view w) !! Manifest.full_name (Manifest.kernel m) source = Some ck ∧
        files (view w'') !! ("/boot/EFI/Linux/" +:+ Uki.display (mkUki t None)) = Some ck.
Proof.
  intros Hv Hn Hpl Hc Ht Hi Hne Hcr Hir Hcv Hiv Hm Hv'. pose proof (new_ok _ _ _ _ Hn) as Hrt.
  destruct (quiet_moment _ w w' (before_rename_quiet rt m t source plan Hrt Hpl Hc Ht Hi) Hm) as [Ed Ef].
  rewrite Ed, <-Hv in Hv'. symmetry in Hv'.
  destruct (same_names_same_plan vols vols' cmdline _ rt m source plan Hv' Hn Hc Hi)
    as (rt' & plan' & Hn' & Hb & Hi' & Ea).
  rewrite Ef. exists rt', plan'. split_and!; [done..|]. intros w'' Hrun. rewrite <-Ef in *.
  eapply installed_image; [exact Hn'| |exact Ht|exact Hi'| |exact Hcr|exact Hir|exact Hcv|exact Hiv|exact Hrun].
  - by rewrite <-plain_bare, Hb, plain_bare.
  - intros E. rewrite E in Ea. cbn in Ea. by eapply (candidate_after_resize rt).
Qed.

Import SimDevice RuntimeProps PlanProps DeviceProps.

(** The device of [ex_disk], its power cut while the root image is written: the
    volumes have been resized by then. *)
Definition ex_list_lvs (names : gset lv_id) : list lv_id :=
  keep (λ n, bool_decide (n ∈ names)) (volume_name <$> ex_volumes).
Definition ex_list_boot (files : gmap string string) : list Bootctl.BootctlItem :=
  if bool_decide (is_Some (files !! ex_boot "1.0")) then ex_bootctl else [].
Definition ex_resized : list Volume :=
  (λ v, mkVolume (lv_name v) (vg_name v) None (Some (2 ^ 40)%Z)) <$> ex_volumes.

Lemma install_resumes_witness :
  ∃ rt' plan',
    Runtime.new ex_resized ex_cmdline (ex_list_boot (files ex_torn)) = Ok rt' ∧
    install rt' (ex_manifest "2.0") "/tmp/ota" = Ok plan' ∧
    after_resize (steps plan') = drop 2 (steps ex_plan).
Proof.
  assert (moment (before_rename (steps ex_plan)) ex_disk ex_torn) as Hm.
  { apply ex_torn_moment. vm_compute. reflexivity. }
  destruct (install_resumes ex_disk ex_torn ex_list_lvs ex_list_boot ex_volumes ex_resized ex_cmdline ex_rt
    (ex_manifest "2.0") (ex_target "2.0") "/tmp/ota" ex_plan "znew root" "znew ver" "new root" "new ver")
    as (rt' & plan' & Hn & Hi & Ha & _).
  - vm_compute; reflexivity.
  - vm_compute; reflexivity.
  - exact ex_plain.
  - vm_compute; reflexivity.
  - vm_compute; reflexivity.
  - vm_compute; reflexivity.
  - vm_compute; discriminate.
  - vm_compute; reflexivity.
  - vm_compute; reflexivity.
  - vm_compute; reflexivity.
  - vm_compute; reflexivity.
  - exact Hm.
  - vm_compute; reflexivity.
  - exists rt', plan'. split; [exact Hn|]. split; [exact Hi|]. rewrite Ha. vm_compute. reflexivity.
Defined.

(** Interrupted between the creation of its two volumes, an install is not
    resumed: the single empty volume is never a candidate, its identifier
    counts as taken, and the next attempt creates another pair. *)
Definition ex_half_created : list Volume :=
  ex_volume <$> ["root_1.0_0123456789abcdef"; "verity_1.0_0123456789abcdef"; "root_empty_0"].
Lemma half_created_pair_stays :
  match rt ← Runtime.new ex_half_created ex_cmdline ex_bootctl; install rt (ex_manifest "2.0") "/tmp/ota" with
  | Ok plan =>
      take 2 (steps plan) = [lvcreate_step 2048 "root_empty_1" "pool"; lvcreate_step 2048 "verity_empty_1" "pool"]
  | _ => False
  end.
Proof. vm_compute. reflexivity. Qed.
End ResumeProps.
