(* ===== verification/ImageInstall.v ===== *)
(** * Running an image update ([image/install.rs], [image/cli.rs], [lock.rs])

    [Install] composes reading the system state, planning and execution.
    [Lock] is the update lock: the program of a process as the system calls it
    makes and how it goes on after each answer, beside a kernel with a directory
    entry, inodes and advisory locks. *)

From S2P Require Import Prelude RustStr RustInt RustPath ImagePipeline.
From S2P Require Import ImageSlot ImageUki ImageManifest ImageGroup ImageRuntime ImagePlan.
From Stdlib Require Import Ascii.

Module Install.
Import Pipeline Lvm Plan.

(** What the program reads before it acts: the kernel command line, the output
    of [bootctl] and [lvs], and the file system. *)
Record Env := mkEnv {
  cmdline : res string;
  bootctl : res (list Bootctl.BootctlItem);
  lvs : res (list Volume);
  fs : Manifest.FS;
  hex_encode : string → string;
  decode : string → res Manifest.Manifest
}.

Definition populate_runtime (env : Env) : res Runtime.Runtime :=
  cmdline ← with_context "while reading /proc/cmdline" (cmdline env);
  bootctl ← bootctl env;
  lvs ← with_context "while invoking lvs" (lvs env);
  Runtime.new lvs cmdline bootctl.

Definition validate_manifest_path (env : Env) (manifest_path : string) : res unit :=
  source_dir ← ok_or (parent manifest_path) "manifest path has no parent directory";
  manifest ← Manifest.from_file (fs env) (decode env) manifest_path;
  with_context "while validating manifest content"
    (Manifest.validate (fs env) (hex_encode env) manifest source_dir true).

(** [install_from_manifest_path] up to the execution of the plan. *)
Definition plan_from_manifest_path (env : Env) (manifest_path : string) (validate : bool)
    : res Plan :=
  rt ← populate_runtime env;
  source_dir ← ok_or (parent manifest_path) "manifest path has no parent directory";
  manifest ← Manifest.from_file (fs env) (decode env) manifest_path;
  _ ← with_context "while validating manifest content"
        (Manifest.validate (fs env) (hex_encode env) manifest source_dir validate);
  install rt manifest source_dir.

Section run.
Context {W : Type}.
Context (locked : (W → res unit * W) → W → res unit * W) (dry shell : Executor W).

(** A computation that only reads, then one that acts. *)
Definition then_run {A} (c : res A) (k : A → W → res unit * W) (w : W) : res unit * W :=
  match c with
  | Ok a => k a w
  | Err e => (Err e, w)
  | Panic m => (Panic m, w)
  end.

Definition install_from_manifest_path (env : Env) (manifest_path : string)
    (validate dry_run : bool) : W → res unit * W :=
  then_run (plan_from_manifest_path env manifest_path validate)
    (λ plan, execute_plan plan dry_run locked dry shell).

Inductive ImageAction :=
| InstallAction (manifest : string) (validate no_validate : bool)
| ValidateAction (manifest : string)
| RemoveAction (version : string) (hash : option string)
| StatusAction.

(** [ImageUpdate::handle]; [print] is [println!]. *)
Definition handle (print : string → W → W) (env : Env) (action : ImageAction) (dry_run : bool)
    : W → res unit * W :=
  match action with
  | InstallAction manifest validate no_validate =>
      install_from_manifest_path env manifest (validate && negb no_validate) dry_run
  | ValidateAction manifest =>
      then_run (validate_manifest_path env manifest)
        (λ _ w, (Ok tt, print "Manifest validation successful." w))
  | RemoveAction version hash =>
      then_run (rt ← populate_runtime env; remove rt (Version.new version hash))
        (λ plan, execute_plan plan dry_run locked dry shell)
  | StatusAction =>
      then_run (populate_runtime env) (λ rt w, (Ok tt, print (Runtime.inspect rt) w))
  end.

(** Planning never touches the world: unless a plan with steps was built, the
    world is returned as it was. *)
Lemma install_no_plan env path validate dry_run w :
  (∀ plan, plan_from_manifest_path env path validate = Ok plan → steps plan = []) →
  snd (install_from_manifest_path env path validate dry_run w) = w.
Proof.
  intros Hp. unfold install_from_manifest_path, then_run.
  destruct (plan_from_manifest_path env path validate) as [plan| |]; [|done..].
  unfold execute_plan. rewrite bool_decide_eq_true_2; [done|]. by apply Hp.
Qed.
End run.

(** A validated install checked the digests of the three files. *)
Lemma validate_file_sound fs hex f base :
  Manifest.validate_file fs hex f base true = Ok tt →
  ∃ content, Manifest.read fs (Manifest.full_name f base) = Ok content ∧
    Manifest.sha256 fs content = Manifest.sha256sum f ∧
    Manifest.try_exists fs (Manifest.full_name f base) = Ok true ∧
    Manifest.metadata_is_file fs (Manifest.full_name f base) = Ok true.
Proof.
  unfold Manifest.validate_file. intros H.
  apply bind_Ok in H as ([] & He & H); [|done]. cbn in H.
  apply bind_Ok in H as ([] & Hm & H); [|done]. cbn in H.
  apply with_context_Ok in Hm. apply bind_Ok in H as (d & Hd & H).
  unfold Manifest.read_sha256 in Hd. res_simp.
  match goal with H : bool_decide _ = true |- _ => apply bool_decide_eq_true in H end.
  by eexists.
Qed.

Lemma validate_sound fs hex m base :
  Manifest.validate fs hex m base true = Ok tt →
  Forall (λ f, ∃ content, Manifest.read fs (Manifest.full_name f base) = Ok content ∧
                 Manifest.sha256 fs content = Manifest.sha256sum f)
    [Manifest.kernel m; Manifest.store m; Manifest.verity m].
Proof.
  unfold Manifest.validate. intros H. res_simp.
  repeat match goal with
  | H : Manifest.validate_file _ _ _ _ true = Ok ?u |- _ =>
      destruct u; apply validate_file_sound in H as (? & ? & ? & _)
  end.
  repeat constructor; by eexists.
Qed.
End Install.

Module Lock.

(** [lock_owner_text]: [hostname] is the content of
    [/proc/sys/kernel/hostname], if it can be read. *)
Definition lock_owner_text (hostname : option string) (pid : Z) (purpose : string) : string :=
  let nl := String "010"%char "" in
  let host :=
    match hostname with
    | Some value => if bool_decide (trim value = "") then "unknown" else trim value
    | None => "unknown"
    end in
  "host=" +:+ host +:+ nl +:+ "pid=" +:+ pretty pid +:+ nl +:+ "purpose=" +:+ purpose +:+ nl.

(** Where a process is in [UpdateLock::acquire] and [drop]; the number is the
    inode of its open file. *)
Inductive pc :=
| Outside
| Opening
| Locking (f : nat)
| Truncating (f : nat)
| Writing (f : nat) (rest : string)   (* what [write_all] has still to write *)
| Syncing (f : nat)
| Holding (f : nat)                   (* [acquire] has returned the guard *)
| Unlinking (f : nat)                 (* [drop] of the guard *)
| Closing (f : nat).                  (* the file goes out of scope *)

#[global] Instance pc_eq_dec : EqDecision pc.
Proof. solve_decision. Defined.

(** *** The kernel *)

Inductive syscall :=
| Open                                (* [O_CREAT | O_RDWR] of the lock path *)
| Flock (f : nat)                     (* [LOCK_EX | LOCK_NB] *)
| Truncate (f : nat)
| Write (f : nat) (data : string)
| Sync (f : nat)
| Unlink                              (* of the lock path *)
| Close (f : nat).
Inductive answer := Done | Failed | Inode (f : nat) | Wrote (n : nat).

(** The directory entry of the lock path, the next free inode, the contents of
    the inodes, the process that has the advisory lock of an inode, and the
    position of each process in its open file. *)
Record os := mkOs {
  entry : option nat;
  next : nat;
  contents : gmap nat string;
  owners : gmap nat nat;
  offset : gmap nat nat
}.

Fixpoint zeros (n : nat) : string := match n with O => "" | S n => String "000"%char (zeros n) end.
Definition put (o : nat) (data old : string) : string :=
  take_bytes o old +:+ zeros (o - String.length old) +:+ data +:+ drop_bytes (o + String.length data) old.

(** An advisory lock lasts while the file that took it is open. *)
Definition release (i f : nat) (o : os) : os :=
  mkOs (entry o) (next o) (contents o)
    (if bool_decide (owners o !! f = Some i) then delete f (owners o) else owners o) (offset o).

(** What a call of process [i] does, for each answer it can get; every call but
    [close] can fail and then has done nothing. *)
Definition os_call (i : nat) (o : os) (c : syscall) (a : answer) : option os :=
  match c, a with
  | Close f, Done => Some (release i f o)
  | Close _, _ => None
  | _, Failed => Some o
  | Open, Inode f =>
      match entry o with
      | Some g =>
          if bool_decide (f = g)
          then Some (mkOs (entry o) (next o) (contents o) (owners o) (<[i := 0]> (offset o))) else None
      | None =>
          if bool_decide (f = next o)
          then Some (mkOs (Some f) (S (next o)) (<[f := ""]> (contents o)) (owners o) (<[i := 0]> (offset o)))
          else None
      end
  | Flock f, Done =>
      match owners o !! f with
      | None => Some (mkOs (entry o) (next o) (contents o) (<[f := i]> (owners o)) (offset o))
      | Some _ => None
      end
  | Truncate f, Done => Some (mkOs (entry o) (next o) (<[f := ""]> (contents o)) (owners o) (offset o))
  | Write f data, Wrote n =>
      at_ ← offset o !! i; old ← contents o !! f;
      if n <=? String.length data then
        Some (mkOs (entry o) (next o) (<[f := put at_ (take_bytes n data) old]> (contents o)) (owners o)
                (<[i := at_ + n]> (offset o)))
      else None
  | Sync _, Done => Some o
  | Unlink, Done =>
      if bool_decide (is_Some (entry o))
      then Some (mkOs None (next o) (contents o) (owners o) (offset o)) else None
  | _, _ => None
  end.

(** *** The program *)

Section program.
Context (hostname : nat → option string) (pid : nat → Z) (purpose : nat → string).

Definition owner (i : nat) : string := lock_owner_text (hostname i) (pid i) (purpose i).

Definition call (p : pc) : option syscall :=
  match p with
  | Opening => Some Open
  | Locking f => Some (Flock f)
  | Truncating f => Some (Truncate f)
  | Writing f rest => Some (Write f rest)
  | Syncing f => Some (Sync f)
  | Unlinking _ => Some Unlink
  | Closing f => Some (Close f)
  | Outside | Holding _ => None
  end.

(** [write_all] returns when nothing is left. *)
Definition write_all (f : nat) (rest : string) : pc :=
  if bool_decide (rest = "") then Syncing f else Writing f rest.

(** How process [i] goes on; on an error [acquire] returns it and the file, not
    yet in a guard, is closed. *)
Definition resume (i : nat) (p : pc) (a : answer) : pc :=
  match p, a with
  | Opening, Inode f => Locking f
  | Opening, _ => Outside
  | Locking f, Done => Truncating f
  | Truncating f, Done => write_all f (owner i)
  | Writing f rest, Wrote n => if n =? 0 then Closing f else write_all f (drop_bytes n rest)
  | Syncing f, Done => Holding f
  | (Locking f | Truncating f | Writing f _ | Syncing f | Unlinking f), _ => Closing f
  | Closing _, _ => Outside
  | (Outside | Holding _), _ => p
  end.

Record state := mkState { kernel : os; procs : list pc }.

(** What process [i] does next: begin to acquire, make its call, let the guard
    go, or die, which closes its file. *)
Inductive action := Begin | Call (a : answer) | Leave | Die.

Definition file (p : pc) : option nat :=
  match p with
  | Locking f | Truncating f | Writing f _ | Syncing f | Holding f | Unlinking f | Closing f => Some f
  | Outside | Opening => None
  end.

Definition act (i : nat) (x : action) (st : state) : option state :=
  p ← procs st !! i;
  let goto o q := Some (mkState o (<[i := q]> (procs st))) in
  match x, p with
  | Begin, Outside => goto (kernel st) Opening
  | Call a, _ => c ← call p; o ← os_call i (kernel st) c a; goto o (resume i p a)
  | Leave, Holding f => goto (kernel st) (Unlinking f)
  | Die, _ => goto (match file p with Some f => release i f (kernel st) | None => kernel st end) Outside
  | _, _ => None
  end.

Definition initial (n : nat) : state := mkState (mkOs None 0 ∅ ∅ ∅) (replicate n Outside).
Definition step (st st' : state) : Prop := ∃ i x, act i x st = Some st'.
Definition reachable (n : nat) (st : state) : Prop := rtc step (initial n) st.

(** The steps but those in which a process removes the path while another is
    between opening the file and locking it. *)
Definition orderly_step (st st' : state) : Prop :=
  ∃ i x, act i x st = Some st' ∧
    ∀ f, procs st !! i = Some (Unlinking f) → ∀ j g, procs st !! j ≠ Some (Locking g).
Definition orderly (n : nat) (st : state) : Prop := rtc orderly_step (initial n) st.

(** A schedule, for concrete runs. *)
Fixpoint schedule (l : list (nat * action)) (st : state) : option state :=
  match l with
  | [] => Some st
  | (i, x) :: l => st ← act i x st; schedule l st
  end.
Lemma schedule_run l st st' : schedule l st = Some st' → rtc step st st'.
Proof.
  revert st. induction l as [|[i x] l IH]; intros st; cbn; [by intros [= ->]|].
  intros (st1 & H1 & H)%bind_Some. eapply rtc_l; [by exists i, x|by apply IH].
Qed.

(** *** The invariant *)

(** The file whose lock a process has. *)
Definition has_lock (p : pc) : option nat :=
  match p with
  | Truncating f | Writing f _ | Syncing f | Holding f | Unlinking f => Some f
  | _ => None
  end.

(** What the file of process [i] holds. *)
Definition written (o : os) (i : nat) (p : pc) : Prop :=
  match p with
  | Locking f | Truncating f => is_Some (contents o !! f) ∧ offset o !! i = Some 0
  | Writing f rest =>
      ∃ done, owner i = done +:+ rest ∧ contents o !! f = Some done ∧
        offset o !! i = Some (String.length done)
  | Syncing f | Holding f | Unlinking f => contents o !! f = Some (owner i)
  | _ => True
  end.

Record good (st : state) : Prop := {
  g_lock i p f : procs st !! i = Some p → has_lock p = Some f → owners (kernel st) !! f = Some i;
  g_written i p : procs st !! i = Some p → written (kernel st) i p;
  g_entry f : entry (kernel st) = Some f → is_Some (contents (kernel st) !! f);
  g_next f : is_Some (contents (kernel st) !! f) → f < next (kernel st)
}.

(** What a call of one process leaves alone. *)
Lemma os_call_frame i o c a o' :
  os_call i o c a = Some o' →
  (∀ f j, j ≠ i → owners o !! f = Some j → owners o' !! f = Some j) ∧
  (∀ j, j ≠ i → offset o' !! j = offset o !! j) ∧
  (∀ f, is_Some (contents o !! f) → is_Some (contents o' !! f)) ∧
  (∀ f, f < next o → (∀ d, c ≠ Write f d) → c ≠ Truncate f → contents o' !! f = contents o !! f).
Proof.
  intros H. unfold os_call in H.
  repeat (case_match; simplify_option_eq; try done); split_and!; intros; cbn in *; try done;
    simplify_map_eq; try done;
    repeat match goal with
    | |- context [<[?k := _]> _ !! ?k'] => destruct (decide (k = k')); simplify_map_eq
    | |- context [bool_decide ?P] => destruct (decide P); [rewrite bool_decide_eq_true_2 by done|rewrite bool_decide_eq_false_2 by done]
    end; try done; try naive_solver lia.
  - rewrite lookup_delete_ne; [done|]. intros ->. congruence.
Qed.

Lemma good_goto st i p q o' :
  good st → procs st !! i = Some p →
  (∀ f j, j ≠ i → owners (kernel st) !! f = Some j → owners o' !! f = Some j) →
  (∀ j, j ≠ i → offset o' !! j = offset (kernel st) !! j) →
  (∀ f, is_Some (contents (kernel st) !! f) → is_Some (contents o' !! f)) →
  (∀ f, f < next (kernel st) → has_lock p ≠ Some f → contents o' !! f = contents (kernel st) !! f) →
  (∀ f, has_lock q = Some f → owners o' !! f = Some i) → written o' i q →
  (∀ f, entry o' = Some f → is_Some (contents o' !! f)) → (∀ f, is_Some (contents o' !! f) → f < next o') →
  good (mkState o' (<[i := q]> (procs st))).
Proof.
  intros Hg Hp Ho Hf Hd Hc Hq Hw He Hn. split; cbn; [| |done..].
  - intros j r f [(<- & <- & _)|[Hne Hj]]%list_lookup_insert_Some Hl; [by apply Hq|].
    apply Ho; [done|]. by eapply g_lock.
  - intros j r [(<- & <- & _)|[Hne Hj]]%list_lookup_insert_Some; [done|].
    pose proof (g_written _ Hg j r Hj) as Hr.
    assert (∀ f, has_lock r = Some f → is_Some (contents (kernel st) !! f) →
      contents o' !! f = contents (kernel st) !! f) as Hk.
    { intros f Hl Hs. apply Hc; [by eapply g_next|]. intros Hl'.
      pose proof (g_lock _ Hg _ _ _ Hj Hl). pose proof (g_lock _ Hg _ _ _ Hp Hl'). congruence. }
    destruct r; cbn in *; rewrite ?Hf by done; try done.
    + naive_solver.
    + naive_solver.
    + destruct Hr as (d & Hd1 & Hd2 & Hd3). exists d. by rewrite Hk.
    + by rewrite Hk.
    + by rewrite Hk.
    + by rewrite Hk.
Qed.

Lemma put_end done data : put (String.length done) data done = done +:+ data.
Proof.
  unfold put. rewrite Nat.sub_diag. cbn.
  assert (take_bytes (String.length done) done = done ∧
    drop_bytes (String.length done + String.length data) done = "") as [-> ->]; [|by rewrite str_app_nil_r].
  induction done as [|b s IH]; cbn; [by destruct data|]. by destruct IH as [-> ->].
Qed.

(** The inode table after a call. *)
Lemma os_call_files i o c a o' :
  os_call i o c a = Some o' →
  (∀ f, entry o = Some f → is_Some (contents o !! f)) → (∀ f, is_Some (contents o !! f) → f < next o) →
  (∀ f, c = Truncate f → is_Some (contents o !! f)) →
  (∀ f, entry o' = Some f → is_Some (contents o' !! f)) ∧ (∀ f, is_Some (contents o' !! f) → f < next o').
Proof.
  intros H He Hn Ht. unfold os_call in H.
  repeat (case_match; simplify_option_eq; try done); split; intros g; cbn in *; try naive_solver;
    first
      [ intros [->|Hg]%lookup_insert_is_Some';
          [first [lia | apply Hn; eauto] | first [by apply Nat.lt_lt_succ_r, Hn | by apply Hn]]
      | intros Hg; apply lookup_insert_is_Some'; naive_solver ].
Qed.

Lemma good_call st i p c a o' :
  good st → procs st !! i = Some p → call p = Some c → os_call i (kernel st) c a = Some o' →
  good (mkState o' (<[i := resume i p a]> (procs st))).
Proof.
  intros Hg Hp Hc Ho. pose proof (g_written _ Hg i p Hp) as Hw. pose proof (g_lock _ Hg i p) as Hl.
  destruct (os_call_frame _ _ _ _ _ Ho) as (F1 & F2 & F3 & F4).
  destruct (os_call_files _ _ _ _ _ Ho (g_entry _ Hg) (g_next _ Hg)) as [F5 F6].
  { intros f ->. destruct p; simplify_eq/=. by destruct Hw. }
  eapply good_goto; [done..| | | |done|done].
  - intros f Hf Hk. apply F4; [done|..]; intros; intros ->; destruct p; simplify_eq/=; done.
  - clear F1 F2 F3 F4 F5 F6. destruct p, a; simplify_eq/=; try done; intros g Hq; simplify_eq; try by apply Hl.
    + case_match; simplify_eq. apply lookup_insert_eq.
    + apply bind_Some in Ho as (k & Hk & (old & Hold & Ho)%bind_Some).
      destruct (n <=? _); simplify_eq. cbn. apply Hl; [done|]. unfold write_all in Hq. by repeat case_match.
  - clear F1 F2 F3 F4 F5 F6. destruct p, a; simplify_eq/=; try done.
    + destruct (entry _) as [e|] eqn:Ee; case_bool_decide; simplify_eq; cbn; rewrite !lookup_insert_eq.
      * split; [by apply (g_entry _ Hg)|done].
      * by split; [eexists|].
    + by case_match; simplify_eq.
    + exists "". rewrite lookup_insert_eq. naive_solver.
    + apply bind_Some in Ho as (k & Hk & (old & Hold & Ho)%bind_Some).
      destruct (n <=? _) eqn:En; simplify_eq. destruct (n =? 0); [done|].
      destruct Hw as (d & Hd & Hc & Ho). rewrite Hold in Hc. injection Hc as ->. rewrite Hk in Ho. injection Ho as ->. unfold write_all. apply Nat.leb_le in En.
      case_bool_decide as E; cbn; rewrite !lookup_insert_eq, put_end.
      * f_equal. rewrite Hd. f_equal. pose proof (take_drop_bytes n rest) as Er. by rewrite E, str_app_nil_r in Er.
      * exists (d +:+ take_bytes n rest). by rewrite str_app_assoc, take_drop_bytes, str_length_app, take_bytes_length.
Qed.

Lemma good_step st i x st' : good st → act i x st = Some st' → good st'.
Proof.
  intros Hg. unfold act. intros (p & Hp & H)%bind_Some.
  pose proof (g_written _ Hg i p Hp) as Hw. pose proof (g_lock _ Hg i p) as Hl.
  pose proof (g_entry _ Hg) as He. pose proof (g_next _ Hg) as Hn.
  assert (∀ q, (∀ f, has_lock q = Some f → has_lock p = Some f) → written (kernel st) i q →
    good (mkState (kernel st) (<[i := q]> (procs st)))) as Hsame.
  { intros q H1 H2. eapply good_goto; eauto. }
  assert (∀ f q, has_lock q = None → written (kernel st) i q →
    good (mkState (release i f (kernel st)) (<[i := q]> (procs st)))) as Hrel.
  { intros f q H1 H2. eapply good_goto; cbn; eauto; [|congruence].
    intros g j Hj Hgj. case_bool_decide; [|done]. rewrite lookup_delete_ne; [done|]. intros ->. congruence. }
  destruct x as [|a| |].
  - destruct p; simplify_eq. by apply Hsame.
  - apply bind_Some in H as (c & Hc & (o' & Ho & [= <-])%bind_Some). by eapply good_call.
  - destruct p; simplify_eq. by apply Hsame; [intros ? [= ->]|].
  - destruct (file p); simplify_eq; [by apply Hrel|by apply Hsame].
Qed.

Lemma good_initial n : good (initial n).
Proof.
  split; cbn; [intros i p f|intros i p|done|by intros f [? ?]]; by intros [-> _]%lookup_replicate.
Qed.
Lemma reachable_good n st : reachable n st → good st.
Proof.
  apply (rtc_ind_r good); [apply good_initial|]. intros x y _ (i & a & Ha) Hg. by eapply good_step.
Qed.

(** In orderly runs the file of a process that may get or has the lock is the
    one at the path. *)
Definition current (p : pc) : option nat := match p with Locking f => Some f | _ => has_lock p end.
Definition at_path (st : state) : Prop :=
  ∀ i p f, procs st !! i = Some p → current p = Some f → entry (kernel st) = Some f.

Lemma os_call_entry i o c a o' :
  os_call i o c a = Some o' →
  entry o' = entry o ∨ (c = Open ∧ entry o = None ∧ a = Inode (next o) ∧ entry o' = Some (next o)) ∨ c = Unlink.
Proof.
  unfold os_call. destruct c, a; cbn; try (intros [= <-]; tauto); try done.
  - destruct (entry o) as [e|] eqn:E; case_bool_decide; intros [= <-]; cbn; rewrite ?E; subst; tauto.
  - case_match; intros [= <-]; tauto.
  - intros (k & _ & (old & _ & H)%bind_Some)%bind_Some. case_match; simplify_eq. tauto.
  - tauto.
Qed.
Lemma resume_current i o p c a o' f :
  call p = Some c → os_call i o c a = Some o' → current (resume i p a) = Some f →
  current p = Some f ∧ c ≠ Unlink ∨ entry o' = Some f.
Proof.
  destruct p, a; cbn; try done; try naive_solver.
  - intros [= <-]. cbn. destruct (entry o) as [e|] eqn:E; case_bool_decide; intros [= <-] [= <-]; cbn; [|tauto].
    subst. tauto.
  - intros [= <-] _. unfold write_all. repeat case_match; naive_solver.
Qed.

Lemma at_path_step st i x st' :
  good st → at_path st → act i x st = Some st' →
  (∀ f, procs st !! i = Some (Unlinking f) → ∀ j g, procs st !! j ≠ Some (Locking g)) → at_path st'.
Proof.
  intros Hg Ha Hact Hor. unfold act in Hact. apply bind_Some in Hact as (p & Hp & H).
  assert (∀ q o', entry o' = entry (kernel st) → (∀ f, current q = Some f → current p = Some f) →
    at_path (mkState o' (<[i := q]> (procs st)))) as Hsame.
  { intros q o' He Hq j r f [(<- & <- & _)|[Hne Hj]]%list_lookup_insert_Some Hr; cbn; rewrite He; eauto. }
  destruct x as [|a| |].
  - destruct p; simplify_eq. by apply Hsame.
  - apply bind_Some in H as (c & Hc & (o' & Ho & [= <-])%bind_Some).
    intros j r f [(<- & <- & _)|[Hne Hj]]%list_lookup_insert_Some Hr; cbn.
    + destruct (resume_current i _ _ _ _ _ f Hc Ho Hr) as [[Hcur Hu]|?]; [|done].
      destruct (os_call_entry _ _ _ _ _ Ho) as [->|[(_ & Hn & _)| ->]]; [by eapply Ha| |done].
      pose proof (Ha i p f Hp Hcur). congruence.
    + pose proof (Ha j r f Hj Hr) as He.
      destruct (os_call_entry _ _ _ _ _ Ho) as [->|[(_ & Hn & _)| ->]]; [done|congruence|].
      destruct p as [| | | | | | |g|]; simplify_eq/=. exfalso.
      pose proof (Ha i (Unlinking g) g Hp eq_refl) as He'.
      pose proof (g_lock _ Hg i _ g Hp eq_refl). specialize (Hor g Hp j f).
      destruct r; cbn in Hr; simplify_eq; try done;
        by pose proof (g_lock _ Hg j _ _ Hj eq_refl); simplify_eq.
  - destruct p; simplify_eq. by apply Hsame.
  - simplify_eq. apply Hsame; [by destruct (file p)|done].
Qed.

Lemma orderly_inv n st : orderly n st → good st ∧ at_path st.
Proof.
  apply (rtc_ind_r (λ st, good st ∧ at_path st)).
  - split; [apply good_initial|]. intros i p f Hp. apply lookup_replicate in Hp as [-> _]. done.
  - intros x y _ (i & a & Ha & Ho) [Hg Hp]. split; [by eapply good_step|by eapply at_path_step].
Qed.
End program.
End Lock.

(** ** Properties *)

Module InstallProps.
Import Plan Install Lock.

(** An install with checksum validation reaches planning only after the
    kernel, root and verity files named by the manifest, taken relative to the
    manifest's directory, were read and their SHA-256 digests matched; and a
    run that builds no plan with steps leaves the world untouched. *)
Theorem validated_install env path plan :
  plan_from_manifest_path env path true = Ok plan →
  ∃ rt m dir, populate_runtime env = Ok rt ∧ parent path = Some dir ∧
    Manifest.from_file (fs env) (decode env) path = Ok m ∧
    install rt m dir = Ok plan ∧
    Forall (λ f, ∃ content, Manifest.read (fs env) (Manifest.full_name f dir) = Ok content ∧
                   Manifest.sha256 (fs env) content = Manifest.sha256sum f)
      [Manifest.kernel m; Manifest.store m; Manifest.verity m].
Proof.
  unfold plan_from_manifest_path. intros H. res_simp.
  match goal with H : Manifest.validate _ _ _ _ true = Ok ?u |- _ =>
    destruct u; apply validate_sound in H end.
  do 3 eexists. repeat split; eauto.
Qed.

(** C26: What the update lock gives its users, for any number of processes
    whose system calls interleave, fail and end with the death of a process in
    every way.  In every state: the lock file of a process that [acquire]
    returned to holds that process's owner text and nothing else, whatever a
    process that failed or died had left in it and whoever tries to get the
    lock.  And there is at most one such process, its file the one at the lock
    path, as long as no process dropping its guard removes the path while
    another one is between opening the file and locking it; [lock_two_holders]
    shows that this condition is needed. *)
Theorem lock_excludes hostname pid purpose n st :
  (reachable hostname pid purpose n st → ∀ i f, procs st !! i = Some (Holding f) →
     contents (kernel st) !! f = Some (lock_owner_text (hostname i) (pid i) (purpose i))) ∧
  (orderly hostname pid purpose n st → ∀ i j f g,
     procs st !! i = Some (Holding f) → procs st !! j = Some (Holding g) →
     i = j ∧ entry (kernel st) = Some f).
Proof.
  split.
  - intros Hg%reachable_good i f Hi. exact (g_written _ _ _ _ Hg i _ Hi).
  - intros [Hg Hp]%orderly_inv i j f g Hi Hj.
    pose proof (Hp i _ f Hi eq_refl) as Hf. pose proof (Hp j _ g Hj eq_refl) as Hg'.
    split; [|done]. pose proof (g_lock _ _ _ _ Hg i _ f Hi eq_refl).
    pose proof (g_lock _ _ _ _ Hg j _ g Hj eq_refl). congruence.
Qed.

(** The calls of one whole [acquire]. *)
Definition ex_acquire (i f : nat) (text : string) : list (nat * action) :=
  (i,.) <$> [Begin; Call (Inode f); Call Done; Call Done; Call (Wrote (String.length text)); Call Done].
Definition ex_host (i : nat) : option string := Some "ghaf-host".
Definition ex_pid (i : nat) : Z := Z.of_nat (100 + i).
Definition ex_purpose (i : nat) : string := "image-install".
Definition ex_owner (i : nat) : string := lock_owner_text (ex_host i) (ex_pid i) (ex_purpose i).
Definition ex_schedule (l : list (nat * action)) : option state :=
  schedule ex_host ex_pid ex_purpose l (initial 2).

(** The update lock does not exclude: with two processes a state is
    reachable in which both hold it, because the holder removes the path before
    it closes the file, and a process that had opened the old file can still
    lock it while the other creates the path anew. *)
Theorem lock_two_holders :
  ∃ st, reachable ex_host ex_pid ex_purpose 2 st ∧ procs st = [Holding 1; Holding 0].
Proof.
  destruct (ex_schedule (ex_acquire 0 0 (ex_owner 0) ++ take 2 (ex_acquire 1 0 (ex_owner 1)) ++
    [(0, Leave); (0, Call Done); (0, Call Done)] ++ drop 2 (ex_acquire 1 0 (ex_owner 1)) ++
    ex_acquire 0 1 (ex_owner 0))) as [st|] eqn:E; [|by vm_compute in E].
  exists st. split; [by eapply schedule_run|]. by vm_compute in E; simplify_eq.
Qed.

Definition ex_fs : Manifest.FS :=
  Manifest.mkFS (λ _, Ok true) (λ _, Ok true) (λ p, Ok p) (λ _, "").
Definition ex_env : Env :=
  mkEnv (Ok RuntimeProps.ex_cmdline) (Ok RuntimeProps.ex_bootctl) (Ok RuntimeProps.ex_volumes)
    ex_fs (λ s, s) (λ _, Ok (RuntimeProps.ex_manifest "2.0")).

Lemma validated_install_witness :
  ∃ rt m, populate_runtime ex_env = Ok rt ∧ install rt m "/tmp/ota" = Ok PlanProps.ex_plan ∧
    parent "/tmp/ota/manifest.json" = Some "/tmp/ota".
Proof.
  destruct (validated_install ex_env "/tmp/ota/manifest.json" PlanProps.ex_plan)
    as (rt & m & dir & H1 & H2 & _ & H3 & _); [vm_compute; reflexivity|].
  assert (dir = "/tmp/ota") as -> by (vm_compute in H2; congruence).
  exists rt, m. repeat split; [exact H1 | exact H3].
Defined.

(** Process 0 fails half way through writing its text and leaves it in the
    file; process 1 then gets the lock. *)
Definition ex_failed : list (nat * action) :=
  (0,.) <$> [Begin; Call (Inode 0); Call Done; Call Done; Call (Wrote 9); Call Failed; Call Done].
Definition ex_holding : state := default (initial 2) (ex_schedule (ex_failed ++ ex_acquire 1 0 (ex_owner 1))).

Lemma lock_excludes_witness :
  procs ex_holding = [Outside; Holding 0] ∧ contents (kernel ex_holding) !! 0 = Some (ex_owner 1).
Proof.
  split; [vm_compute; reflexivity|].
  destruct (lock_excludes ex_host ex_pid ex_purpose 2 ex_holding) as [H _].
  apply (H ltac:(apply (schedule_run _ _ _ (ex_failed ++ ex_acquire 1 0 (ex_owner 1)));
    vm_compute; reflexivity) 1 0). vm_compute. reflexivity.
Defined.
End InstallProps.
