(* ===== verification/CommonTypes.v ===== *)
(** * The types shared by admin, agents and clients ([crates/common])

    [Pb]: the protobuf messages the code converts from and to.  [Types]: unit
    types, unit statuses and endpoints with their wire conversions.  [Query]:
    the query and watch items.  A string enum ([strum]) is printed by its
    variant name and parsed from exactly that name. *)

From S2P Require Import Prelude RustStr RustInt.
From Stdlib Require Import Ascii.

(** ** Enums with string names *)

(** [strum::Display] and [strum::EnumString]: a finite list of variants with
    distinct names. *)
Class StrEnum (A : Type) `{EqDecision A} := {
  variants : list A;
  to_str : A → string;
  variants_all a : a ∈ variants;
  to_str_inj : Inj (=) (=) to_str
}.

Definition strum_from_str `{StrEnum A} (s : string) : res A :=
  ok_or (find_first (λ a, bool_decide (to_str a = s)) variants) "Matching variant not found".

Lemma strum_from_str_Ok `{StrEnum A} (s : string) (a : A) :
  strum_from_str s = Ok a ↔ s = to_str a.
Proof.
  unfold strum_from_str. rewrite ok_or_Ok. split.
  - intros [_ ?%bool_decide_eq_true]%find_first_elem. done.
  - intros ->. destruct (find_first _ _) as [b|] eqn:E.
    + apply find_first_elem in E as [_ Hb%bool_decide_eq_true].
      f_equal. by apply to_str_inj.
    + apply find_first_None in E. rewrite Forall_forall in E.
      specialize (E a (variants_all a)). by apply bool_decide_eq_false in E.
Qed.

Lemma strum_from_str_total `{StrEnum A} (s : string) :
  (∃ a : A, s = to_str a) ∨ strum_from_str (A := A) s = bail "Matching variant not found".
Proof.
  destruct (strum_from_str (A := A) s) as [a|e|m] eqn:E.
  - left. exists a. by apply strum_from_str_Ok.
  - right. unfold strum_from_str in E. destruct (find_first _ _); by simplify_eq/=.
  - unfold strum_from_str in E. destruct (find_first _ _); by simplify_eq/=.
Qed.

(** ** Protobuf messages *)

Module Pb.
Record UnitStatus := mkUnitStatus {
  name : string;
  description : string;
  load_state : string;
  active_state : string;
  sub_state : string;
  path : string;
  freezer_state : string
}.

Record TransportConfig := mkTransportConfig {
  protocol : string;
  address : string;
  port : string;
  tc_name : string
}.

Record RegistryRequest := mkRegistryRequest {
  rr_name : string;
  rr_type : Z;           (* u32 *)
  rr_parent : string;
  rr_transport : option TransportConfig;
  rr_state : option UnitStatus
}.

Record QueryListItem := mkQueryListItem {
  item_name : string;
  item_description : string;
  vm_status : string;
  trust_level : string;
  vm_type : string;
  service_type : string;
  vm_name : option string;
  agent_name : option string
}.

Inductive WatchStatus :=
| Initial (list : list QueryListItem)
| Added (i : QueryListItem)
| Updated (i : QueryListItem)
| Removed (i : QueryListItem).
Record WatchItem := mkWatchItem { status : option WatchStatus }.

#[global] Instance UnitStatus_eq_dec : EqDecision UnitStatus.
Proof. solve_decision. Defined.
#[global] Instance QueryListItem_eq_dec : EqDecision QueryListItem.
Proof. solve_decision. Defined.
End Pb.

Module Types.

Inductive VmType := Host | AdmVM | SysVM | AppVM.
Inductive ServiceType := Mgr | Svc | App | VM.
Record UnitType := mkUnitType { vm : VmType; service : ServiceType }.

#[global] Instance VmType_eq_dec : EqDecision VmType.
Proof. solve_decision. Defined.
#[global] Instance ServiceType_eq_dec : EqDecision ServiceType.
Proof. solve_decision. Defined.
#[global] Instance UnitType_eq_dec : EqDecision UnitType.
Proof. solve_decision. Defined.

Definition vm_type_str (t : VmType) : string :=
  match t with Host => "Host" | AdmVM => "AdmVM" | SysVM => "SysVM" | AppVM => "AppVM" end.
Definition service_type_str (t : ServiceType) : string :=
  match t with Mgr => "Mgr" | Svc => "Svc" | App => "App" | VM => "VM" end.

#[global] Program Instance vm_type_enum : StrEnum VmType :=
  {| variants := [Host; AdmVM; SysVM; AppVM]; to_str := vm_type_str |}.
Next Obligation. intros []; set_solver. Qed.
Next Obligation. by intros [] [] ?. Qed.
#[global] Program Instance service_type_enum : StrEnum ServiceType :=
  {| variants := [Mgr; Svc; App; VM]; to_str := service_type_str |}.
Next Obligation. intros []; set_solver. Qed.
Next Obligation. by intros [] [] ?. Qed.

(** [TryFrom<u32> for UnitType] *)
Definition unit_type_of_u32 (n : Z) : res UnitType :=
  match n with
  | 0 => Ok (mkUnitType Host Mgr)
  | 1 => Ok (mkUnitType Host Svc)
  | 2 => Ok (mkUnitType Host App)
  | 3 => Ok (mkUnitType AdmVM VM)
  | 4 => Ok (mkUnitType AdmVM Mgr)
  | 5 => Ok (mkUnitType AdmVM Svc)
  | 6 => Ok (mkUnitType AdmVM App)
  | 7 => Ok (mkUnitType SysVM VM)
  | 8 => Ok (mkUnitType SysVM Mgr)
  | 9 => Ok (mkUnitType SysVM Svc)
  | 10 => Ok (mkUnitType SysVM App)
  | 11 => Ok (mkUnitType AppVM VM)
  | 12 => Ok (mkUnitType AppVM Mgr)
  | 13 => Ok (mkUnitType AppVM Svc)
  | 14 => Ok (mkUnitType AppVM App)
  | _ => bail ("Unknown u32 value for UnitType: " +:+ pretty n)
  end%Z.

(** [From<UnitType> for u32] *)
Definition u32_of_unit_type (t : UnitType) : Z :=
  match vm t with
  | Host => match service t with Mgr => 0 | Svc => 1 | App => 2 | VM => 100500 end
  | AdmVM => match service t with VM => 3 | Mgr => 4 | Svc => 5 | App => 6 end
  | SysVM => match service t with VM => 7 | Mgr => 8 | Svc => 9 | App => 10 end
  | AppVM => match service t with VM => 11 | Mgr => 12 | Svc => 13 | App => 14 end
  end%Z.

(** ** Unit status *)

Record UnitStatus := mkUnitStatus {
  name : string;
  description : string;
  load_state : string;
  active_state : string;
  sub_state : string;
  path : string;
  freezer_state : string
}.

#[global] Instance TUnitStatus_eq_dec : EqDecision UnitStatus.
Proof. solve_decision. Defined.

Definition one_of (s : string) (l : list string) : bool := bool_decide (s ∈ l).

Definition is_valid (u : UnitStatus) : bool :=
  one_of (freezer_state u)
    ["frozen"; "running"; "freezing"; "thawing"; "frozen-by-parent"; "freezing-by-parent"]
  && one_of (load_state u) ["stub"; "loaded"; "not-found"; "bad-setting"; "merged"; "masked"]
  && one_of (active_state u)
    ["active"; "reloading"; "inactive"; "failed"; "activating"; "deactivating"; "maintenance";
     "refreshing"]
  && one_of (sub_state u) ["dead"; "running"; "exitted"].

Definition is_paused (u : UnitStatus) : bool := bool_decide (freezer_state u = "frozen").
Definition is_running (u : UnitStatus) : bool :=
  negb (is_paused u) && bool_decide (active_state u = "active")
  && bool_decide (load_state u = "loaded") && bool_decide (sub_state u = "running").
Definition is_exitted (u : UnitStatus) : bool :=
  bool_decide (active_state u = "inactive") && bool_decide (sub_state u = "dead").

Definition unit_status_of_pb (us : Pb.UnitStatus) : res UnitStatus :=
  Ok (mkUnitStatus (Pb.name us) (Pb.description us) (Pb.load_state us) (Pb.active_state us)
        (Pb.sub_state us) (Pb.path us) (Pb.freezer_state us)).
Definition unit_status_to_pb (u : UnitStatus) : Pb.UnitStatus :=
  Pb.mkUnitStatus (name u) (description u) (load_state u) (active_state u) (sub_state u)
    (path u) (freezer_state u).

(** ** Endpoints *)

Inductive EndpointAddress :=
| Tcp (addr : string) (port : Z)    (* u16 *)
| Unix (path : string)
| Abstract (name : string)
| Vsock (cid port : Z).             (* u32 *)

Record EndpointEntry := mkEndpoint { address : EndpointAddress; tls_name : string }.

#[global] Instance EndpointAddress_eq_dec : EqDecision EndpointAddress.
Proof. solve_decision. Defined.
#[global] Instance EndpointEntry_eq_dec : EqDecision EndpointEntry.
Proof. solve_decision. Defined.

(** [TryFrom<pb::TransportConfig> for EndpointEntry] *)
Definition endpoint_of_pb (tc : Pb.TransportConfig) : res EndpointEntry :=
  endpoint ←
    (if bool_decide (Pb.protocol tc = "tcp") then
       port ← parse_u16 (Pb.port tc); Ok (Tcp (Pb.address tc) port)
     else if bool_decide (Pb.protocol tc = "unix") then Ok (Unix (Pb.address tc))
     else if bool_decide (Pb.protocol tc = "abstract") then Ok (Abstract (Pb.address tc))
     else if bool_decide (Pb.protocol tc = "vsock") then
       cid ← parse_u32 (Pb.address tc); port ← parse_u32 (Pb.port tc); Ok (Vsock cid port)
     else bail ("Unknown protocol: " +:+ Pb.protocol tc));
  Ok (mkEndpoint endpoint (Pb.tc_name tc)).

(** [From<EndpointEntry> for pb::TransportConfig] *)
Definition endpoint_to_pb (e : EndpointEntry) : Pb.TransportConfig :=
  match address e with
  | Tcp addr port => Pb.mkTransportConfig "tcp" addr (pretty port) (tls_name e)
  | Unix p => Pb.mkTransportConfig "unix" p "" (tls_name e)
  | Abstract a => Pb.mkTransportConfig "abstract" a "" (tls_name e)
  | Vsock cid port => Pb.mkTransportConfig "vsock" (pretty cid) (pretty port) (tls_name e)
  end.

Definition wf_address (a : EndpointAddress) : Prop :=
  match a with
  | Tcp _ port => (0 ≤ port ≤ u16_max)%Z
  | Vsock cid port => (0 ≤ cid ≤ u32_max)%Z ∧ (0 ≤ port ≤ u32_max)%Z
  | _ => True
  end.

Lemma endpoint_round e : wf_address (address e) → endpoint_of_pb (endpoint_to_pb e) = Ok e.
Proof.
  destruct e as [[addr port|p|a|cid port] n]; cbn; intros Hwf;
    unfold endpoint_of_pb, parse_u16, parse_u32; cbn [Pb.protocol Pb.port Pb.address Pb.tc_name].
  - cbn. by rewrite parse_int_round.
  - done.
  - done.
  - destruct Hwf as [H1 H2]. cbn. rewrite (parse_int_round _ _ cid H1). cbn.
    by rewrite (parse_int_round _ _ port H2).
Qed.

Lemma endpoint_of_pb_wf tc e : endpoint_of_pb tc = Ok e → wf_address (address e).
Proof.
  assert (0 ≤ 0 ≤ u16_max)%Z by (unfold u16_max; lia).
  assert (0 ≤ 0 ≤ u32_max)%Z by (unfold u32_max; lia).
  unfold endpoint_of_pb. intros (a & Ha & [= <-])%bind_Ok. cbn.
  repeat case_bool_decide; res_simp; try done; cbn; unfold parse_u16, parse_u32 in *;
    eauto using parse_int_range.
Qed.

Lemma unit_type_round t :
  unit_type_of_u32 (u32_of_unit_type t) =
  if bool_decide (t = mkUnitType Host VM) then bail "Unknown u32 value for UnitType: 100500"
  else Ok t.
Proof. by destruct t as [[] []]. Qed.

Lemma unit_type_decode n t : unit_type_of_u32 n = Ok t ↔ n = u32_of_unit_type t ∧ t ≠ mkUnitType Host VM.
Proof.
  split.
  - unfold unit_type_of_u32. repeat (case_match; try done); intros [= <-]; done.
  - intros [-> Hne]. rewrite unit_type_round. by rewrite bool_decide_eq_false_2.
Qed.
End Types.

Module Query.
Import Types.

Inductive VMStatus := Running | PoweredOff | Paused.
Inductive TrustLevel := Secure | Warning | NotSecure.
Definition default_trust : TrustLevel := Warning.

#[global] Instance VMStatus_eq_dec : EqDecision VMStatus.
Proof. solve_decision. Defined.
#[global] Instance TrustLevel_eq_dec : EqDecision TrustLevel.
Proof. solve_decision. Defined.

Definition vm_status_str (s : VMStatus) : string :=
  match s with Running => "Running" | PoweredOff => "PoweredOff" | Paused => "Paused" end.
Definition trust_level_str (t : TrustLevel) : string :=
  match t with Secure => "Secure" | Warning => "Warning" | NotSecure => "NotSecure" end.

#[global] Program Instance vm_status_enum : StrEnum VMStatus :=
  {| variants := [Running; PoweredOff; Paused]; to_str := vm_status_str |}.
Next Obligation. intros []; set_solver. Qed.
Next Obligation. by intros [] [] ?. Qed.
#[global] Program Instance trust_level_enum : StrEnum TrustLevel :=
  {| variants := [Secure; Warning; NotSecure]; to_str := trust_level_str |}.
Next Obligation. intros []; set_solver. Qed.
Next Obligation. by intros [] [] ?. Qed.

Record QueryResult := mkQueryResult {
  name : string;
  description : string;
  status : VMStatus;
  trust_level : TrustLevel;
  vm_type : VmType;
  service_type : ServiceType;
  vm_name : option string;
  agent_name : option string
}.

#[global] Instance QueryResult_eq_dec : EqDecision QueryResult.
Proof. solve_decision. Defined.

(** [TryFrom<pb::QueryListItem> for QueryResult] *)
Definition query_of_pb (item : Pb.QueryListItem) : res QueryResult :=
  status ← with_context ("While parsing vm_status " +:+ Pb.vm_status item)
    (strum_from_str (Pb.vm_status item));
  trust_level ← with_context ("While parsing trust_level " +:+ Pb.trust_level item)
    (strum_from_str (Pb.trust_level item));
  vm_type ← with_context ("While parsing vm_type " +:+ Pb.vm_type item)
    (strum_from_str (Pb.vm_type item));
  service_type ← with_context ("While parsing service_type " +:+ Pb.service_type item)
    (strum_from_str (Pb.service_type item));
  Ok (mkQueryResult (Pb.item_name item) (Pb.item_description item) status trust_level vm_type
        service_type (Pb.vm_name item) (Pb.agent_name item)).

(** [From<QueryResult> for pb::QueryListItem] *)
Definition query_to_pb (q : QueryResult) : Pb.QueryListItem :=
  Pb.mkQueryListItem (name q) (description q) (to_str (status q)) (to_str (trust_level q))
    (to_str (vm_type q)) (to_str (service_type q)) (vm_name q) (agent_name q).

Definition parse_list (items : list Pb.QueryListItem) : res (list QueryResult) :=
  mapM_res query_of_pb items.

Inductive Event :=
| UnitStatusChanged (q : QueryResult)
| UnitRegistered (q : QueryResult)
| UnitShutdown (q : QueryResult).

#[global] Instance Event_eq_dec : EqDecision Event.
Proof. solve_decision. Defined.

Definition into_initial (items : list QueryResult) : Pb.WatchItem :=
  Pb.mkWatchItem (Some (Pb.Initial (query_to_pb <$> items))).

Definition watch_item (s : Pb.WatchStatus) : Pb.WatchItem := Pb.mkWatchItem (Some s).

(** [TryFrom<pb::WatchItem> for Event] *)
Definition event_of_pb (item : Pb.WatchItem) : res Event :=
  match Pb.status item with
  | Some (Pb.Initial _) => bail "Unexpected repeated Status::Initial"
  | Some (Pb.Added v) => q ← query_of_pb v; Ok (UnitRegistered q)
  | Some (Pb.Updated v) => q ← query_of_pb v; Ok (UnitStatusChanged q)
  | Some (Pb.Removed v) => q ← query_of_pb v; Ok (UnitShutdown q)
  | None => bail "WatchItem missing"
  end.

(** [From<Event> for pb::WatchItem] *)
Definition event_to_pb (e : Event) : Pb.WatchItem :=
  match e with
  | UnitRegistered q => watch_item (Pb.Added (query_to_pb q))
  | UnitStatusChanged q => watch_item (Pb.Updated (query_to_pb q))
  | UnitShutdown q => watch_item (Pb.Removed (query_to_pb q))
  end.

Lemma query_of_pb_iff item q : query_of_pb item = Ok q ↔ item = query_to_pb q.
Proof.
  unfold query_of_pb. split.
  - intros H. res_simp.
    repeat match goal with H : strum_from_str _ = Ok _ |- _ => apply strum_from_str_Ok in H end.
    destruct item; cbn in *. by subst.
  - intros ->. cbn [query_to_pb Pb.vm_status Pb.trust_level Pb.vm_type Pb.service_type].
    do 4 rewrite (proj2 (strum_from_str_Ok _ _) eq_refl). cbn [with_context mbind res_bind].
    by destruct q.
Qed.

Lemma parse_list_round l : parse_list (query_to_pb <$> l) = Ok l.
Proof.
  apply mapM_res_Ok. induction l as [|q l IH]; constructor; [by apply query_of_pb_iff | done].
Qed.

Lemma event_round e : event_of_pb (event_to_pb e) = Ok e.
Proof.
  destruct e as [q|q|q]; cbn [event_to_pb watch_item event_of_pb Pb.status];
    by rewrite (proj2 (query_of_pb_iff _ q) eq_refl).
Qed.
End Query.

(** ** Properties *)

Module CommonProps.
Import Types Query.

(** Every wire conversion of the shared types inverts its counterpart:
    query items and watch events parse back to what was sent, a query item
    parses only if it is the encoding of the result, an endpoint with [u16]
    and [u32] numbers survives its transport configuration and every parsed
    endpoint is such, and a unit type survives its number except for the
    host/VM pair, whose number nothing decodes. *)
Theorem wire_round_trips :
  (∀ item q, query_of_pb item = Ok q ↔ item = query_to_pb q) ∧
  (∀ e, event_of_pb (event_to_pb e) = Ok e) ∧
  (∀ l, parse_list (query_to_pb <$> l) = Ok l) ∧
  (∀ e, endpoint_of_pb (endpoint_to_pb e) = Ok e ↔ wf_address (address e)) ∧
  (∀ n t, unit_type_of_u32 n = Ok t ↔ n = u32_of_unit_type t ∧ t ≠ mkUnitType Host VM).
Proof.
  split; [apply query_of_pb_iff|]. split; [apply event_round|]. split; [apply parse_list_round|].
  split; [|apply unit_type_decode]. split; [apply endpoint_of_pb_wf | apply endpoint_round].
Qed.

(** The status predicates are consistent: no status is both running and
    paused or both running and exited, and yet the recognised sub-states spell
    "exitted", so a unit systemd reports with sub-state "exited" never passes
    the validity check. *)
Theorem status_predicates u :
  (is_running u = true → is_paused u = false ∧ is_exitted u = false) ∧
  (sub_state u = "exited" → is_valid u = false).
Proof.
  unfold is_running, is_exitted, is_valid. split.
  - intros [[[Hp%negb_true_iff Ha%bool_decide_eq_true]%andb_true_iff _]%andb_true_iff _]%andb_true_iff.
    by rewrite Ha.
  - intros ->. by rewrite andb_false_r.
Qed.
End CommonProps.
