(* ===== verification/AdminRegistry.v ===== *)
(** * The service registry of the admin ([utils/naming.rs], [admin/entry.rs],
    [admin/registry.rs])

    [Naming]: names of services of VMs and applications.  [Entry]: registry
    entries and their conversions.  [Registry]: the shared map and the
    broadcast channel; the log is every event sent, in order, and a subscriber
    is a position in it.  Each operation runs under the mutex, so it is one
    atomic step.  The iteration order of the map is the class [HashOrder]. *)

From S2P Require Import Prelude RustStr RustInt CommonTypes.
From Stdlib Require Import Ascii.

Module Naming.

Inductive VmName := Vm (s : string) | AppName (s : string).

(** [impl Display for VmName] *)
Definition display (v : VmName) : string :=
  match v with Vm vm => vm | AppName app => app +:+ "-vm" end.

Definition agent_service (v : VmName) : string := "givc-" +:+ display v +:+ ".service".
Definition vm_service (v : VmName) : string := "microvm@" +:+ display v +:+ ".service".

Definition parse_vm_name (name : string) : option string :=
  s ← strip_prefix "microvm@" name; strip_suffix ".service" s.

Definition parse_application_name (name : string) : res (string * Z) :=
  let malformed := bail ("App name " +:+ name +:+ " not it app@<number>.service format") in
  match strip_suffix ".service" name with
  | Some stem =>
      match rsplit_once "@"%char stem with
      | Some (lhs, rhs) =>
          num ← with_context ("While parsing number part of " +:+ name) (parse_i32 rhs);
          Ok (lhs, num)
      | None => malformed
      end
  | None => malformed
  end.

(** The name of an application instance. *)
Definition instance_name (name : string) (n : Z) : string :=
  name +:+ "@" +:+ pretty n +:+ ".service".

Lemma parse_vm_name_Some name vm :
  parse_vm_name name = Some vm ↔ name = vm_service (Vm vm).
Proof.
  unfold parse_vm_name, vm_service; cbn [display]. rewrite bind_Some.
  setoid_rewrite strip_prefix_Some. setoid_rewrite strip_suffix_Some. split.
  - by intros (s & -> & ->).
  - intros ->. by eexists.
Qed.

Lemma pretty_Z_no_at (z : Z) : has_char "@" (pretty z) = false.
Proof.
  destruct (decide (0 ≤ z)%Z); [by apply pretty_no_char|].
  destruct z as [|p|p]; [lia..|].
  change (pretty (Z.neg p)) with ("-" +:+ pretty (Npos p)).
  rewrite has_char_app. apply orb_false_iff. split; [done|].
  eapply all_chars_has_char; [apply pretty_N_digits | done].
Qed.

Lemma parse_instance name n :
  (i32_min ≤ n ≤ i32_max)%Z → parse_application_name (instance_name name n) = Ok (name, n).
Proof.
  intros Hn. unfold parse_application_name, instance_name.
  rewrite <-!str_app_assoc, strip_suffix_app, str_app_assoc.
  rewrite (str_cons_app "@"), (str_nil_app (pretty n)).
  rewrite rsplit_once_app by apply pretty_Z_no_at.
  unfold parse_i32. by rewrite parse_int_round.
Qed.

Lemma instance_name_inj name n m :
  instance_name name n = instance_name name m → n = m.
Proof.
  unfold instance_name. intros E%str_app_inj_l%str_app_inj_l%str_app_inj_r.
  by apply (inj pretty).
Qed.
End Naming.

Module Entry.
Import Naming Types.

Inductive Placement :=
| Endpoint (endpoint : EndpointEntry) (vm : string)
| Managed (vm by' : string)
| OnHost.

Record RegistryEntry := mkEntry {
  name : string;
  type : UnitType;
  status : UnitStatus;
  placement : Placement;
  watch : bool
}.

#[global] Instance Placement_eq_dec : EqDecision Placement.
Proof. solve_decision. Defined.
#[global] Instance RegistryEntry_eq_dec : EqDecision RegistryEntry.
Proof. solve_decision. Defined.

Definition agent_name (e : RegistryEntry) : option string :=
  match placement e with
  | Endpoint _ _ => Some (name e)
  | Managed _ by' => Some by'
  | OnHost => None
  end.

Definition vm_name (e : RegistryEntry) : option string :=
  match service (type e), placement e with
  | VM, _ => parse_vm_name (name e)
  | _, Endpoint _ vm => Some vm
  | _, Managed vm _ => parse_vm_name vm
  | _, OnHost => None
  end.

Definition agent (e : RegistryEntry) : res EndpointEntry :=
  match placement e with
  | Endpoint endpoint _ => Ok endpoint
  | Managed _ by' => bail ("Agent endpoint " +:+ name e +:+ " is managed by " +:+ by' +:+ "!")
  | OnHost => bail "Its a host!"
  end.

(** [TryFrom<pb::RegistryRequest> for RegistryEntry] *)
Definition entry_of_pb (req : Pb.RegistryRequest) : res RegistryEntry :=
  ty ← unit_type_of_u32 (Pb.rr_type req);
  state ← ok_or (Pb.rr_state req) "status missing";
  status ← unit_status_of_pb state;
  transport ← ok_or (Pb.rr_transport req) "endpoint missing";
  endpoint ← endpoint_of_pb transport;
  let watch := bool_decide (service ty = Mgr)
    || (bool_decide (vm ty = AppVM) && negb (bool_decide (service ty = Svc))) in
  Ok (mkEntry (Pb.rr_name req) ty status
        (Endpoint endpoint (default "" (parse_vm_name (Pb.rr_parent req)))) watch).

(** [From<RegistryEntry> for QueryResult] *)
Definition to_query (e : RegistryEntry) : Query.QueryResult :=
  let st :=
    if is_running (status e) then Query.Running
    else if is_paused (status e) then Query.Paused
    else Query.PoweredOff in
  Query.mkQueryResult (name e) (description (status e)) st Query.default_trust
    (vm (type e)) (service (type e)) (vm_name e) (agent_name e).

(** Entries registered over RPC are direct endpoints. *)
Lemma entry_of_pb_endpoint req e :
  entry_of_pb req = Ok e →
  name e = Pb.rr_name req ∧ ∃ ep vm, placement e = Endpoint ep vm ∧ wf_address (address ep).
Proof.
  unfold entry_of_pb. intros H. res_simp. split; [done|]. do 2 eexists. split; [done|].
  by eapply endpoint_of_pb_wf.
Qed.
End Entry.

Module Registry.
Import Naming Types Entry.

Record Registry := mkRegistry {
  map : gmap string RegistryEntry;
  log : list Query.Event
}.

Definition new : Registry := mkRegistry ∅ [].

Definition send_event (ev : Query.Event) (r : Registry) : Registry :=
  mkRegistry (map r) (log r ++ [ev]).

Definition set_map (m : gmap string RegistryEntry) (r : Registry) : Registry :=
  mkRegistry m (log r).

Definition register (e : RegistryEntry) (r : Registry) : Registry :=
  let event := Query.UnitRegistered (to_query e) in
  let r' := set_map (<[name e := e]> (map r)) r in
  let r' := match map r !! name e with
            | Some old => send_event (Query.UnitShutdown (to_query old)) r'
            | None => r'
            end in
  send_event event r'.

(** The entries [extract_if] takes out when [name] is deregistered. *)
Definition depends_on (name : string) (e : RegistryEntry) : bool :=
  bool_decide (agent_name e = Some name)
  || match vm_name e, parse_vm_name name with
     | Some a, Some b => bool_decide (a = b)
     | _, _ => false
     end.

Section ops.
Context `{HashOrder}.

Definition deregister (name : string) (r : Registry) : res unit * Registry :=
  match map r !! name with
  | Some entry =>
      let rest := delete name (map r) in
      let taken := keep (λ p, depends_on name (snd p)) (hash_iter rest) in
      let left := filter (λ p, depends_on name (snd p) = false) rest in
      let r' := foldl (λ r p, send_event (Query.UnitShutdown (to_query (snd p))) r)
                  (set_map left r) taken in
      (Ok tt, send_event (Query.UnitShutdown (to_query entry)) r')
  | None => (bail ("Can't deregister entry " +:+ name +:+ ", it not registered"), r)
  end.

Definition by_name (name : string) (r : Registry) : res RegistryEntry :=
  match map r !! name with
  | Some e => Ok e
  | None => Err [NotRegistered name]
  end.

Definition find_names (name : string) (r : Registry) : res (list string) :=
  let l := keep (starts_with name) (hash_keys (map r)) in
  if bool_decide (l = []) then bail ("No entries match string " +:+ name) else Ok l.

Definition find_map {T} (f : RegistryEntry → option T) (r : Registry) : option T :=
  Prelude.find_map f (hash_values (map r)).
Definition filter_map {T} (f : RegistryEntry → option T) (r : Registry) : list T :=
  Prelude.filter_map f (hash_values (map r)).

Definition by_type_many (ty : UnitType) (r : Registry) : list RegistryEntry :=
  keep (λ e, bool_decide (type e = ty)) (hash_values (map r)).

Definition by_type (ty : UnitType) (r : Registry) : res RegistryEntry :=
  match by_type_many ty r with
  | [e] => Ok e
  | [] => bail "No service registered for"
  | _ => bail "More than one unique services registered"
  end.

Definition contains (name : string) (r : Registry) : bool :=
  bool_decide (is_Some (map r !! name)).

Definition watch_list (r : Registry) : list RegistryEntry :=
  keep watch (hash_values (map r)).

Definition contents (r : Registry) : list RegistryEntry := hash_values (map r).

(** [subscribe]: the receiver sees the events sent after [pos], which is read
    before the mutex is taken. *)
Definition subscribe (pos : nat) (r : Registry) : list Query.QueryResult * nat :=
  (to_query <$> contents r, pos).
End ops.

(** [create_unique_entry_name]: the counter is an [i32]; reaching its end is an
    overflow.  The fuel is one more than the number of entries, enough by
    [create_unique_least]. *)
Fixpoint unique_loop (r : Registry) (name : string) (fuel : nat) (counter : Z) : option string :=
  match fuel with
  | 0 => None
  | S fuel =>
      let new_name := instance_name name counter in
      if negb (contains new_name r) then Some new_name
      else if (counter <? i32_max)%Z then unique_loop r name fuel (counter + 1)%Z
      else None
  end.
Definition create_unique_entry_name (name : string) (r : Registry) : option string :=
  unique_loop r name (S (size (map r))) 0.

Definition set_status (e : RegistryEntry) (st : UnitStatus) : RegistryEntry :=
  mkEntry (name e) (type e) st (placement e) (watch e).

Definition update_state (name : string) (st : UnitStatus) (r : Registry) : res unit * Registry :=
  match map r !! name with
  | Some e =>
      let e' := set_status e st in
      (Ok tt, send_event (Query.UnitStatusChanged (to_query e')) (set_map (<[name := e']> (map r)) r))
  | None => (bail ("Can't update state for " +:+ name +:+ ", is not registered"), r)
  end.

(** ** Unique names *)

Lemma unique_loop_Some r name fuel c s :
  unique_loop r name fuel c = Some s →
  ∃ k, (0 ≤ k)%Z ∧ s = instance_name name (c + k) ∧ contains s r = false ∧
    (∀ j, (0 ≤ j < k)%Z → contains (instance_name name (c + j)) r = true) ∧
    (k < Z.of_nat fuel)%Z.
Proof.
  revert c; induction fuel as [|fuel IH]; intros c; [done|]; cbn.
  destruct (contains (instance_name name c) r) eqn:Hc; cbn.
  - destruct (c <? i32_max)%Z; [|done]. intros (k & ? & -> & ? & Hk & ?)%IH.
    exists (1 + k)%Z. repeat split; [lia|f_equal; lia|done| |lia].
    + intros j Hj. destruct (decide (j = 0)%Z) as [->|]; [by rewrite Z.add_0_r|].
      replace (c + j)%Z with (c + 1 + (j - 1))%Z by lia. apply Hk. lia.
  - intros [= <-]. exists 0%Z. rewrite Z.add_0_r. split; [done|]. split; [done|].
    split; [done|]. split; [intros; lia | lia].
Qed.

(** Taken names are distinct keys, so there are at most as many as entries. *)
Lemma taken_bound r name n :
  (∀ j, j < n → contains (instance_name name (Z.of_nat j)) r = true) → n ≤ size (map r).
Proof.
  intros Ht.
  assert (NoDup ((λ j, instance_name name (Z.of_nat j)) <$> seq 0 n)) as Hnd.
  { apply NoDup_fmap_2; [|apply NoDup_seq]. intros i j E%instance_name_inj. lia. }
  transitivity (size (list_to_set (C := gset string) ((λ j, instance_name name (Z.of_nat j)) <$> seq 0 n))).
  { rewrite size_list_to_set by done. by rewrite length_fmap, length_seq. }
  rewrite <-size_dom. apply subseteq_size. intros x Hx.
  apply elem_of_list_to_set, list_elem_of_fmap in Hx as (j & -> & Hj%elem_of_seq).
  apply elem_of_dom. specialize (Ht j ltac:(lia)). by apply bool_decide_eq_true in Ht.
Qed.

Lemma unique_loop_total r name fuel c :
  (0 ≤ c)%Z → (c + Z.of_nat fuel ≤ i32_max + 1)%Z → 0 < fuel →
  unique_loop r name fuel c = None →
  ∀ j, (0 ≤ j < Z.of_nat fuel)%Z → contains (instance_name name (c + j)) r = true.
Proof.
  revert c; induction fuel as [|fuel IH]; intros c Hc Hf H0; [lia|]. cbn.
  destruct (contains (instance_name name c) r) eqn:Ec; [|done]. cbn.
  intros Hn j Hj. destruct (decide (j = 0)%Z) as [->|]; [by rewrite Z.add_0_r|].
  destruct (Z.ltb_spec c i32_max) as [Hlt|]; [|lia].
  replace (c + j)%Z with (c + 1 + (j - 1))%Z by lia. apply IH; try lia. done.
Qed.

(** The name is the least free instance, and the loop always finds one. *)
Lemma unique_name_spec name r s :
  create_unique_entry_name name r = Some s →
  ∃ k, (0 ≤ k)%Z ∧ s = instance_name name k ∧ map r !! instance_name name k = None ∧
    ∀ j, (0 ≤ j < k)%Z → is_Some (map r !! instance_name name j).
Proof.
  intros (k & ? & -> & Hc & Hk & ?)%unique_loop_Some. exists k. split; [lia|]. split; [done|]. split.
  - apply eq_None_not_Some. by apply bool_decide_eq_false in Hc.
  - intros j Hj. specialize (Hk j Hj). by apply bool_decide_eq_true in Hk.
Qed.

Lemma create_unique_least name r :
  (Z.of_nat (size (map r)) ≤ i32_max)%Z →
  ∃ k, (0 ≤ k ≤ Z.of_nat (size (map r)))%Z ∧
    create_unique_entry_name name r = Some (instance_name name k) ∧
    map r !! instance_name name k = None ∧
    ∀ j, (0 ≤ j < k)%Z → is_Some (map r !! instance_name name j).
Proof.
  intros Hs. unfold create_unique_entry_name.
  destruct (unique_loop r name (S (size (map r))) 0) as [s|] eqn:E.
  - apply unique_loop_Some in E as (k & ? & -> & Hc & Hk & ?).
    exists k. split; [lia|]. split; [done|]. split.
    + apply eq_None_not_Some. by apply bool_decide_eq_false in Hc.
    + intros j Hj. specialize (Hk j Hj). by apply bool_decide_eq_true in Hk.
  - exfalso. pose proof (taken_bound r name (S (size (map r)))) as Hb.
    enough (S (size (map r)) ≤ size (map r)) by lia. apply Hb. intros j Hj.
    rewrite <-(Z.add_0_l (Z.of_nat j)).
    apply (unique_loop_total r name (S (size (map r))) 0 ltac:(lia) ltac:(lia) ltac:(lia) E). lia.
Qed.

(** ** Well-formedness and the event log *)

(** An entry is stored under its own name. *)
Definition wf (r : Registry) : Prop := map_Forall (λ k e, name e = k) (map r).

(** What a subscriber sees: query results by name. *)
Abbreviation view := (gmap string Query.QueryResult).
Definition view_of (r : Registry) : view := to_query <$> map r.

(** How a subscriber updates its view. *)
Definition effect (ev : Query.Event) : string * option Query.QueryResult :=
  match ev with
  | Query.UnitRegistered q | Query.UnitStatusChanged q => (Query.name q, Some q)
  | Query.UnitShutdown q => (Query.name q, None)
  end.
Definition apply_event (v : view) (ev : Query.Event) : view :=
  partial_alter (λ _, snd (effect ev)) (fst (effect ev)) v.
Definition replay (evs : list Query.Event) (v : view) : view := foldl apply_event v evs.

(** The last thing said about a name. *)
Fixpoint last_effect (evs : list Query.Event) (k : string) : option (option Query.QueryResult) :=
  match evs with
  | [] => None
  | ev :: evs =>
      match last_effect evs k with
      | Some o => Some o
      | None => if bool_decide (fst (effect ev) = k) then Some (snd (effect ev)) else None
      end
  end.

Lemma lookup_replay evs v k :
  replay evs v !! k = match last_effect evs k with Some o => o | None => v !! k end.
Proof.
  revert v; induction evs as [|ev evs IH]; intros v; [done|]. cbn. fold (replay evs (apply_event v ev)).
  rewrite IH. destruct (last_effect evs k); [done|]. unfold apply_event.
  case_bool_decide as Hk; [subst k; by rewrite lookup_partial_alter_eq|].
  by rewrite lookup_partial_alter_ne.
Qed.

Lemma replay_app evs1 evs2 v : replay (evs1 ++ evs2) v = replay evs2 (replay evs1 v).
Proof. apply foldl_app. Qed.

(** Seeing events twice changes nothing. *)
Lemma replay_idem evs v : replay evs (replay evs v) = replay evs v.
Proof.
  apply map_eq. intros k. rewrite !lookup_replay. by destruct (last_effect evs k).
Qed.

(** The events a step appends bring a view of the old state to the new. *)
Definition logged (r r' : Registry) : Prop :=
  ∃ evs, log r' = log r ++ evs ∧ view_of r' = replay evs (view_of r).

Lemma logged_refl r : logged r r.
Proof. exists []. by rewrite app_nil_r. Qed.

Lemma logged_trans r1 r2 r3 : logged r1 r2 → logged r2 r3 → logged r1 r3.
Proof.
  intros (e1 & L1 & V1) (e2 & L2 & V2). exists (e1 ++ e2).
  by rewrite L2, L1, V2, V1, replay_app, app_assoc.
Qed.

Lemma to_query_name e : Query.name (to_query e) = name e.
Proof. done. Qed.

Lemma register_logged e r : wf r → logged r (register e r) ∧ wf (register e r).
Proof.
  intros Hwf. split.
  - unfold register, logged, view_of. destruct (map r !! name e) as [old|] eqn:Eo; cbn.
    + exists [Query.UnitShutdown (to_query old); Query.UnitRegistered (to_query e)].
      split; [by rewrite <-app_assoc|]. unfold replay, apply_event; cbn.
      rewrite fmap_insert. specialize (Hwf _ _ Eo). cbn in Hwf. rewrite Hwf.
      change (partial_alter (λ _, Some (to_query e)) (name e)) with (insert (M := view) (name e) (to_query e)).
      change (partial_alter (λ _, @None Query.QueryResult) (name e)) with (delete (M := view) (name e)).
      by rewrite insert_delete_eq.
    + exists [Query.UnitRegistered (to_query e)]. split; [done|].
      unfold replay, apply_event; cbn. by rewrite fmap_insert.
  - unfold wf. replace (map (register e r)) with (<[name e := e]> (map r))
      by (unfold register; by destruct (map r !! name e)).
    by apply map_Forall_insert_2.
Qed.

Lemma update_state_logged n st r :
  wf r → logged r (snd (update_state n st r)) ∧ wf (snd (update_state n st r)).
Proof.
  intros Hwf. unfold update_state. destruct (map r !! n) as [e|] eqn:E; cbn.
  - specialize (Hwf _ _ E) as Hn. cbn in Hn. split.
    + exists [Query.UnitStatusChanged (to_query (set_status e st))]. split; [done|].
      unfold view_of, replay, apply_event; cbn. rewrite fmap_insert, Hn. done.
    + by apply map_Forall_insert_2.
  - split; [apply logged_refl | done].
Qed.

Lemma register_lookup e r : map (register e r) !! name e = Some e.
Proof. unfold register. destruct (map r !! name e); cbn; by rewrite lookup_insert_eq. Qed.
Lemma register_other e r k : k ≠ name e → map (register e r) !! k = map r !! k.
Proof. intros Hk. unfold register. destruct (map r !! name e); cbn; by rewrite lookup_insert_ne. Qed.

Section dereg.
Context `{HashOrder}.

Lemma foldl_send l r :
  foldl (λ r p, send_event (Query.UnitShutdown (to_query (snd p))) r) r l =
  mkRegistry (map r) (log r ++ ((λ p : string * RegistryEntry, Query.UnitShutdown (to_query (snd p))) <$> l)).
Proof.
  revert r; induction l as [|p l IH]; intros r; cbn; [by destruct r; rewrite app_nil_r|].
  rewrite IH. cbn. by rewrite <-app_assoc.
Qed.

(** The entries taken out with [n]. *)
Definition goes_with (n : string) (r : Registry) (k : string) : bool :=
  match map r !! k with
  | Some e => bool_decide (k = n) || depends_on n e
  | None => false
  end.

Lemma deregister_map n r e :
  map r !! n = Some e →
  ∀ k, map (snd (deregister n r)) !! k = if goes_with n r k then None else map r !! k.
Proof.
  intros E k. unfold deregister. rewrite E. cbn. rewrite foldl_send. cbn.
  unfold goes_with. rewrite map_lookup_filter. destruct (decide (k = n)) as [->|Hk].
  { rewrite E, lookup_delete_eq, bool_decide_eq_true_2 by done. done. }
  rewrite lookup_delete_ne by done. destruct (map r !! k) as [e'|] eqn:Ek; cbn; [|done].
  rewrite bool_decide_eq_false_2 by done. cbn.
  case_guard as Hg; destruct (depends_on n e'); cbn in *; done.
Qed.

(** What [depends_on] says, in terms of the entry. *)
Lemma spares_spec n e :
  depends_on n e = false ↔
  (∀ vm, placement e ≠ Managed vm n) ∧
  (∀ endpoint vm, placement e = Endpoint endpoint vm → name e ≠ n) ∧
  ∀ vm, n = "microvm@" +:+ vm +:+ ".service" →
    if bool_decide (service (type e) = VM) then name e ≠ n
    else match placement e with
         | Endpoint _ vm' => vm' ≠ vm
         | Managed vm' _ => vm' ≠ n
         | OnHost => True
         end.
Proof.
  assert (bool_decide (agent_name e = Some n) = false ↔
    (∀ vm, placement e ≠ Managed vm n) ∧
    (∀ endpoint vm, placement e = Endpoint endpoint vm → name e ≠ n)) as Ha.
  { rewrite bool_decide_eq_false. unfold agent_name. destruct (placement e); naive_solver. }
  assert (∀ m vm, parse_vm_name m = Some vm ↔ m = "microvm@" +:+ vm +:+ ".service") as Hp.
  { intros m vm. apply parse_vm_name_Some. }
  unfold depends_on. rewrite orb_false_iff, Ha, Logic.and_assoc. do 2 (apply and_iff_compat_l).
  destruct (parse_vm_name n) as [v|] eqn:En; last first.
  { assert (∀ vm, n ≠ "microvm@" +:+ vm +:+ ".service") as Hn by (intros vm Hn%Hp; congruence).
    destruct (vm_name e); naive_solver. }
  assert (∀ m, parse_vm_name m = Some v ↔ m = n) as Hm.
  { intros m. rewrite Hp. apply Hp in En. by rewrite En. }
  assert (∀ m, (match parse_vm_name m with Some a => bool_decide (a = v) | None => false end) = false ↔ m ≠ n) as Hb.
  { intros m. rewrite <-Hm. destruct (parse_vm_name m) as [a|]; [rewrite bool_decide_eq_false|]; naive_solver. }
  assert (∀ P : string → Prop, (∀ vm, n = "microvm@" +:+ vm +:+ ".service" → P vm) ↔ P v) as ->.
  { intros P. setoid_rewrite <-Hp. rewrite En. naive_solver. }
  unfold vm_name. destruct (decide (service (type e) = VM)) as [Es|Es].
  { rewrite Es, bool_decide_eq_true_2 by done. apply Hb. }
  rewrite (bool_decide_eq_false_2 (service (type e) = VM)) by done.
  destruct (service (type e)), (placement e); rewrite ?Hb, ?bool_decide_eq_false; done.
Qed.

Lemma shutdown_effects l k :
  Forall (λ p : string * RegistryEntry, name (snd p) = fst p) l →
  last_effect ((λ p, Query.UnitShutdown (to_query (snd p))) <$> l) k =
  if bool_decide (k ∈ l.*1) then Some None else None.
Proof.
  induction 1 as [|[k' e] l Hp _ IH]; [done|]. cbn in *. rewrite IH.
  case_bool_decide as H1; [by rewrite bool_decide_eq_true_2 by (by right)|].
  case_bool_decide as H2; case_bool_decide as H3; try done; exfalso.
  - apply H3. rewrite <-H2, Hp. left.
  - apply elem_of_cons in H3 as [->|]; [by rewrite Hp in H2 | done].
Qed.

Lemma deregister_logged n r :
  wf r → logged r (snd (deregister n r)) ∧ wf (snd (deregister n r)).
Proof.
  intros Hwf. destruct (map r !! n) as [e|] eqn:E; last first.
  { unfold deregister. rewrite E. split; [apply logged_refl | done]. }
  pose proof (deregister_map n r e E) as Hm. split; last first.
  { intros k e' Hk. rewrite Hm in Hk. destruct (goes_with n r k); [done|]. by apply Hwf. }
  set (taken := keep (λ p, depends_on n (snd p)) (hash_iter (delete n (map r)))).
  assert (∀ k e', (k, e') ∈ taken ↔ k ≠ n ∧ map r !! k = Some e' ∧ depends_on n e' = true) as Ht.
  { intros k e'. unfold taken. rewrite elem_of_keep, elem_of_hash_iter, lookup_delete_Some.
    cbn. naive_solver. }
  exists (((λ p, Query.UnitShutdown (to_query (snd p))) <$> taken) ++ [Query.UnitShutdown (to_query e)]).
  split.
  { unfold deregister. rewrite E. cbn. fold taken. rewrite foldl_send. cbn. by rewrite <-app_assoc. }
  apply map_eq. intros k. rewrite replay_app. unfold view_of at 1. rewrite lookup_fmap, Hm.
  unfold replay at 1; cbn. unfold apply_event; cbn. specialize (Hwf _ _ E) as Hn. cbn in Hn.
  rewrite Hn. unfold goes_with. destruct (decide (k = n)) as [->|Hk].
  { rewrite lookup_partial_alter_eq, E, bool_decide_eq_true_2 by done. done. }
  rewrite lookup_partial_alter_ne by done. rewrite lookup_replay, shutdown_effects; last first.
  { apply Forall_forall. intros [k' e'] (_ & Hin & _)%Ht. cbn. by apply Hwf. }
  unfold view_of. rewrite lookup_fmap. rewrite (bool_decide_eq_false_2 (k = n)) by done.
  destruct (map r !! k) as [e'|] eqn:Ek; cbn.
  - case_bool_decide as Hin.
    + apply list_elem_of_fmap in Hin as ([k' e''] & -> & (_ & Ek' & Hd)%Ht). cbn in *.
      rewrite Ek in Ek'. simplify_eq. by rewrite Hd.
    + destruct (depends_on n e') eqn:Hd; [|done]. exfalso. apply Hin.
      apply list_elem_of_fmap. exists (k, e'). split; [done|]. by apply Ht.
  - case_bool_decide as Hin; [|done].
    apply list_elem_of_fmap in Hin as ([k' e''] & -> & (_ & Ek' & _)%Ht). cbn in *. congruence.
Qed.

(** ** Runs of the registry *)

(** The operations that change the registry. *)
Inductive step : Registry → Registry → Prop :=
| step_register e r : step r (register e r)
| step_deregister n r : step r (snd (deregister n r))
| step_update n st r : step r (snd (update_state n st r)).

Lemma step_logged r r' : step r r' → wf r → logged r r' ∧ wf r'.
Proof.
  intros []; auto using register_logged, deregister_logged, update_state_logged.
Qed.

Lemma run_logged r r' : rtc step r r' → wf r → logged r r' ∧ wf r'.
Proof.
  induction 1 as [|r1 r2 r3 Hs _ IH]; intros Hwf; [split; [apply logged_refl | done]|].
  destruct (step_logged _ _ Hs Hwf) as [? Hwf2]. destruct (IH Hwf2).
  eauto using logged_trans.
Qed.

Lemma wf_new : wf new.
Proof. apply map_Forall_empty. Qed.

(** A snapshot taken at [r1] catches up with [r2] by the events since an
    earlier [r0]. *)
Lemma snapshot_replay r0 r1 r2 :
  rtc step new r0 → rtc step r0 r1 → rtc step r1 r2 →
  replay (drop (length (log r0)) (log r2)) (view_of r1) = view_of r2.
Proof.
  intros H0 H1 H2.
  destruct (run_logged _ _ H0 wf_new) as [_ W0].
  destruct (run_logged _ _ H1 W0) as [(e1 & L1 & V1) W1].
  destruct (run_logged _ _ H2 W1) as [(e2 & L2 & V2) _].
  rewrite L2, L1, <-app_assoc, drop_app_length, replay_app, V2, V1. by rewrite replay_idem.
Qed.
End dereg.
End Registry.

(** ** Properties *)

Module RegistryProps.
Import Naming Types Entry Registry.

(** C16: The registry is the replay of its event log: whatever operations ran,
    every entry is stored under its own name and applying all events sent, in
    order, to an empty view gives exactly the query results of the entries. *)
Theorem registry_event_sourced `{HashOrder} r :
  rtc step new r → wf r ∧ view_of r = replay (log r) ∅.
Proof.
  intros Hr. destruct (run_logged _ _ Hr wf_new) as [(evs & Hl & Hv) Hwf]. split; [done|].
  cbn in Hl. rewrite Hl, Hv. unfold view_of. cbn. by rewrite fmap_empty.
Qed.

(** A watcher converges: it subscribes when the registry is in state [r0],
    takes its snapshot at a possibly later state [r1] and then applies every
    event sent since the subscription, those already in the snapshot included;
    after them its view is that of the registry. *)
Theorem watch_converges `{HashOrder} r0 r1 r2 :
  rtc step new r0 → rtc step r0 r1 → rtc step r1 r2 →
  replay (drop (length (log r0)) (log r2)) (view_of r1) = view_of r2.
Proof. apply snapshot_replay. Qed.

(** C27: Deregistering removes exactly the named entry, the entries that the
    named agent manages - those placed under it and, under its name, one with an
    endpoint of its own - and, if the name is [microvm@<vm>.service], the
    entries that belong to that VM: a VM service of this name, entries with an
    endpoint in the VM, and managed entries whose VM service has this name.  All
    other entries stay as they are, and an unknown name is an error that leaves
    the registry as it was. *)
Theorem deregister_cascade `{HashOrder} n r :
  match map r !! n with
  | None => deregister n r = (bail ("Can't deregister entry " +:+ n +:+ ", it not registered"), r)
  | Some _ =>
      fst (deregister n r) = Ok tt ∧
      ∀ k e, map (snd (deregister n r)) !! k = Some e ↔
        map r !! k = Some e ∧ k ≠ n ∧
        (* its agent is another one *)
        (∀ vm, placement e ≠ Managed vm n) ∧
        (∀ endpoint vm, placement e = Endpoint endpoint vm → name e ≠ n) ∧
        (* it does not belong to the VM *)
        ∀ vm, n = "microvm@" +:+ vm +:+ ".service" →
          if bool_decide (service (type e) = VM) then name e ≠ n
          else match placement e with
               | Endpoint _ vm' => vm' ≠ vm
               | Managed vm' _ => vm' ≠ n
               | OnHost => True
               end
  end.
Proof.
  destruct (map r !! n) as [e0|] eqn:E; [|unfold deregister; by rewrite E].
  split; [unfold deregister; by rewrite E|]. intros k e. rewrite (deregister_map n r e0 E), <-spares_spec.
  unfold goes_with. destruct (map r !! k) as [e'|] eqn:Ek; [|naive_solver].
  destruct (decide (k = n)) as [->|Hk]; [rewrite bool_decide_eq_true_2 by done; naive_solver|].
  rewrite bool_decide_eq_false_2 by done. destruct (depends_on n e') eqn:Ed; cbn; naive_solver congruence.
Qed.

(** A new application instance gets the least free number: the loop
    returns within one more round than there are entries, the [i32] counter
    does not overflow, the name is not registered, all smaller numbers are,
    and the agent parses the name back to the application and that number. *)
Theorem unique_name_least name r :
  (Z.of_nat (size (map r)) ≤ i32_max)%Z →
  ∃ k, (0 ≤ k ≤ Z.of_nat (size (map r)))%Z ∧
    create_unique_entry_name name r = Some (instance_name name k) ∧
    map r !! instance_name name k = None ∧
    (∀ j, (0 ≤ j < k)%Z → is_Some (map r !! instance_name name j)) ∧
    parse_application_name (instance_name name k) = Ok (name, k).
Proof.
  intros Hs. destruct (create_unique_least name r Hs) as (k & Hk & ? & ? & ?).
  exists k. repeat split; [lia..| | | |]; [done..|]. apply parse_instance.
  split; [|lia]. unfold i32_min. lia.
Qed.

(** The name of a VM is recovered from its service name and from nothing
    else, and an instance name parses back for every [i32]. *)
Theorem vm_name_round_trip name :
  (∀ v, parse_vm_name (vm_service v) = Some (display v)) ∧
  (∀ vm, parse_vm_name name = Some vm ↔ name = vm_service (Vm vm)) ∧
  (∀ n, (i32_min ≤ n ≤ i32_max)%Z → parse_application_name (instance_name name n) = Ok (name, n)).
Proof.
  split; [intros v; by apply (parse_vm_name_Some (vm_service v) (display v))|].
  split; [apply parse_vm_name_Some | apply parse_instance].
Qed.

Definition ex_status : UnitStatus :=
  mkUnitStatus "givc-net-vm.service" "net agent" "loaded" "active" "running" "" "running".
Definition ex_entry (n : string) : RegistryEntry :=
  mkEntry n (mkUnitType SysVM Mgr) ex_status
    (Endpoint (mkEndpoint (Tcp "10.0.0.2" 9000) n) "net-vm") true.
Definition ex_registry : Registry := register (ex_entry "givc-net-vm.service") new.

Lemma ex_registry_run `{HashOrder} : rtc step new ex_registry.
Proof. eapply rtc_once, step_register. Qed.

Lemma registry_event_sourced_witness :
  view_of ex_registry = replay (log ex_registry) ∅.
Proof.
  apply (@registry_event_sourced map_to_list_order ex_registry).
  exact (@ex_registry_run map_to_list_order).
Defined.

Lemma watch_converges_witness :
  replay (drop 0 (log ex_registry)) (view_of ex_registry) = view_of ex_registry.
Proof.
  apply (@watch_converges map_to_list_order new ex_registry ex_registry);
    [apply rtc_refl | exact (@ex_registry_run map_to_list_order) | apply rtc_refl].
Defined.

Lemma unique_name_least_witness :
  ∃ k, create_unique_entry_name "app" ex_registry = Some (instance_name "app" k).
Proof.
  destruct (unique_name_least "app" ex_registry) as (k & _ & Hk & _);
    [vm_compute; discriminate | by exists k].
Defined.
End RegistryProps.
