(* ===== verification/AdminAuth.v ===== *)
(** * Errors on the wire, authentication and authorisation
    ([utils/tonic.rs], [client/error.rs], [utils/x509.rs], [utils/auth.rs],
    [utils/access_control.rs], [utils/vsock.rs])

    [Wire]: how an [anyhow] error chain becomes a gRPC status and back.
    [Auth]: the interceptors a request passes.  The X.509 parser, the protobuf
    reflection pool, JSON and the Cedar engine are parameters. *)

From S2P Require Import Prelude RustStr RustInt CommonTypes.
From Stdlib Require Import Ascii.

Module Wire.

Inductive Code := CodeOk | Unknown | InvalidArgument | PermissionDenied | Unauthenticated
                | Unimplemented | Internal.
#[global] Instance Code_eq_dec : EqDecision Code.
Proof. solve_decision. Defined.

(** [ErrorDetails::with_debug_info(stack_entries, detail)] *)
Record DebugInfo := mkDebugInfo { stack_entries : list string; detail : string }.

(** [tonic::Status] *)
Record Status := mkStatus { code : Code; message : string; debug_info : option DebugInfo }.

(** [Result<A, Status>] *)
Inductive reply (A : Type) := Reply (a : A) | Fail (s : Status).
Arguments Reply {A} a.
Arguments Fail {A} s.

#[global] Instance reply_bind : MBind reply := λ A B f c,
  match c with Reply a => f a | Fail s => Fail s end.
#[global] Instance reply_fmap : FMap reply := λ A B f c,
  match c with Reply a => Reply (f a) | Fail s => Fail s end.

Definition fail {A} (c : Code) (m : string) : reply A := Fail (mkStatus c m None).

(** [ok_or_else] *)
Definition reply_of {A} (o : option A) (c : Code) (m : string) : reply A :=
  match o with Some a => Reply a | None => fail c m end.

Lemma reply_bind_Reply {A B} (c : reply A) (f : A → reply B) b :
  c ≫= f = Reply b ↔ ∃ a, c = Reply a ∧ f a = Reply b.
Proof. destruct c; cbn; naive_solver. Qed.

Lemma reply_of_Reply {A} (o : option A) c m a : reply_of o c m = Reply a ↔ o = Some a.
Proof. destruct o; cbn; naive_solver. Qed.

(** The [Display] of a frame of the chain. *)
Definition frame_str (f : frame) : string :=
  match f with
  | Msg s => s
  | NotRegistered n => "Service " +:+ n +:+ " not registered"
  | CancellationError => "operation cancelled"
  end.

(** [err.downcast_ref::<NotRegistered>()] looks at every layer. *)
Definition is_expected_miss (e : error) : bool :=
  existsb (λ f, match f with NotRegistered _ => true | _ => false end) e.

(** [wrap_error]: [chain().skip(1)] and [root_cause()].  An [anyhow::Error]
    has at least one frame. *)
Definition wrap_error (e : error) : Status :=
  let stack := frame_str <$> drop 1 e in
  let cause := default "" (frame_str <$> last e) in
  mkStatus InvalidArgument "request contains invalid arguments" (Some (mkDebugInfo stack cause)).

(** [escalate]: the handler's result as a reply; a panic aborts the task. *)
Definition escalate {R} (r : res R) : res (reply R) :=
  match r with
  | Ok a => Ok (Reply a)
  | Err e => Ok (Fail (wrap_error e))
  | Panic m => Panic m
  end.

(** [rewrap_error] *)
Definition rewrap_error (s : Status) : error :=
  let err := [Msg (message s)] in
  match debug_info s with
  | Some d =>
      let err := Msg ("Detail: " +:+ detail d) :: err in
      foldl (λ err each, Msg ("Stack: " +:+ each) :: err) err (stack_entries d)
  | None => err
  end.

(** [rewrap_err] *)
Definition rewrap_err {T} (r : reply T) : res T :=
  match r with Reply a => Ok a | Fail s => Err (rewrap_error s) end.

Lemma foldl_stack l err :
  foldl (λ err each, Msg ("Stack: " +:+ each) :: err) err l =
  rev ((λ each, Msg ("Stack: " +:+ each)) <$> l) ++ err.
Proof.
  revert err; induction l as [|x l IH]; intros err; cbn; [done|].
  rewrite IH. by rewrite <-app_assoc.
Qed.

Lemma rewrap_wrap f fs :
  rewrap_error (wrap_error (f :: fs)) =
  rev ((λ g, Msg ("Stack: " +:+ frame_str g)) <$> fs) ++
  [Msg ("Detail: " +:+ frame_str (default f (last fs))); Msg "request contains invalid arguments"].
Proof.
  unfold rewrap_error, wrap_error. cbn [debug_info stack_entries detail message].
  rewrite foldl_stack. cbn [drop]. rewrite <-list_fmap_compose.
  rewrite last_cons. by destruct (last fs).
Qed.
End Wire.

Module Auth.
Import Wire.

(** ** Certificates *)

Inductive IpAddr := V4 (b : string) | V6 (b : string).
#[global] Instance IpAddr_eq_dec : EqDecision IpAddr.
Proof. solve_decision. Defined.

Record SecurityInfo := mkSecurityInfo {
  enabled : bool;
  dns_names : list string;
  ip_addrs : list IpAddr
}.

Definition new_info : SecurityInfo := mkSecurityInfo true [] [].
Definition disabled : SecurityInfo := mkSecurityInfo false [] [].

Definition check_address (si : SecurityInfo) (ia : IpAddr) : bool :=
  negb (enabled si) || existsb (λ a, bool_decide (a = ia)) (ip_addrs si).
Definition check_hostname (si : SecurityInfo) (h : string) : bool :=
  negb (enabled si) || existsb (λ hn, bool_decide (h = hn)) (dns_names si).
Definition hostname (si : SecurityInfo) : option string := head (dns_names si).

(** What the X.509 parser gives of a certificate: its extensions, of which
    only subject alternative names matter. *)
Inductive GeneralName := DNSName (s : string) | IPAddress (b : string) | OtherName.
Inductive Extension := SubjectAlternativeName (l : list GeneralName) | OtherExtension.

Definition add_name (si : SecurityInfo) (n : GeneralName) : SecurityInfo :=
  match n with
  | DNSName s => mkSecurityInfo (enabled si) (dns_names si ++ [s]) (ip_addrs si)
  | IPAddress b =>
      if String.length b =? 4 then mkSecurityInfo (enabled si) (dns_names si) (ip_addrs si ++ [V4 b])
      else if String.length b =? 16 then
        mkSecurityInfo (enabled si) (dns_names si) (ip_addrs si ++ [V6 b])
      else si
  | OtherName => si
  end.

(** [TryFrom<&[u8]> for SecurityInfo]; [parse] is [parse_x509_certificate]. *)
Definition security_info_of (parse : string → option (list Extension)) (cert : string)
    : option SecurityInfo :=
  exts ← parse cert;
  Some (foldl (λ si ext,
          match ext with
          | SubjectAlternativeName san => foldl add_name si san
          | OtherExtension => si
          end) new_info exts).

(** ** Requests *)

(** [ListenerConnectInfo]: TCP with the peer's address if known, or another
    transport. *)
Inductive ConnectInfo := TcpInfo (peer : option IpAddr) | OtherTransport.

(** [TlsConnectInfo]: the transport and the peer's certificate chain. *)
Record TlsInfo := mkTlsInfo { transport : ConnectInfo; peer_certs : option (list string) }.

(** A request body is what collecting it gives: its bytes, or an error. *)
Inductive Body := Bytes (b : string) | Broken (e : string).

Record Request := mkRequest {
  tls_info : option TlsInfo;             (* extension of the connection *)
  security_info : option SecurityInfo;   (* extension added by the authenticator *)
  uri_path : string;
  body : Body
}.

Definition with_security (si : SecurityInfo) (req : Request) : Request :=
  mkRequest (tls_info req) (Some si) (uri_path req) (body req).

Section authenticator.
Context (parse : string → option (list Extension)) (show_ip : IpAddr → string).

Definition security_info_from_request (req : Request) : reply SecurityInfo :=
  certs ← reply_of (t ← tls_info req; peer_certs t) Unauthenticated "No peer certificate";
  reply_of (find_map (security_info_of parse) certs) Unauthenticated "Can't parse certificate".

Definition transport_info_from_request (req : Request) : option ConnectInfo :=
  transport <$> tls_info req.

(** [Authenticator::intercept] *)
Definition authenticate (use_tls : bool) (req : Request) : reply Request :=
  if use_tls then
    si ← security_info_from_request req;
    match transport_info_from_request req with
    | Some (TcpInfo peer) =>
        ip ← reply_of peer Unauthenticated "Can't determine peer IP";
        if check_address si ip then Reply (with_security si req)
        else fail PermissionDenied ("IP " +:+ show_ip ip +:+ " not in certificate SAN")
    | Some OtherTransport => Reply (with_security si req)
    | None => fail Unauthenticated "No transport info"
    end
  else Reply (with_security disabled req).

(** The identity of a connection: that of the first certificate that parses;
    over TCP it lists the peer's address. *)
Definition authenticated (req : Request) (si : SecurityInfo) : Prop :=
  ∃ t pre cert post, tls_info req = Some t ∧ peer_certs t = Some (pre ++ cert :: post) ∧
    Forall (λ c, security_info_of parse c = None) pre ∧ security_info_of parse cert = Some si ∧
    match transport t with
    | TcpInfo peer => ∃ ip, peer = Some ip ∧ check_address si ip = true
    | OtherTransport => True
    end.

Lemma authenticate_tls req req' :
  authenticate true req = Reply req' ↔ ∃ si, authenticated req si ∧ req' = with_security si req.
Proof.
  unfold authenticate, security_info_from_request, transport_info_from_request, authenticated.
  destruct (tls_info req) as [t|]; cbn; [|split; [done | by intros (? & (? & ? & ? & ? & ? & _) & _)]].
  destruct (peer_certs t) as [certs|] eqn:Ec; cbn; last first.
  { split; [done|]. intros (? & (? & ? & ? & ? & [= <-] & He & _) & _). congruence. }
  destruct (find_map (security_info_of parse) certs) as [si|] eqn:Ef; cbn; last first.
  { split; [done|]. intros (si & (? & pre & cert & post & [= <-] & [= ->]%(eq_trans (eq_sym Ec)) & Hp & Hc & _) & _).
    apply find_map_None in Ef. apply Forall_app in Ef as [_ [Ef _]%Forall_cons]. congruence. }
  apply find_map_split in Ef as (pre & cert & post & -> & Hp & Hc).
  transitivity (req' = with_security si req ∧
    match transport t with
    | TcpInfo peer => ∃ ip, peer = Some ip ∧ check_address si ip = true
    | OtherTransport => True
    end); last first.
  { split.
    - intros [-> Ht]. exists si. split; [|done]. by exists t, pre, cert, post.
    - intros (si' & (? & pre' & cert' & post' & [= <-] & [= He]%(eq_trans (eq_sym Ec)) & Hp' & Hc' & Ht) & ->).
      assert (si' = si) as ->; [|done].
      eapply (inj Some). rewrite <-(find_map_app_first _ pre cert post si Hp Hc), He.
      by rewrite (find_map_app_first _ pre' cert' post' si'). }
  destruct (transport t) as [[ip|]|]; cbn.
  - destruct (check_address si ip) eqn:Ek; cbn.
    + split; [intros [= <-]; by eauto | by intros [-> _]].
    + split; [done|]. intros (_ & ? & [= <-] & ?). congruence.
  - split; [done | by intros (_ & ? & ? & _)].
  - split; [by intros [= <-] | by intros [-> _]].
Qed.
End authenticator.

(** [ensure_host] *)
Definition ensure_host (si : option SecurityInfo) (hostnames : list string) : reply unit :=
  match si with
  | Some si =>
      if existsb (check_hostname si) hostnames then Reply tt
      else fail PermissionDenied ("Permissions for " +:+ join ", " hostnames
                                  +:+ " not confirmed by certificate")
  | None => fail PermissionDenied ("Permissions for " +:+ join ", " hostnames
                                   +:+ " not confirmed by certificate")
  end.

Definition parse_grpc_path (path : string) : option (string * string) :=
  let parts := split "/"%char (trim_matches "/"%char path) in
  a ← parts !! 0; b ← parts !! 1; Some (a, b).

(** ** Authorisation *)

Section authorizer.
(** JSON values and the empty object; [insert_service] adds the member when
    the value is an object.  Cedar: contexts and requests, which can fail to
    build with a message, and the decision on the current policies. *)
Context {J Ctx CReq : Type} (empty_object : J) (insert_service : string → J → J).
Context (ctx_of_json : J → Ctx + string).
Context (cedar_request : string → string → string → Ctx → CReq + string).
Context (is_authorized : CReq → bool).

Definition blank_tokens (source full_service_name grpc_method_name : string) : bool :=
  match split_once "."%char full_service_name with
  | Some (m, s) => is_blank m || is_blank s || is_blank grpc_method_name || is_blank source
  | None => false
  end.

(** [Authorizer::authorize]: the principal is the source, the action the
    method and the resource the module. *)
Definition authorize (source full_service_name grpc_method_name : string) (context_json : J)
    : reply unit :=
  '(module_name, service_name) ←
    reply_of (split_once "."%char full_service_name) Internal
      ("Invalid service name format: " +:+ full_service_name);
  if blank_tokens source full_service_name grpc_method_name then
    fail Internal ("Invalid service name format (empty tokens): " +:+ full_service_name)
  else
    match ctx_of_json (insert_service service_name context_json) with
    | inr e => fail Internal ("Invalid Cedar context: " +:+ e)
    | inl ctx =>
        match cedar_request source grpc_method_name module_name ctx with
        | inr e => fail Internal ("failed to build Cedar request: " +:+ e)
        | inl request =>
            if is_authorized request then Reply tt
            else fail PermissionDenied "cedar: permission denied by admin access control policy"
        end
    end.

(** The reflection pool: whether a method streams from the client, and the
    decoder of its input; decoding and JSON conversion are the libraries'. *)
Record Method := mkMethod {
  client_streaming : bool;
  decode_json : string → option J + string
}.
Context (get_method : string → string → option Method).

(** The gRPC frame: a flag byte, a big-endian [u32] length, the payload. *)
Definition byte_at (s : string) (i : nat) : option Z :=
  (λ a, Z.of_nat (nat_of_ascii a)) <$> String.get i s.
Definition frame_payload (s : string) : option string :=
  _ ← byte_at s 0;
  b1 ← byte_at s 1; b2 ← byte_at s 2; b3 ← byte_at s 3; b4 ← byte_at s 4;
  let len := (((b1 * 256 + b2) * 256 + b3) * 256 + b4)%Z in
  let rest := drop_bytes 5 s in
  if (len <=? Z.of_nat (String.length rest))%Z then Some (take_bytes (Z.to_nat len) rest) else None.

Definition with_body (b : Body) (req : Request) : Request :=
  mkRequest (tls_info req) (security_info req) (uri_path req) b.

(** [Authorizer::intercept] *)
Definition intercept (req : Request) : reply Request :=
  source ← reply_of (si ← security_info req; hostname si) Internal
    "Cedar authorization denied: SecurityInfo extension or hostname is missing";
  match parse_grpc_path (uri_path req) with
  | None => fail Internal "Cedar authorization denied: Bad request"
  | Some (service_name, method_name) =>
      let plain req := _ ← authorize source service_name method_name empty_object; Reply req in
      match get_method service_name method_name with
      | Some m =>
          if client_streaming m then plain req
          else
            match body req with
            | Broken e => fail Internal ("Failed to buffer body: " +:+ e)
            | Bytes b =>
                match frame_payload b with
                | Some payload =>
                    match decode_json m payload with
                    | inr err => fail Internal ("Failed to decode: " +:+ err)
                    | inl json =>
                        _ ← authorize source service_name method_name (default empty_object json);
                        Reply (with_body (Bytes b) req)
                    end
                | None => plain (with_body (Bytes b) req)
                end
            end
      | None => plain req
      end
  end.

(** The interceptors of [givc-admin] in their order: authentication first. *)
Definition let_in (parse : string → option (list Extension)) (show_ip : IpAddr → string)
    (use_tls access_control : bool) (req : Request) : reply Request :=
  req ← authenticate parse show_ip use_tls req;
  if access_control then intercept req else Reply req.

(** What of a request Cedar gets to see: the message of a unary method that is
    complete in the body, an empty object for all other requests; nothing if
    the message is broken. *)
Definition seen_by_cedar (req : Request) (service method : string) (json : J) : Prop :=
  match get_method service method with
  | Some m =>
      if client_streaming m then json = empty_object
      else ∃ b, body req = Bytes b ∧
        match frame_payload b with
        | Some payload => ∃ j, decode_json m payload = inl j ∧ json = default empty_object j
        | None => json = empty_object
        end
  | None => json = empty_object
  end.

(** Cedar allows this source to call the method of the module, with the
    service and the given object as context. *)
Definition allowed (source service_name method_name : string) (json : J) : Prop :=
  ∃ module_name rest ctx request,
    split_once "."%char service_name = Some (module_name, rest) ∧
    Forall (λ s, is_blank s = false) [source; module_name; rest; method_name] ∧
    ctx_of_json (insert_service rest json) = inl ctx ∧
    cedar_request source method_name module_name ctx = inl request ∧
    is_authorized request = true.

Lemma authorize_Reply source service method json :
  authorize source service method json = Reply tt ↔ allowed source service method json.
Proof.
  unfold authorize, allowed, blank_tokens.
  destruct (split_once "."%char service) as [[m s]|]; cbn;
    [|split; [done | by intros (? & ? & ? & ? & ? & _)]].
  rewrite <-!orb_assoc. split.
  - destruct (_ || _) eqn:Hb; [done|].
    apply orb_false_iff in Hb as [? [? [? ?]%orb_false_iff]%orb_false_iff].
    destruct (ctx_of_json _) as [ctx|] eqn:Ec; [|done].
    destruct (cedar_request _ _ _ _) as [r|] eqn:Er; [|done].
    destruct (is_authorized r) eqn:Ea; [|done]. intros _. exists m, s, ctx, r.
    repeat split; try done. by repeat constructor.
  - intros (? & ? & ctx & r & [= <- <-] & Hb & -> & Er & Ea).
    repeat (apply Forall_cons in Hb as [-> Hb]). cbn. by rewrite Er, Ea.
Qed.

Lemma with_body_same b req : body req = Bytes b → with_body (Bytes b) req = req.
Proof. destruct req; cbn. by intros ->. Qed.

Lemma authorize_then source service method json (q q' : Request) :
  (_ ← authorize source service method json; Reply q) = Reply q' ↔
  q' = q ∧ allowed source service method json.
Proof.
  rewrite <-authorize_Reply. destruct (authorize source service method json) as [[]|]; cbn.
  - split; [by intros [= ->] | by intros [-> _]].
  - split; [done | by intros [_ ?]].
Qed.

Lemma intercept_Reply req req' :
  intercept req = Reply req' ↔
  req' = req ∧ ∃ si source service method json,
    security_info req = Some si ∧ hostname si = Some source ∧
    parse_grpc_path (uri_path req) = Some (service, method) ∧
    seen_by_cedar req service method json ∧ allowed source service method json.
Proof.
  unfold intercept. destruct (security_info req) as [si|] eqn:Esi; cbn; last first.
  { split; [done | by intros (_ & ? & ? & ? & ? & ? & ? & _)]. }
  destruct (hostname si) as [source|] eqn:Eh; cbn; last first.
  { split; [done|]. intros (_ & si' & ? & ? & ? & ? & [= <-] & He & _). congruence. }
  destruct (parse_grpc_path (uri_path req)) as [[service method]|] eqn:Ep; last first.
  { split; [done | by intros (_ & ? & ? & ? & ? & ? & _ & _ & ? & _)]. }
  transitivity (req' = req ∧ ∃ json, seen_by_cedar req service method json ∧
    allowed source service method json); last first.
  { split.
    - intros (-> & json & Hs & Ha). split; [done|]. by exists si, source, service, method, json.
    - intros (-> & ? & ? & ? & ? & json & [= <-] & Hh & [= <- <-] & Hs & Ha). split; [done|].
      exists json. by simplify_eq. }
  unfold seen_by_cedar.
  destruct (get_method service method) as [m|].
  2: { rewrite authorize_then. split; [intros [-> ?]; split; [done|]; by exists empty_object | by intros (-> & ? & -> & ?)]. }
  destruct (client_streaming m).
  { rewrite authorize_then. split; [intros [-> ?]; split; [done|]; by exists empty_object | by intros (-> & ? & -> & ?)]. }
  destruct (body req) as [b|e] eqn:Eb; last first.
  { split; [done | by intros (_ & ? & (? & [=] & _) & _)]. }
  rewrite (with_body_same b req Eb).
  destruct (frame_payload b) as [payload|] eqn:Ef; last first.
  { rewrite authorize_then. split.
    - intros [-> ?]. split; [done|]. exists empty_object. split; [|done]. exists b. by rewrite Ef.
    - intros (-> & json & (? & [= <-] & Hj) & Ha). rewrite Ef in Hj. by subst. }
  destruct (decode_json m payload) as [j|e] eqn:Ed; last first.
  { split; [done|]. intros (_ & json & (? & [= <-] & Hj) & _). rewrite Ef in Hj.
    destruct Hj as (j & Hj & _). congruence. }
  rewrite authorize_then. split.
  - intros [-> ?]. split; [done|]. exists (default empty_object j). split; [|done]. exists b.
    rewrite Ef. split; [done|]. by exists j.
  - intros (-> & json & (? & [= <-] & Hj) & Ha). rewrite Ef in Hj.
    destruct Hj as (j' & Hj & ->). split; [done|]. rewrite Ed in Hj. by injection Hj as ->.
Qed.
End authorizer.

(** [parse_vsock_addr]; the two well-known context ids are the vsock crate's
    constants. *)
Definition parse_vsock_addr (cid_local cid_host : Z) (addr : string) : res (Z * Z) :=
  match split_once ":"%char addr with
  | Some (cid, port) =>
      cid ← (if bool_decide (cid = "local") then Ok cid_local
             else if bool_decide (cid = "host") then Ok cid_host
             else parse_u32 cid);
      port ← parse_u32 port;
      Ok (cid, port)
  | None => bail ("Address " +:+ addr +:+ " should be in CID:PORT format")
  end.

Lemma parse_vsock_round l h cid port :
  (0 ≤ cid ≤ u32_max)%Z → (0 ≤ port ≤ u32_max)%Z →
  parse_vsock_addr l h (pretty cid +:+ ":" +:+ pretty port) = Ok (cid, port).
Proof.
  intros Hc Hp. unfold parse_vsock_addr, parse_u32.
  rewrite (str_cons_app ":"), (str_nil_app (pretty port)).
  rewrite split_once_app by (apply pretty_no_char; [lia|done]).
  assert (∀ w a s, w = String a s → is_ascii_digit a = false → pretty cid ≠ w) as Hd.
  { intros w a s -> Ha E. pose proof (pretty_N_digits (Z.to_N cid)) as Hall.
    rewrite <-pretty_Z_nonneg, E in Hall by lia. cbn in Hall. by rewrite Ha in Hall. }
  rewrite !bool_decide_eq_false_2 by (by eapply Hd).
  rewrite (parse_int_round _ _ cid Hc). cbn. by rewrite (parse_int_round _ _ port Hp).
Qed.
End Auth.

(** ** Properties *)

Module AuthProps.
Import Wire Auth.

(** The authoriser lets a request through exactly when the peer has a
    host name, the path names a service and a method and Cedar allows the
    request whose principal is the first DNS name of the peer's certificate,
    whose action is the method, whose resource is the module and whose context
    holds the service and the decoded message; the request that passes is the
    one that came in, body included. *)
Theorem authorized_requests {J Ctx CReq} (empty : J) ins
    (ctx_of_json : J → Ctx + string) (cedar_request : _ → _ → _ → Ctx → CReq + string)
    is_authorized get_method req req' :
  intercept empty ins ctx_of_json cedar_request is_authorized get_method req = Reply req' ↔
  req' = req ∧ ∃ si source service method json,
    security_info req = Some si ∧ hostname si = Some source ∧
    parse_grpc_path (uri_path req) = Some (service, method) ∧
    seen_by_cedar empty get_method req service method json ∧
    allowed ins ctx_of_json cedar_request is_authorized source service method json.
Proof. apply intercept_Reply. Qed.

(** With TLS on, a request passes the authenticator exactly when a peer
    certificate parses and, over TCP, the peer's address is among the addresses
    of the first that does; the request is unchanged but for that identity. *)
Theorem authenticated_peer parse show_ip req req' :
  authenticate parse show_ip true req = Reply req' ↔
  ∃ t pre cert post si, tls_info req = Some t ∧ peer_certs t = Some (pre ++ cert :: post) ∧
    Forall (λ c, security_info_of parse c = None) pre ∧
    security_info_of parse cert = Some si ∧ req' = with_security si req ∧
    match transport t with
    | TcpInfo peer => ∃ ip, peer = Some ip ∧ check_address si ip = true
    | OtherTransport => True
    end.
Proof.
  rewrite authenticate_tls. split.
  - intros (si & (t & pre & cert & post & ? & ? & ? & ? & ?) & ->). by exists t, pre, cert, post, si.
  - intros (t & pre & cert & post & si & ? & ? & ? & ? & -> & ?). exists si. split; [|done].
    by exists t, pre, cert, post.
Qed.

(** C17: What the server's interceptors let through together. With TLS and access
    control, exactly the requests of a peer whose verified certificate names a
    host that Cedar allows to make this call; whatever identity the request
    claimed before is replaced. With access control but without TLS nothing at
    all; without both everything, under an identity that confirms every host. *)
Theorem request_admission {J Ctx CReq} (empty : J) ins
    (ctx_of_json : J → Ctx + string) (cedar_request : _ → _ → _ → Ctx → CReq + string)
    is_authorized get_method parse show_ip req :
  let let_in := let_in empty ins ctx_of_json cedar_request is_authorized get_method parse show_ip in
  (∀ req', let_in true true req = Reply req' ↔
     ∃ si source service method json, authenticated parse req si ∧ req' = with_security si req ∧
       hostname si = Some source ∧ parse_grpc_path (uri_path req) = Some (service, method) ∧
       seen_by_cedar empty get_method req service method json ∧
       allowed ins ctx_of_json cedar_request is_authorized source service method json) ∧
  (∀ req', let_in true false req = Reply req' ↔
     ∃ si, authenticated parse req si ∧ req' = with_security si req) ∧
  (∀ req', let_in false true req ≠ Reply req') ∧
  (∃ req', let_in false false req = Reply req' ∧
     ∀ h hs, h ∈ hs → ensure_host (security_info req') hs = Reply tt).
Proof.
  intros adm. subst adm. unfold let_in.
  split; [|split; [|split]].
  - intros req'. rewrite reply_bind_Reply. split.
    + intros (q & (si & Hau & ->)%authenticate_tls &
        (-> & ? & source & service & method & json & [= <-] & Hr)%intercept_Reply).
      by exists si, source, service, method, json.
    + intros (si & source & service & method & json & Hau & -> & Hr). exists (with_security si req).
      split; [apply authenticate_tls; by exists si|]. apply intercept_Reply. split; [done|].
      by exists si, source, service, method, json.
  - intros req'. rewrite reply_bind_Reply. split.
    + intros (q & Hau%authenticate_tls & [= ->]). done.
    + intros Hau. exists req'. split; [|done]. by apply authenticate_tls.
  - intros req'. done.
  - eexists. split; [done|]. intros h [|h' hs] Hin; [by apply not_elem_of_nil in Hin | done].
Qed.

(** An error chain that crosses the wire keeps its root cause and every
    context but the outermost: the client's chain holds the inner frames, the
    root first, then the detail and the fixed message. The outermost context
    of a chain of two or more frames is in no frame, and the typed marker for
    an expected miss does not survive. *)
Theorem error_chain_on_wire f fs :
  rewrap_error (wrap_error (f :: fs)) =
  rev ((λ g, Msg ("Stack: " +:+ frame_str g)) <$> fs) ++
  [Msg ("Detail: " +:+ frame_str (default f (last fs))); Msg "request contains invalid arguments"] ∧
  is_expected_miss (rewrap_error (wrap_error (f :: fs))) = false.
Proof.
  split; [apply rewrap_wrap|]. rewrite rewrap_wrap. apply existsb_false.
  apply Forall_app. split; [|by repeat constructor].
  apply Forall_forall. intros x Hx.
  apply list_elem_of_In, in_rev, list_elem_of_In in Hx.
  by apply list_elem_of_fmap in Hx as (g & -> & _).
Qed.

Definition ex_parse (c : string) : option (list Extension) :=
  if bool_decide (c = "cert") then
    Some [OtherExtension; SubjectAlternativeName [DNSName "admin-vm"; IPAddress "abcd"; IPAddress "x"]]
  else None.
Definition ex_request : Request :=
  mkRequest (Some (mkTlsInfo (TcpInfo (Some (V4 "abcd"))) (Some ["junk"; "cert"]))) None
    "/admin.AdminService/Poweroff" (Bytes "").
Definition ex_info : SecurityInfo := mkSecurityInfo true ["admin-vm"] [V4 "abcd"].

(** The request above is admitted when Cedar lets the admin VM power off. *)
Example ex_admitted :
  let_in tt (λ _ j, j) (λ _, inl tt) (λ s m r _, inl (s, m, r))
    (λ '(s, m, r), bool_decide (s = "admin-vm" ∧ m = "Poweroff" ∧ r = "admin"))
    (λ _ _, None) ex_parse (λ _, "") true true ex_request = Reply (with_security ex_info ex_request).
Proof. vm_compute. reflexivity. Qed.
End AuthProps.
