(* ===== verification/AdminServer.v ===== *)
(** * The admin service ([admin/server.rs], [systemd_api/client.rs])

    The service state and its request handlers.  A handler runs in a state and
    error monad over [World]: the admin's state and the outside world.  Remote
    calls, sleeping and file writes are parameters that act on the whole
    world, because other handlers run while this one waits; what they may do
    to the registry is the hypothesis of the invariant theorems.  A task that
    is spawned is recorded in [spawned]. *)

From S2P Require Import Prelude RustStr RustInt RustRegex CommonTypes AdminRegistry AdminAuth.
From Stdlib Require Import Ascii.

Module Locale.
(** ** Validation *)

Definition az (a : ascii) : bool := is_ascii_lowercase a.
Definition AZ (a : ascii) : bool := is_ascii_uppercase a.
Definition alnum (a : ascii) : bool := az a || AZ a || is_ascii_digit a.
Definition is_chr (c a : ascii) : bool := bool_decide (a = c).

(** [^(?:C|POSIX|[a-z]{2}(?:_[A-Z]{2})?(?:@[a-zA-Z0-9]+)?)(?:\.[-a-zA-Z0-9]+)?$] *)
Definition locale_re : re :=
  Cat (Alt (lit "C") (Alt (lit "POSIX")
        (Cat (twice (Cls az))
          (Cat (opt (Cat (chr "_") (twice (Cls AZ))))
               (opt (Cat (chr "@") (plus (Cls alnum))))))))
      (opt (Cat (chr ".") (plus (Cls (λ a, is_chr "-" a || alnum a))))).

(** The anchored pattern: an upper case letter, any of [-+a-zA-Z0-9], then any
    number of groups of a slash, an upper case letter and any of
    [-+a-zA-Z0-9_]. *)
Definition timezone_re : re :=
  Cat (Cls AZ)
    (Cat (Star (Cls (λ a, is_chr "-" a || is_chr "+" a || alnum a)))
      (Star (Cat (chr "/") (Cat (Cls AZ)
        (Star (Cls (λ a, is_chr "-" a || is_chr "+" a || alnum a || is_chr "_" a))))))).

Definition validate_locale (l : string) : bool := matches locale_re l.
Definition validate_timezone (tz : string) : bool := matches timezone_re tz.

(** ** Locale keys and the configuration files *)

(** The variants of [LocaleMacroKey] by number. *)
Definition key_names : list string :=
  ["LANG"; "LC_ADDRESS"; "LC_COLLATE"; "LC_CTYPE"; "LC_IDENTIFICATION"; "LC_MONETARY";
   "LC_MESSAGES"; "LC_MEASUREMENT"; "LC_NAME"; "LC_NUMERIC"; "LC_PAPER"; "LC_TELEPHONE";
   "LC_TIME"; "LC_ALL"].

Record LocaleAssignment := mkAssignment { key : Z; value : string }.
#[global] Instance LocaleAssignment_eq_dec : EqDecision LocaleAssignment.
Proof. solve_decision. Defined.

(** [LocaleMacroKey::try_from(i32)] with [as_str_name], and [from_str_name] *)
Definition key_name (k : Z) : res string :=
  ok_or (if (0 <=? k)%Z then key_names !! Z.to_nat k else None)
    ("unknown enumeration value " +:+ pretty k).
Fixpoint index_of (n : string) (l : list string) : option nat :=
  match l with
  | [] => None
  | x :: l => if bool_decide (x = n) then Some 0 else S <$> index_of n l
  end.
Definition from_str_name (n : string) : option Z := Z.of_nat <$> index_of n key_names.

Definition newline : string := String "010"%char "".

(** The content [set_locale] writes. *)
Definition locale_content (l : list LocaleAssignment) : res string :=
  lines ← mapM_res (λ a, n ← key_name (key a); Ok (n +:+ "=" +:+ value a)) l;
  Ok (join newline lines).

(** What [AdminServiceImpl::new] reads back; [None] when the file cannot be
    read. *)
Definition load_locale (content : option string) : list LocaleAssignment :=
  match content with
  | Some c =>
      filter_map (λ line,
        '(k, v) ← split_once "="%char line;
        k ← from_str_name k;
        Some (mkAssignment k v)) (lines c)
  | None => []
  end.
Definition load_timezone (content : option string) : string :=
  default "" (c ← content; head (lines c)).

(** ** Facts about validated values *)

Lemma all_ascii (P : ascii → bool) :
  forallb (λ n, P (ascii_of_nat n)) (seq 0 256) = true → ∀ a, P a = true.
Proof.
  intros H a. rewrite <-(ascii_nat_embedding a). rewrite forallb_forall in H. apply H.
  apply in_seq. pose proof (nat_ascii_bounded a). lia.
Qed.

Lemma class_plain f :
  forallb (λ n, implb (f (ascii_of_nat n)) (plain_char (ascii_of_nat n))) (seq 0 256) = true →
  ∀ a, f a = true → plain_char a = true.
Proof.
  intros H a Ha. pose proof (all_ascii (λ a, implb (f a) (plain_char a)) H a) as Hi.
  cbn in Hi. by rewrite Ha in Hi.
Qed.

Lemma locale_plain l : validate_locale l = true → all_chars plain_char l = true.
Proof.
  intros H%matches_lang. eapply lang_within; [|exact H].
  cbn. repeat split; apply class_plain; vm_compute; reflexivity.
Qed.

Lemma timezone_plain tz : validate_timezone tz = true → all_chars plain_char tz = true.
Proof.
  intros H%matches_lang. eapply lang_within; [|exact H].
  cbn. repeat split; apply class_plain; vm_compute; reflexivity.
Qed.

Lemma timezone_nonempty : validate_timezone "" = false.
Proof. done. Qed.

(** ** Lines *)

Lemma lines_of_plain l :
  Forall (λ s, s ≠ "" ∧ all_chars plain_char s = true) l → lines_of l = l.
Proof.
  induction 1 as [|s l [Hne Hs] Hl IH]; [done|]. destruct l as [|t l].
  - cbn. by rewrite bool_decide_eq_false_2.
  - cbn [lines_of]. cbn [lines_of] in IH. rewrite strip_cr_plain by done. by f_equal.
Qed.

Lemma lines_join l :
  l ≠ [] → Forall (λ s, s ≠ "" ∧ all_chars plain_char s = true) l →
  lines (join newline l) = l.
Proof.
  intros Hne Hl. unfold lines, newline. rewrite split_join; [by apply lines_of_plain|done|].
  eapply Forall_impl; [exact Hl|]. intros s [_ ?]. by apply plain_no_newline.
Qed.

(** ** Keys *)

Lemma index_of_lookup n l i : index_of n l = Some i → l !! i = Some n.
Proof.
  revert i; induction l as [|x l IH]; intros i; cbn; [done|].
  case_bool_decide as Hx; [by intros [= <-]; rewrite Hx|].
  intros (j & Hj & ->)%fmap_Some. by apply IH.
Qed.

Lemma key_name_round k n : key_name k = Ok n → from_str_name n = Some k.
Proof.
  unfold key_name. rewrite ok_or_Ok. destruct (Z.leb_spec 0 k); [|done]. intros Hk.
  unfold from_str_name. assert (index_of n key_names = Some (Z.to_nat k)) as ->; [|cbn; f_equal; lia].
  revert Hk. generalize (Z.to_nat k) as i. clear. intros i Hi.
  do 14 (destruct i as [|i]; [cbn in Hi; by simplify_eq|]). done.
Qed.

Lemma key_name_plain k n :
  key_name k = Ok n → n ≠ "" ∧ all_chars plain_char n = true ∧ has_char "=" n = false.
Proof.
  unfold key_name. rewrite ok_or_Ok. destruct (0 <=? k)%Z; [|done].
  generalize (Z.to_nat k) as i. intros i Hi.
  do 14 (destruct i as [|i]; [cbn in Hi; by simplify_eq|]). done.
Qed.

(** There are fourteen keys. *)
Definition known_key (k : Z) : Prop := (0 ≤ k < 14)%Z.
#[global] Instance known_key_dec k : Decision (known_key k).
Proof. unfold known_key. apply _. Defined.
Lemma key_name_known k : if decide (known_key k) then ∃ n, key_name k = Ok n else ∃ e, key_name k = Err e.
Proof.
  unfold key_name. case_decide as Hk; destruct (Z.leb_spec 0 k) as [H0|H0]; unfold known_key in Hk; cbn;
    [|lia| |by eexists].
  - destruct (lookup_lt_is_Some_2 key_names (Z.to_nat k)) as [n ->]; [cbn; lia|by eexists].
  - rewrite lookup_ge_None_2 by (cbn; lia). by eexists.
Qed.
Lemma locale_content_known l :
  if decide (Forall (known_key ∘ key) l) then ∃ c, locale_content l = Ok c else ∃ e, locale_content l = Err e.
Proof.
  unfold locale_content.
  assert (if decide (Forall (known_key ∘ key) l)
    then ∃ ls, mapM_res (λ a, n ← key_name (key a); Ok (n +:+ "=" +:+ value a)) l = Ok ls
    else ∃ e, mapM_res (λ a, n ← key_name (key a); Ok (n +:+ "=" +:+ value a)) l = Err e) as Hm.
  { induction l as [|a l IH]; [rewrite decide_True by constructor; by eexists|]. cbn [mapM_res].
    pose proof (key_name_known (key a)) as Ha. destruct (decide (Forall _ (a :: l))) as [Hf|Hf].
    - apply Forall_cons in Hf as [Hk Hf]. rewrite decide_True in Ha by exact Hk. rewrite decide_True in IH by done.
      destruct Ha as [n ->], IH as [ls Hls]. cbn. rewrite Hls. by eexists.
    - destruct (decide (known_key (key a))) as [Hk|Hk]; destruct Ha as [x ->]; [|by eexists].
      rewrite decide_False in IH by (intros ?; apply Hf; by constructor).
      destruct IH as [e He]. cbn. rewrite He. by eexists. }
  destruct (decide _); destruct Hm as [x ->]; by eexists.
Qed.

(** Writing the file and reading it back gives the assignments. *)
Lemma locale_file_round l c :
  l ≠ [] → Forall (λ a, validate_locale (value a) = true) l →
  locale_content l = Ok c → load_locale (Some c) = l.
Proof.
  intros Hne Hv. unfold locale_content. intros (ls & Hls & [= <-])%bind_Ok.
  apply mapM_res_Ok in Hls.
  assert (Forall (λ s, s ≠ "" ∧ all_chars plain_char s = true) ls ∧
    filter_map (λ line, '(k, v) ← split_once "="%char line; k ← from_str_name k;
      Some (mkAssignment k v)) ls = l) as [Hp Hf].
  { clear Hne. induction Hls as [|a line l ls Ha _ IH]; [by split; [constructor|]|].
    apply Forall_cons in Hv as [Hva Hv]. destruct (IH Hv) as [IH1 IH2].
    apply bind_Ok in Ha as (n & Hn & [= <-]).
    destruct (key_name_plain _ _ Hn) as (Hne & Hnp & Hneq).
    split.
    - constructor; [|done]. split; [by intros [? _]%str_app_eq_nil|].
      rewrite !all_chars_app, Hnp. cbn. by apply locale_plain.
    - cbn [filter_map]. rewrite str_cons_app, str_nil_app, split_once_app by done.
      cbn [mbind option_bind]. rewrite (key_name_round _ _ Hn). cbn [mbind option_bind].
      rewrite IH2. by destruct a. }
  cbn. rewrite lines_join; [done| |done]. intros ->. inversion Hls. by subst.
Qed.

Lemma timezone_file_round tz : validate_timezone tz = true → load_timezone (Some tz) = tz.
Proof.
  intros Hv. unfold load_timezone. cbn. pose proof (timezone_plain tz Hv) as Hp.
  assert (tz ≠ "") as Hne by (by intros ->).
  assert (lines tz = [tz]) as ->; [|done].
  apply (lines_join [tz]); [done|]. by apply Forall_singleton.
Qed.
End Locale.

Module Server.
Import Naming Types Entry Locale Wire.

(** ** State *)

Inductive State := Init | InitComplete | HostRegistered | VmsRegistered.
#[global] Instance State_eq_dec : EqDecision State.
Proof. solve_decision. Defined.

Record TlsConfig := mkTlsConfig {
  ca_cert_file_path : string;
  cert_file_path : string;
  key_file_path : string;
  tls_server_name : option string
}.
Record EndpointConfig := mkEndpointConfig { transport : EndpointEntry; tls : option TlsConfig }.

(** The tasks handlers spawn. *)
Inductive Task :=
| MonitorTask (e : RegistryEntry)
| PropagateTask (ec : EndpointConfig) (locale : list LocaleAssignment) (timezone : string)
    (with_policies : bool)
| LocaleTask (managers : list EndpointConfig) (assignments : list LocaleAssignment)
| TimezoneTask (managers : list EndpointConfig) (timezone : string).

(** [AdminServiceImpl]; of the policy manager only its presence matters here. *)
Record Admin := mkAdmin {
  registry : Registry.Registry;
  state : State;
  tls_config : option TlsConfig;
  locale_assigns : list LocaleAssignment;
  timezone : string;
  has_policy_manager : bool;
  spawned : list Task
}.

(** [AdminServiceImpl::new] with the contents of the two files. *)
Definition new (use_tls : option TlsConfig) (policy : bool)
    (timezone_conf locale_conf : option string) : Admin :=
  mkAdmin Registry.new Init use_tls (load_locale locale_conf) (load_timezone timezone_conf)
    policy [].

Definition set_registry (r : Registry.Registry) (a : Admin) : Admin :=
  mkAdmin r (state a) (tls_config a) (locale_assigns a) (timezone a) (has_policy_manager a) (spawned a).
Definition set_locale_assigns (l : list LocaleAssignment) (a : Admin) : Admin :=
  mkAdmin (registry a) (state a) (tls_config a) l (timezone a) (has_policy_manager a) (spawned a).
Definition set_tz (tz : string) (a : Admin) : Admin :=
  mkAdmin (registry a) (state a) (tls_config a) (locale_assigns a) tz (has_policy_manager a) (spawned a).
Definition add_task (t : Task) (a : Admin) : Admin :=
  mkAdmin (registry a) (state a) (tls_config a) (locale_assigns a) (timezone a)
    (has_policy_manager a) (spawned a ++ [t]).

Definition set_spawned (ts : list Task) (a : Admin) : Admin :=
  mkAdmin (registry a) (state a) (tls_config a) (locale_assigns a) (timezone a)
    (has_policy_manager a) ts.

(** ** The unit control protocol of agents *)

Inductive Call :=
| GetUnitStatus (unit : string)
| StartUnit (unit : string)
| StopUnit (unit : string)
| KillUnit (unit : string)
| FreezeUnit (unit : string)
| UnfreezeUnit (unit : string)
| StartApplication (unit : string) (args : list string).

(** Connecting can fail; the call replies with a response, whose status field
    may be missing, or a gRPC status. *)
Inductive RpcResult := NoConnection (e : error) | Replied (r : reply (option Pb.UnitStatus)).

(** [SystemDClient::status_response] after [rewrap_err] *)
Definition status_response (r : RpcResult) : res UnitStatus :=
  match r with
  | NoConnection e => Err e
  | Replied r =>
      response ← rewrap_err r;
      status ← ok_or response "missing unit_status field";
      unit_status_of_pb status
  end.

(** The messages of the other unary calls; those the service only passes on
    are kept encoded. *)
Inductive Message :=
| EmptyMessage
| LocaleMessage (assignments : list LocaleAssignment)
| TimezoneMessage (timezone : string)
| Encoded (bytes : string).

Section server.
Context {order : HashOrder} {Ext : Type}.

Record World := mkWorld { admin : Admin; ext : Ext }.

(** Remote unit control, connecting to an agent and unary calls by method name
    on the connection, with the encoded response; the policy manager's
    [send_all_policies]; sleeping and file writes.  Other handlers may run
    meanwhile. *)
Context (rpc : EndpointConfig → Call → World → RpcResult * World).
Context (connect : EndpointConfig → World → res unit * World).
Context (unary : string → EndpointConfig → Message → World → res string * World).
Context (send_all_policies : string → World → World).
Context (sleep : nat → World → World).
Context (write_file : string → string → World → World).

Definition M : Type → Type := SR World.

#[global] Instance M_ret : MRet M := SR_ret.
#[global] Instance M_bind : MBind M := SR_bind.

Definition lift {A} (r : res A) : M A := λ w, (r, w).
(** A read of the admin's state. *)
Definition query {A} (f : Admin → res A) : M A := λ w, (f (admin w), w).
Definition modify (f : Admin → Admin) : M unit := λ w, (Ok tt, mkWorld (f (admin w)) (ext w)).
Definition run_registry {A} (f : Registry.Registry → res A * Registry.Registry) : M A := λ w,
  let '(r, reg) := f (registry (admin w)) in
  (r, mkWorld (set_registry reg (admin w)) (ext w)).
Definition context_M {A} (msg : string) (m : M A) : M A := λ w,
  let '(r, w') := m w in (with_context msg r, w').
Definition await (f : World → World) : M unit := λ w, (Ok tt, f w).

(** [SystemDClient]'s methods *)
Definition systemd (ec : EndpointConfig) (c : Call) : M UnitStatus := λ w,
  let '(r, w') := rpc ec c w in (status_response r, w').
(** Connect, then call. *)
Definition remote (method : string) (ec : EndpointConfig) (r : Message) : M string :=
  _ ← connect ec;
  unary method ec r.
(** [let _ = ...] *)
Definition ignore {A} (m : M A) : M unit := λ w,
  match m w with
  | (Panic s, w') => (Panic s, w')
  | (_, w') => (Ok tt, w')
  end.
(** [if let Ok(conn) = ec.connect().await] *)
Definition if_connected (ec : EndpointConfig) (m : M unit) : M unit := λ w,
  match connect ec w with
  | (Ok _, w') => m w'
  | (Err _, w') => (Ok tt, w')
  | (Panic s, w') => (Panic s, w')
  end.

(** A [for] loop with [?]. *)
Fixpoint for_each {A} (f : A → M unit) (l : list A) : M unit :=
  match l with
  | [] => mret tt
  | x :: l => f x ≫= λ _, for_each f l
  end.

(** ** Resolving endpoints *)

Definition endpoint (e : RegistryEntry) (a : Admin) : res EndpointConfig :=
  transport ←
    match placement e with
    | Managed _ parent =>
        parent ← Registry.by_name parent (registry a);
        with_context "When get_remote_status()" (agent parent)
    | Endpoint ep _ => Ok ep
    | OnHost => bail "endpoint() called for Host"
    end;
  let name := tls_name transport in
  Ok (mkEndpointConfig transport
    ((λ t, mkTlsConfig (ca_cert_file_path t) (cert_file_path t) (key_file_path t) (Some name))
     <$> tls_config a)).

(** [endpoint] called by a closure that runs while the registry's mutex is
    held: looking up a parent would lock the mutex a second time. *)
Definition endpoint_locked (e : RegistryEntry) (a : Admin) : res EndpointConfig :=
  match placement e with
  | Managed _ _ => Panic "deadlock: the registry mutex is already held"
  | _ => endpoint e a
  end.

Definition host_endpoint (a : Admin) : res EndpointConfig :=
  host_mgr ← Registry.by_type (mkUnitType Host Mgr) (registry a);
  with_context "Resolving host agent" (endpoint host_mgr a).

Definition agent_endpoint (name : string) (a : Admin) : res EndpointConfig :=
  reentry ← Registry.by_name name (registry a);
  endpoint reentry a.

Definition app_entries (name : string) (a : Admin) : res (list string) :=
  if has_char "@" name then Registry.find_names name (registry a) else Ok [name].

(** ** Remote operations *)

Definition get_remote_status (e : RegistryEntry) : M UnitStatus :=
  ec ← query (endpoint e);
  systemd ec (GetUnitStatus (Entry.name e)).

Definition send_system_command (name : string) : M unit :=
  ec ← query host_endpoint;
  _ ← systemd ec (StartUnit name);
  mret tt.

Definition get_sysinfo : M string :=
  ec ← query host_endpoint;
  remote "stats.GetSysinfo" ec EmptyMessage.

Definition start_unit_on_vm (service_name vmname : string) : M string :=
  let vmservice := agent_service (Vm vmname) in
  ec ← context_M (vmservice +:+ " not registered") (query (agent_endpoint vmservice));
  status ← systemd ec (GetUnitStatus service_name);
  if bool_decide (load_state status = "loaded") then
    if bool_decide (active_state status = "active") && bool_decide (sub_state status = "running")
    then mret vmservice
    else _ ← systemd ec (StartUnit service_name); mret vmservice
  else lift (bail ("Service " +:+ service_name +:+ " is not loaded!")).

Definition stop_unit_on_vm (service_name vmname : string) : M unit :=
  let vmservice := agent_service (Vm vmname) in
  ec ← context_M (vmservice +:+ " not registered") (query (agent_endpoint vmservice));
  status ← systemd ec (StopUnit service_name);
  lift (ensure (is_exitted status) ("Failed to stop " +:+ service_name +:+ " on " +:+ vmname)).

Definition VM_STARTUP_TIME : nat := 10.

Definition start_vm (name : string) : M unit :=
  ec ← query host_endpoint;
  status ← context_M ("cannot retrieve vm status for " +:+ name +:+ ", host agent failed")
    (systemd ec (GetUnitStatus name));
  if negb (bool_decide (load_state status = "loaded")) then lift (bail ("vm " +:+ name +:+ " not loaded"))
  else if negb (bool_decide (active_state status = "active")) then
    _ ← context_M ("spawn remote VM service " +:+ name) (systemd ec (StartUnit name));
    _ ← await (sleep VM_STARTUP_TIME);
    new_status ← context_M ("cannot retrieve vm status for " +:+ name)
      (systemd ec (GetUnitStatus name));
    if negb (bool_decide (active_state new_status = "active"))
    then lift (bail ("Unable to launch VM " +:+ name)) else mret tt
  else mret tt.

Definition get_unit_status (vm_service unit_name : string) : M Pb.UnitStatus :=
  ec ← context_M (vm_service +:+ " not registered") (query (agent_endpoint vm_service));
  status ← systemd ec (GetUnitStatus unit_name);
  mret (unit_status_to_pb status).

(** ** Monitoring *)

Definition handle_error (e : RegistryEntry) : M unit :=
  match vm (Entry.type e), service (Entry.type e) with
  | AppVM, App =>
      if is_exitted (Entry.status e) then run_registry (Registry.deregister (Entry.name e))
      else mret tt
  | AppVM, Mgr | SysVM, Mgr =>
      match placement e with
      | Managed vm_name _ =>
          context_M ("handing error, by restart VM " +:+ Entry.name e) (start_vm vm_name)
      | _ => mret tt
      end
  | _, _ => mret tt
  end.

Definition monitor_routine (e : RegistryEntry) : M unit := λ w,
  match get_remote_status e w with
  | (Err _, w') => context_M "during handle error" (handle_error e) w'
  | (Panic s, w') => (Panic s, w')
  | (Ok status, w') =>
      (let invalid := negb (is_valid status) in
       let inactive := negb (bool_decide (active_state status = "active")) in
       _ ← run_registry (Registry.update_state (Entry.name e) status);
       if invalid || inactive then context_M "during handle error" (handle_error e)
       else mret tt) w'
  end.

(** One tick of [monitor]: errors are logged, the next entry is checked. *)
Fixpoint monitor_entries (l : list RegistryEntry) : M unit :=
  match l with
  | [] => mret tt
  | e :: l => λ w,
      match monitor_routine e w with
      | (Panic s, w') => (Panic s, w')
      | (_, w') => monitor_entries l w'
      end
  end.
Definition monitor_tick : M unit := λ w,
  monitor_entries (Registry.watch_list (registry (admin w))) w.

(** ** Applications *)

Record ApplicationRequest := mkAppRequest {
  app_name : string;
  req_vm_name : option string;
  req_args : list string
}.

Definition register (e : RegistryEntry) : M unit :=
  run_registry (λ r, (Ok tt, Registry.register e r)).

Definition app_entry (status : UnitStatus) (agent vm : string) : RegistryEntry :=
  mkEntry (Types.name status) (mkUnitType AppVM App) status (Managed vm agent) true.

Definition start_app (req : ApplicationRequest) : M string :=
  let name := app_name req in
  let v := match req_vm_name req with Some n => Vm n | None => AppName name end in
  let vm_name := vm_service v in
  let systemd_agent_name := agent_service v in
  known ← query (λ a, Ok (is_ok (Registry.by_name systemd_agent_name (registry a))));
  _ ← (if known : bool then mret tt
       else
         _ ← context_M ("Starting vm for " +:+ name) (start_vm vm_name);
         _ ← query (λ a, with_context "after starting VM"
                           (Registry.by_name systemd_agent_name (registry a)));
         mret tt);
  ec ← context_M ("while lookung up " +:+ systemd_agent_name +:+ " for " +:+ vm_name)
         (query (agent_endpoint systemd_agent_name));
  unit ← query (λ a, match Registry.create_unique_entry_name name (registry a) with
                     | Some n => Ok n
                     | None => Panic "attempt to add with overflow"
                     end);
  status ← systemd ec (StartApplication unit (req_args req));
  _ ← (if bool_decide (active_state status = "active")
       then register (app_entry status systemd_agent_name vm_name) else mret tt);
  mret (Types.name status).

(** The loops of pause, resume and stop. *)
Definition each_app (call : string → Call) (good : UnitStatus → bool) (verb : string)
    (req : ApplicationRequest) : M unit :=
  ec ← query (agent_endpoint (app_name req));
  names ← query (app_entries (app_name req));
  for_each (λ n,
    status ← systemd ec (call n);
    if negb (good status) then lift (bail ("Failed to " +:+ verb +:+ " " +:+ n)) else mret tt) names.

Definition pause_application := each_app FreezeUnit is_paused "pause".
Definition resume_application := each_app UnfreezeUnit is_running "resume".
Definition stop_application := each_app StopUnit is_exitted "stop".

Definition poweroff : M unit := send_system_command "poweroff.target".
Definition reboot : M unit := send_system_command "reboot.target".
Definition suspend : M unit := send_system_command "suspend.target".
Definition wakeup {A} : reply A := fail Unimplemented "Not supported".

(** ** Registration *)

(** Telling a manager that registers the current locale and timezone. *)
Definition propagate (e : RegistryEntry) : M unit := λ w,
  match agent_endpoint (Entry.name e) (admin w) with
  | Ok ec =>
      modify (λ a, add_task (PropagateTask ec (locale_assigns a) (timezone a)
                               (has_policy_manager a)) a) w
  | _ => (Ok tt, w)
  end.

Definition register_entry (e : RegistryEntry) : M (reply unit) :=
  _ ← register e;
  _ ← (if negb (is_valid (Entry.status e)) then modify (add_task (MonitorTask e)) else mret tt);
  _ ← (if bool_decide (service (Entry.type e) = Mgr) then propagate e else mret tt);
  mret (M := M) (Reply tt).

Definition register_service (req : Pb.RegistryRequest) : M (reply unit) := λ w,
  match entry_of_pb req with
  | Panic s => (Panic s, w)
  | Err e => (Ok (fail InvalidArgument (default "" (frame_str <$> head e))), w)
  | Ok entry => register_entry entry w
  end.

(** ** Queries *)

Definition query_list : M (list Pb.QueryListItem) :=
  query (λ a, Ok ((λ e, Query.query_to_pb (to_query e)) <$> Registry.contents (registry a))).

(** The endpoint of a VM's manager, resolved by a closure under the mutex. *)
Definition stats_endpoint (vm : string) (a : Admin) : res EndpointConfig :=
  let vm_name := agent_service (Vm vm) in
  found ← ok_or (Registry.find_map (λ e,
      if bool_decide (service (Entry.type e) = Mgr) && bool_decide (Entry.name e = vm_name)
      then Some (endpoint_locked e a) else None) (registry a))
    ("VM " +:+ vm_name +:+ " not found");
  found.
Definition get_stats (vm : string) : M string :=
  ec ← query (stats_endpoint vm);
  remote "stats.GetStats" ec EmptyMessage.

(** Watching: the item the response stream begins with and the position of its
    receiver; what runs between the subscription and the listing is
    [AdminWatch]'s subject. *)
Definition watch : M (Pb.WatchItem * nat) :=
  query (λ a,
    let '(initial_list, pos) := Registry.subscribe (length (Registry.log (registry a))) (registry a) in
    Ok (Query.into_initial initial_list, pos)).

Definition notify_user (vm : string) (notification : option string) : M string :=
  ec ← query (agent_endpoint (agent_service (Vm vm)));
  remote "notify.NotifyUser" ec (Encoded (default "" notification)).

Definition ctap (req : string) : M string :=
  ec ← context_M "VM not found" (query (agent_endpoint "givc-gui-vm.service"));
  remote "ctap.Ctap" ec (Encoded req).

(** ** Locale and timezone *)

(** The managers' endpoints, resolved by a closure under the mutex. *)
Fixpoint collect_managers (a : Admin) (l : list RegistryEntry) : res (list EndpointConfig) :=
  match l with
  | [] => Ok []
  | e :: l =>
      if bool_decide (service (Entry.type e) = Mgr) then
        match endpoint_locked e a with
        | Ok ec => rest ← collect_managers a l; Ok (ec :: rest)
        | Err _ => collect_managers a l
        | Panic s => Panic s
        end
      else collect_managers a l
  end.
Definition managers (a : Admin) : res (list EndpointConfig) :=
  collect_managers a (Registry.contents (registry a)).

Definition TIMEZONE_CONF : string := "/etc/timezone.conf".
Definition LOCALE_CONF : string := "/etc/locale-givc.conf".

Definition check_assignment (a : LocaleAssignment) : res unit :=
  _ ← ensure (negb (bool_decide (value a = ""))) ("Empty locale value for " +:+ pretty (key a));
  ensure (validate_locale (value a)) ("Invalid locale value " +:+ value a).

Definition set_locale (assignments : list LocaleAssignment) : M unit :=
  _ ← lift (ensure (negb (bool_decide (assignments = []))) "No locale assignments provided");
  _ ← lift (mapM_res check_assignment assignments);
  content ← lift (locale_content assignments);
  _ ← await (write_file LOCALE_CONF content);
  ms ← query managers;
  _ ← modify (add_task (LocaleTask ms assignments));
  modify (set_locale_assigns assignments).

Definition set_timezone (tz : string) : M unit :=
  _ ← lift (ensure (validate_timezone tz) "Invalid timezone");
  _ ← await (write_file TIMEZONE_CONF tz);
  ms ← query managers;
  _ ← modify (add_task (TimezoneTask ms tz));
  modify (set_tz tz).

(** ** The spawned tasks *)

Definition run_task (t : Task) : M unit :=
  match t with
  | MonitorTask e => ignore (monitor_routine e)
  | PropagateTask ec locale tz with_policies =>
      if_connected ec (
        _ ← (if with_policies : bool then await (send_all_policies (tls_name (transport ec)))
             else mret tt);
        _ ← (if bool_decide (locale = []) then mret tt
             else ignore (unary "locale.LocaleSet" ec (LocaleMessage locale)));
        if bool_decide (tz = "") then mret tt
        else ignore (unary "locale.TimezoneSet" ec (TimezoneMessage tz)))
  | LocaleTask ms assignments =>
      for_each (λ ec, if_connected ec
        (ignore (unary "locale.LocaleSet" ec (LocaleMessage assignments)))) ms
  | TimezoneTask ms tz =>
      for_each (λ ec, if_connected ec
        (ignore (unary "locale.TimezoneSet" ec (TimezoneMessage tz)))) ms
  end.

(** The executor takes up the task that waits longest. *)
Definition run_next : M unit := λ w,
  match spawned (admin w) with
  | [] => (Ok tt, w)
  | t :: ts => run_task t (mkWorld (set_spawned ts (admin w)) (ext w))
  end.

(** ** The service's methods: what reaches the client *)

Definition respond {A} (m : M A) : M (reply A) := λ w,
  let '(r, w') := m w in (escalate r, w').

(** [app_success] *)
Definition app_success : string * string := ("Command successful.", "Command successful.").

Definition rpc_start_application (req : ApplicationRequest) : M (reply string) :=
  respond (start_app req).
Definition rpc_start_vm (vmname : string) : M (reply string) :=
  respond (_ ← start_vm (vm_service (Vm vmname)); mret (agent_service (Vm vmname))).
Definition rpc_start_service (service_name vmname : string) : M (reply string) :=
  respond (start_unit_on_vm service_name vmname).
Definition rpc_stop_service (service_name vmname : string) : M (reply (string * string)) :=
  respond (_ ← stop_unit_on_vm service_name vmname; mret app_success).
Definition rpc_pause_application (req : ApplicationRequest) : M (reply (string * string)) :=
  respond (_ ← pause_application req; mret app_success).
Definition rpc_resume_application (req : ApplicationRequest) : M (reply (string * string)) :=
  respond (_ ← resume_application req; mret app_success).
Definition rpc_stop_application (req : ApplicationRequest) : M (reply (string * string)) :=
  respond (_ ← stop_application req; mret app_success).
Definition rpc_poweroff : M (reply unit) := respond poweroff.
Definition rpc_reboot : M (reply unit) := respond reboot.
Definition rpc_suspend : M (reply unit) := respond suspend.
Definition rpc_wakeup : M (reply unit) := λ w, (Ok wakeup, w).
Definition rpc_watch : M (reply (Pb.WatchItem * nat)) := respond watch.
Definition rpc_sysinfo : M (reply string) := respond get_sysinfo.
Definition rpc_query_list : M (reply (list Pb.QueryListItem)) := respond query_list.
Definition rpc_get_unit_status (vm_name unit_name : string) : M (reply Pb.UnitStatus) :=
  respond (get_unit_status (agent_service (Vm vm_name)) unit_name).
Definition rpc_set_locale (assignments : list LocaleAssignment) : M (reply unit) :=
  respond (set_locale assignments).
Definition rpc_set_timezone (tz : string) : M (reply unit) := respond (set_timezone tz).
Definition rpc_get_stats (vm_name : string) : M (reply string) := respond (get_stats vm_name).
Definition rpc_notify_user (vm_name : string) (notification : option string) : M (reply string) :=
  respond (notify_user vm_name notification).
Definition rpc_ctap (req : string) : M (reply string) := respond (ctap req).

(** What can happen to the service: a client calls a method, a spawned task
    runs, or the monitor's timer ticks. *)
Inductive Input :=
| RegisterService (req : Pb.RegistryRequest)
| StartApp (req : ApplicationRequest)
| StartVm (vmname : string)
| StartService (service_name vmname : string)
| StopService (service_name vmname : string)
| PauseApp (req : ApplicationRequest)
| ResumeApp (req : ApplicationRequest)
| StopApp (req : ApplicationRequest)
| Poweroff | Reboot | Suspend | Wakeup | Sysinfo | QueryList | Watch
| GetUnit (vm_name unit_name : string)
| SetLocale (assignments : list LocaleAssignment)
| SetTimezone (tz : string)
| GetStats (vm_name : string)
| NotifyUser (vm_name : string) (notification : option string)
| Ctap (req : string)
| RunNext
| Tick.

Definition handle (i : Input) (w : World) : World :=
  match i with
  | RegisterService req => snd (register_service req w)
  | StartApp req => snd (rpc_start_application req w)
  | StartVm n => snd (rpc_start_vm n w)
  | StartService s v => snd (rpc_start_service s v w)
  | StopService s v => snd (rpc_stop_service s v w)
  | PauseApp req => snd (rpc_pause_application req w)
  | ResumeApp req => snd (rpc_resume_application req w)
  | StopApp req => snd (rpc_stop_application req w)
  | Poweroff => snd (rpc_poweroff w)
  | Reboot => snd (rpc_reboot w)
  | Suspend => snd (rpc_suspend w)
  | Wakeup => snd (rpc_wakeup w)
  | Sysinfo => snd (rpc_sysinfo w)
  | QueryList => snd (rpc_query_list w)
  | Watch => snd (rpc_watch w)
  | GetUnit v u => snd (rpc_get_unit_status v u w)
  | SetLocale l => snd (rpc_set_locale l w)
  | SetTimezone tz => snd (rpc_set_timezone tz w)
  | GetStats v => snd (rpc_get_stats v w)
  | NotifyUser v n => snd (rpc_notify_user v n w)
  | Ctap req => snd (rpc_ctap req w)
  | RunNext => snd (run_next w)
  | Tick => snd (monitor_tick w)
  end.

#[local] Set Default Proof Using "Type".

(** ** Steps of the monad *)

Lemma context_M_Ok {A} msg (m : M A) w a w' :
  context_M msg m w = (Ok a, w') ↔ m w = (Ok a, w').
Proof.
  unfold context_M. destruct (m w) as [r w1]. split.
  - intros [= Hr ->]. by apply with_context_Ok in Hr as ->.
  - by intros [= -> ->].
Qed.

Lemma query_Ok {A} (f : Admin → res A) w a w' :
  query f w = (Ok a, w') ↔ f (admin w) = Ok a ∧ w' = w.
Proof. unfold query. split; [by intros [= -> ->] | by intros [-> ->]]. Qed.

(** ** The registry invariant *)

(** Managers are direct endpoints. *)
Definition direct (e : RegistryEntry) : Prop :=
  service (Entry.type e) = Mgr → ∃ ep vm, placement e = Endpoint ep vm.
Definition safe_registry (r : Registry.Registry) : Prop :=
  Registry.wf r ∧ map_Forall (λ _ e, direct e) (Registry.map r).
Definition safe (w : World) : Prop := safe_registry (registry (admin w)).

Definition preserves {A} (m : M A) : Prop := ∀ w, safe w → safe (snd (m w)).

Lemma register_safe e r : direct e → safe_registry r → safe_registry (Registry.register e r).
Proof.
  intros He [Hwf Hd]. split; [by apply Registry.register_logged|].
  replace (Registry.map (Registry.register e r)) with (<[Entry.name e := e]> (Registry.map r))
    by (unfold Registry.register; by destruct (Registry.map r !! Entry.name e)).
  by apply map_Forall_insert_2.
Qed.

Lemma deregister_safe n r : safe_registry r → safe_registry (snd (Registry.deregister n r)).
Proof.
  intros [Hwf Hd]. split; [by apply Registry.deregister_logged|].
  destruct (Registry.map r !! n) as [e|] eqn:E; last first.
  { unfold Registry.deregister. by rewrite E. }
  intros k e' Hk. rewrite (Registry.deregister_map n r e E) in Hk.
  destruct (Registry.goes_with n r k); [done|]. by apply (Hd k).
Qed.

Lemma update_safe n st r : safe_registry r → safe_registry (snd (Registry.update_state n st r)).
Proof.
  intros [Hwf Hd]. split; [by apply Registry.update_state_logged|].
  unfold Registry.update_state. destruct (Registry.map r !! n) as [e|] eqn:E; cbn; [|done].
  apply map_Forall_insert_2; [|done]. exact (Hd n e E).
Qed.

Lemma preserves_ret {A} (a : A) : preserves (mret (M := M) a).
Proof. by intros w. Qed.
Lemma preserves_lift {A} (r : res A) : preserves (lift r).
Proof. by intros w. Qed.
Lemma preserves_query {A} (f : Admin → res A) : preserves (query f).
Proof. by intros w. Qed.
Lemma preserves_bind {A B} (m : M A) (f : A → M B) :
  preserves m → (∀ a, preserves (f a)) → preserves (m ≫= f).
Proof.
  intros Hm Hf w Hw. specialize (Hm w Hw). unfold mbind, M_bind, SR_bind.
  destruct (m w) as [[a|e|s] w1]; cbn in *; [by apply Hf|done..].
Qed.
Lemma preserves_context {A} msg (m : M A) : preserves m → preserves (context_M msg m).
Proof. intros Hm w Hw. specialize (Hm w Hw). unfold context_M. by destruct (m w). Qed.
Lemma preserves_modify f :
  (∀ a, registry (f a) = registry a) → preserves (modify f).
Proof. intros Hf w Hw. unfold safe; cbn. by rewrite Hf. Qed.
Lemma preserves_registry {A} (f : Registry.Registry → res A * Registry.Registry) :
  (∀ r, safe_registry r → safe_registry (snd (f r))) → preserves (run_registry f).
Proof.
  intros Hf w Hw. unfold run_registry. specialize (Hf _ Hw).
  by destruct (f (registry (admin w))).
Qed.

(** What others do while a handler waits keeps the invariant. *)
Definition keeps (f : World → World) : Prop := ∀ w, safe w → safe (f w).

Lemma preserves_await f : keeps f → preserves (await f).
Proof. intros Hf w Hw. by apply Hf. Qed.

Section invariant.
Context (rpc_keeps : ∀ ec c, keeps (λ w, snd (rpc ec c w))).
Context (connect_keeps : ∀ ec, keeps (λ w, snd (connect ec w))).
Context (unary_keeps : ∀ m ec r, keeps (λ w, snd (unary m ec r w))).
Context (policies_keeps : ∀ n, keeps (send_all_policies n)).
Context (sleep_keeps : ∀ n, keeps (sleep n)).
Context (write_keeps : ∀ p c, keeps (write_file p c)).

Lemma preserves_systemd ec c : preserves (systemd ec c).
Proof using rpc_keeps.
  intros w Hw. unfold systemd. pose proof (rpc_keeps ec c w Hw) as Hk. cbn in Hk.
  by destruct (rpc ec c w).
Qed.

#[local] Hint Resolve preserves_ret preserves_lift preserves_query preserves_bind
  preserves_context preserves_modify preserves_registry preserves_await preserves_systemd
  deregister_safe update_safe register_safe : givc.

Lemma preserves_start_vm n : preserves (start_vm n).
Proof using rpc_keeps sleep_keeps.
  unfold start_vm. apply preserves_bind; [auto with givc|]. intros ec.
  apply preserves_bind; [auto with givc|]. intros st.
  case_match; [auto with givc|]. case_match; [|auto with givc].
  apply preserves_bind; [auto with givc|]. intros _.
  apply preserves_bind; [auto with givc|]. intros _.
  apply preserves_bind; [auto with givc|]. intros st'. case_match; auto with givc.
Qed.

Lemma preserves_handle_error e : preserves (handle_error e).
Proof using rpc_keeps sleep_keeps.
  pose proof preserves_start_vm. unfold handle_error.
  repeat case_match; auto with givc.
Qed.

Lemma preserves_monitor_routine e : preserves (monitor_routine e).
Proof using rpc_keeps sleep_keeps.
  intros w Hw. unfold monitor_routine.
  assert (preserves (get_remote_status e)) as Hg.
  { apply preserves_bind; [auto with givc|]. intros ec. auto with givc. }
  specialize (Hg w Hw). destruct (get_remote_status e w) as [[st|er|s] w1]; cbn in Hg.
  - assert (preserves (_ ← run_registry (Registry.update_state (Entry.name e) st);
      if negb (is_valid st) || negb (bool_decide (active_state st = "active"))
      then context_M "during handle error" (handle_error e) else mret tt)) as Hp; [|by apply Hp].
    apply preserves_bind; [auto with givc|]. intros _.
    case_match; [apply preserves_context, preserves_handle_error | auto with givc].
  - by apply preserves_context; [apply preserves_handle_error|].
  - done.
Qed.

Lemma preserves_monitor_tick : preserves monitor_tick.
Proof using rpc_keeps sleep_keeps.
  intros w Hw. unfold monitor_tick.
  generalize (Registry.watch_list (registry (admin w))) as l. intros l.
  revert w Hw. induction l as [|e l IH]; intros w Hw; [done|]. cbn.
  pose proof (preserves_monitor_routine e w Hw) as Hm.
  destruct (monitor_routine e w) as [[?|?|?] w1]; cbn in Hm; [by apply IH..|done].
Qed.

Lemma preserves_start_app req : preserves (start_app req).
Proof using rpc_keeps sleep_keeps.
  unfold start_app. apply preserves_bind; [auto with givc|]. intros known.
  apply preserves_bind.
  { case_match; [auto with givc|].
    apply preserves_bind; [apply preserves_context, preserves_start_vm|]. intros _.
    apply preserves_bind; auto with givc. }
  intros _. apply preserves_bind; [auto with givc|]. intros ec.
  apply preserves_bind; [auto with givc|]. intros u.
  apply preserves_bind; [auto with givc|]. intros st.
  apply preserves_bind; [|auto with givc]. case_match; [|auto with givc].
  apply preserves_registry. intros r Hr. by apply register_safe.
Qed.

Lemma preserves_register_service req : preserves (register_service req).
Proof.
  intros w Hw. unfold register_service. destruct (entry_of_pb req) as [e|er|s] eqn:Ee; [|done..].
  apply entry_of_pb_endpoint in Ee as (_ & ep & vm & Hp & _).
  assert (preserves (register_entry e)) as Hr; [|by apply Hr]. unfold register_entry.
  apply preserves_bind.
  { apply preserves_registry. intros r Hr. apply register_safe; [|done]. intros _. by exists ep, vm. }
  intros _. apply preserves_bind; [case_match; auto with givc|]. intros _.
  apply preserves_bind; [|auto with givc]. case_match; [|auto with givc].
  intros w1 Hw1. unfold propagate. by destruct (agent_endpoint _ _).
Qed.

Lemma preserves_set_locale l : preserves (set_locale l).
Proof using write_keeps.
  unfold set_locale. repeat (apply preserves_bind; [auto with givc|]; intros ?). auto with givc.
Qed.
Lemma preserves_set_timezone tz : preserves (set_timezone tz).
Proof using write_keeps.
  unfold set_timezone. repeat (apply preserves_bind; [auto with givc|]; intros ?). auto with givc.
Qed.

(** The other methods change the registry only while they wait. *)
Lemma preserves_remote m ec r : preserves (remote m ec r).
Proof using connect_keeps unary_keeps.
  apply preserves_bind; [exact (connect_keeps ec)|]. intros _. exact (unary_keeps m ec r).
Qed.
Lemma preserves_ignore {A} (m : M A) : preserves m → preserves (ignore m).
Proof. intros Hm w Hw. specialize (Hm w Hw). unfold ignore. by destruct (m w) as [[]]. Qed.
Lemma preserves_if_connected ec m : preserves m → preserves (if_connected ec m).
Proof using connect_keeps.
  intros Hm w Hw. pose proof (connect_keeps ec w Hw) as Hc. cbn in Hc. unfold if_connected.
  destruct (connect ec w) as [[]]; cbn in Hc |- *; [by apply Hm|done..].
Qed.
Lemma preserves_for_each {A} (f : A → M unit) l : (∀ x, preserves (f x)) → preserves (for_each f l).
Proof. intros Hf. induction l; cbn; auto with givc. Qed.
Lemma preserves_respond {A} (m : M A) : preserves m → preserves (respond m).
Proof. intros Hm w Hw. specialize (Hm w Hw). unfold respond. by destruct (m w). Qed.
Lemma preserves_call m ec r : preserves (ignore (unary m ec r)).
Proof using unary_keeps. apply preserves_ignore. exact (unary_keeps m ec r). Qed.

#[local] Hint Resolve preserves_remote preserves_call preserves_respond preserves_start_vm
  preserves_start_app preserves_set_locale preserves_set_timezone : givc.

Lemma preserves_each_app call good verb req : preserves (each_app call good verb req).
Proof using rpc_keeps.
  apply preserves_bind; [auto with givc|]. intros ec.
  apply preserves_bind; [auto with givc|]. intros ns. apply preserves_for_each. intros n.
  apply preserves_bind; [auto with givc|]. intros st. case_match; auto with givc.
Qed.
Lemma preserves_send_system_command n : preserves (send_system_command n).
Proof using rpc_keeps.
  repeat (apply preserves_bind; [auto with givc|]; intros ?). auto with givc.
Qed.
Lemma preserves_start_unit_on_vm u v : preserves (start_unit_on_vm u v).
Proof using rpc_keeps.
  repeat (apply preserves_bind; [auto with givc|]; intros ?).
  repeat case_match; auto with givc.
Qed.
Lemma preserves_stop_unit_on_vm u v : preserves (stop_unit_on_vm u v).
Proof using rpc_keeps.
  repeat (apply preserves_bind; [auto with givc|]; intros ?). auto with givc.
Qed.

Lemma preserves_run_task t : preserves (run_task t).
Proof using rpc_keeps connect_keeps unary_keeps policies_keeps sleep_keeps.
  destruct t as [e|ec l tz p|ms l|ms tz]; cbn.
  - by apply preserves_ignore, preserves_monitor_routine.
  - apply preserves_if_connected.
    apply preserves_bind; [case_match; auto with givc|]. intros _.
    apply preserves_bind; [case_match; auto with givc|]. intros _. case_match; auto with givc.
  - apply preserves_for_each. intros ec. apply preserves_if_connected. auto with givc.
  - apply preserves_for_each. intros ec. apply preserves_if_connected. auto with givc.
Qed.
Lemma preserves_run_next : preserves run_next.
Proof using rpc_keeps connect_keeps unary_keeps policies_keeps sleep_keeps.
  intros w Hw. unfold run_next. destruct (spawned (admin w)) as [|t ts]; [done|].
  by apply preserves_run_task.
Qed.

Lemma preserves_after {A B} (m : M A) (b : B) : preserves m → preserves (_ ← m; mret (M := M) b).
Proof. intros Hm. apply preserves_bind; [done|]. intros _. apply preserves_ret. Qed.
Lemma handle_keeps i : keeps (handle i).
Proof using rpc_keeps connect_keeps unary_keeps policies_keeps sleep_keeps write_keeps.
  destruct i; cbn [handle].
  - apply preserves_register_service.
  - apply preserves_respond, preserves_start_app.
  - apply preserves_respond, preserves_after, preserves_start_vm.
  - apply preserves_respond, preserves_start_unit_on_vm.
  - apply preserves_respond, preserves_after, preserves_stop_unit_on_vm.
  - apply preserves_respond, preserves_after, preserves_each_app.
  - apply preserves_respond, preserves_after, preserves_each_app.
  - apply preserves_respond, preserves_after, preserves_each_app.
  - apply preserves_respond, preserves_send_system_command.
  - apply preserves_respond, preserves_send_system_command.
  - apply preserves_respond, preserves_send_system_command.
  - by intros w.
  - apply preserves_respond, preserves_bind; auto with givc.
  - apply preserves_respond, preserves_query.
  - apply preserves_respond, preserves_query.
  - apply preserves_respond. repeat (apply preserves_bind; [auto with givc|]; intros ?). auto with givc.
  - apply preserves_respond, preserves_set_locale.
  - apply preserves_respond, preserves_set_timezone.
  - apply preserves_respond, preserves_bind; auto with givc.
  - apply preserves_respond, preserves_bind; auto with givc.
  - apply preserves_respond, preserves_bind; auto with givc.
  - apply preserves_run_next.
  - apply preserves_monitor_tick.
Qed.
End invariant.

(** ** No deadlock *)

Lemma collect_managers_Ok a l :
  Forall direct l → ∃ ms, collect_managers a l = Ok ms.
Proof.
  induction 1 as [|e l He _ [ms IH]]; [by eexists|]. cbn. rewrite IH.
  case_bool_decide as Hm; [|by eexists].
  destruct (He Hm) as (ep & vm & Hp). unfold endpoint_locked, endpoint. rewrite Hp. by eexists.
Qed.

Lemma managers_Ok w : safe w → ∃ ms, managers (admin w) = Ok ms.
Proof.
  intros [_ Hd]. apply collect_managers_Ok, Forall_forall. intros e He.
  apply elem_of_hash_values in He as (k & Hk). exact (Hd k e Hk).
Qed.

Lemma stats_endpoint_safe w vm s : safe w → stats_endpoint vm (admin w) ≠ Panic s.
Proof.
  intros [_ Hd]. unfold stats_endpoint, Registry.find_map.
  destruct (find_map _ _) as [r|] eqn:E; [|done]. cbn.
  apply find_map_Some_elem in E as (e & (k & Hk)%elem_of_hash_values & He).
  destruct (bool_decide (service (Entry.type e) = Mgr)) eqn:Hm; [|done]. apply bool_decide_eq_true in Hm.
  destruct (bool_decide (Entry.name e = _)); simplify_eq/=.
  destruct (Hd k e Hk Hm) as (ep & v & Hp). unfold endpoint_locked, endpoint. by rewrite Hp.
Qed.

Lemma collect_managers_elem a l ms ec :
  Forall direct l → collect_managers a l = Ok ms →
  ec ∈ ms ↔ ∃ e, e ∈ l ∧ service (Entry.type e) = Mgr ∧ endpoint e a = Ok ec.
Proof.
  intros Hl. revert ms. induction Hl as [|e l He Hl IH]; intros ms.
  { intros [= <-]. split; [intros []%not_elem_of_nil | by intros (e & []%not_elem_of_nil & _)]. }
  cbn. case_bool_decide as Hm; last first.
  { intros Hc. rewrite (IH _ Hc). split; intros (e' & Hin & Hm' & Hec).
    - exists e'. split; [by right | done].
    - exists e'. apply elem_of_cons in Hin as [->|]; [done|]. done. }
  destruct (He Hm) as (ep & vm & Hp).
  assert (endpoint_locked e a = endpoint e a) as -> by (unfold endpoint_locked; by rewrite Hp).
  destruct (endpoint e a) as [ec'|er|s] eqn:Hec'; [|unfold endpoint in Hec'; by rewrite Hp in Hec'..].
  destruct (collect_managers a l) as [ms'| |] eqn:Hc; [|done..]. intros [= <-].
  rewrite elem_of_cons, (IH _ eq_refl). split.
  - intros [->|(e' & Hin & Hm' & Hec)].
    + exists e. split; [by left | done].
    + exists e'. split; [by right | done].
  - intros (e' & [->|Hin]%elem_of_cons & Hm' & Hec); [left; congruence | right; by exists e'].
Qed.

Lemma managers_elem w ms ec :
  safe w → managers (admin w) = Ok ms →
  ec ∈ ms ↔ ∃ k e, Registry.map (registry (admin w)) !! k = Some e ∧
    service (Entry.type e) = Mgr ∧ endpoint e (admin w) = Ok ec.
Proof.
  intros [_ Hd] Hms. rewrite (collect_managers_elem _ _ _ ec ltac:(
    apply Forall_forall; intros e (k & Hk)%elem_of_hash_values; exact (Hd k e Hk)) Hms).
  split.
  - intros (e & (k & Hk)%elem_of_hash_values & ?). by exists k, e.
  - intros (k & e & Hk & ?). exists e. split; [|done]. apply elem_of_hash_values. by exists k.
Qed.

(** A manager's error never restarts its VM. *)
Lemma handle_error_direct e w :
  direct e → service (Entry.type e) = Mgr → handle_error e w = (Ok tt, w).
Proof.
  intros He Hs. destruct (He Hs) as (ep & vm & Hp). unfold handle_error. rewrite Hs, Hp.
  by destruct (Types.vm (Entry.type e)).
Qed.

(** ** Starting a VM *)

Definition status_is (st : UnitStatus) (active : string) : bool := bool_decide (active_state st = active).

Lemma systemd_Ok ec c w st w' :
  systemd ec c w = (Ok st, w') ↔ ∃ r, rpc ec c w = (r, w') ∧ status_response r = Ok st.
Proof.
  unfold systemd. destruct (rpc ec c w) as [r w1]. split.
  - intros [= Hr ->]. by exists r.
  - by intros (r' & [= -> ->] & ->).
Qed.

(** Success: the VM was active, or it was started and is active after the
    waiting time. *)
Lemma start_vm_Ok n w w' :
  start_vm n w = (Ok tt, w') ↔
  ∃ ec st w1, host_endpoint (admin w) = Ok ec ∧
    systemd ec (GetUnitStatus n) w = (Ok st, w1) ∧ load_state st = "loaded" ∧
    ((active_state st = "active" ∧ w' = w1) ∨
     (active_state st ≠ "active" ∧ ∃ st1 st2 w2,
        systemd ec (StartUnit n) w1 = (Ok st1, w2) ∧
        systemd ec (GetUnitStatus n) (sleep VM_STARTUP_TIME w2) = (Ok st2, w') ∧
        active_state st2 = "active")).
Proof.
  unfold start_vm. rewrite SR_bind_Ok. split.
  - intros (ec & w0 & [Hec ->]%query_Ok & Hs).
    apply SR_bind_Ok in Hs as (st & w1 & Hst%context_M_Ok & Hs). exists ec, st, w1.
    split; [done|]. split; [done|]. case_bool_decide as Hl; [|done]. split; [done|]. cbn in Hs.
    case_bool_decide as Ha; cbn in Hs; [left; by injection Hs as <-|]. right. split; [done|].
    apply SR_bind_Ok in Hs as (st1 & w2 & Hst1%context_M_Ok & Hs).
    apply SR_bind_Ok in Hs as ([] & w3 & [= <-] & Hs).
    apply SR_bind_Ok in Hs as (st2 & w4 & Hst2%context_M_Ok & Hs).
    case_bool_decide as Ha2; [|done]. cbn in Hs. injection Hs as <-. by exists st1, st2, w2.
  - intros (ec & st & w1 & Hec & Hst & Hl & Hc). exists ec, w.
    split; [by apply query_Ok|]. apply SR_bind_Ok. exists st, w1. split; [by apply context_M_Ok|].
    rewrite (bool_decide_eq_true_2 _ Hl). cbn.
    destruct Hc as [[Ha ->]|(Ha & st1 & st2 & w2 & H1 & H2 & Ha2)].
    + by rewrite bool_decide_eq_true_2.
    + rewrite bool_decide_eq_false_2 by done. cbn.
      apply SR_bind_Ok. exists st1, w2. split; [by apply context_M_Ok|].
      apply SR_bind_Ok. exists tt, (sleep VM_STARTUP_TIME w2). split; [done|].
      apply SR_bind_Ok. exists st2, w'. split; [by apply context_M_Ok|].
      by rewrite bool_decide_eq_true_2.
Qed.

(** ** Starting an application *)

Definition target_vm (req : ApplicationRequest) : VmName :=
  match req_vm_name req with Some n => Vm n | None => AppName (app_name req) end.

Definition put_registry (f : Registry.Registry → Registry.Registry) (w : World) : World :=
  mkWorld (set_registry (f (registry (admin w))) (admin w)) (ext w).

(** A started application: from some world [w1] on, the agent of its VM was
    asked to start the least free instance; an active one is registered as
    managed by that agent. *)
Lemma start_app_Ok req w n w' :
  start_app req w = (Ok n, w') →
  ∃ w1 w2 ec u st,
    (if is_ok (Registry.by_name (agent_service (target_vm req)) (registry (admin w))) then w1 = w
     else start_vm (vm_service (target_vm req)) w = (Ok tt, w1)) ∧
    agent_endpoint (agent_service (target_vm req)) (admin w1) = Ok ec ∧
    Registry.create_unique_entry_name (app_name req) (registry (admin w1)) = Some u ∧
    systemd ec (StartApplication u (req_args req)) w1 = (Ok st, w2) ∧
    n = Types.name st ∧
    w' = if status_is st "active" then
           put_registry (Registry.register
             (app_entry st (agent_service (target_vm req)) (vm_service (target_vm req)))) w2
         else w2.
Proof.
  unfold start_app. fold (target_vm req). intros Hs.
  apply SR_bind_Ok in Hs as (known & w0 & [[= Hk] ->]%query_Ok & Hs).
  apply SR_bind_Ok in Hs as ([] & w1 & Hvm & Hs).
  assert (if known then w1 = w else start_vm (vm_service (target_vm req)) w = (Ok tt, w1)) as Hor.
  { destruct known; [by injection Hvm as <-|].
    apply SR_bind_Ok in Hvm as ([] & wa & Hst%context_M_Ok & Hvm).
    apply SR_bind_Ok in Hvm as (e & wb & [_ ->]%query_Ok & [= <-]). done. }
  apply SR_bind_Ok in Hs as (ec & w2 & [Hec ->]%context_M_Ok%query_Ok & Hs).
  apply SR_bind_Ok in Hs as (u & w3 & [Hu ->]%query_Ok & Hs).
  apply SR_bind_Ok in Hs as (st & w4 & Hst & Hs).
  apply SR_bind_Ok in Hs as ([] & w5 & Hreg & [= <- <-]).
  exists w1, w4, ec, u, st. rewrite Hk. repeat split; try done.
  - by destruct (Registry.create_unique_entry_name _ _); simplify_eq/=.
  - unfold status_is. destruct (bool_decide _); by injection Hreg as <-.
Qed.

(** ** An application that exits *)

Lemma endpoint_update e st a ec n :
  Registry.wf (registry a) → Registry.map (registry a) !! Entry.name e = Some e →
  n = Entry.name e → endpoint e a = Ok ec →
  endpoint (Registry.set_status e st)
    (set_registry (snd (Registry.update_state n st (registry a))) a) = Ok ec.
Proof.
  intros Hwf He -> Hec. unfold endpoint in *. cbn [Registry.set_status placement].
  unfold Registry.update_state. rewrite He. cbn.
  destruct (placement e) as [ep vm|vm parent|] eqn:Hp; [done| |done].
  unfold Registry.by_name in *. cbn.
  destruct (decide (parent = Entry.name e)) as [->|Hne].
  - rewrite He in Hec. cbn in Hec. unfold agent in Hec. by rewrite Hp in Hec.
  - by rewrite lookup_insert_ne.
Qed.

(** The first check that sees the exit stores it, the next one deregisters. *)
Lemma monitor_exit_first e ec st w :
  Registry.map (registry (admin w)) !! Entry.name e = Some e →
  endpoint e (admin w) = Ok ec → systemd ec (GetUnitStatus (Entry.name e)) w = (Ok st, w) →
  Entry.type e = mkUnitType AppVM App → is_exitted (Entry.status e) = false →
  monitor_routine e w =
    (Ok tt, put_registry (λ r, snd (Registry.update_state (Entry.name e) st r)) w).
Proof.
  intros He Hec Hrpc Ht Hx. unfold monitor_routine, get_remote_status.
  assert ((ec ← query (endpoint e); systemd ec (GetUnitStatus (Entry.name e))) w = (Ok st, w)) as ->.
  { apply SR_bind_Ok. exists ec, w. split; [by apply query_Ok | done]. }
  unfold put_registry, mbind, M_bind, SR_bind, run_registry, Registry.update_state. rewrite He. cbn.
  unfold handle_error. rewrite Ht. cbn. rewrite Hx. by case_match.
Qed.

Lemma monitor_exit_second e ec st w :
  Registry.map (registry (admin w)) !! Entry.name e = Some e →
  endpoint e (admin w) = Ok ec → systemd ec (GetUnitStatus (Entry.name e)) w = (Ok st, w) →
  Entry.type e = mkUnitType AppVM App → is_exitted (Entry.status e) = true →
  active_state st ≠ "active" →
  ∃ w', monitor_routine e w = (Ok tt, w') ∧
    Registry.map (registry (admin w')) !! Entry.name e = None.
Proof.
  intros He Hec Hrpc Ht Hx Hst. unfold monitor_routine, get_remote_status.
  assert ((ec ← query (endpoint e); systemd ec (GetUnitStatus (Entry.name e))) w = (Ok st, w)) as ->.
  { apply SR_bind_Ok. exists ec, w. split; [by apply query_Ok | done]. }
  set (e' := Registry.set_status e st).
  set (r1 := snd (Registry.update_state (Entry.name e) st (registry (admin w)))).
  assert (Registry.map r1 !! Entry.name e = Some e') as He1.
  { unfold r1, Registry.update_state. rewrite He. cbn. by rewrite lookup_insert_eq. }
  unfold mbind, M_bind, SR_bind, run_registry at 1. fold r1.
  assert (Registry.update_state (Entry.name e) st (registry (admin w)) = (Ok tt, r1)) as ->.
  { unfold r1, Registry.update_state. by rewrite He. }
  cbn [fst snd]. rewrite bool_decide_eq_false_2, orb_true_r by done.
  unfold context_M, handle_error. rewrite Ht. cbn [vm service]. rewrite Hx.
  unfold run_registry. cbn [admin set_registry registry].
  destruct (Registry.deregister (Entry.name e) r1) as [rr r2] eqn:Ed.
  assert (rr = Ok tt) as ->.
  { unfold Registry.deregister in Ed. rewrite He1 in Ed. by simplify_eq. }
  eexists. split; [done|]. cbn.
  assert (r2 = snd (Registry.deregister (Entry.name e) r1)) as -> by (by rewrite Ed).
  rewrite (Registry.deregister_map _ _ _ He1). unfold Registry.goes_with. rewrite He1.
  by rewrite bool_decide_eq_true_2.
Qed.

(** ** Settings *)

Lemma set_timezone_invalid tz w :
  validate_timezone tz = false → set_timezone tz w = (bail "Invalid timezone", w).
Proof. intros Hv. unfold set_timezone, mbind, M_bind, SR_bind, lift. by rewrite Hv. Qed.

Lemma set_timezone_valid tz w :
  validate_timezone tz = true → safe (write_file TIMEZONE_CONF tz w) →
  ∃ ms w', set_timezone tz w = (Ok tt, w') ∧ timezone (admin w') = tz ∧
    managers (admin (write_file TIMEZONE_CONF tz w)) = Ok ms ∧
    w' = mkWorld (set_tz tz (add_task (TimezoneTask ms tz) (admin (write_file TIMEZONE_CONF tz w))))
           (ext (write_file TIMEZONE_CONF tz w)).
Proof.
  intros Hv Hs. destruct (managers_Ok _ Hs) as [ms Hms]. do 2 eexists.
  split; [|by repeat split].
  unfold set_timezone, mbind, M_bind, SR_bind, lift, await, query, modify. rewrite Hv. cbn.
  by rewrite Hms.
Qed.

(** A manager that registers is told the current settings. *)
Lemma register_service_propagates req e w :
  entry_of_pb req = Ok e → service (Entry.type e) = Mgr →
  ∃ ec w', register_service req w = (Ok (Reply tt), w') ∧ endpoint e (admin w) = Ok ec ∧
    PropagateTask ec (locale_assigns (admin w)) (timezone (admin w)) (has_policy_manager (admin w))
      ∈ spawned (admin w').
Proof.
  intros He Hm. destruct (entry_of_pb_endpoint _ _ He) as (_ & ep & vm & Hp & _).
  assert (∀ a, Registry.map (registry a) !! Entry.name e = Some e →
    agent_endpoint (Entry.name e) a = endpoint e a) as Hag.
  { intros a Ha. unfold agent_endpoint, Registry.by_name. by rewrite Ha. }
  assert (∀ a, tls_config a = tls_config (admin w) → endpoint e a = endpoint e (admin w)) as Hec.
  { intros a Ha. unfold endpoint. by rewrite Hp, Ha. }
  set (w1 := put_registry (Registry.register e) w).
  set (w2 := if negb (is_valid (Entry.status e)) then
    mkWorld (add_task (MonitorTask e) (admin w1)) (ext w1) else w1).
  assert (Registry.map (registry (admin w2)) !! Entry.name e = Some e) as Hl.
  { unfold w2. destruct (negb _); apply Registry.register_lookup. }
  assert (locale_assigns (admin w2) = locale_assigns (admin w) ∧
    timezone (admin w2) = timezone (admin w) ∧ tls_config (admin w2) = tls_config (admin w) ∧
    has_policy_manager (admin w2) = has_policy_manager (admin w)) as (<- & <- & Ht & <-).
  { unfold w2. by destruct (negb _). }
  destruct (endpoint e (admin w)) as [ec|er|x] eqn:Hw; [|unfold endpoint in Hw; by rewrite Hp in Hw..].
  exists ec; eexists. split; [|split; [done|]].
  - unfold register_service. rewrite He. apply SR_bind_Ok. exists tt, w1. split; [done|].
    apply SR_bind_Ok. exists tt, w2. split; [unfold w2; by destruct (negb _)|].
    apply SR_bind_Ok. eexists tt, _. split; [|done]. rewrite bool_decide_eq_true_2 by done.
    unfold propagate. rewrite (Hag _ Hl), (Hec _ Ht). done.
  - cbn. apply elem_of_app. right. by left.
Qed.

Lemma check_assignment_ok a : is_ok (check_assignment a) = validate_locale (value a).
Proof.
  unfold check_assignment. case_bool_decide as Hv; [by rewrite Hv|]. cbn.
  by destruct (validate_locale (value a)).
Qed.

Lemma check_assignments l :
  is_ok (mapM_res check_assignment l) = true ↔ Forall (λ a, validate_locale (value a) = true) l.
Proof.
  induction l as [|a l IH]; cbn; [split; [constructor | done]|].
  rewrite Forall_cons, <-IH, <-check_assignment_ok.
  destruct (check_assignment a); cbn; [|split; [intros [=] | intros [[=] _]]..].
  destruct (mapM_res check_assignment l); cbn;
    (split; [intros Hl; split; [reflexivity | exact Hl] | intros [_ Hl]; exact Hl]).
Qed.

(** Assignments that are accepted. *)
Definition good_assignments (l : list LocaleAssignment) : Prop :=
  l ≠ [] ∧ Forall (λ a, validate_locale (value a) = true) l ∧ Forall (known_key ∘ key) l.

Lemma check_assignments_Err l :
  ¬ Forall (λ a, validate_locale (value a) = true) l → ∃ e, mapM_res check_assignment l = Err e.
Proof.
  induction l as [|a l IH]; [by intros []|]. intros Hn. cbn.
  pose proof (check_assignment_ok a) as Ha. unfold check_assignment in *.
  destruct (bool_decide (value a = "")); cbn in *; [by eexists|].
  destruct (validate_locale (value a)) eqn:E; cbn in *; [|by eexists].
  destruct IH as [e ->]; [intros ?; apply Hn; by constructor|by eexists].
Qed.

Lemma set_locale_invalid l w : ¬ good_assignments l → ∃ e, set_locale l w = (Err e, w).
Proof.
  intros Hn. unfold set_locale, mbind, M_bind, SR_bind, lift.
  destruct (decide (l = [])) as [->|Hne]; [by eexists|]. rewrite bool_decide_eq_false_2 by done. cbn.
  destruct (decide (Forall (λ a, validate_locale (value a) = true) l)) as [Hv|Hv]; last first.
  { destruct (check_assignments_Err l Hv) as [e ->]. by eexists. }
  apply check_assignments in Hv as Hc. destruct (mapM_res check_assignment l); [|done..].
  pose proof (locale_content_known l) as Hk. rewrite decide_False in Hk by (intros ?; by apply Hn).
  destruct Hk as [e ->]. by eexists.
Qed.

Lemma set_locale_valid l w :
  good_assignments l → (∀ p c, safe (write_file p c w)) →
  ∃ c ms, locale_content l = Ok c ∧
    set_locale l w = (Ok tt, mkWorld
      (set_locale_assigns l (add_task (LocaleTask ms l) (admin (write_file LOCALE_CONF c w))))
      (ext (write_file LOCALE_CONF c w))).
Proof.
  intros (Hne & Hv & Hk) Hs. pose proof (locale_content_known l) as Hc. rewrite decide_True in Hc by done.
  destruct Hc as [c Hc]. destruct (managers_Ok _ (Hs LOCALE_CONF c)) as [ms Hms]. exists c, ms. split; [done|].
  unfold set_locale, mbind, M_bind, SR_bind, lift, await, query, modify.
  rewrite bool_decide_eq_false_2 by done. cbn. apply check_assignments in Hv.
  destruct (mapM_res check_assignment l); [|done..]. by rewrite Hc, Hms.
Qed.

Lemma set_locale_Ok l w w' :
  set_locale l w = (Ok tt, w') →
  l ≠ [] ∧ Forall (λ a, validate_locale (value a) = true) l ∧
  ∃ c ms, locale_content l = Ok c ∧ managers (admin (write_file LOCALE_CONF c w)) = Ok ms ∧
    w' = mkWorld (set_locale_assigns l (add_task (LocaleTask ms l) (admin (write_file LOCALE_CONF c w))))
           (ext (write_file LOCALE_CONF c w)).
Proof.
  unfold set_locale. intros Hs.
  apply SR_bind_Ok in Hs as ([] & w0 & [= Hne <-] & Hs).
  apply ensure_Ok, negb_true_iff, bool_decide_eq_false in Hne.
  apply SR_bind_Ok in Hs as (us & w0 & [= Hck <-] & Hs).
  apply SR_bind_Ok in Hs as (c & w0 & [= Hc <-] & Hs).
  apply SR_bind_Ok in Hs as ([] & w1 & [= <-] & Hs).
  apply SR_bind_Ok in Hs as (ms & w1 & [Hms ->]%query_Ok & Hs).
  apply SR_bind_Ok in Hs as ([] & w1 & [= <-] & [= <-]).
  split; [done|]. split; [apply check_assignments; by rewrite Hck|]. by exists c, ms.
Qed.
End server.
Arguments World Ext : clear implicits.
Arguments M Ext A : clear implicits.
End Server.

(** ** Properties *)

Module ServerProps.
Import Naming Types Entry Locale Wire Server.

(** The recovery branch that restarts the VM of a failed manager is never
    taken: for every manager of a registry that satisfies the invariant the
    error handler does nothing at all. *)
Theorem manager_never_restarted `{HashOrder} {Ext}
    (rpc : EndpointConfig → Call → World Ext → RpcResult * World Ext) sleep (w : World Ext) k e :
  safe w → Registry.map (registry (admin w)) !! k = Some e → service (Entry.type e) = Mgr →
  handle_error rpc sleep e w = (Ok tt, w).
Proof. intros [_ Hd] Hk Hm. apply handle_error_direct; [exact (Hd k e Hk) | done]. Qed.

(** Starting a VM succeeds exactly when the host agent reports it loaded
    and either active already, and then nothing is started, or active ten
    seconds after it was asked to start. *)
Theorem start_vm_spec `{HashOrder} {Ext}
    (rpc : EndpointConfig → Call → World Ext → RpcResult * World Ext) sleep n w w' :
  start_vm rpc sleep n w = (Ok tt, w') ↔
  ∃ ec st w1, host_endpoint (admin w) = Ok ec ∧
    systemd rpc ec (GetUnitStatus n) w = (Ok st, w1) ∧ load_state st = "loaded" ∧
    ((active_state st = "active" ∧ w' = w1) ∨
     (active_state st ≠ "active" ∧ ∃ st1 st2 w2,
        systemd rpc ec (StartUnit n) w1 = (Ok st1, w2) ∧
        systemd rpc ec (GetUnitStatus n) (sleep 10 w2) = (Ok st2, w') ∧
        active_state st2 = "active")).
Proof. apply start_vm_Ok. Qed.

(** C21: A successful application start goes to the agent
    [givc-<vm>.service] of the VM that the request names or, if it names none,
    of [<app>-vm].  If that agent was not registered, [microvm@<vm>.service] was
    started before; otherwise nothing was.  The agent was asked to start the
    instance [<app>@<k>.service] with the smallest [k] not registered, and the
    name it reports is returned.  If it reports the application active, the
    registry then has it under that name: watched, an application of an
    application VM, with the reported status, placed in [microvm@<vm>.service]
    and managed by [givc-<vm>.service]; no other entry is touched.  Otherwise
    the registry is left alone. *)
Theorem start_app_registers `{HashOrder} {Ext}
    (rpc : EndpointConfig → Call → World Ext → RpcResult * World Ext) sleep req w n w' :
  start_app rpc sleep req w = (Ok n, w') →
  let vm := match req_vm_name req with Some v => v | None => app_name req +:+ "-vm" end in
  let agent := "givc-" +:+ vm +:+ ".service" in
  let vm_unit := "microvm@" +:+ vm +:+ ".service" in
  ∃ w1 w2 ag ec k st,
    match Registry.map (registry (admin w)) !! agent with
    | Some _ => w1 = w
    | None => start_vm rpc sleep vm_unit w = (Ok tt, w1)
    end ∧
    Registry.map (registry (admin w1)) !! agent = Some ag ∧ endpoint ag (admin w1) = Ok ec ∧
    (0 ≤ k)%Z ∧ Registry.map (registry (admin w1)) !! (app_name req +:+ "@" +:+ pretty k +:+ ".service") = None ∧
    (∀ i, (0 ≤ i < k)%Z →
       is_Some (Registry.map (registry (admin w1)) !! (app_name req +:+ "@" +:+ pretty i +:+ ".service"))) ∧
    systemd rpc ec (StartApplication (app_name req +:+ "@" +:+ pretty k +:+ ".service") (req_args req)) w1
      = (Ok st, w2) ∧
    n = Types.name st ∧
    if bool_decide (active_state st = "active") then
      (∃ e, Registry.map (registry (admin w')) !! n = Some e ∧
         Entry.name e = n ∧ Entry.type e = mkUnitType AppVM App ∧ Entry.status e = st ∧
         placement e = Managed vm_unit agent ∧ Entry.watch e = true) ∧
      ∀ m, m ≠ n → Registry.map (registry (admin w')) !! m = Registry.map (registry (admin w2)) !! m
    else w' = w2.
Proof.
  intros (w1 & w2 & ec & u & st & Hw1 & Hag & Hu & Hst & -> & ->)%start_app_Ok vm agent vm_unit.
  assert (agent_service (target_vm req) = agent ∧ vm_service (target_vm req) = vm_unit) as [Ea Ev].
  { unfold target_vm, agent_service, vm_service, agent, vm_unit, vm. by destruct (req_vm_name req). }
  rewrite Ea, Ev in *. unfold agent_endpoint in Hag. apply bind_Ok in Hag as (ag & Hag & Hec).
  destruct (Registry.unique_name_spec _ _ _ Hu) as (k & Hk & -> & Hfree & Hless).
  exists w1, w2, ag, ec, k, st. split_and!; try done.
  - unfold Registry.by_name in Hw1. by destruct (Registry.map (registry (admin w)) !! agent).
  - unfold Registry.by_name in Hag. by destruct (Registry.map _ !! agent); simplify_eq/=.
  - unfold status_is. case_bool_decide; [|done]. split.
    + eexists. split; [apply Registry.register_lookup|done].
    + intros m Hm. apply (Registry.register_other
        (app_entry st agent vm_unit) (registry (admin w2)) m). done.
Qed.

(** An application that exits leaves the registry only at the second check
    that sees it: the first one stores the new status and keeps the entry,
    because it judges by the status it had before; the second one removes it. *)
Theorem app_exit_two_rounds `{HashOrder} {Ext}
    (rpc : EndpointConfig → Call → World Ext → RpcResult * World Ext) sleep e ec st w :
  safe w → Registry.map (registry (admin w)) !! Entry.name e = Some e →
  Entry.type e = mkUnitType AppVM App → endpoint e (admin w) = Ok ec →
  is_exitted (Entry.status e) = false → is_exitted st = true →
  (∀ v, systemd rpc ec (GetUnitStatus (Entry.name e)) v = (Ok st, v)) →
  ∃ w1 w2, monitor_routine rpc sleep e w = (Ok tt, w1) ∧
    Registry.map (registry (admin w1)) !! Entry.name e = Some (Registry.set_status e st) ∧
    monitor_routine rpc sleep (Registry.set_status e st) w1 = (Ok tt, w2) ∧
    Registry.map (registry (admin w2)) !! Entry.name e = None.
Proof.
  intros [Hwf _] He Ht Hec Hx Hst Hrpc.
  assert (active_state st ≠ "active") as Hna.
  { unfold is_exitted in Hst. apply andb_true_iff in Hst as [->%bool_decide_eq_true _]. done. }
  set (w1 := put_registry (λ r, snd (Registry.update_state (Entry.name e) st r)) w).
  set (e1 := Registry.set_status e st).
  assert (Registry.map (registry (admin w1)) !! Entry.name e = Some e1) as He1.
  { cbn. unfold Registry.update_state. rewrite He. cbn. by rewrite lookup_insert_eq. }
  destruct (monitor_exit_second rpc sleep e1 ec st w1) as (w2 & H2 & Hn); try done.
  - by apply (endpoint_update e st (admin w) ec (Entry.name e)).
  - exists w1, w2. split; [|done]. by apply (monitor_exit_first rpc sleep e ec st w).
Qed.

(** C28: Locale and timezone settings survive a restart.  A timezone that does
    not match the pattern changes nothing, and neither do assignments that are
    none, have a value that does not match the pattern or a key that is not one
    of the fourteen: the caller gets an error.  Otherwise the setting is stored
    and the task that tells the managers is spawned; and a service that starts
    in the world left, from the files [/etc/timezone.conf] and
    [/etc/locale-givc.conf], has the new setting, and the other setting as it
    would have had before.  Assumed of the file system ([read]): the write
    succeeds - the code ignores its failure - and changes that file only; and
    of what runs during the write: it keeps the registry's invariant and does
    not write these files. *)
Theorem settings_survive_restart `{HashOrder} {Ext} (read : string → Ext → option string)
    (write_file : string → string → World Ext → World Ext) (w : World Ext) tls policy :
  (∀ p c, read p (ext (write_file p c w)) = Some c) →
  (∀ p c q, q ≠ p → read q (ext (write_file p c w)) = read q (ext w)) →
  (∀ p c, safe (write_file p c w)) →
  let restart w :=
    Server.new tls policy (read "/etc/timezone.conf" (ext w)) (read "/etc/locale-givc.conf" (ext w)) in
  (∀ tz,
     if validate_timezone tz then
       ∃ ms w', set_timezone write_file tz w = (Ok tt, w') ∧ timezone (admin w') = tz ∧
         TimezoneTask ms tz ∈ spawned (admin w') ∧
         timezone (restart w') = tz ∧ locale_assigns (restart w') = locale_assigns (restart w)
     else set_timezone write_file tz w = (bail "Invalid timezone", w)) ∧
  (∀ l,
     (good_assignments l →
       ∃ ms w', set_locale write_file l w = (Ok tt, w') ∧ locale_assigns (admin w') = l ∧
         LocaleTask ms l ∈ spawned (admin w') ∧
         locale_assigns (restart w') = l ∧ timezone (restart w') = timezone (restart w)) ∧
     (¬ good_assignments l → ∃ e, set_locale write_file l w = (Err e, w))).
Proof.
  intros Hr Ho Hs restart. split.
  - intros tz. destruct (validate_timezone tz) eqn:Hv; [|by apply set_timezone_invalid].
    destruct (set_timezone_valid write_file tz w Hv (Hs _ _)) as (ms & w' & H1 & H2 & _ & ->).
    exists ms; eexists. split; [exact H1|]. split; [done|]. split; [cbn; apply elem_of_app; right; by left|].
    split; cbn.
    + change "/etc/timezone.conf" with TIMEZONE_CONF. rewrite Hr. by apply timezone_file_round.
    + by rewrite Ho.
  - intros l. split; [|apply set_locale_invalid]. intros Hl.
    destruct (set_locale_valid write_file l w Hl (λ p c, Hs p c)) as (c & ms & Hc & H1).
    exists ms; eexists. split; [exact H1|]. split; [done|]. split; [cbn; apply elem_of_app; right; by left|].
    split; cbn.
    + change "/etc/locale-givc.conf" with LOCALE_CONF. rewrite Hr.
      destruct Hl as (Hne & Hv & _). by apply locale_file_round.
    + by rewrite Ho.
Qed.

(** A new timezone reaches every manager: when it is set, the spawned task
    addresses exactly the endpoints of the managers registered then, and a
    manager that registers with the resulting service is sent it too. *)
Theorem timezone_reaches_managers `{HashOrder} {Ext}
    (write_file : string → string → World Ext → World Ext) (w : World Ext) tz :
  validate_timezone tz = true → safe (write_file TIMEZONE_CONF tz w) →
  ∃ ms w', set_timezone write_file tz w = (Ok tt, w') ∧
    TimezoneTask ms tz ∈ spawned (admin w') ∧
    (∀ ec, ec ∈ ms ↔ ∃ k e, Registry.map (registry (admin w')) !! k = Some e ∧
       service (Entry.type e) = Mgr ∧ endpoint e (admin w') = Ok ec) ∧
    ∀ req e, entry_of_pb req = Ok e → service (Entry.type e) = Mgr →
      ∃ ec w'', register_service req w' = (Ok (Reply tt), w'') ∧ endpoint e (admin w') = Ok ec ∧
        PropagateTask ec (locale_assigns (admin w')) tz (has_policy_manager (admin w'))
          ∈ spawned (admin w'').
Proof.
  intros Hv Hs.
  destruct (set_timezone_valid write_file tz w Hv Hs) as (ms & w' & H1 & Htz & Hms & Hw').
  exists ms, w'. split; [done|]. split; [|split].
  - subst w'. cbn. apply elem_of_app. right. by left.
  - intros ec. rewrite (managers_elem _ _ ec Hs Hms). by subst w'.
  - intros req e He Hm. rewrite <-Htz. by apply register_service_propagates.
Qed.

(** ** A concrete service *)

Definition ex_running (n : string) : Pb.UnitStatus :=
  Pb.mkUnitStatus n "" "loaded" "active" "running" "" "running".
Definition ex_dead : UnitStatus := mkUnitStatus "app@0.service" "" "loaded" "inactive" "dead" "" "running".
(** Every unit runs, except that [app@0.service] reports having exited. *)
Definition ex_rpc (ec : EndpointConfig) (c : Call) (w : World unit) : RpcResult * World unit :=
  match c with
  | GetUnitStatus u =>
      (Replied (Reply (Some (if bool_decide (u = "app@0.service") then unit_status_to_pb ex_dead
                             else ex_running u))), w)
  | StartApplication u _ => (Replied (Reply (Some (ex_running u))), w)
  | StartUnit u | StopUnit u | KillUnit u | FreezeUnit u | UnfreezeUnit u =>
      (Replied (Reply (Some (ex_running u))), w)
  end.
Definition ex_connect (ec : EndpointConfig) (w : World unit) : res unit * World unit := (Ok tt, w).
Definition ex_unary (m : string) (ec : EndpointConfig) (r : Message) (w : World unit) :
  res string * World unit := (Ok "", w).
Definition ex_policies (n : string) (w : World unit) : World unit := w.
Definition ex_sleep (n : nat) (w : World unit) : World unit := w.
Definition ex_write (p c : string) (w : World unit) : World unit := w.
Definition ex_agent : RegistryEntry := RegistryProps.ex_entry "givc-app-vm.service".
Definition ex_world : World unit :=
  mkWorld (set_registry (Registry.register ex_agent Registry.new) (Server.new None false None None)) tt.
Definition ex_req : ApplicationRequest := mkAppRequest "app" None [].
Definition ex_app : RegistryEntry :=
  mkEntry "app@0.service" (mkUnitType AppVM App)
    (mkUnitStatus "app@0.service" "" "loaded" "active" "running" "" "running")
    (Managed "microvm@app-vm.service" "givc-app-vm.service") true.
Definition ex_world' : World unit := put_registry (Registry.register ex_app) ex_world.

Lemma ex_world_safe : safe ex_world.
Proof.
  apply register_safe; [intros _; by do 2 eexists|].
  split; [apply Registry.wf_new | apply map_Forall_empty].
Qed.

Lemma manager_never_restarted_witness :
  handle_error (order := map_to_list_order) ex_rpc ex_sleep ex_agent ex_world = (Ok tt, ex_world).
Proof.
  apply (@manager_never_restarted map_to_list_order unit ex_rpc ex_sleep ex_world "givc-app-vm.service");
    [exact ex_world_safe | vm_compute; reflexivity | reflexivity].
Defined.

Lemma start_app_registers_witness :
  start_app (order := map_to_list_order) ex_rpc ex_sleep ex_req ex_world = (Ok "app@0.service", ex_world') ∧
  ∃ e, Registry.map (registry (admin ex_world')) !! "app@0.service" = Some e ∧
    placement e = Managed "microvm@app-vm.service" "givc-app-vm.service".
Proof.
  split; [vm_compute; reflexivity|].
  destruct (@start_app_registers map_to_list_order unit ex_rpc ex_sleep ex_req ex_world
    "app@0.service" ex_world') as (w1 & w2 & ag & ec & k & st & Hw & Hag & Hec & Hk & Hfree & Hless & Hst & _ & He);
    [vm_compute; reflexivity|].
  assert (active_state st = "active") as Ha.
  { apply (f_equal fst) in Hst. cbn in Hst. by injection Hst as <-. }
  rewrite bool_decide_eq_true_2 in He by exact Ha. destruct He as [(e & H1 & _ & _ & _ & H2 & _) _].
  exists e. split; [exact H1 | exact H2].
Defined.

(** A world whose files are kept. *)
Definition ex_write_disk (p c : string) (w : World (gmap string string)) : World (gmap string string) :=
  mkWorld (admin w) (<[p := c]> (ext w)).
Definition ex_disk_world : World (gmap string string) := mkWorld (admin ex_world) ∅.

Lemma settings_survive_restart_witness :
  ∃ w', set_locale (order := map_to_list_order) ex_write_disk [mkAssignment 0 "fi_FI.UTF-8"] ex_disk_world
      = (Ok tt, w') ∧
    locale_assigns (Server.new None false (ext w' !! "/etc/timezone.conf") (ext w' !! "/etc/locale-givc.conf"))
      = [mkAssignment 0 "fi_FI.UTF-8"].
Proof.
  destruct (@settings_survive_restart map_to_list_order (gmap string string) (λ p m, m !! p) ex_write_disk
    ex_disk_world None false) as [_ Hl].
  - intros p c. apply lookup_insert_eq.
  - intros p c q Hq. apply lookup_insert_ne. congruence.
  - intros p c. exact ex_world_safe.
  - destruct (Hl [mkAssignment 0 "fi_FI.UTF-8"]) as [Hg _].
    destruct Hg as (ms & w' & H1 & _ & _ & H2 & _); [|exists w'; split; [exact H1 | exact H2]].
    split; [discriminate|].
    split; (constructor; [|constructor]); [vm_compute; reflexivity | unfold compose, known_key; cbn; lia].
Defined.

Lemma app_exit_two_rounds_witness :
  ∃ w1 w2 : World unit,
    monitor_routine (order := map_to_list_order) ex_rpc ex_sleep ex_app ex_world' = (Ok tt, w1) ∧
    Registry.map (registry (admin w2)) !! "app@0.service" = None.
Proof.
  destruct (@app_exit_two_rounds map_to_list_order unit ex_rpc ex_sleep ex_app
    (mkEndpointConfig (mkEndpoint (Tcp "10.0.0.2" 9000) "givc-app-vm.service") None) ex_dead ex_world')
    as (w1 & w2 & H1 & _ & _ & H2).
  - apply register_safe; [discriminate | exact ex_world_safe].
  - vm_compute; reflexivity.
  - reflexivity.
  - vm_compute; reflexivity.
  - vm_compute; reflexivity.
  - vm_compute; reflexivity.
  - intros v. reflexivity.
  - exists w1, w2. split; [exact H1 | exact H2].
Defined.

Lemma timezone_reaches_managers_witness :
  ∃ ms w', set_timezone (order := map_to_list_order) ex_write "Europe/Helsinki" ex_world = (Ok tt, w') ∧
    mkEndpointConfig (mkEndpoint (Tcp "10.0.0.2" 9000) "givc-app-vm.service") None ∈ ms ∧
    TimezoneTask ms "Europe/Helsinki" ∈ spawned (admin w').
Proof.
  destruct (@timezone_reaches_managers map_to_list_order unit ex_write ex_world "Europe/Helsinki")
    as (ms & w' & H1 & H2 & H3 & _).
  - vm_compute; reflexivity.
  - exact ex_world_safe.
  - exists ms, w'. split; [exact H1|]. split; [|exact H2]. apply H3.
    exists "givc-app-vm.service", ex_agent.
    pose proof (f_equal snd H1) as Hw. cbn [snd] in Hw. rewrite <-Hw.
    split; [vm_compute; reflexivity|]. split; [reflexivity | vm_compute; reflexivity].
Defined.
End ServerProps.
