(* ===== verification/PolicyAdmin.v ===== *)
(** * Policy administration ([policyadmin])

    [Config]: the policy configuration.  [Manager]: the policy manager, its
    per-VM workers as queues and the updates they hand to the admin service.
    [Repo]: the monitor of a git repository as a state machine over its two
    heads.  [Urls]: the monitor that polls one URL per policy.  The file
    system, git and HTTP are parameters. *)

From S2P Require Import Prelude RustStr RustInt RustPath.
From Stdlib Require Import Ascii.

Module Config.

Inductive PolicySourceType := NoSource | GitUrl | PerPolicy.
Record PolicySource := mkSource {
  kind : PolicySourceType;
  url : option string;
  branch : option string;
  poll_interval_secs : option Z
}.
Record Updater := mkUpdater {
  updater_url : string;
  head : option string;
  updater_interval : option Z
}.
Record PolicyConfigPolicy := mkPolicyConfig {
  policy_url : option string;
  vms : list string;
  per_policy_updater : option Updater
}.
Record PolicyConfig := mkConfig {
  source : PolicySource;
  policies : gmap string PolicyConfigPolicy
}.

#[global] Instance PolicySource_eq_dec : EqDecision PolicySource.
Proof. assert (EqDecision PolicySourceType) by solve_decision. solve_decision. Defined.
#[global] Instance PolicyConfigPolicy_eq_dec : EqDecision PolicyConfigPolicy.
Proof. assert (EqDecision Updater) by solve_decision. solve_decision. Defined.
#[global] Instance PolicyConfig_eq_dec : EqDecision PolicyConfig.
Proof. solve_decision. Defined.
End Config.

Module Manager.
Import Config.

(** [Policy]: a message to a worker; [Update]: what a worker asks the admin
    service to push. *)
Record Policy := mkPolicy { policy_name : string; file : string }.
Record Update := mkUpdate { vm_name : string; update_file : string; policy : string }.

#[global] Instance Policy_eq_dec : EqDecision Policy.
Proof. solve_decision. Defined.

(** A worker's channel: its waiting messages, and whether its task still
    receives. *)
Record Worker := mkWorker { receiving : bool; queue : list Policy }.

Record Manager := mkManager {
  policy_dir : string;
  configs : PolicyConfig;
  updates : list Update;
  workers : gmap string Worker
}.

Definition set_workers (ws : gmap string Worker) (m : Manager) : Manager :=
  mkManager (policy_dir m) (configs m) (updates m) ws.

Definition add_worker (m : Manager) (vm : string) : Manager :=
  match workers m !! vm with
  | Some _ => m
  | None => set_workers (<[vm := mkWorker true []]> (workers m)) m
  end.

Section manager.
Context {order : HashOrder}.

(** The file system as the manager reads it, and [to_string_lossy]. *)
Context (exists_path is_file : string → bool).
Context (read_dir : string → option (list (option string))).
Context (to_string_lossy : string → string).

(** [PolicyManager::new]: the VM names are collected into a hash set. *)
Definition vm_names (c : PolicyConfig) : gmap string unit :=
  foldl (λ s n, <[n := tt]> s) ∅ (flat_map vms (hash_values (policies c))).
Definition new (store_dir : string) (c : PolicyConfig) : Manager :=
  foldl add_worker (mkManager store_dir c [] ∅) (hash_keys (vm_names c)).

Definition send_to_vm (vm name path : string) (m : Manager) : res unit * Manager :=
  match workers m !! vm with
  | Some w =>
      if receiving w then
        (Ok tt, set_workers (<[vm := mkWorker true (queue w ++ [mkPolicy name (to_string_lossy path)])]>
                               (workers m)) m)
      else (bail "Worker channel disconnected", m)
  | None => (bail ("No worker found for VM: " +:+ vm), m)
  end.

(** Files of a policy's directory; an unreadable directory has none. *)
Definition policy_files (dir : string) : list string :=
  match read_dir dir with
  | Some entries => keep is_file (omap (λ e, e) entries)
  | None => []
  end.

Definition subscribed (m : Manager) (vm name : string) : bool :=
  match policies (configs m) !! name with
  | Some p => existsb (λ v, bool_decide (v = vm)) (vms p)
  | None => false
  end.

(** One policy of [send_all_policies]; failures to send are only logged. *)
Definition send_policy (vm : string) (m : Manager) (name : string) : Manager :=
  let dir := path_join (policy_dir m) name in
  if exists_path dir && subscribed m vm name then
    foldl (λ m path, snd (send_to_vm vm name path m)) m (policy_files dir)
  else m.
Definition send_all_policies (vm : string) (m : Manager) : res unit * Manager :=
  (Ok tt, foldl (send_policy vm) m (hash_keys (policies (configs m)))).

Definition force_update_all_vms (m : Manager) : res unit * Manager :=
  (Ok tt, foldl (λ m vm, snd (send_all_policies vm m)) m (hash_keys (workers m))).

(** The body of [process_changeset]'s loop for the path of a line. *)
Definition dispatch (m : Manager) (relative_path : string) : Manager :=
  match strip_prefix "vm-policies/" relative_path with
  | None => m
  | Some rest =>
      match split "/"%char rest with
      | name :: file_name :: _ =>
          let full_path := path_join (path_join (policy_dir m) name) file_name in
          if exists_path full_path then
            foldl (λ m vm, snd (send_to_vm vm name full_path m)) m
              (match policies (configs m) !! name with Some p => vms p | None => [] end)
          else m
      | _ => m
      end
  end.
Definition process_line (m : Manager) (line : string) : Manager :=
  let line := trim line in
  if bool_decide (line = "") then m
  else match split_whitespace line !! 1 with
       | Some relative_path => dispatch m relative_path
       | None => m
       end.
Definition process_changeset (changeset : string) (m : Manager) : res unit * Manager :=
  (Ok tt, foldl process_line m (lines changeset)).

(** One round of [worker_loop]: the oldest message goes to the admin service;
    what comes back is only logged. *)
Definition worker_step (vm : string) (m : Manager) : option Manager :=
  match workers m !! vm with
  | Some (mkWorker true (p :: q)) =>
      Some (mkManager (policy_dir m) (configs m)
              (updates m ++ [mkUpdate vm (file p) (policy_name p)])
              (<[vm := mkWorker true q]> (workers m)))
  | _ => None
  end.

#[local] Set Default Proof Using "Type".

(** ** What is sent *)

Lemma add_worker_lookup m vm k :
  workers (add_worker m vm) !! k =
    match workers m !! k with
    | Some w => Some w
    | None => if bool_decide (k = vm) then Some (mkWorker true []) else None
    end.
Proof.
  unfold add_worker. destruct (workers m !! vm) as [w|] eqn:E; cbn.
  - destruct (workers m !! k) eqn:Ek; [done|]. case_bool_decide; [congruence | done].
  - destruct (decide (k = vm)) as [->|Hne].
    + rewrite lookup_insert_eq, E. by rewrite bool_decide_eq_true_2.
    + rewrite lookup_insert_ne by done. rewrite bool_decide_eq_false_2 by done.
      by destruct (workers m !! k).
Qed.

Lemma add_workers_lookup l m k :
  workers (foldl add_worker m l) !! k =
    match workers m !! k with
    | Some w => Some w
    | None => if bool_decide (k ∈ l) then Some (mkWorker true []) else None
    end.
Proof.
  revert m; induction l as [|n l IH]; intros m; cbn.
  - destruct (workers m !! k); [done|]. by rewrite bool_decide_eq_false_2 by apply not_elem_of_nil.
  - assert (bool_decide (k ∈ n :: l) = bool_decide (k = n) || bool_decide (k ∈ l)) as ->.
    { apply eq_true_iff_eq. rewrite orb_true_iff, !bool_decide_eq_true. apply elem_of_cons. }
    rewrite IH, add_worker_lookup. destruct (workers m !! k); [done|].
    by destruct (bool_decide (k = n)).
Qed.

Lemma vm_names_lookup l (s : gmap string unit) k :
  foldl (λ s n, <[n := tt]> s) s l !! k = Some tt ↔ k ∈ l ∨ s !! k = Some tt.
Proof.
  clear exists_path is_file read_dir to_string_lossy. revert s; induction l as [|n l IH]; intros s; cbn.
  - rewrite elem_of_nil. tauto.
  - rewrite IH, elem_of_cons. destruct (decide (k = n)) as [->|Hne].
    + rewrite lookup_insert_eq. tauto.
    + rewrite lookup_insert_ne by done. tauto.
Qed.

(** A worker for every VM some policy names, and for no other. *)
Lemma new_workers dir c vm :
  workers (new dir c) !! vm = Some (mkWorker true []) ∧ (∃ n p, policies c !! n = Some p ∧ vm ∈ vms p) ∨
  workers (new dir c) !! vm = None ∧ ¬ ∃ n p, policies c !! n = Some p ∧ vm ∈ vms p.
Proof.
  unfold new. rewrite add_workers_lookup. cbn. rewrite lookup_empty.
  assert (vm ∈ hash_keys (vm_names c) ↔ ∃ n p, policies c !! n = Some p ∧ vm ∈ vms p) as Hiff.
  { rewrite elem_of_hash_keys. unfold vm_names.
    transitivity (foldl (λ s n, <[n := tt]> s) (∅ : gmap string unit)
      (flat_map vms (hash_values (policies c))) !! vm = Some tt).
    { split; [intros [[] ?] | intros ?]; [done | by eexists]. }
    rewrite vm_names_lookup, lookup_empty, list_elem_of_In, in_flat_map.
    setoid_rewrite <-list_elem_of_In. setoid_rewrite elem_of_hash_values. split.
    - intros [(p & (n & Hn) & Hv)|[=]]. by exists n, p.
    - intros (n & p & Hn & Hv). left. exists p. split; [by exists n | done]. }
  case_bool_decide as Hk; [left | right]; (split; [done|]); by rewrite <-Hiff.
Qed.

(** What a full refresh sends to a VM. *)
Definition policies_for (m : Manager) (vm : string) : list Policy :=
  flat_map (λ name,
    let dir := path_join (policy_dir m) name in
    if exists_path dir && subscribed m vm name
    then (λ path, mkPolicy name (to_string_lossy path)) <$> policy_files dir else [])
  (hash_keys (policies (configs m))).

Lemma elem_of_policies_for m vm pol :
  pol ∈ policies_for m vm ↔
  ∃ p path, policies (configs m) !! policy_name pol = Some p ∧ vm ∈ vms p ∧
    exists_path (path_join (policy_dir m) (policy_name pol)) = true ∧
    path ∈ policy_files (path_join (policy_dir m) (policy_name pol)) ∧
    file pol = to_string_lossy path.
Proof.
  unfold policies_for. rewrite list_elem_of_In, in_flat_map. setoid_rewrite <-list_elem_of_In.
  setoid_rewrite elem_of_hash_keys. split.
  - intros (n & [p Hp] & Hin). destruct (exists_path _) eqn:He; [|by apply not_elem_of_nil in Hin].
    unfold subscribed in Hin. rewrite Hp in Hin. cbn in Hin.
    destruct (existsb _ (vms p)) eqn:Hs; [|by apply not_elem_of_nil in Hin].
    apply existsb_true in Hs as (v & Hv & ->%bool_decide_eq_true).
    apply list_elem_of_fmap in Hin as (path & -> & Hpath). by exists p, path.
  - intros (p & path & Hp & Hv & He & Hpath & Hf). exists (policy_name pol). split; [by eexists|].
    rewrite He. unfold subscribed. rewrite Hp.
    assert (existsb (λ v, bool_decide (v = vm)) (vms p) = true) as ->.
    { apply existsb_true. exists vm. split; [done|]. by apply bool_decide_eq_true. }
    apply list_elem_of_fmap. exists path. split; [|done]. destruct pol; cbn in *. by subst.
Qed.

(** [m'] is [m] with messages added to the queue of one VM. *)
Definition extended (m : Manager) (vm : string) (ps : list Policy) : Manager :=
  set_workers (alter (λ w, mkWorker (receiving w) (queue w ++ ps)) vm (workers m)) m.

Lemma extended_nil m vm : extended m vm [] = m.
Proof.
  destruct m as [d c u ws]. unfold extended, set_workers. cbn. f_equal. apply map_eq. intros k.
  destruct (decide (k = vm)) as [->|]; [rewrite lookup_alter_eq | by rewrite lookup_alter_ne].
  destruct (ws !! vm) as [[r q]|]; cbn; [by rewrite app_nil_r | done].
Qed.

Lemma extended_app m vm ps qs : extended (extended m vm ps) vm qs = extended m vm (ps ++ qs).
Proof.
  unfold extended, set_workers. cbn. f_equal. apply map_eq. intros k.
  destruct (decide (k = vm)) as [->|]; [rewrite !lookup_alter_eq | by rewrite !lookup_alter_ne].
  destruct (workers m !! vm) as [[r q]|]; cbn; [by rewrite app_assoc | done].
Qed.

Definition awake (m : Manager) (vm : string) : Prop :=
  ∃ w, workers m !! vm = Some w ∧ receiving w = true.

Lemma awake_extended m vm ps k : awake (extended m vm ps) k ↔ awake m k.
Proof.
  unfold awake, extended. cbn. destruct (decide (k = vm)) as [->|].
  - rewrite lookup_alter_eq. split.
    + intros (w & (w0 & -> & ->)%fmap_Some & Hr). by exists w0.
    + intros (w & -> & Hr). by eexists.
  - by rewrite lookup_alter_ne.
Qed.

Lemma send_to_vm_awake vm name path m :
  awake m vm → send_to_vm vm name path m = (Ok tt, extended m vm [mkPolicy name (to_string_lossy path)]).
Proof.
  intros (w & Hw & Hr). unfold send_to_vm, extended. rewrite Hw, Hr. f_equal. f_equal.
  apply map_eq. intros k. destruct (decide (k = vm)) as [->|].
  - rewrite lookup_insert_eq, lookup_alter_eq, Hw. cbn. by rewrite Hr.
  - by rewrite lookup_insert_ne, lookup_alter_ne.
Qed.

Lemma send_paths vm name paths m :
  awake m vm →
  foldl (λ m path, snd (send_to_vm vm name path m)) m paths =
  extended m vm ((λ path, mkPolicy name (to_string_lossy path)) <$> paths).
Proof.
  revert m; induction paths as [|path paths IH]; intros m Ha; cbn; [by rewrite extended_nil|].
  rewrite send_to_vm_awake by done. cbn. rewrite IH by (by apply awake_extended).
  apply extended_app.
Qed.

Lemma send_all_policies_awake vm m :
  awake m vm → send_all_policies vm m = (Ok tt, extended m vm (policies_for m vm)).
Proof.
  intros Ha. unfold send_all_policies, policies_for. f_equal.
  generalize (hash_keys (policies (configs m))) as names. intros names.
  assert (∀ m', policy_dir m' = policy_dir m → configs m' = configs m → awake m' vm →
    foldl (send_policy vm) m' names = extended m' vm (flat_map (λ name,
      if exists_path (path_join (policy_dir m) name) && subscribed m vm name
      then (λ path, mkPolicy name (to_string_lossy path)) <$> policy_files (path_join (policy_dir m) name)
      else []) names)) as Hgen; [|by apply Hgen].
  induction names as [|n names IH]; intros m' Hd Hc Ha'; cbn; [by rewrite extended_nil|].
  unfold send_policy at 2. unfold subscribed at 1. rewrite Hd, Hc. fold (subscribed m vm n).
  destruct (exists_path _ && _); cbn; [|by apply IH].
  rewrite send_paths by done. rewrite IH; [apply extended_app|done..|by apply awake_extended].
Qed.

Lemma force_update_lookup m vm w :
  (∀ k, is_Some (workers m !! k) → awake m k) → workers m !! vm = Some w →
  workers (snd (force_update_all_vms m)) !! vm = Some (mkWorker true (queue w ++ policies_for m vm)).
Proof.
  intros Ha Hw. unfold force_update_all_vms. cbn [snd].
  assert (∀ ks m', policy_dir m' = policy_dir m → configs m' = configs m → NoDup ks →
    (∀ k, k ∈ ks → awake m' k) →
    workers (foldl (λ m vm, snd (send_all_policies vm m)) m' ks) !! vm =
      if bool_decide (vm ∈ ks) then (λ w, mkWorker (receiving w) (queue w ++ policies_for m vm))
        <$> workers m' !! vm else workers m' !! vm) as Hgen.
  { induction ks as [|k ks IH]; intros m' Hd Hc Hnd Haw; cbn [foldl].
    { by rewrite bool_decide_eq_false_2 by apply not_elem_of_nil. }
    apply NoDup_cons in Hnd as [Hk Hnd].
    assert (awake m' k) as Hak by (apply Haw; by left).
    assert (policies_for m' k = policies_for m k) as Hp.
    { unfold policies_for, subscribed. by rewrite Hd, Hc. }
    rewrite send_all_policies_awake by done. cbn [snd]. rewrite IH; [|done..|]; last first.
    { intros k' Hk'. apply awake_extended, Haw. by right. }
    rewrite Hp. unfold extended. cbn. destruct (decide (vm = k)) as [->|Hne].
    - rewrite bool_decide_eq_false_2 by done. rewrite bool_decide_eq_true_2 by (by left).
      apply lookup_alter_eq.
    - rewrite lookup_alter_ne by done.
      assert (bool_decide (vm ∈ k :: ks) = bool_decide (vm ∈ ks)) as ->; [|done].
      apply bool_decide_ext. rewrite elem_of_cons. tauto. }
  destruct (Ha vm ltac:(by eexists)) as (w' & Hw' & Hr). simplify_eq.
  rewrite Hgen; [|done|done|apply NoDup_hash_keys|].
  - rewrite bool_decide_eq_true_2 by (apply elem_of_hash_keys; by eexists). rewrite Hw. cbn.
    by rewrite Hr.
  - intros k Hk%elem_of_hash_keys. by apply Ha.
Qed.
End manager.
End Manager.

Module Repo.
Import Config Manager.

(** [RepoState]: commit ids, as hexadecimal text. *)
Record RepoState := mkRepoState { new_head : option string; old_head : option string }.

(** The immutable part of [PolicyRepoMonitor]. *)
Record Monitor := mkMonitor {
  url : string;
  branch : string;
  destination : string;
  remote_name : string;
  poll_interval : Z
}.

(** [PolicyRepoMonitor::new]: the settings. *)
Definition new_monitor (policy_root : string) (c : PolicyConfig) : Monitor :=
  mkMonitor (default "" (Config.url (source c))) (default "master" (Config.branch (source c)))
    (path_join policy_root "data") "origin" (default 300%Z (poll_interval_secs (source c))).

(** [gix::object::tree::diff::Change] with the location's text. *)
Inductive Change :=
| Modification (location : string)
| Addition (location : string)
| Deletion (location : string)
| Rewrite (location : string).

(** What [get_change_set]'s closure writes for a change; nothing separates
    the texts of two changes. *)
Definition change_text (c : Change) : string :=
  match c with
  | Modification l => "M " +:+ l
  | Addition l => "A " +:+ l
  | Deletion l => "D " +:+ l
  | Rewrite _ => ""
  end.
Definition change_set (cs : list Change) : string :=
  foldl (λ s c, s +:+ change_text c) "" cs.

(** ** The text of a change set *)

Definition kind_text (c : Change) : string :=
  match c with Modification _ => "M" | Addition _ => "A" | Deletion _ => "D" | Rewrite _ => "" end.
Definition location (c : Change) : string :=
  match c with Modification l | Addition l | Deletion l | Rewrite l => l end.

(** A change that is reported, of a file with a name of visible characters. *)
Definition reported (c : Change) : Prop :=
  kind_text c ≠ "" ∧ location c ≠ "" ∧ all_chars plain_char (location c) = true.

(** The path that the text of a change set has where the first line's path is
    looked for: the location of a single change, and otherwise the first
    location run together with the kind of the second change. *)
Definition read_path (cs : list Change) : option string :=
  match cs with
  | [] => None
  | [c] => Some (location c)
  | c :: d :: _ => Some (location c +:+ kind_text d)
  end.

Lemma change_set_acc acc cs :
  foldl (λ s c, s +:+ change_text c) acc cs = acc +:+ change_set cs.
Proof.
  unfold change_set. revert acc; induction cs as [|c cs IH]; intros acc; cbn.
  - by rewrite str_app_nil_r.
  - rewrite IH, (IH ("" +:+ change_text c)). by rewrite str_nil_app, str_app_assoc.
Qed.

Lemma change_set_cons c cs : change_set (c :: cs) = change_text c +:+ change_set cs.
Proof. unfold change_set at 1. cbn. by rewrite change_set_acc. Qed.

Lemma change_set_snoc cs c : change_set (cs ++ [c]) = change_set cs +:+ change_text c.
Proof. unfold change_set. by rewrite foldl_app. Qed.

Lemma change_text_reported c : reported c → change_text c = kind_text c +:+ " " +:+ location c.
Proof. intros [H _]. by destruct c. Qed.

Lemma kind_plain c : all_chars plain_char (kind_text c) = true.
Proof. by destruct c. Qed.

Lemma change_set_words cs : Forall reported cs → cs ≠ [] →
  split_whitespace (change_set cs) !! 1 = read_path cs.
Proof.
  intros Hr Hne. destruct cs as [|c cs]; [done|]. apply Forall_cons in Hr as [Hc Hr].
  pose proof Hc as (Hk & Hl & Hp).
  rewrite change_set_cons, change_text_reported, !str_app_assoc by done.
  rewrite split_whitespace_cons by (done || apply kind_plain). destruct cs as [|d cs].
  - cbn [change_set foldl]. rewrite str_app_nil_r. by rewrite split_whitespace_one.
  - apply Forall_cons in Hr as [Hd _]. rewrite change_set_cons, (change_text_reported d) by done.
    rewrite !str_app_assoc, <-(str_app_assoc (location c)).
    rewrite split_whitespace_cons; [done| |].
    + by intros [? _]%str_app_eq_nil.
    + by rewrite all_chars_app, Hp, kind_plain.
Qed.

Lemma change_set_trimmed cs : Forall reported cs → cs ≠ [] →
  trim (change_set cs) = change_set cs ∧ change_set cs ≠ "".
Proof.
  intros Hr Hne. assert (∃ a r, change_set cs = String a r ∧ plain_char a = true) as (a & r & Ea & Ha).
  { destruct cs as [|c cs]; [done|]. apply Forall_cons in Hr as [Hc _].
    rewrite change_set_cons, change_text_reported by done. destruct c; [by do 2 eexists..|by destruct Hc]. }
  assert (∃ b t, change_set cs = t +:+ String b "" ∧ t ≠ "" ∧ plain_char b = true)
    as (b & t & Eb & Ht & Hb).
  { destruct cs as [|c cs _] using rev_ind; [done|]. apply Forall_app in Hr as [_ [Hc _]%Forall_cons].
    rewrite change_set_snoc, change_text_reported by done. destruct Hc as (Hk & Hl & Hp).
    destruct (str_last _ Hl) as (l & b & El). rewrite El in Hp |- *.
    rewrite all_chars_app in Hp. apply andb_true_iff in Hp as [_ Hb]. cbn in Hb.
    exists b, (change_set cs +:+ kind_text c +:+ " " +:+ l). split; [|split].
    - by rewrite !str_app_assoc.
    - by intros [_ [? _]%str_app_eq_nil]%str_app_eq_nil.
    - by rewrite andb_true_r in Hb. }
  destruct t as [|a' t]; [done|]. rewrite str_cons_app in Eb. rewrite Ea in Eb.
  injection Eb as <- Er. rewrite Ea, Er. split; [by apply trim_visible | done].
Qed.

Lemma change_set_line cs : Forall reported cs → cs ≠ [] → lines (change_set cs) = [change_set cs].
Proof.
  intros Hr Hne. unfold lines. rewrite split_no_char.
  - cbn. rewrite bool_decide_eq_false_2; [done|]. by apply change_set_trimmed.
  - clear Hne. induction Hr as [|c cs Hc _ IH]; [done|].
    rewrite change_set_cons, change_text_reported, !has_char_app, IH by done.
    destruct Hc as (_ & _ & Hp). rewrite (plain_no_newline _ Hp), (plain_no_newline _ (kind_plain c)).
    done.
Qed.

(** The manager acts on one path only. *)
Lemma process_change_set exists_path lossy cs m : Forall reported cs →
  process_changeset exists_path lossy (change_set cs) m =
  (Ok tt, match read_path cs with Some p => dispatch exists_path lossy m p | None => m end).
Proof.
  intros Hr. destruct cs as [|c cs]; [done|]. unfold process_changeset.
  rewrite change_set_line by done. cbn [foldl]. unfold process_line.
  destruct (change_set_trimmed (c :: cs) Hr ltac:(done)) as [-> Hne].
  rewrite bool_decide_eq_false_2 by done. by rewrite change_set_words.
Qed.

Section repo.
Context {order : HashOrder} {Disk : Type}.
Context (mon : Monitor).

Record World := mkWorld { disk : Disk; state : RepoState; manager : Manager }.

(** The file system and git. *)
Context (path_exists : string → Disk → bool).
Context (remove_dir_all : string → Disk → res unit * Disk).
Context (rename_dir : string → string → Disk → res unit * Disk).
Context (git_clone : string → string → string → Disk → res unit * Disk).
Context (git_open : string → Disk → res unit).
Context (git_remote_url : string → string → Disk → option string).
Context (git_head_id : string → Disk → res string).
Context (git_fetch : string → string → Disk → res unit * Disk).
Context (git_find_reference : string → string → Disk → res string).
Context (git_checkout : string → string → Disk → res unit * Disk).
Context (git_diff : string → string → string → Disk → res (list Change)).
Context (sleep : Z → World → World).
(** The file system as the manager reads it. *)
Context (exists_path is_file : Disk → string → bool).
Context (read_dir : Disk → string → option (list (option string))).
Context (to_string_lossy : string → string).

Definition M : Type → Type := SR World.
#[global] Instance M_ret : MRet M := SR_ret.
#[global] Instance M_bind : MBind M := SR_bind.
Definition ask {A} (f : Disk → res A) : M A := λ w, (f (disk w), w).
Definition run {A} (f : Disk → res A * Disk) : M A := λ w,
  let '(r, d) := f (disk w) in (r, mkWorld d (state w) (manager w)).
Definition read_state {A} (f : RepoState → res A) : M A := λ w, (f (state w), w).
Definition set_state (s : RepoState) : M unit := λ w, (Ok tt, mkWorld (disk w) s (manager w)).

(** [PolicyRepoMonitor::new]: what is read of an existing clone. *)
Definition initial_state (d : Disk) : res RepoState :=
  let none := mkRepoState None None in
  if path_exists (destination mon) d then
    match git_open (destination mon) d with
    | Ok _ =>
        if bool_decide (git_remote_url (destination mon) (remote_name mon) d = Some (url mon)) then
          head ← git_head_id (destination mon) d;
          Ok (mkRepoState (Some head) (Some head))
        else Ok none
    | Err _ => Ok none
    | Panic s => Panic s
    end
  else Ok none.

(** [destination.with_extension("tmp")]; the last component is [data]. *)
Definition temp_dest : string := destination mon +:+ ".tmp".

Definition remove_if_there (p : string) : M unit :=
  there ← ask (λ d, Ok (path_exists p d));
  if there : bool then run (remove_dir_all p) else mret tt.

Definition clone_repo : M unit :=
  _ ← remove_if_there temp_dest;
  _ ← run (git_clone (url mon) (branch mon) temp_dest);
  _ ← remove_if_there (destination mon);
  _ ← run (rename_dir temp_dest (destination mon));
  _ ← ask (git_open (destination mon));
  head ← ask (git_head_id (destination mon));
  set_state (mkRepoState (Some head) None).

(** The first attempt and [n] more, five minutes apart. *)
Fixpoint clone_attempts (n : nat) : M unit := λ w,
  match clone_repo w with
  | (Err _, w') =>
      match n with
      | 0 => (bail "Failed to clone repo after retries", w')
      | S n => clone_attempts n (sleep 300 w')
      end
  | r => r
  end.
Definition ensure_clone : M unit := clone_attempts 3.

Definition get_update : M bool :=
  _ ← ask (λ d, with_context "Repo not initialized" (git_open (destination mon) d));
  _ ← run (git_fetch (destination mon) (remote_name mon));
  remote_id ← ask (git_find_reference (destination mon)
    ("refs/remotes/" +:+ remote_name mon +:+ "/" +:+ branch mon));
  head ← read_state (λ s, Ok (new_head s));
  if bool_decide (Some remote_id = head) then mret false
  else
    _ ← run (git_checkout (destination mon) remote_id);
    _ ← set_state (mkRepoState (Some remote_id) head);
    mret true.

Definition get_change_set : M string :=
  _ ← ask (λ d, with_context "Repo not initialized" (git_open (destination mon) d));
  old ← read_state (λ s, ok_or (old_head s) "Old head missing");
  new ← read_state (λ s, ok_or (new_head s) "New head missing");
  if bool_decide (old = new) then mret ""
  else
    changes ← ask (git_diff (destination mon) old new);
    mret (change_set changes).

Definition update_manager (f : Disk → Manager → res unit * Manager) (w : World) : World :=
  mkWorld (disk w) (state w) (snd (f (disk w) (manager w))).
Definition refresh_all : World → World := update_manager (λ d,
  force_update_all_vms (exists_path d) (is_file d) (read_dir d) to_string_lossy).
Definition apply_changes (changes : string) : World → World := update_manager (λ d,
  process_changeset (exists_path d) to_string_lossy changes).

(** The end of one round of [start]'s loop: the time to wait, or none when the
    task returns. *)
Definition after_success (w : World) : option Z * World :=
  if bool_decide (poll_interval mon = 0%Z) then (None, w) else (Some (poll_interval mon), w).
Definition after_error (wait : Z) (w : World) : option Z * World :=
  match ensure_clone w with
  | (Panic _, w') => (None, w')
  | (_, w') => (Some wait, refresh_all w')
  end.

Definition poll (wait : Z) (w : World) : option Z * World :=
  match get_update w with
  | (Ok true, w1) =>
      match get_change_set w1 with
      | (Ok changes, w2) =>
          after_success (if bool_decide (changes = "") then refresh_all w2 else apply_changes changes w2)
      | (Err _, w2) => after_error wait w2
      | (Panic _, w2) => (None, w2)
      end
  | (Ok false, w1) => after_success w1
  | (Err _, w1) => after_error wait w1
  | (Panic _, w1) => (None, w1)
  end.

#[local] Set Default Proof Using "Type".

(** ** Heads *)

Definition remote_ref : string := "refs/remotes/" +:+ remote_name mon +:+ "/" +:+ branch mon.

(** An update moves the heads to what the fetch brought. *)
Lemma get_update_true w w1 :
  get_update w = (Ok true, w1) →
  ∃ id, state w1 = mkRepoState (Some id) (new_head (state w)) ∧ new_head (state w) ≠ Some id ∧
    manager w1 = manager w.
Proof.
  unfold get_update. intros Hg.
  apply SR_bind_Ok in Hg as ([] & wa & [= _ <-] & Hg).
  apply SR_bind_Ok in Hg as ([] & wb & Hf & Hg).
  apply SR_bind_Ok in Hg as (id & wc & [= _ <-] & Hg).
  apply SR_bind_Ok in Hg as (h & wc & [= <- <-] & Hg).
  assert (state wb = state w ∧ manager wb = manager w) as [Hs Hm].
  { unfold run in Hf. destruct (git_fetch _ _ _). by injection Hf as _ <-. }
  case_bool_decide as Hh; [done|].
  apply SR_bind_Ok in Hg as ([] & wd & Hc & Hg).
  apply SR_bind_Ok in Hg as ([] & we & [= <-] & [= <-]).
  assert (manager wd = manager wb) as Hm'.
  { unfold run in Hc. destruct (git_checkout _ _ _). by injection Hc as _ <-. }
  exists id. cbn. rewrite <-Hs, Hm', Hm. split; [done|]. split; [congruence | done].
Qed.

Lemma get_update_same w id d :
  git_open (destination mon) (disk w) = Ok tt → new_head (state w) = Some id →
  git_fetch (destination mon) (remote_name mon) (disk w) = (Ok tt, d) →
  git_find_reference (destination mon) remote_ref d = Ok id →
  get_update w = (Ok false, mkWorld d (state w) (manager w)).
Proof.
  intros Ho Hh Hf Hr. unfold get_update, mbind, M_bind, SR_bind, ask, run, read_state.
  rewrite Ho. cbn. rewrite Hf. cbn. unfold remote_ref in Hr. rewrite Hr, Hh.
  by rewrite bool_decide_eq_true_2.
Qed.

Lemma get_change_set_diff w old new cs :
  git_open (destination mon) (disk w) = Ok tt → state w = mkRepoState (Some new) (Some old) →
  old ≠ new → git_diff (destination mon) old new (disk w) = Ok cs →
  get_change_set w = (Ok (change_set cs), w).
Proof.
  intros Ho Hs Hne Hd. unfold get_change_set, mbind, M_bind, SR_bind, ask, read_state.
  rewrite Ho, Hs. cbn. rewrite bool_decide_eq_false_2 by done. by rewrite Hd.
Qed.

Definition with_manager (m : Manager) (w : World) : World := mkWorld (disk w) (state w) m.

Lemma poll_update wait w w1 old new cs :
  get_update w = (Ok true, w1) → git_open (destination mon) (disk w1) = Ok tt →
  state w1 = mkRepoState (Some new) (Some old) → old ≠ new →
  git_diff (destination mon) old new (disk w1) = Ok cs → Forall reported cs → cs ≠ [] →
  poll wait w = after_success (with_manager
    (match read_path cs with
     | Some p => dispatch (exists_path (disk w1)) to_string_lossy (manager w1) p
     | None => manager w1
     end) w1).
Proof.
  intros Hu Ho Hs Hne Hd Hr Hcs. unfold poll. rewrite Hu.
  rewrite (get_change_set_diff w1 old new cs) by done.
  rewrite bool_decide_eq_false_2 by (by apply change_set_trimmed).
  unfold apply_changes, update_manager. by rewrite process_change_set.
Qed.
End repo.
Arguments World Disk : clear implicits.
Arguments M Disk A : clear implicits.
End Repo.

Module Urls.
Import Config Manager.

Definition CONFIG_FILE_NAME : string := "config.json".
Definition DEFAULT_POLL_INTERVAL : Z := 60.

(** A header that is present may have a value that is no text. *)
Record HeadResponse := mkHeadResponse {
  head_status : Z;
  etag : option (option string);
  last_modified : option (option string)
}.
Record GetResponse := mkGetResponse { get_status : Z; get_body : res string }.

Definition is_success (status : Z) : bool := ((200 <=? status) && (status <? 300))%Z.

Section urls.
Context {Disk : Type}.
(** The monitor's directories. *)
Context (config_file output_dir : string).

Record World := mkWorld { disk : Disk; config_state : PolicyConfig; manager : Manager }.

(** HTTP, the file system, JSON and SHA-256 in hexadecimal. *)
Context (http_head : string → Disk → res HeadResponse).
Context (http_get : string → Disk → res GetResponse).
Context (show_status : Z → string).
Context (sha256_hex : string → string).
Context (path_exists : string → Disk → bool).
Context (create_dir_all : string → Disk → res unit * Disk).
Context (read_file : string → Disk → res string).
Context (write_file : string → string → Disk → res unit * Disk).
Context (to_json : PolicyConfig → res string).
Context (from_json : string → res PolicyConfig).
Context (to_string_lossy : string → string).

(** A saved configuration takes precedence; a failure to save one is only
    logged. *)
Definition load_config (initial : PolicyConfig) (d : Disk) : res PolicyConfig * Disk :=
  if path_exists config_file d then
    ((content ← with_context ("Failed to load config from " +:+ config_file) (read_file config_file d);
      with_context ("Failed to parse config " +:+ config_file) (from_json content)), d)
  else
    match to_json initial with
    | Ok json => (Ok initial, snd (write_file config_file json d))
    | Err _ => (Ok initial, d)
    | Panic s => (Panic s, d)
    end.

(** [PolicyUrlMonitor::new] *)
Definition new (initial : PolicyConfig) (d : Disk) : res PolicyConfig * Disk :=
  let '(r, d) := create_dir_all output_dir d in
  match with_context ("Failed to create local policy directory " +:+ output_dir) r with
  | Ok _ => load_config initial d
  | Err e => (Err e, d)
  | Panic s => (Panic s, d)
  end.

(** The version of a resource that its headers name. *)
Definition remote_head (r : HeadResponse) : option string :=
  match etag r with
  | Some (Some s) => Some ("etag:" +:+ s)
  | _ => match last_modified r with
         | Some (Some s) => Some ("last-modified:" +:+ s)
         | _ => None
         end
  end.

Definition url_file_name (url : string) : string := default "policy.bin" (last (split "/"%char url)).

(** Step 4 of [poll_once] *)
Definition store (name url body : string) (d : Disk) : res string * Disk :=
  let file_name := url_file_name url in
  let policy_dir := path_join output_dir name in
  let '(r, d) := if path_exists policy_dir d then (Ok tt, d) else create_dir_all policy_dir d in
  match r with
  | Ok _ =>
      match write_file (path_join policy_dir file_name) body d with
      | (Ok _, d) => (Ok file_name, d)
      | (Err e, d) => (Err e, d)
      | (Panic s, d) => (Panic s, d)
      end
  | Err e => (Err e, d)
  | Panic s => (Panic s, d)
  end.

(** Steps 1 to 3: the new version and the body to store, if there is one. *)
Definition fetch (url current_head : string) (d : Disk) : res (option (string * string)) :=
  head_resp ← http_head url d;
  _ ← ensure (is_success (head_status head_resp))
        ("HEAD request failed with status: " +:+ show_status (head_status head_resp));
  let remote := remote_head head_resp in
  if bool_decide (remote = Some current_head) then Ok None
  else
    get_resp ← http_get url d;
    _ ← ensure (is_success (get_status get_resp))
          ("GET request failed with status: " +:+ show_status (get_status get_resp));
    body ← get_body get_resp;
    match remote with
    | Some h => Ok (Some (h, body))
    | None =>
        let hash := "sha256:" +:+ sha256_hex body in
        if bool_decide (hash = current_head) then Ok None else Ok (Some (hash, body))
    end.

Definition poll_once (name url current_head : string) (d : Disk)
    : res (option (string * string)) * Disk :=
  match fetch url current_head d with
  | Ok (Some (final_head, body)) =>
      let '(r, d) := store name url body d in
      ((file_name ← r; Ok (Some (final_head, file_name))), d)
  | Ok None => (Ok None, d)
  | Err e => (Err e, d)
  | Panic s => (Panic s, d)
  end.

Definition read_policy_config (name : string) (c : PolicyConfig)
    : res (string * string * list string * Z) :=
  policy ← ok_or (policies c !! name) ("Policy " +:+ name +:+ " not found in config");
  updater ← ok_or (per_policy_updater policy) ("Policy " +:+ name +:+ " has no updater");
  Ok (updater_url updater, default "" (head updater), vms policy,
      default DEFAULT_POLL_INTERVAL (updater_interval updater)).

Definition set_head (h : string) (p : PolicyConfigPolicy) (u : Updater) : PolicyConfigPolicy :=
  mkPolicyConfig (policy_url p) (vms p) (Some (mkUpdater (updater_url u) (Some h) (updater_interval u))).

(** The configuration changes in memory even when saving it fails. *)
Definition update_head (name new_head : string) (w : World) : res unit * World :=
  match policies (config_state w) !! name with
  | None => (bail ("Policy " +:+ name +:+ " not found in config"), w)
  | Some p =>
      match per_policy_updater p with
      | None => (bail ("Policy " +:+ name +:+ " has no updater in config"), w)
      | Some u =>
          let c := mkConfig (source (config_state w))
                     (<[name := set_head new_head p u]> (policies (config_state w))) in
          match with_context "Failed to serialize config for saving" (to_json c) with
          | Ok json =>
              let '(r, d) := write_file config_file json (disk w) in
              (with_context "Failed to write config" r, mkWorld d c (manager w))
          | Err e => (Err e, mkWorld (disk w) c (manager w))
          | Panic s => (Panic s, mkWorld (disk w) c (manager w))
          end
      end
  end.

(** The variables of [monitor_loop]. *)
Record Loop := mkLoop {
  loop_url : string;
  current_head : string;
  loop_vms : list string;
  interval : Z;
  wait_time : Z
}.

Definition start_loop (name : string) (w : World) : res (option Loop) :=
  '(url, head, vms, interval) ← read_policy_config name (config_state w);
  if bool_decide (url = "") then Ok None else Ok (Some (mkLoop url head vms interval 30)).

(** One round: the loop to go on with, or none when the task ends. *)
Definition loop_step (name : string) (l : Loop) (w : World) : option Loop * World :=
  let again head := if bool_decide (interval l = 0%Z) then None
    else Some (mkLoop (loop_url l) head (loop_vms l) (interval l) (interval l)) in
  match poll_once name (loop_url l) (current_head l) (disk w) with
  | (Ok (Some (new_head, file_name)), d) =>
      let full_path := path_join (path_join output_dir name) file_name in
      let m := foldl (λ m vm, snd (send_to_vm to_string_lossy vm name full_path m)) (manager w)
                 (loop_vms l) in
      (again new_head, snd (update_head name new_head (mkWorld d (config_state w) m)))
  | (Ok None, d) => (again (current_head l), mkWorld d (config_state w) (manager w))
  | (Err _, d) => (Some l, mkWorld d (config_state w) (manager w))
  | (Panic _, d) => (None, mkWorld d (config_state w) (manager w))
  end.

#[local] Set Default Proof Using "Type".

(** ** Settling *)





(** ** All monitors *)

(** [start]: one task per policy of the configuration; those that end at once
    leave none. *)
Record Monitors := mkMonitors { loops : gmap string Loop; world : World }.
Definition started (w : World) (name : string) : option (string * Loop) :=
  match start_loop name w with Ok (Some l) => Some (name, l) | _ => None end.
Definition start `{HashOrder} (w : World) : Monitors :=
  mkMonitors (list_to_map (filter_map (started w) (hash_keys (policies (config_state w))))) w.

(** The tasks share the configuration and the disk; rounds come in any order,
    and in between files change and workers empty their queues. *)
Inductive step : Monitors → Monitors → Prop :=
| step_round s name l l' w' :
    loops s !! name = Some l → loop_step name l (world s) = (l', w') →
    step s (mkMonitors (partial_alter (λ _, l') name (loops s)) w')
| step_other s d m : step s (mkMonitors (loops s) (mkWorld d (config_state (world s)) m)).

(** What a policy's entry says besides the version it is at. *)
Definition settings (p : PolicyConfigPolicy) : option string * list string * option (string * option Z) :=
  (policy_url p, vms p, (λ u, (updater_url u, updater_interval u)) <$> per_policy_updater p).
Definition agree (c : PolicyConfig) (name : string) (l : Loop) : Prop :=
  read_policy_config name c = Ok (loop_url l, current_head l, loop_vms l, interval l).

Lemma update_head_config name h w c' :
  config_state (snd (update_head name h w)) = c' →
  c' = config_state w ∧ (∀ x, read_policy_config name (config_state w) ≠ Ok x) ∨
  ∃ p u, policies (config_state w) !! name = Some p ∧ per_policy_updater p = Some u ∧
    c' = mkConfig (source (config_state w)) (<[name := set_head h p u]> (policies (config_state w))).
Proof.
  unfold update_head, read_policy_config. intros <-.
  destruct (policies (config_state w) !! name) as [p|] eqn:Ep; [|by left].
  destruct (per_policy_updater p) as [u|] eqn:Eu; [|left; split; [done|]; cbn; by rewrite Eu].
  right. exists p, u. split; [done|]. split; [done|].
  destruct (with_context _ _) as [json| |]; [|done..]. by destruct (write_file _ _ _).
Qed.

Lemma set_head_settings h p u : per_policy_updater p = Some u → settings (set_head h p u) = settings p.
Proof. intros E. unfold settings. rewrite E. done. Qed.

(** A round changes no entry but its own, and of that the version only. *)
Lemma loop_step_config name l w l' w' :
  agree (config_state w) name l → loop_step name l w = (l', w') →
  (∀ l'', l' = Some l'' → agree (config_state w') name l'') ∧
  (∀ n, n ≠ name → policies (config_state w') !! n = policies (config_state w) !! n) ∧
  (∀ n, settings <$> policies (config_state w') !! n = settings <$> policies (config_state w) !! n).
Proof.
  intros Hag. unfold loop_step.
  destruct (poll_once _ _ _ _) as [[[[h f]|]|e|x] d]; intros [= <- <-].
  - set (w1 := mkWorld d (config_state w) _).
    destruct (update_head_config name h w1 _ eq_refl) as [[_ Hno]|(p & u & Hp & Hu & ->)].
    { by destruct (Hno _ Hag). }
    cbn in Hp. unfold agree, read_policy_config in Hag. rewrite Hp in Hag. cbn in Hag. rewrite Hu in Hag.
    cbn in Hag. injection Hag as Hurl _ Hvms Hi. split; [|split].
    + intros l''. case_bool_decide; [done|]. intros [= <-]. unfold agree, read_policy_config.
      cbn. rewrite lookup_insert_eq. cbn. by rewrite Hurl, Hvms, Hi.
    + intros n Hn. cbn. by rewrite lookup_insert_ne.
    + intros n. cbn. destruct (decide (n = name)) as [->|Hn]; [|by rewrite lookup_insert_ne].
      rewrite lookup_insert_eq, Hp. cbn. by rewrite set_head_settings.
  - split; [|by split]. intros l''. case_bool_decide; [done|]. intros [= <-]. exact Hag.
  - split; [|by split]. by intros l'' [= <-].
  - by split.
Qed.

Lemma start_agree `{HashOrder} w name l : loops (start w) !! name = Some l → agree (config_state w) name l.
Proof.
  intros Hl%elem_of_list_to_map_2. apply elem_of_filter_map in Hl as (n & _ & Hn).
  unfold started, start_loop in Hn. destruct (read_policy_config n (config_state w)) as [[[[url h] v] i]| |] eqn:E;
    cbn in Hn; [|done..]. case_bool_decide; [done|]. injection Hn as <- <-. exact E.
Qed.

Lemma steps_agree `{HashOrder} w s : rtc step (start w) s →
  (∀ n l, loops s !! n = Some l → agree (config_state (world s)) n l) ∧
  (∀ n, settings <$> policies (config_state (world s)) !! n = settings <$> policies (config_state w) !! n).
Proof.
  revert s. apply (rtc_ind_r (λ s,
    (∀ n l, loops s !! n = Some l → agree (config_state (world s)) n l) ∧
    (∀ n, settings <$> policies (config_state (world s)) !! n = settings <$> policies (config_state w) !! n))
    (start w)).
  - split; [by apply start_agree | done].
  - intros s s' _ Hstep [Ha Hset]. destruct Hstep as [s name l l' w' Hl Hr|s d m]; [|by split].
    destruct (loop_step_config _ _ _ _ _ (Ha _ _ Hl) Hr) as (Hn & Hne & Hst). split; cbn.
    + intros n ln. destruct (decide (n = name)) as [->|Hnn].
      * rewrite lookup_partial_alter_eq. apply Hn.
      * rewrite lookup_partial_alter_ne by done. intros Hln. unfold agree, read_policy_config.
        rewrite Hne by done. by apply Ha.
    + intros n. by rewrite Hst.
Qed.
End urls.
Arguments World Disk : clear implicits.
End Urls.

Module Admin.
Import Config.

(** The monitor that [run_policy_admin] starts. *)
Inductive Started :=
| NoMonitor
| RepoMonitor (mon : Repo.Monitor) (st : Repo.RepoState)
| UrlMonitor (config : PolicyConfig).

Section admin.
Context {order : HashOrder}.
(** JSON; the state of an existing clone and the URL monitor's configuration
    as [Repo.initial_state] and [Urls.load_config] give them. *)
Context (from_json : string → res PolicyConfig).
Context (repo_state : Repo.Monitor → res Repo.RepoState).
Context (url_config : string → PolicyConfig → res PolicyConfig).

Definition run_policy_admin (policy_store policy_config : option string)
    : res (Manager.Manager * Started) :=
  let policy_root := default "/etc/policies" policy_store in
  config ← from_json (default "{}" policy_config);
  let policy_path := path_join (path_join policy_root "data") "vm-policies" in
  let manager := Manager.new policy_path config in
  match kind (source config) with
  | GitUrl =>
      let mon := Repo.new_monitor policy_root config in
      st ← repo_state mon;
      Ok (manager, RepoMonitor mon st)
  | PerPolicy =>
      c ← url_config policy_root config;
      Ok (manager, UrlMonitor c)
  | NoSource => Ok (manager, NoMonitor)
  end.
End admin.
End Admin.

(** ** Properties *)

Module PolicyProps.
Import Config Manager.

(** A full refresh sends every VM its policies and nothing else: a new
    manager has a worker for exactly the VMs that some policy names; refreshing
    one VM appends to its queue, and to no other, its share; refreshing all
    appends each VM its own share; and that share is exactly the files in the
    directories of the policies whose configuration lists the VM. *)
Theorem policies_reach_subscribers `{HashOrder} exists_path is_file read_dir lossy :
  (∀ dir c vm, is_Some (workers (new dir c) !! vm) ↔ ∃ n p, policies c !! n = Some p ∧ vm ∈ vms p) ∧
  (∀ m vm, awake m vm →
     send_all_policies exists_path is_file read_dir lossy vm m =
     (Ok tt, extended m vm (policies_for exists_path is_file read_dir lossy m vm))) ∧
  (∀ m vm w, (∀ k, is_Some (workers m !! k) → awake m k) → workers m !! vm = Some w →
     workers (snd (force_update_all_vms exists_path is_file read_dir lossy m)) !! vm =
     Some (mkWorker true (queue w ++ policies_for exists_path is_file read_dir lossy m vm))) ∧
  (∀ m vm pol, pol ∈ policies_for exists_path is_file read_dir lossy m vm ↔
     ∃ p path, policies (configs m) !! policy_name pol = Some p ∧ vm ∈ vms p ∧
       exists_path (path_join (policy_dir m) (policy_name pol)) = true ∧
       path ∈ policy_files is_file read_dir (path_join (policy_dir m) (policy_name pol)) ∧
       file pol = lossy path).
Proof.
  split; [|split; [|split]].
  - intros dir c vm. destruct (new_workers dir c vm) as [[-> He]|[-> He]].
    + split; [done | by eexists].
    + split; [by intros [? [=]] | done].
  - intros m vm. apply send_all_policies_awake.
  - intros m vm w. apply force_update_lookup.
  - apply elem_of_policies_for.
Qed.

(** What a round of the repository monitor distributes. When the round
    finds a new commit and the diff reports changes to files with visible
    names, the manager looks at one path only: for a single change that file,
    for two or more the first file's path with the letter of the second change
    stuck to it, since nothing separates the entries of the change set. The
    heads have moved all the same: the next round, the branch being where it
    was, finds nothing to do. *)
Theorem repo_round_one_path `{HashOrder} {Disk} mon path_exists remove_dir_all rename_dir git_clone
    git_open git_head_id git_fetch git_find_reference git_checkout git_diff sleep
    exists_path is_file read_dir lossy wait (w w1 : Repo.World Disk) old new cs :
  Repo.get_update mon git_open git_fetch git_find_reference git_checkout w = (Ok true, w1) →
  git_open (Repo.destination mon) (Repo.disk w1) = Ok tt →
  Repo.new_head (Repo.state w) = Some old → Repo.new_head (Repo.state w1) = Some new →
  git_diff (Repo.destination mon) old new (Repo.disk w1) = Ok cs →
  Forall Repo.reported cs → cs ≠ [] →
  let w2 := Repo.with_manager
    (match cs with
     | [] => Repo.manager w
     | [c] => dispatch (exists_path (Repo.disk w1)) lossy (Repo.manager w) (Repo.location c)
     | c :: d :: _ => dispatch (exists_path (Repo.disk w1)) lossy (Repo.manager w)
                        (Repo.location c +:+ Repo.kind_text d)
     end) w1 in
  Repo.poll mon path_exists remove_dir_all rename_dir git_clone git_open git_head_id git_fetch
    git_find_reference git_checkout git_diff sleep exists_path is_file read_dir lossy wait w =
  Repo.after_success mon w2 ∧
  ∀ d, git_fetch (Repo.destination mon) (Repo.remote_name mon) (Repo.disk w2) = (Ok tt, d) →
    git_find_reference (Repo.destination mon) (Repo.remote_ref mon) d = Ok new →
    Repo.get_update mon git_open git_fetch git_find_reference git_checkout w2 =
      (Ok false, Repo.mkWorld d (Repo.state w2) (Repo.manager w2)).
Proof.
  intros Hu Ho Hold Hnew Hd Hr Hne. destruct (Repo.get_update_true _ _ _ _ _ _ _ Hu) as (i & Hs & Hi & Hm).
  assert (i = new) as -> by (rewrite Hs in Hnew; by injection Hnew).
  rewrite Hold in Hs, Hi. split.
  - rewrite (Repo.poll_update mon path_exists remove_dir_all rename_dir git_clone git_open git_head_id
      git_fetch git_find_reference git_checkout git_diff sleep exists_path is_file read_dir lossy
      wait w w1 old new cs); try done; [|congruence].
    rewrite Hm. by destruct cs as [|c [|d cs]].
  - intros d Hf Href. by apply (Repo.get_update_same _ _ _ _ _ _ new).
Qed.



(** C18: The URL monitors do not disturb one another: they are started for the
    policies that have an address, and however their rounds interleave, each
    goes on with exactly what the shared configuration says of its policy - the
    version it fetched last, the address, VMs and interval it was started with -
    and no entry of the configuration ever changes in anything but the version. *)
Theorem url_monitors_agree `{HashOrder} {Disk} config_file output_dir
    (http_head : string → Disk → res Urls.HeadResponse) http_get show_status sha256_hex
    path_exists create_dir_all write_file to_json lossy (w : Urls.World Disk) s :
  rtc (Urls.step config_file output_dir http_head http_get show_status sha256_hex path_exists
         create_dir_all write_file to_json lossy) (Urls.start w) s →
  (∀ name l, Urls.loops s !! name = Some l →
     Urls.read_policy_config name (Urls.config_state (Urls.world s)) =
       Ok (Urls.loop_url l, Urls.current_head l, Urls.loop_vms l, Urls.interval l)) ∧
  (∀ name, Urls.settings <$> policies (Urls.config_state (Urls.world s)) !! name =
     Urls.settings <$> policies (Urls.config_state w) !! name).
Proof. apply Urls.steps_agree. Qed.

(** ** Concrete monitors *)

Definition ex_config (head : option string) : PolicyConfig :=
  mkConfig (mkSource GitUrl (Some "https://host/policies") None None)
    (<["a" := mkPolicyConfig None ["net-vm"] (Some (mkUpdater "https://host/a.json" head None))]>
     (<["b" := mkPolicyConfig None ["net-vm"] None]> ∅)).
Definition ex_manager : Manager :=
  new (order := map_to_list_order) "/etc/policies/data/vm-policies" (ex_config None).
Definition ex_monitor : Repo.Monitor := Repo.new_monitor "/etc/policies" (ex_config None).
Definition ex_repo (head : string) : Repo.World unit :=
  Repo.mkWorld tt (Repo.mkRepoState (Some head) (Some head)) ex_manager.
(** One commit changes a file of each policy. *)
Definition ex_changes : list Repo.Change :=
  [Repo.Modification "vm-policies/a/rules.json"; Repo.Modification "vm-policies/b/rules.json"].
Definition ex_exists (d : unit) (p : string) : bool :=
  bool_decide (p ∈ ["/etc/policies/data/vm-policies/a/rules.json";
                    "/etc/policies/data/vm-policies/b/rules.json"]).

(** A commit that changes two policy files reaches no VM. *)
Lemma repo_round_one_path_witness :
  ∃ w2, Repo.poll (order := map_to_list_order) ex_monitor (λ _ _, true) (λ _ d, (Ok tt, d))
    (λ _ _ d, (Ok tt, d)) (λ _ _ _ d, (Ok tt, d)) (λ _ _, Ok tt) (λ _ _, Ok "2")
    (λ _ _ d, (Ok tt, d)) (λ _ _ _, Ok "2") (λ _ _ d, (Ok tt, d)) (λ _ _ _ _, Ok ex_changes)
    (λ _ w, w) ex_exists (λ _ _, true) (λ _ _, None) (λ s, s) 30 (ex_repo "1") = (Some 300%Z, w2) ∧
  Repo.manager w2 = ex_manager.
Proof.
  destruct (@repo_round_one_path map_to_list_order unit ex_monitor (λ _ _, true) (λ _ d, (Ok tt, d))
    (λ _ _ d, (Ok tt, d)) (λ _ _ _ d, (Ok tt, d)) (λ _ _, Ok tt) (λ _ _, Ok "2")
    (λ _ _ d, (Ok tt, d)) (λ _ _ _, Ok "2") (λ _ _ d, (Ok tt, d)) (λ _ _ _ _, Ok ex_changes)
    (λ _ w, w) ex_exists (λ _ _, true) (λ _ _, None) (λ s, s) 30 (ex_repo "1")
    (Repo.mkWorld tt (Repo.mkRepoState (Some "2") (Some "1")) ex_manager) "1" "2" ex_changes)
    as [Hp _].
  - reflexivity.
  - reflexivity.
  - reflexivity.
  - reflexivity.
  - reflexivity.
  - repeat constructor; discriminate.
  - discriminate.
  - eexists. split; [exact Hp|]. vm_compute. reflexivity.
Defined.

Definition ex_write (p c : string) (d : gmap string string) : res unit * gmap string string :=
  (Ok tt, <[p := c]> d).
Definition ex_path_exists (p : string) (d : gmap string string) : bool := bool_decide (is_Some (d !! p)).

(** Two monitors take a round each: one finds a new version, one finds nothing. *)
Definition ex_urls : PolicyConfig :=
  mkConfig (mkSource PerPolicy None None None)
    (<["a" := mkPolicyConfig None ["net-vm"] (Some (mkUpdater "https://host/a.json" None (Some 5%Z)))]>
     (<["b" := mkPolicyConfig None ["gui-vm"] (Some (mkUpdater "https://host/b.json" (Some "etag:b") None))]> ∅)).
Definition ex_head (url : string) (_ : gmap string string) : res Urls.HeadResponse :=
  Ok (Urls.mkHeadResponse 200 (Some (Some (if ends_with "a.json" url then "2" else "b"))) None).
Definition ex_get (url : string) (_ : gmap string string) : res Urls.GetResponse :=
  Ok (Urls.mkGetResponse 200 (Ok "policy")).
Definition ex_urls_world : Urls.World (gmap string string) :=
  Urls.mkWorld ∅ ex_urls (new (order := map_to_list_order) "out" ex_urls).
Abbreviation ex_step := (Urls.step "config.json" "out" ex_head ex_get (λ _, "") (λ s, s) ex_path_exists
  (λ _ d, (Ok tt, d)) ex_write (λ _, Ok "saved") (λ s, s)).
Definition ex_round (name : string) (s : Urls.Monitors) : Urls.Monitors :=
  match Urls.loops s !! name with
  | Some l =>
      let '(l', w') := Urls.loop_step "config.json" "out" ex_head ex_get (λ _, "") (λ s, s) ex_path_exists
        (λ _ d, (Ok tt, d)) ex_write (λ _, Ok "saved") (λ s, s) name l (Urls.world s) in
      Urls.mkMonitors (partial_alter (λ _, l') name (Urls.loops s)) w'
  | None => s
  end.
Lemma ex_round_step name s : rtc ex_step s (ex_round name s).
Proof.
  unfold ex_round. destruct (Urls.loops s !! name) as [l|] eqn:El; [|apply rtc_refl].
  destruct (Urls.loop_step _ _ _ _ _ _ _ _ _ _ _ name l (Urls.world s)) as [l' w'] eqn:Er.
  apply rtc_once. by eapply Urls.step_round.
Qed.
Definition ex_monitors : Urls.Monitors :=
  ex_round "b" (ex_round "a" (Urls.start (H := map_to_list_order) ex_urls_world)).

Lemma url_monitors_agree_witness :
  Urls.read_policy_config "a" (Urls.config_state (Urls.world ex_monitors)) =
    Ok ("https://host/a.json", "etag:2", ["net-vm"], 5%Z).
Proof.
  destruct (@url_monitors_agree map_to_list_order (gmap string string) "config.json" "out" ex_head ex_get (λ _, "")
    (λ s, s) ex_path_exists (λ _ d, (Ok tt, d)) ex_write (λ _, Ok "saved") (λ s, s) ex_urls_world ex_monitors)
    as [Ha _].
  - etrans; apply ex_round_step.
  - rewrite (Ha "a" (Urls.mkLoop "https://host/a.json" "etag:2" ["net-vm"] 5 5)); vm_compute; reflexivity.
Defined.

End PolicyProps.
