(* ===== verification/OciTypes.v ===== *)
(** * References, media types and progress of the update registry
    ([registry/types.rs], [registry/media_type.rs], [registry/progress.rs],
    the data of [registry/oras.rs] and [registry/mod.rs])

    The reference type of the OCI client library is the class [OciReference]:
    its accessors, its printer and its parser. *)

From S2P Require Import Prelude RustStr RustInt CommonTypes.
From Stdlib Require Import Ascii.
From stdpp Require Import sorting.

(** [oci_client::Reference] *)
Class OciReference := {
  Reference : Type;
  parse_ref : string → res Reference;
  ref_to_string : Reference → string;
  resolve_registry : Reference → string;
  repository : Reference → string;
  ref_tag : Reference → option string;
  ref_digest : Reference → option string
}.

Module Oci.

(** ** Media types *)

Inductive MediaType := Manifest | Uki | Root | Verity | Changelog.
#[global] Instance MediaType_eq_dec : EqDecision MediaType.
Proof. solve_decision. Defined.

(** [MediaType::as_ref], also its [Display]. *)
Definition media_type_str (t : MediaType) : string :=
  match t with
  | Manifest => "application/vnd.ghaf.ota.manifest.v1+json"
  | Uki => "application/vnd.ghaf.ota.uki.v1+efi"
  | Root => "application/vnd.ghaf.ota.root.v1+raw"
  | Verity => "application/vnd.ghaf.ota.verity.v1+raw"
  | Changelog => "application/vnd.ghaf.ota.changelog.v1+plain"
  end.
#[global] Program Instance media_type_enum : StrEnum MediaType :=
  {| variants := [Manifest; Uki; Root; Verity; Changelog]; to_str := media_type_str |}.
Next Obligation. intros []; set_solver. Qed.
Next Obligation. by intros [] [] ?. Qed.

(** ** Credentials *)

Inductive RegistryCredentials :=
| Anonymous
| Basic (username password : string)
| Bearer (token : string).

(** [oci_client::secrets::RegistryAuth] *)
Inductive RegistryAuth := AuthAnonymous | AuthBasic (u p : string) | AuthBearer (t : string).
Definition to_registry_auth (c : RegistryCredentials) : RegistryAuth :=
  match c with
  | Anonymous => AuthAnonymous
  | Basic u p => AuthBasic u p
  | Bearer t => AuthBearer t
  end.

(** ** Descriptors *)

Record BlobDescriptor := mkBlob {
  blob_digest : string;
  blob_media_type : string;
  blob_size : Z;                                 (* i64 *)
  blob_annotations : option (gmap string string)
}.
#[global] Instance BlobDescriptor_eq_dec : EqDecision BlobDescriptor.
Proof. solve_decision. Defined.

Record RemoteImage := mkRemote {
  image_repository : string;
  image_tag : string;
  manifest_digest : string;
  config_json : string;
  config : BlobDescriptor;
  layers : list BlobDescriptor
}.

Record LayerInput := mkLayerInput {
  layer_path : string;
  layer_media_type : MediaType;
  layer_annotations : option (gmap string string)
}.

(** ** Events *)

Inductive RegistryEvent :=
| DiscoverStarted (reference : string) (total : nat)
| TagDiscovered (repository tag : string) (current total : nat)
| ManifestFetched (repository tag : string) (current total : nat)
| PullStarted (reference destination : string)
| BlobDownloading (digest : string) (downloaded : Z) (total : option Z)
| BlobVerified (digest : string)
| ManifestWritten (path : string)
| ChangelogFetched (bytes : nat)
| InstallStarted (manifest : string)
| PushStarted (reference : string) (layers : nat)
| LayerUploading (kind : MediaType) (uploaded : Z) (total : option Z)
| LayerUploaded (kind : MediaType) (digest : string)
| ManifestPushed (reference manifest_url digest : string)
| Cancelled (stage : string)
| Done.

(** ** References *)

Section references.
Context `{OciReference}.

Record UntaggedReference := mkUntagged { untagged : Reference }.
Record TaggedReference := mkTagged { tagged : Reference }.

Definition repository_path (r : Reference) : string :=
  resolve_registry r +:+ "/" +:+ repository r.

Definition parse_untagged (input : string) : res UntaggedReference :=
  r ← with_context ("invalid OCI reference: " +:+ input) (parse_ref input);
  _ ← ensure (match ref_tag r with None => true | Some t => bool_decide (t = "latest") end)
        ("reference for discover must not include tag: " +:+ input);
  _ ← ensure (bool_decide (ref_digest r = None))
        ("reference for discover must not include digest: " +:+ input);
  Ok (mkUntagged r).

Definition parse_tagged (input : string) : res TaggedReference :=
  r ← with_context ("invalid OCI reference: " +:+ input) (parse_ref input);
  _ ← ensure (negb (bool_decide (ref_tag r = None)) || negb (bool_decide (ref_digest r = None)))
        ("reference must include tag or digest: " +:+ input);
  Ok (mkTagged r).

Definition for_tag (u : UntaggedReference) (tag : string) : res TaggedReference :=
  with_context ("invalid tag reference generated from " +:+ tag)
    (parse_tagged (repository_path (untagged u) +:+ ":" +:+ tag)).

(** [tag().or(digest())] *)
Definition tag_or (r : Reference) : option string :=
  match ref_tag r with Some t => Some t | None => ref_digest r end.
Definition tag_or_digest (t : TaggedReference) : res string :=
  match tag_or (tagged t) with
  | Some rv => Ok rv
  | None => Panic "internal error: entered unreachable code"
  end.

(** [RefTagPolicy] and the functions of [oras.rs] on plain references. *)
Inductive RefTagPolicy := ForbidTag | RequireTag.
Definition parse_reference (input : string) (policy : RefTagPolicy) : res Reference :=
  r ← with_context ("invalid OCI reference: " +:+ input) (parse_ref input);
  _ ← match policy with
      | ForbidTag =>
          ensure (bool_decide (ref_tag r = None) && bool_decide (ref_digest r = None))
            ("reference for discover must not include tag or digest: " +:+ input)
      | RequireTag =>
          ensure (negb (bool_decide (ref_tag r = None)) || negb (bool_decide (ref_digest r = None)))
            ("reference must include tag or digest: " +:+ input)
      end;
  Ok r.
Definition reference_for_tag (base : Reference) (tag : string) : res Reference :=
  with_context ("invalid tag reference generated from " +:+ tag)
    (parse_ref (repository_path base +:+ ":" +:+ tag)).

(** A tagged reference that was parsed has a tag or a digest. *)
Lemma parse_tagged_total input t :
  parse_tagged input = Ok t → ∃ v, tag_or_digest t = Ok v.
Proof.
  unfold parse_tagged, tag_or_digest, tag_or. intros Hp. res_simp. cbn.
  destruct (ref_tag _); [by eexists|]. destruct (ref_digest _); [by eexists|]. done.
Qed.

Lemma for_tag_total u tag t : for_tag u tag = Ok t → ∃ v, tag_or_digest t = Ok v.
Proof. unfold for_tag. intros Hp%with_context_Ok. by eapply parse_tagged_total. Qed.
End references.
Arguments UntaggedReference {_}.
Arguments TaggedReference {_}.

(** ** Progress reports *)

Definition PROGRESS_EVENT_STEP : Z := 10 * 1024 * 1024.

Record ProgressReporter := mkReporter { next_report_at : Z; step : Z }.
Definition new_reporter (step : Z) : ProgressReporter := mkReporter step step.

(** [u64] addition and [next_multiple_of] with overflow checks. *)
Definition add_u64 (a b : Z) : res Z :=
  if (a + b <=? u64_max)%Z then Ok (a + b)%Z else Panic "attempt to add with overflow".
Definition next_multiple_of (a b : Z) : res Z :=
  if (b =? 0)%Z then Panic "attempt to calculate the remainder with a divisor of zero"
  else
    let r := (a mod b)%Z in
    if (r =? 0)%Z then Ok a else add_u64 a (b - r).

Definition progress (p : ProgressReporter) (current : Z) : res (option Z * ProgressReporter) :=
  if (next_report_at p <=? current)%Z then
    c ← add_u64 current 1;
    n ← next_multiple_of c (step p);
    Ok (Some (n - step p)%Z, mkReporter n (step p))
  else Ok (None, p).

(** [emit_due] with [saturating_add]: one report per step that was passed. *)
Fixpoint emit_due (fuel : nat) (p : ProgressReporter) (current : Z) : option (list Z * ProgressReporter) :=
  if (next_report_at p <=? current)%Z then
    match fuel with
    | 0 => None
    | S fuel =>
        '(l, p') ← emit_due fuel
          (mkReporter (Z.min u64_max (next_report_at p + step p)) (step p)) current;
        Some (next_report_at p :: l, p')
    end
  else Some ([], p).

(** The reports on a sequence of chunk sizes, as the loops of [oras.rs] make
    them: the running total after each chunk is shown to the reporter. *)
Fixpoint reports (p : ProgressReporter) (total : Z) (sizes : list Z) : res (list Z) :=
  match sizes with
  | [] => Ok []
  | n :: sizes =>
      total ← add_u64 total n;
      '(r, p) ← progress p total;
      rest ← reports p total sizes;
      Ok (option_list r ++ rest)
  end.

(** The same by a definition without state: each total rounded down to a
    multiple of the step, when that is more than the last one reported. *)
Fixpoint milestones (step last total : Z) (sizes : list Z) : list Z :=
  match sizes with
  | [] => []
  | n :: sizes =>
      let total := (total + n)%Z in
      let m := (step * (total / step))%Z in
      if (last <? m)%Z then m :: milestones step m total sizes
      else milestones step last total sizes
  end.

Lemma progress_step p current k :
  (0 < step p)%Z → next_report_at p = (step p * (k + 1))%Z → (step p * k <= current)%Z →
  (current + step p <= u64_max)%Z →
  progress p current =
    let m := (step p * (current / step p))%Z in
    if (step p * k <? m)%Z then Ok (Some m, mkReporter (m + step p) (step p)) else Ok (None, p).
Proof.
  intros Hs Hn Hk Hmax. unfold progress. cbn zeta. set (s := step p) in *.
  pose proof (Z.div_mod current s ltac:(lia)) as Hdm.
  pose proof (Z.mod_pos_bound current s Hs) as Hmb.
  set (q := (current / s)%Z) in *. set (r := (current mod s)%Z) in *.
  rewrite Hn. destruct (Z.leb_spec (s * (k + 1)) current) as [Hle|Hgt].
  - assert (k < q)%Z as Hkq by nia.
    destruct (Z.ltb_spec (s * k) (s * q)); [|nia].
    unfold add_u64 at 1. destruct (Z.leb_spec (current + 1) u64_max); [|lia]. cbn.
    unfold next_multiple_of. destruct (Z.eqb_spec s 0); [lia|].
    destruct (Z.eq_dec r (s - 1)%Z) as [Hr|Hr].
    + assert ((current + 1) mod s = 0)%Z as ->.
      { replace (current + 1)%Z with ((q + 1) * s)%Z by nia. by apply Z.mod_mul. }
      cbn. f_equal. f_equal; [f_equal; nia | f_equal; nia].
    + assert ((current + 1) mod s = r + 1)%Z as ->.
      { replace (current + 1)%Z with (r + 1 + q * s)%Z by nia.
        rewrite Z.mod_add by lia. apply Z.mod_small. lia. }
      destruct (Z.eqb_spec (r + 1) 0); [lia|]. unfold add_u64.
      destruct (Z.leb_spec (current + 1 + (s - (r + 1))) u64_max); [|lia]. cbn.
      f_equal. f_equal; [f_equal; nia | f_equal; nia].
  - assert (q <= k)%Z as Hkq by nia. by destruct (Z.ltb_spec (s * k) (s * q)); [nia|].
Qed.

Lemma reports_milestones s sizes : (0 < s)%Z → ∀ p total k,
  step p = s → next_report_at p = (s * (k + 1))%Z → (s * k <= total)%Z →
  Forall (λ n, 0 <= n)%Z sizes → (total + foldr Z.add 0 sizes + s <= u64_max)%Z →
  reports p total sizes = Ok (milestones s (s * k) total sizes).
Proof.
  intros Hs. induction sizes as [|n sizes IH]; intros p total k Hp Hn Hk Hpos Hmax; [done|].
  apply Forall_cons in Hpos as [Hn0 Hpos]. cbn [reports milestones foldr] in *.
  assert (0 <= foldr Z.add 0 sizes)%Z as Hsum.
  { clear -Hpos. induction Hpos; cbn; lia. }
  unfold add_u64 at 1. destruct (Z.leb_spec (total + n) u64_max); [|lia]. cbn [mbind res_bind].
  rewrite (progress_step p (total + n) k) by (subst s; lia). rewrite Hp. cbn zeta.
  set (t := (total + n)%Z) in *.
  pose proof (Z.mul_div_le t s Hs) as Hle.
  destruct (Z.ltb_spec (s * k) (s * (t / s))) as [Hlt|Hge]; cbn [mbind res_bind].
  - rewrite (IH (mkReporter (s * (t / s) + s) s) t (t / s)%Z); [done|done|cbn; lia|lia|done|lia].
  - rewrite (IH p t k); [done|done|done|lia|done|lia].
Qed.

(** Reports rise strictly, are multiples of the step and never run ahead. *)
Lemma milestones_sound s sizes : (0 < s)%Z → ∀ last total,
  Forall (λ n, 0 <= n)%Z sizes →
  Sorted Z.lt (last :: milestones s last total sizes) ∧
  Forall (λ m, (s | m) ∧ last < m <= total + foldr Z.add 0 sizes)%Z (milestones s last total sizes).
Proof.
  intros Hs. induction sizes as [|n sizes IH]; intros last total Hpos; cbn.
  { split; repeat constructor. }
  apply Forall_cons in Hpos as [Hn0 Hpos].
  assert (0 <= foldr Z.add 0 sizes)%Z as Hsum by (clear -Hpos; induction Hpos; cbn; lia).
  set (t := (total + n)%Z). pose proof (Z.mul_div_le t s Hs) as Hle.
  destruct (Z.ltb_spec last (s * (t / s))) as [Hlt|Hge].
  - destruct (IH (s * (t / s))%Z t Hpos) as [Hso Hfa]. split.
    + constructor; [done|]. by constructor.
    + constructor; [split; [by apply Z.divide_factor_l|]; unfold t in *; lia|].
      eapply Forall_impl; [exact Hfa|]. intros m [? ?]. split; [done|]. unfold t in *. lia.
  - destruct (IH last t Hpos) as [Hso Hfa]. split; [done|].
    eapply Forall_impl; [exact Hfa|]. intros m [? ?]. split; [done|]. unfold t in *. lia.
Qed.
End Oci.

(** ** Properties *)

Module OciTypesProps.
Import Oci.

(** C33: Progress reporting agrees with its stateless definition: over chunks
    whose total stays a step below the [u64] range, the reporter never
    overflows and reports exactly the totals rounded down to the step whenever
    that exceeds the last report; the reports rise strictly, are multiples of
    the step and never exceed what was transferred. *)
Theorem progress_reports_milestones sizes :
  Forall (λ n, 0 <= n)%Z sizes →
  (foldr Z.add 0 sizes + PROGRESS_EVENT_STEP <= u64_max)%Z →
  reports (new_reporter PROGRESS_EVENT_STEP) 0 sizes =
    Ok (milestones PROGRESS_EVENT_STEP 0 0 sizes) ∧
  Sorted Z.lt (milestones PROGRESS_EVENT_STEP 0 0 sizes) ∧
  Forall (λ m, (PROGRESS_EVENT_STEP | m) ∧ 0 < m <= foldr Z.add 0 sizes)%Z
    (milestones PROGRESS_EVENT_STEP 0 0 sizes).
Proof.
  intros Hpos Hmax. split.
  - exact (reports_milestones PROGRESS_EVENT_STEP sizes eq_refl (new_reporter PROGRESS_EVENT_STEP) 0 0
      eq_refl eq_refl ltac:(done) Hpos Hmax).
  - destruct (milestones_sound PROGRESS_EVENT_STEP sizes eq_refl 0 0 Hpos) as [Hs Hf].
    split; [by inversion Hs | done].
Qed.

Lemma progress_reports_milestones_witness :
  reports (new_reporter PROGRESS_EVENT_STEP) 0 [10485759; 1; 10485767]%Z = Ok [10485760; 20971520]%Z.
Proof.
  refine (eq_trans (proj1 (progress_reports_milestones [10485759; 1; 10485767]%Z _ _)) _).
  - repeat constructor; discriminate.
  - vm_compute; discriminate.
  - vm_compute; reflexivity.
Defined.
End OciTypesProps.
