(* ===== verification/OciTransfer.v ===== *)
(** * Transfers of the update registry ([registry/oras.rs])

    The OCI client library is the class [OciClient]: what each of its requests
    answers, after how many milliseconds.  Asynchronous code is a computation
    in a world with a clock: an [await] that lasts longer than the token or a
    deadline allows drops the future it is part of ([until]), as [select!] and
    [timeout] do.  The disk is a map of paths to contents together with every
    content it ever had, so that theorems can speak of a crash at any point;
    system calls fail as the class [Os] says. *)

From S2P Require Import Prelude RustStr RustInt RustPath CommonTypes OciTypes.
From Stdlib Require Import Ascii.

(** ** The client library *)

Record OciDescriptor := mkDescriptor {
  desc_media_type : string;
  desc_digest : string;
  desc_size : Z;                                   (* i64 *)
  desc_annotations : option (gmap string string);
  desc_urls : option (list string)
}.

Record OciImageManifest := mkOciManifest {
  schema_version : Z;
  oci_media_type : option string;
  oci_config : OciDescriptor;
  oci_layers : list OciDescriptor;
  oci_subject : option OciDescriptor;
  oci_artifact_type : option string;
  oci_annotations : option (gmap string string)
}.

Inductive ClientProtocol := Http | Https | HttpsExcept (hosts : list string).
Record ClientConfig := mkConfig { protocol : ClientProtocol; use_monolithic_push : bool }.
Inductive RegistryOperation := PullOp | PushOp.

(** A blob's stream: each item with the time it takes to arrive, and the time
    until the end is known. *)
Record BlobStream := mkStream {
  content_length : option Z;
  stream_items : list (nat * res string);
  stream_end : nat
}.

(** A request on a registry in state [Net] takes some milliseconds. *)
Class OciClient `{OciReference} := {
  Net : Type;
  client_list_tags : ClientConfig → Reference → Oci.RegistryAuth →
    Net → (nat * res (list string)) * Net;
  client_auth : ClientConfig → Reference → Oci.RegistryAuth → RegistryOperation →
    Net → (nat * res unit) * Net;
  pull_manifest_and_config : ClientConfig → Reference → Oci.RegistryAuth →
    Net → (nat * res (OciImageManifest * string * string)) * Net;
  pull_blob_stream : ClientConfig → Reference → OciDescriptor →
    Net → (nat * res BlobStream) * Net;
  push_blob_stream : ClientConfig → Reference → list (res string) → string → option Z →
    Net → (nat * res string) * Net;
  (** how many items of the stream that request takes *)
  push_consumed : ClientConfig → Reference → list (res string) → string → option Z → Net → nat;
  push_blob : ClientConfig → Reference → string → string →
    Net → (nat * res string) * Net;
  push_manifest : ClientConfig → Reference → OciImageManifest →
    Net → (nat * res string) * Net
}.

(** The operating system: the error of the n-th system call, how much a failed
    write wrote, and in which order a directory's files are removed. *)
Class Os := {
  fault : nat → option string;
  partial : nat → nat;
  removal : nat → list string
}.

Module Transfer.
Import Oci.

Abbreviation Disk := (gmap string string).

Section transfer.
Context `{OciClient} `{Os}.

(** ** The world *)

Record World := mkWorld {
  disk : Disk;
  trace : list Disk;                (* every earlier state of the disk *)
  calls : nat;                      (* system calls made *)
  now : nat;                        (* milliseconds *)
  net : Net;
  events : list RegistryEvent;      (* handed to the feedback channel *)
  printed : list string
}.

Definition commit (d : Disk) (w : World) : World :=
  mkWorld d (disk w :: trace w) (calls w) (now w) (net w) (events w) (printed w).
Definition tick (w : World) : World :=
  mkWorld (disk w) (trace w) (S (calls w)) (now w) (net w) (events w) (printed w).
Definition at_time (t : nat) (w : World) : World :=
  mkWorld (disk w) (trace w) (calls w) t (net w) (events w) (printed w).
Definition with_net (n : Net) (w : World) : World :=
  mkWorld (disk w) (trace w) (calls w) (now w) n (events w) (printed w).
Definition add_event (e : RegistryEvent) (w : World) : World :=
  mkWorld (disk w) (trace w) (calls w) (now w) (net w) (events w ++ [e]) (printed w).
Definition add_line (s : string) (w : World) : World :=
  mkWorld (disk w) (trace w) (calls w) (now w) (net w) (events w) (printed w ++ [s]).

(** ** Asynchronous computations

    A computation runs below the times at which an enclosing [select!] or
    [timeout] stops waiting, innermost first.  It ends with a result, or is
    dropped by the one at a level, counted from the outermost. *)

Inductive fut (A : Type) := Ready (r : res A) | Stopped (level : nat).
#[global] Arguments Ready {A} r.
#[global] Arguments Stopped {A} level.

Definition AS (A : Type) : Type := list nat → World → fut A * World.

#[global] Instance AS_ret : MRet AS := λ A a _ w, (Ready (Ok a), w).
#[global] Instance AS_bind : MBind AS := λ A B f m ctx w,
  match m ctx w with
  | (Ready (Ok a), w') => f a ctx w'
  | (Ready (Err e), w') => (Ready (Err e), w')
  | (Ready (Panic s), w') => (Ready (Panic s), w')
  | (Stopped l, w') => (Stopped l, w')
  end.

Definition lift {A} (r : res A) : AS A := λ _ w, (Ready r, w).
Definition context {A} (msg : string) (m : AS A) : AS A := λ ctx w,
  match m ctx w with
  | (Ready r, w') => (Ready (with_context msg r), w')
  | stopped => stopped
  end.
(** A result as a value to match on. *)
Definition try_ {A} (m : AS A) : AS (A + error) := λ ctx w,
  match m ctx w with
  | (Ready (Ok a), w') => (Ready (Ok (inl a)), w')
  | (Ready (Err e), w') => (Ready (Ok (inr e)), w')
  | (Ready (Panic s), w') => (Ready (Panic s), w')
  | (Stopped l, w') => (Stopped l, w')
  end.
(** [let _ = ...] *)
Definition ignore {A} (m : AS A) : AS unit := _ ← try_ m; mret tt.
Definition gets {A} (f : World → A) : AS A := λ _ w, (Ready (Ok (f w)), w).
Definition modify (f : World → World) : AS unit := λ _ w, (Ready (Ok tt), f w).
Fixpoint each {A} (f : A → AS unit) (l : list A) : AS unit :=
  match l with
  | [] => mret tt
  | x :: l => _ ← f x; each f l
  end.

(** The first of the times to come before [t], the innermost of equal ones;
    with its level. *)
Fixpoint first_stop (ctx : list nat) (t : nat) : option (nat * nat) :=
  match ctx with
  | [] => None
  | s :: outer =>
      if s <? t then
        match first_stop outer s with
        | Some stop => Some stop
        | None => Some (s, length outer)
        end
      else first_stop outer t
  end.

(** A future that is ready after [d]; one that is ready at once is polled
    before anything that could stop it. *)
Definition await (d : nat) : AS unit := λ ctx w,
  if d =? 0 then (Ready (Ok tt), w)
  else
    match first_stop ctx (now w + d) with
    | None => (Ready (Ok tt), at_time (now w + d) w)
    | Some (s, level) => (Stopped level, at_time (Nat.max (now w) s) w)
    end.

(** Run [m] until [t]: [None] when it was dropped. *)
Definition until {A} (t : nat) (m : AS A) : AS (option (res A)) := λ ctx w,
  match m (t :: ctx) w with
  | (Ready (Panic s), w') => (Ready (Panic s), w')
  | (Ready r, w') => (Ready (Ok (Some r)), w')
  | (Stopped level, w') =>
      if level =? length ctx then (Ready (Ok None), w') else (Stopped level, w')
  end.

(** [timeout(d, future).await.context(msg)], and then the result of the
    future as a value. *)
Definition timeout {A} (d : nat) (msg : string) (m : AS A) : AS (res A) :=
  t ← gets now;
  r ← until (t + d) m;
  match r with
  | Some r => mret r
  | None => lift (Err [Msg msg; Msg "deadline has elapsed"])
  end.

(** [cancelable]: [ct] is the time the token is cancelled. *)
Definition cancelable {A} (ct : option nat) (future : AS A) : AS A :=
  match ct with
  | Some t =>
      r ← until t future;
      match r with
      | Some result => lift result
      | None => lift (Err [CancellationError])
      end
  | None => future
  end.

(** [err.is::<CancellationError>()] *)
Definition is_cancellation (e : error) : bool := existsb (λ f, bool_decide (f = CancellationError)) e.

(** A request of the client library. *)
Definition request {A} (f : Net → (nat * res A) * Net) : AS A :=
  n ← gets net;
  let '((d, r), n') := f n in
  _ ← modify (with_net n');
  _ ← await d;
  lift r.

(** ** System calls *)

Definition sys (ok : World → World) (failed : nat → World → World) : AS unit := λ _ w,
  match fault (calls w) with
  | None => (Ready (Ok tt), ok (tick w))
  | Some e => (Ready (Err [Msg e]), failed (calls w) (tick w))
  end.
Definition sys_pure : AS unit := sys (λ w, w) (λ _ w, w).

Definition create_dir_all (p : string) : AS unit := sys_pure.

(** [File::create], and the start of [std::fs::write]. *)
Definition file_create (p : string) : AS unit := sys (λ w, commit (<[p := ""]> (disk w)) w) (λ _ w, w).

(** Writing [chunk] at the end of the file, whose content was [old]: on disk
    byte by byte, [k] bytes of it. *)
Definition grow (p old chunk : string) (k : nat) (w : World) : World :=
  foldl (λ w i, commit (<[p := old +:+ take_bytes i chunk]> (disk w)) w) w (seq 0 (S k)).
Definition append (p chunk : string) : AS unit :=
  old ← gets (λ w, default "" (disk w !! p));
  sys (grow p old chunk (String.length chunk))
      (λ n, grow p old chunk (Nat.min (partial n) (String.length chunk))).

(** [std::fs::write] *)
Definition write_file (p content : string) : AS unit := _ ← file_create p; append p content.

Definition rename (a b : string) : AS unit :=
  d ← gets disk;
  match d !! a with
  | Some c => sys (commit (<[b := c]> (delete a d))) (λ _ w, w)
  | None => lift (Err [Msg "No such file or directory (os error 2)"])
  end.

Definition remove_file (p : string) : AS unit := sys (λ w, commit (delete p (disk w)) w) (λ _ w, w).

(** Below a directory. *)
Definition under (dir p : string) : bool := starts_with (dir +:+ "/") p.
Definition remove_one (dir : string) (w : World) (p : string) : World :=
  if under dir p then commit (delete p (disk w)) w else w.
Definition outside (dir : string) (d : Disk) : Disk := filter (λ kv, under dir kv.1 = false) d.
(** [remove_dir_all]: file by file, all of them unless the call fails. *)
Definition remove_dir_all (dir : string) : AS unit :=
  n ← gets calls;
  sys (λ w, let w := foldl (remove_one dir) w (removal n) in commit (outside dir (disk w)) w)
      (λ n w, foldl (remove_one dir) w (removal n)).

(** ** Feedback *)

(** [notify]: [try_send] on the channel, if there is one; whether the receiver
    still listens does not matter to the sender. *)
Definition notify (feedback : bool) (e : RegistryEvent) : AS unit :=
  if feedback then modify (add_event e) else mret tt.
Definition println (s : string) : AS unit := modify (add_line s).

(** ** Requests of [oras.rs] *)

(** [impl From<&OciDescriptor> for BlobDescriptor] *)
Definition blob_of (d : OciDescriptor) : BlobDescriptor :=
  mkBlob (desc_digest d) (desc_media_type d) (desc_size d) (desc_annotations d).
Definition descriptor_of (b : BlobDescriptor) : OciDescriptor :=
  mkDescriptor (blob_media_type b) (blob_digest b) (blob_size b) (blob_annotations b) None.

Definition build_client (p : ClientProtocol) : ClientConfig := mkConfig p true.

Definition list_tags (client : ClientConfig) (r : Reference) (credentials : RegistryCredentials)
    (ct : option nat) : AS (list string) :=
  cancelable ct
    (context "while listing repository tags"
       (request (client_list_tags client r (to_registry_auth credentials)))).

Definition remote_image (r : Reference) (manifest : OciImageManifest) (digest json : string)
    : RemoteImage :=
  mkRemote (repository_path r) (default "latest" (tag_or r)) digest json
    (blob_of (oci_config manifest)) (blob_of <$> oci_layers manifest).

Definition fetch_manifest_and_config (client : ClientConfig) (r : Reference)
    (credentials : RegistryCredentials) (ct : option nat) : AS RemoteImage :=
  cancelable ct
    ('(manifest, digest, json) ← context "while fetching manifest and config"
       (request (pull_manifest_and_config client r (to_registry_auth credentials)));
     mret (remote_image r manifest digest json)).

Definition IO_CHUNK_TIMEOUT : nat := 120 * 1000.

(** One turn of the loop: [timeout(IO_CHUNK_TIMEOUT, stream.next())] *)
Definition next_item (d : nat) (item : option (res string)) : AS (option string) :=
  r ← timeout IO_CHUNK_TIMEOUT "timed out waiting for next blob chunk" (await d);
  _ ← lift r;
  match item with
  | None => mret None
  | Some r => c ← context "while reading blob stream" (lift r); mret (Some c)
  end.

(** The loop of [download_blob_to_file] on what is left of the stream. *)
Fixpoint download_chunks (out : string) (on_progress : Z → AS unit)
    (items : list (nat * res string)) (stream_end : nat) (downloaded : Z) (rep : ProgressReporter)
    : AS unit :=
  match items with
  | [] => _ ← next_item stream_end None; mret tt
  | (d, item) :: items =>
      chunk ← next_item d (Some item);
      let chunk := default "" chunk in
      _ ← context "while writing blob chunk" (append out chunk);
      downloaded ← lift (add_u64 downloaded (Z.of_nat (String.length chunk)));
      '(reported, rep) ← lift (progress rep downloaded);
      _ ← match reported with Some r => on_progress r | None => mret tt end;
      download_chunks out on_progress items stream_end downloaded rep
  end.

Definition open_stream (client : ClientConfig) (r : Reference) (descriptor : BlobDescriptor)
    (credentials : RegistryCredentials) : AS BlobStream :=
  _ ← context "while authenticating for blob download"
        (request (client_auth client r (to_registry_auth credentials) PullOp));
  context "while opening blob stream"
    (request (pull_blob_stream client r (descriptor_of descriptor))).

Definition download_blob_to_file (client : ClientConfig) (r : Reference)
    (descriptor : BlobDescriptor) (credentials : RegistryCredentials) (out : string)
    (on_progress : Z → option Z → AS unit) (ct : option nat) : AS unit :=
  cancelable ct
    (stream ← open_stream client r descriptor credentials;
     _ ← download_chunks out (λ n, on_progress n (content_length stream))
           (stream_items stream) (stream_end stream) 0 (new_reporter PROGRESS_EVENT_STEP);
     context "while flushing blob file" sys_pure).

Fixpoint collect_chunks (items : list (nat * res string)) (stream_end : nat) (out : string)
    : AS string :=
  match items with
  | [] => _ ← next_item stream_end None; mret out
  | (d, item) :: items =>
      chunk ← next_item d (Some item);
      collect_chunks items stream_end (out +:+ default "" chunk)
  end.

Definition download_blob_to_vec (client : ClientConfig) (r : Reference)
    (descriptor : BlobDescriptor) (credentials : RegistryCredentials) (ct : option nat) : AS string :=
  cancelable ct
    (stream ← open_stream client r descriptor credentials;
     collect_chunks (stream_items stream) (stream_end stream) "").

(** ** Runs that return

    What a computation that returned did, for those that leave the disk
    alone. *)

Lemma AS_bind_Ok {A B} (m : AS A) (f : A → AS B) ctx w b w' :
  (m ≫= f) ctx w = (Ready (Ok b), w') ↔
  ∃ a w1, m ctx w = (Ready (Ok a), w1) ∧ f a ctx w1 = (Ready (Ok b), w').
Proof.
  unfold mbind, AS_bind. split.
  - destruct (m ctx w) as [[[a|e|s]|l] w1]; [intros Hf; by exists a, w1 | intros [=]..].
  - by intros (a & w1 & -> & Hf).
Qed.
Lemma context_Ready {A} msg (m : AS A) ctx w a w' :
  context msg m ctx w = (Ready (Ok a), w') ↔ m ctx w = (Ready (Ok a), w').
Proof.
  unfold context. destruct (m ctx w) as [[r|l] w1]; [|split; intros [=]].
  split; intros [= E ->]; [by apply with_context_Ok in E as -> | by subst].
Qed.
Lemma lift_Ready {A} (r : res A) ctx w a w' : lift r ctx w = (Ready (Ok a), w') ↔ r = Ok a ∧ w' = w.
Proof. unfold lift. split; [by intros [= -> ->] | by intros [-> ->]]. Qed.
Lemma gets_Ready {A} (f : World → A) ctx w a w' : gets f ctx w = (Ready (Ok a), w') ↔ a = f w ∧ w' = w.
Proof. unfold gets. split; [by intros [= -> ->] | by intros [-> ->]]. Qed.
Lemma ret_Ready {A} (x : A) ctx w a w' : mret (M := AS) x ctx w = (Ready (Ok a), w') ↔ a = x ∧ w' = w.
Proof. unfold mret, AS_ret. split; [by intros [= -> ->] | by intros [-> ->]]. Qed.

(** The same disk and the same registry. *)
Definition still (w w' : World) : Prop := disk w' = disk w ∧ net w' = net w.
Lemma still_trans w1 w2 w3 : still w1 w2 → still w2 w3 → still w1 w3.
Proof. intros [? ?] [? ?]. split; congruence. Qed.

Lemma notify_Ready fb e ctx w u w' : notify fb e ctx w = (Ready (Ok u), w') → still w w'.
Proof. unfold notify. destruct fb; intros E; by injection E as _ <-. Qed.
Lemma sys_pure_Ready ctx w u w' : sys_pure ctx w = (Ready (Ok u), w') → still w w'.
Proof. unfold sys_pure, sys. destruct (fault _); intros E; by simplify_eq. Qed.
Lemma await_Ready d ctx w u w' : await d ctx w = (Ready (Ok u), w') → still w w'.
Proof.
  unfold await. destruct (d =? 0); [by intros [= _ <-]|].
  destruct (first_stop _ _) as [[]|]; intros E; by simplify_eq.
Qed.
Lemma each_notify_Ready {A} fb (f : A → RegistryEvent) l ctx : ∀ w u w',
  each (λ x, notify fb (f x)) l ctx w = (Ready (Ok u), w') → still w w'.
Proof.
  induction l as [|x l IH]; intros w u w'; cbn [each].
  - by intros [_ ->]%ret_Ready.
  - intros ([] & w1 & Hn%notify_Ready & Hl%IH)%AS_bind_Ok. by eapply still_trans.
Qed.

Lemma request_Ready {A} (f : Net → (nat * res A) * Net) ctx w a w' :
  request f ctx w = (Ready (Ok a), w') →
  ∃ t, f (net w) = ((t, Ok a), net w') ∧ disk w' = disk w.
Proof.
  unfold request. intros (n & w1 & [-> ->]%gets_Ready & E)%AS_bind_Ok.
  destruct (f (net w)) as [[t r] n']. apply AS_bind_Ok in E as ([] & w2 & E2 & E).
  injection E2 as <-. apply AS_bind_Ok in E as ([] & w3 & [Hd Hn]%await_Ready & [-> ->]%lift_Ready).
  exists t. by rewrite Hn, Hd.
Qed.

Lemma until_Ready {A} t (m : AS A) ctx w a w' :
  until t m ctx w = (Ready (Ok (Some (Ok a))), w') → m (t :: ctx) w = (Ready (Ok a), w').
Proof.
  unfold until. destruct (m (t :: ctx) w) as [[[]|l] w1]; intros E; try by simplify_eq.
  by destruct (l =? length ctx).
Qed.
Lemma timeout_Ready {A} d msg (m : AS A) ctx w a w' :
  timeout d msg m ctx w = (Ready (Ok (Ok a)), w') → m (now w + d :: ctx) w = (Ready (Ok a), w').
Proof.
  unfold timeout. intros (t & w1 & [-> ->]%gets_Ready & (r & w2 & E & Er)%AS_bind_Ok)%AS_bind_Ok.
  destruct r as [r|]; [|by apply lift_Ready in Er as [? _]].
  apply ret_Ready in Er as [<- ->]. by apply until_Ready.
Qed.

(** ** Every state of the disk

    [safe G N P m Q]: from a disk with [P] and a registry with [N], everything
    [m] puts on the disk at any time satisfies [G] and the registry keeps [N],
    however [m] ends, and when it returns the disk satisfies [Q]. *)
Section safe.
Context (G : Disk → Prop) (N : Net → Prop).

Definition good (w : World) : Prop := G (disk w) ∧ N (net w).
Definition hist (w w' : World) : Prop :=
  (∃ l, trace w' = l ++ trace w ∧ Forall G (disk w' :: l)) ∧ N (net w').

Definition safe {A} (P : Disk → Prop) (m : AS A) (Q : A → Disk → Prop) : Prop :=
  ∀ ctx w, good w → P (disk w) →
    hist w (m ctx w).2 ∧
    match (m ctx w).1 with Ready (Ok a) => Q a (disk (m ctx w).2) | _ => True end.

Lemma hist_refl w w' : disk w' = disk w → trace w' = trace w → net w' = net w → good w → hist w w'.
Proof.
  intros Hd Ht Hn [HG HN]. unfold hist. rewrite Hn, Hd. split; [|done].
  exists []. split; [done|]. by constructor.
Qed.

Lemma hist_trans w1 w2 w3 : hist w1 w2 → hist w2 w3 → hist w1 w3.
Proof.
  intros [(l1 & E1 & [F1 F1']%Forall_cons) _] [(l2 & E2 & [F2 F2']%Forall_cons) HN].
  split; [|done]. exists (l2 ++ l1). split; [by rewrite E2, E1, app_assoc|].
  constructor; [done|]. by apply Forall_app.
Qed.

Lemma hist_now w w' : hist w w' → good w'.
Proof. intros [(l & _ & F) HN]. split; [by inversion F | done]. Qed.

Lemma hist_commit w d : good w → G d → hist w (commit d w).
Proof. intros [Hw HN] Hd. split; [|done]. exists [disk w]. split; [done|]. by repeat constructor. Qed.

Lemma safe_ret {A} P (a : A) Q : (∀ d, G d → P d → Q a d) → safe P (mret (M := AS) a) Q.
Proof. intros HQ ctx w HG HP. split; [by apply hist_refl | by apply HQ; [apply HG|]]. Qed.

Lemma safe_lift {A} P (r : res A) Q : (∀ a d, r = Ok a → G d → P d → Q a d) → safe P (lift r) Q.
Proof. intros HQ ctx w HG HP. split; [by apply hist_refl|]. destruct HG. cbn. destruct r; auto. Qed.

Lemma safe_gets {A} P (f : World → A) (Q : A → Disk → Prop) :
  (∀ w, good w → P (disk w) → Q (f w) (disk w)) → safe P (gets f) Q.
Proof. intros HQ ctx w HG HP. split; [by apply hist_refl | by apply HQ]. Qed.

Lemma safe_modify P f : (∀ w, disk (f w) = disk w ∧ trace (f w) = trace w ∧ net (f w) = net w) →
  safe P (modify f) (λ _, P).
Proof.
  intros Hf ctx w HG HP. destruct (Hf w) as (Hd & Ht & Hn). split; [by apply hist_refl|].
  cbn. by rewrite Hd.
Qed.

Lemma safe_bind {A B} P (m : AS A) (f : A → AS B) R Q :
  safe P m R → (∀ a, safe (R a) (f a) Q) → safe P (m ≫= f) Q.
Proof.
  intros Hm Hf ctx w HG HP. destruct (Hm ctx w HG HP) as [Hh HR]. unfold mbind, AS_bind.
  destruct (m ctx w) as [[[a|e|s]|l] w1]; cbn in *; [|done..].
  destruct (Hf a ctx w1 (hist_now _ _ Hh) HR) as [Hh2 HQ]. split; [by eapply hist_trans | done].
Qed.

Lemma safe_bind_ret {A B} P (a : A) (f : A → AS B) Q : safe P (f a) Q → safe P (mret a ≫= f) Q.
Proof. exact id. Qed.

Lemma safe_post {A} P (m : AS A) Q Q' :
  safe P m Q → (∀ a d, G d → Q a d → Q' a d) → safe P m Q'.
Proof.
  intros Hm HQ ctx w HG HP. destruct (Hm ctx w HG HP) as [Hh HR]. split; [done|].
  destruct (hist_now _ _ Hh) as [HG' _]. destruct (m ctx w) as [[[]|] ?]; cbn in *; auto.
Qed.

Lemma safe_pre {A} P P' (m : AS A) Q : safe P m Q → (∀ d, G d → P' d → P d) → safe P' m Q.
Proof. intros Hm HP ctx w HG Hw. apply Hm; [done|]. by apply HP; [apply HG|]. Qed.

Lemma safe_pure {A} (φ : Prop) P (m : AS A) Q : (φ → safe P m Q) → safe (λ d, P d ∧ φ) m Q.
Proof. intros Hm ctx w HG [HP Hφ]. by apply Hm. Qed.

Lemma safe_exists {A X} (P : X → Disk → Prop) (m : AS A) Q :
  (∀ x, safe (P x) m Q) → safe (λ d, ∃ x, P x d) m Q.
Proof. intros Hm ctx w HG [x HP]. by apply (Hm x). Qed.

Lemma safe_context {A} P msg (m : AS A) Q : safe P m Q → safe P (context msg m) Q.
Proof.
  intros Hm ctx w HG HP. destruct (Hm ctx w HG HP) as [Hh HR]. unfold context.
  by destruct (m ctx w) as [[[]|] ?].
Qed.

Lemma safe_try {A} P (m : AS A) Q : safe P m Q →
  safe P (try_ m) (λ r d, match r with inl a => Q a d | inr _ => True end).
Proof.
  intros Hm ctx w HG HP. destruct (Hm ctx w HG HP) as [Hh HR]. unfold try_.
  by destruct (m ctx w) as [[[]|] ?].
Qed.

Lemma safe_ignore {A} P (m : AS A) Q : safe P m Q → safe P (ignore m) (λ _ _, True).
Proof.
  intros Hm. eapply safe_bind; [by eapply safe_try|]. intros a. by apply safe_ret.
Qed.

Lemma safe_until {A} P t (m : AS A) Q : safe P m Q →
  safe P (until t m) (λ r d, match r with Some (Ok a) => Q a d | _ => True end).
Proof.
  intros Hm ctx w HG HP. destruct (Hm (t :: ctx) w HG HP) as [Hh HR]. unfold until.
  destruct (m (t :: ctx) w) as [[[]|l] ?]; cbn in *; [done..|]. by destruct (l =? length ctx).
Qed.

Lemma safe_cancelable {A} P ct (m : AS A) Q : safe P m Q → safe P (cancelable ct m) Q.
Proof.
  intros Hm. destruct ct as [t|]; [|done]. eapply safe_bind; [by eapply safe_until|].
  intros [r|]; apply safe_lift; intros ? ? E; by subst.
Qed.

Lemma safe_timeout {A} P d msg (m : AS A) Q : safe P m Q →
  safe P (timeout d msg m) (λ r d, match r with Ok a => Q a d | _ => True end).
Proof.
  intros Hm. eapply safe_bind; [by apply (safe_gets P _ (λ _, P))|]. intros t.
  eapply safe_bind; [by eapply safe_until|]. intros [r|]; [by apply safe_ret | by apply safe_lift].
Qed.

Lemma safe_each {A} (I : list A → Disk → Prop) (f : A → AS unit) l :
  (∀ pre x todo, l = pre ++ x :: todo → safe (I pre) (f x) (λ _, I (pre ++ [x]))) →
  safe (I []) (each f l) (λ _, I l).
Proof.
  intros Hf. assert (∀ todo pre, l = pre ++ todo → safe (I pre) (each f todo) (λ _, I l)) as Hgen;
    [|by apply (Hgen l [])].
  induction todo as [|x todo IH]; intros pre El; cbn.
  - rewrite app_nil_r in El. subst. by apply safe_ret.
  - eapply safe_bind; [by eapply Hf|]. intros []. apply IH. by rewrite <-app_assoc.
Qed.

Lemma safe_await P d : safe P (await d) (λ _, P).
Proof.
  intros ctx w HG HP. unfold await. destruct (d =? 0); [by split; [apply hist_refl|]|].
  destruct (first_stop _ _) as [[s l]|]; (split; [by apply hist_refl | done]).
Qed.

Lemma safe_request {A} P (f : Net → (nat * res A) * Net) :
  (∀ n, N n → N (f n).2) →
  safe P (request f) (λ a d, P d ∧ ∃ n t n', N n ∧ f n = ((t, Ok a), n')).
Proof.
  intros Hf. unfold request.
  eapply safe_bind; [by apply (safe_gets P _ (λ n d, P d ∧ N n)); intros w [_ HN] HP|]. intros n.
  apply safe_pure. intros HN. specialize (Hf n HN).
  destruct (f n) as [[t r] n'] eqn:Ef. eapply safe_bind with (R := λ _, P).
  { intros ctx w [HG _] HP. split; [|done]. split; [|exact Hf]. exists []. split; [done|]. by constructor. }
  intros []. eapply safe_bind; [apply safe_await|]. intros []. apply safe_lift.
  intros a d -> _ HP. split; [done|]. by exists n, t, n'.
Qed.

Lemma safe_notify P fb e : safe P (notify fb e) (λ _, P).
Proof. destruct fb; [by apply safe_modify | by apply safe_ret]. Qed.
Lemma safe_println P s : safe P (println s) (λ _, P).
Proof. by apply safe_modify. Qed.

Lemma safe_sys P (ok : World → World) failed (Q : Disk → Prop) :
  (∀ w, good w → P (disk w) → hist w (ok w) ∧ Q (disk (ok w))) →
  (∀ n w, good w → P (disk w) → hist w (failed n w)) →
  safe P (sys ok failed) (λ _, Q).
Proof.
  intros Hok Hf ctx w HG HP. unfold sys. destruct (fault _); cbn.
  - split; [|done]. apply (Hf _ (tick w) HG HP).
  - apply (Hok (tick w) HG HP).
Qed.

Lemma safe_sys_pure P : safe P sys_pure (λ _, P).
Proof.
  apply safe_sys; [intros w HG HP; split; [by apply hist_refl|done] | intros n w HG HP; by apply hist_refl].
Qed.

Lemma safe_file_create P p (Q : Disk → Prop) :
  (∀ d, G d → P d → G (<[p := ""]> d) ∧ Q (<[p := ""]> d)) → safe P (file_create p) (λ _, Q).
Proof.
  intros Hp. apply safe_sys; [|intros n w HG HP; by apply hist_refl].
  intros w HG HP. destruct (Hp _ (proj1 HG) HP). split; [by apply hist_commit | done].
Qed.

Lemma hist_grow p old chunk k w d0 :
  (∃ c, disk w = <[p := c]> d0) → good w → (∀ c, G (<[p := c]> d0)) →
  hist w (grow p old chunk k w) ∧ disk (grow p old chunk k w) = <[p := old +:+ take_bytes k chunk]> d0.
Proof.
  intros Hd HG Hall. unfold grow. induction k as [|k IH].
  - cbn. destruct Hd as [c Hd]. rewrite Hd, insert_insert_eq. split; [|done]. by apply hist_commit.
  - rewrite seq_S, foldl_app. cbn [foldl]. destruct IH as [Hh Ed].
    set (w1 := foldl _ w (seq 0 (S k))) in *. cbn [Nat.add].
    rewrite Ed, insert_insert_eq. split; [|done].
    eapply hist_trans; [done|]. apply hist_commit; [by eapply hist_now | done].
Qed.

Lemma take_bytes_all s : take_bytes (String.length s) s = s.
Proof. induction s as [|a s IH]; cbn; by rewrite ?IH. Qed.

Lemma safe_append p chunk d0 old : (∀ c, G (<[p := c]> d0)) →
  safe (λ d, d = <[p := old]> d0) (append p chunk) (λ _ d, d = <[p := old +:+ chunk]> d0).
Proof.
  intros Hall. unfold append. eapply safe_bind.
  { apply (safe_gets _ _ (λ o d, o = old ∧ d = <[p := old]> d0)). intros w _ ->.
    split; [by rewrite lookup_insert_eq|done]. }
  intros o. apply safe_sys.
  - intros w HG [-> Hd].
    destruct (hist_grow p old chunk (String.length chunk) w d0) as [Hh Eg]; eauto.
    by rewrite take_bytes_all in Eg.
  - intros n w HG [-> Hd]. apply hist_grow with (d0 := d0); eauto.
Qed.

Lemma safe_write_file p content (P : Disk → Prop) d0 : (∀ c, G (<[p := c]> d0)) →
  safe (λ d, d = d0 ∧ P d0) (write_file p content) (λ _ d, d = <[p := content]> d0 ∧ P d0).
Proof.
  intros Hall. eapply safe_bind.
  { apply (safe_file_create _ _ (λ d, d = <[p := ""]> d0 ∧ P d0)). by intros d _ [-> HP]. }
  intros []. apply safe_pure. intros HP. eapply safe_post; [by apply safe_append|]. by intros [] d _ ->.
Qed.

Lemma hist_remove_list dir l w : (∀ d p, G d → under dir p = true → G (delete p d)) → good w →
  hist w (foldl (remove_one dir) w l).
Proof.
  intros Hdel. revert w; induction l as [|p l IH]; intros w HG; cbn; [by apply hist_refl|].
  assert (hist w (remove_one dir w p)) as Hp.
  { unfold remove_one. destruct (under dir p) eqn:Eu; [|by apply hist_refl].
    apply hist_commit; [done|]. apply Hdel; [apply HG | done]. }
  eapply hist_trans; [exact Hp|]. apply IH. by eapply hist_now.
Qed.

Lemma safe_remove_dir_all P dir :
  (∀ d p, G d → under dir p = true → G (delete p d)) → (∀ d, G d → G (outside dir d)) →
  safe P (remove_dir_all dir) (λ _ d, ∀ p, under dir p = true → d !! p = None).
Proof.
  intros Hdel Hout. unfold remove_dir_all. eapply safe_bind; [by apply (safe_gets P _ (λ _, P))|].
  intros n. apply safe_sys.
  - intros w HG _. pose proof (hist_remove_list dir (removal n) w Hdel HG) as Hh. split.
    + eapply hist_trans; [exact Hh|]. apply hist_commit; [by eapply hist_now|].
      apply Hout. by apply hist_now in Hh as [? _].
    + intros p Hp. cbn. apply map_lookup_filter_None. right. intros x _. cbn. by rewrite Hp.
  - intros m w HG _. by apply hist_remove_list.
Qed.

(** Reading from the registry keeps [N]. *)
Definition reads_keep (client : ClientConfig) : Prop := ∀ n, N n →
  (∀ r a op, N (client_auth client r a op n).2) ∧
  (∀ r a, N (pull_manifest_and_config client r a n).2) ∧
  (∀ r d, N (pull_blob_stream client r d n).2).

Lemma safe_open_stream client r desc cred P : reads_keep client →
  safe P (open_stream client r desc cred)
    (λ s d, P d ∧ ∃ n t n', N n ∧ pull_blob_stream client r (descriptor_of desc) n = ((t, Ok s), n')).
Proof.
  intros Hk. unfold open_stream.
  eapply safe_bind; [apply safe_context, safe_request; intros n Hn; by apply Hk|]. intros a.
  eapply safe_pre; [apply safe_context, safe_request; intros n Hn; by apply Hk|]. by intros d _ [? _].
Qed.

Lemma safe_next_item P d item :
  safe P (next_item d item) (λ c dk, P dk ∧ match item with None => c = None | Some r => ∃ s, r = Ok s ∧ c = Some s end).
Proof.
  unfold next_item. eapply safe_bind; [apply safe_timeout, safe_await|]. intros r.
  eapply safe_bind; [apply (safe_lift _ _ (λ _, P)); intros [] dk -> _ HP; exact HP|]. intros [].
  destruct item as [r'|]; [|by apply safe_ret].
  eapply safe_bind.
  { apply safe_context, (safe_lift _ _ (λ s dk, P dk ∧ r' = Ok s)). by intros a dk -> _ HP. }
  intros c. apply safe_ret. intros dk _ [HP ->]. split; [done|]. by exists c.
Qed.

Lemma safe_chunks out on_progress d0 :
  (∀ c, G (<[out := c]> d0)) → (∀ n P, safe P (on_progress n) (λ _, P)) →
  ∀ items fin n rep old,
  safe (λ d, d = <[out := old]> d0) (download_chunks out on_progress items fin n rep)
    (λ _ d, ∃ cs, items.*2 = Ok <$> cs ∧ d = <[out := old +:+ String.concat "" cs]> d0).
Proof.
  intros Hall Hprog. induction items as [|[t item] items IH]; intros fin n rep old; cbn [download_chunks].
  - eapply safe_bind; [apply safe_next_item|]. intros c. apply safe_ret. intros d _ [-> _].
    exists []. cbn. by rewrite str_app_nil_r.
  - eapply safe_bind; [apply safe_next_item|]. intros c. apply safe_pure. intros (s & -> & ->).
    eapply safe_bind; [apply safe_context, safe_append; exact Hall|]. intros [].
    eapply safe_bind; [by apply (safe_lift _ _ (λ _ d, d = <[out := old +:+ s]> d0))|]. intros n'.
    eapply safe_bind; [by apply (safe_lift _ _ (λ _ d, d = <[out := old +:+ s]> d0))|]. intros [reported rep'].
    eapply safe_bind with (R := λ _ d, d = <[out := old +:+ s]> d0).
    { destruct reported; [apply Hprog | by apply safe_ret]. }
    intros []. eapply safe_post; [apply IH|]. intros [] d _ (cs & E1 & ->).
    exists (s :: cs). cbn. split; [by rewrite E1|]. rewrite str_app_assoc.
    destruct cs; cbn; by rewrite ?str_app_nil_r.
Qed.

Lemma safe_download client r desc cred out on_progress ct d0 old :
  reads_keep client → (∀ c, G (<[out := c]> d0)) → (∀ n t P, safe P (on_progress n t) (λ _, P)) →
  safe (λ d, d = <[out := old]> d0) (download_blob_to_file client r desc cred out on_progress ct)
    (λ _ d, ∃ n t n' s cs, N n ∧
       pull_blob_stream client r (descriptor_of desc) n = ((t, Ok s), n') ∧
       (stream_items s).*2 = Ok <$> cs ∧ d = <[out := old +:+ String.concat "" cs]> d0).
Proof.
  intros Hk Hall Hprog. unfold download_blob_to_file. apply safe_cancelable.
  eapply safe_bind; [by apply safe_open_stream|]. intros s. apply safe_pure. intros (n & t & n' & HN & Es).
  eapply safe_bind; [by apply safe_chunks|]. intros []. eapply safe_post; [apply safe_context, safe_sys_pure|].
  intros [] d _ (cs & E1 & ->). by exists n, t, n', s, cs.
Qed.
End safe.

(** A part of a run may keep a stronger condition than the whole. *)
Lemma safe_within {A} (G G' : Disk → Prop) N P (m : AS A) Q :
  (∀ d, G d → G' d) → safe G N P m Q → safe G' N (λ d, G d ∧ P d) m (λ a d, G d ∧ Q a d).
Proof.
  intros HG Hm ctx w [_ HN] [Hw HP]. destruct (Hm ctx w (conj Hw HN) HP) as [[(l & El & Hl) HN'] HQ]. split.
  - split; [|done]. exists l. split; [done|]. eapply Forall_impl; [exact Hl | done].
  - pose proof (Forall_inv Hl). destruct (m ctx w) as [[[]|] ?]; cbn in *; auto.
Qed.
End transfer.
End Transfer.
