(* ===== verification/OciPull.v ===== *)
(** * Discovering and pulling updates ([registry/mod.rs])

    [pull_update] downloads the files of an update next to each other, each
    under a temporary name first, and writes the manifest last.  The theorems
    speak of every state the disk is in on the way: whenever the manifest is
    there, so are the files it needs, whole. *)

From S2P Require Import Prelude RustStr RustInt RustPath CommonTypes.
From S2P Require Import ImagePipeline ImageSlot ImageUki ImageManifest ImageGroup ImageRuntime ImagePlan ImageInstall.
From S2P Require Import OciTypes OciTransfer.
From Stdlib Require Import Ascii.

Module Registry.
Import Oci Transfer.

(** ** Names *)

(** [with_added_extension] *)
Definition with_added_extension (p ext : string) : string :=
  match file_name p with
  | None => p
  | Some _ => join "/" (trim_back (split "/"%char p)) +:+ "." +:+ ext
  end.

Definition sanitize_path_component (value : string) : string := replace_char ":" "_" value.

Definition push_part (value out : string) (c : component) : res string :=
  match c with
  | Normal part => Ok (path_join out part)
  | CurDir => Ok out
  | ParentDir => bail ("parent dir is not allowed: " +:+ value)
  | RootDir => bail ("non-relative path is not allowed: " +:+ value)
  end.
Definition sanitize_relative_file_path (value : string) : res string :=
  if is_absolute value then bail ("absolute path is not allowed: " +:+ value)
  else
    out ← foldM_res (push_part value) "" (components value);
    if bool_decide (out = "") then bail "empty path is not allowed" else Ok out.

(** ** Artifacts of an image *)

Record ArtifactBinding := mkBinding {
  kind : MediaType;
  blob : BlobDescriptor;
  digest : string;
  local_name : string
}.

Definition make_binding (layer : BlobDescriptor) (kind : MediaType) (local_name : string)
    : ArtifactBinding := mkBinding kind layer (blob_digest layer) local_name.

Definition find_layer_by_media_type (layers : list BlobDescriptor) (t : MediaType)
    : option BlobDescriptor :=
  find_first (λ layer, bool_decide (blob_media_type layer = media_type_str t)) layers.

Definition required_binding (layers : list BlobDescriptor) (t : MediaType) (local_name : string)
    : res ArtifactBinding :=
  layer ← ok_or (find_layer_by_media_type layers t)
            ("missing required artifact layer media_type=" +:+ media_type_str t);
  Ok (make_binding layer t local_name).

Definition TITLE : string := "org.opencontainers.image.title".

Definition changelog_local_name (layer : BlobDescriptor) : string :=
  match blob_annotations layer ≫= lookup TITLE with
  | Some title =>
      match sanitize_relative_file_path title with Ok path => path | _ => "changelog.txt" end
  | None => "changelog.txt"
  end.

Definition select_artifact_bindings (manifest : Manifest.Manifest) (layers : list BlobDescriptor)
    : res (list ArtifactBinding) :=
  uki ← required_binding layers Uki (Manifest.name (Manifest.kernel manifest));
  root ← required_binding layers Root (Manifest.name (Manifest.store manifest));
  verity ← required_binding layers Verity (Manifest.name (Manifest.verity manifest));
  Ok ([uki; root; verity] ++
      match find_layer_by_media_type layers Changelog with
      | Some layer => [make_binding layer Changelog (changelog_local_name layer)]
      | None => []
      end).

(** ** Options *)

Section registry.
Context `{OciClient} `{Os}.

Record AvailableUpdate := mkAvailable {
  upd_repository : string; upd_tag : string; upd_version : string; upd_hash : string
}.
Record DiscoverOptions := mkDiscover {
  disc_reference : UntaggedReference;
  disc_credentials : RegistryCredentials;
  disc_protocol : ClientProtocol
}.
Record PullOptions := mkPull {
  pull_reference : TaggedReference;
  destination_root : string;
  pull_credentials : RegistryCredentials;
  pull_protocol : ClientProtocol;
  install : bool;
  validate : bool
}.
Record PullResult := mkPullResult { output_dir : string; manifest_path : string }.

(** What the program reads of its surroundings besides the disk: the lock
    owner, the JSON codec, SHA-256, read errors, and the state the installer
    looks at. *)
Record Host := mkHost {
  hostname : option string;
  pid : Z;
  encode : Manifest.Manifest → res string;
  decode : string → res Manifest.Manifest;
  from_utf8 : string → res string;
  hex_encode : string → string;
  sha256 : string → string;
  read_fault : string → option error;
  cmdline : res string;
  bootctl : res (list Bootctl.BootctlItem);
  lvs : res (list Lvm.Volume)
}.
Context (host : Host).

(** The disk as the manifest's checks and the installer read it. *)
Definition is_dir (d : Disk) (p : string) : bool := existsb (λ kv, under p kv.1) (map_to_list d).
Definition on_read {A} (p : string) (r : res A) : res A :=
  match read_fault host p with Some e => Err e | None => r end.
Definition not_found : error := [Msg "No such file or directory (os error 2)"].
Definition fs_of (d : Disk) : Manifest.FS :=
  Manifest.mkFS
    (λ p, on_read p (Ok (bool_decide (is_Some (d !! p)) || is_dir d p)))
    (λ p, on_read p
       (if bool_decide (is_Some (d !! p)) then Ok true
        else if is_dir d p then Ok false else Err not_found))
    (λ p, on_read p (match d !! p with Some c => Ok c | None => Err not_found end))
    (sha256 host).
Definition env_of (d : Disk) : Install.Env :=
  Install.mkEnv (cmdline host) (bootctl host) (lvs host) (fs_of d) (hex_encode host) (decode host).

(** ** The lock *)

(** [UpdateLock::acquire]: the file is opened or created, locked, and its
    content replaced. *)
Definition acquire (path purpose : string) : AS unit :=
  _ ← context ("opening lock file " +:+ path)
        (sys (λ w, match disk w !! path with
                   | Some _ => w
                   | None => commit (<[path := ""]> (disk w)) w
                   end) (λ _ w, w));
  _ ← context ("another ota-update instance is already running (lock: " +:+ path +:+ ")") sys_pure;
  _ ← context ("truncating lock file " +:+ path) (file_create path);
  _ ← context ("writing lock owner into " +:+ path)
        (append path (Lock.lock_owner_text (hostname host) (pid host) purpose));
  context ("sync lock file " +:+ path) sys_pure.

(** [let _lock = UpdateLock::acquire(..)?;] and the rest of the function: the
    lock is dropped however that ends. *)
Definition dropping {A} (path : string) (m : AS A) : AS A := λ ctx w,
  let '(r, w1) := m ctx w in
  let '(_, w2) := remove_file path ctx w1 in
  (r, w2).
Definition with_lock {A} (path purpose : string) (m : AS A) : AS A :=
  _ ← acquire path purpose; dropping path m.

(** ** Discovering *)

(** One turn of the loop over the tags: [None] is [continue]. *)
Definition discover_tag (options : DiscoverOptions) (feedback : bool) (ct : option nat)
    (client : ClientConfig) (total current : nat) (tag : string) : AS (option AvailableUpdate) :=
  tag_ref ← lift (for_tag (disc_reference options) tag);
  let repository := repository_path (tagged tag_ref) in
  _ ← notify feedback (TagDiscovered repository tag current total);
  remote ← try_ (timeout (30 * 1000) ""
             (fetch_manifest_and_config client (tagged tag_ref) (disc_credentials options) ct));
  match remote with
  | inl (Ok remote) =>
      match Manifest.from_slice (decode host) (config_json remote) with
      | Ok manifest =>
          _ ← notify feedback (ManifestFetched (image_repository remote) (image_tag remote) current total);
          mret (Some (mkAvailable (image_repository remote) (image_tag remote)
                        (Manifest.version manifest) (Manifest.root_verity_hash manifest)))
      | Err _ => mret None
      | Panic s => lift (Panic s)
      end
  | inl (Err err) =>
      if is_cancellation err then
        _ ← notify feedback (Cancelled "discover-manifest");
        lift (bail "discover cancelled")
      else mret None
  | inl (Panic s) => lift (Panic s)
  | inr _ => mret None
  end.

Fixpoint discover_tags (options : DiscoverOptions) (feedback : bool) (ct : option nat)
    (client : ClientConfig) (total idx : nat) (tags : list string) (updates : list AvailableUpdate)
    : AS (list AvailableUpdate) :=
  match tags with
  | [] => mret updates
  | tag :: tags =>
      update ← discover_tag options feedback ct client total (idx + 1) tag;
      discover_tags options feedback ct client total (S idx) tags (updates ++ option_list update)
  end.

Definition discover_updates (options : DiscoverOptions) (feedback : bool) (ct : option nat)
    : AS (list AvailableUpdate) :=
  let client := build_client (disc_protocol options) in
  tags ← timeout (30 * 1000) "discover timeout while listing tags"
           (list_tags client (untagged (disc_reference options)) (disc_credentials options) ct);
  tags ← lift tags;
  let total := length tags in
  _ ← notify feedback (DiscoverStarted (ref_to_string (untagged (disc_reference options))) total);
  updates ← discover_tags options feedback ct client total 0 tags [];
  _ ← notify feedback Done;
  mret updates.

(** ** Pulling *)

Definition lock_path (options : PullOptions) : string :=
  path_join (destination_root options) ".ota-update.lock".
Definition pull_dir (options : PullOptions) (tag : string) : string :=
  path_join (path_join (destination_root options) (repository (tagged (pull_reference options))))
    (sanitize_path_component tag).
Definition local_path (dir : string) (b : ArtifactBinding) : string := path_join dir (local_name b).
Definition part_path (dir : string) (b : ArtifactBinding) : string :=
  with_added_extension (local_path dir b) "part".

(** A failed transfer: the directory is removed, as far as that goes. *)
Definition abandon {A} (feedback : bool) (dir stage msg : string) (err : error) : AS A :=
  if is_cancellation err then
    _ ← notify feedback (Cancelled stage);
    _ ← ignore (remove_dir_all dir);
    lift (bail "pull cancelled")
  else
    _ ← ignore (remove_dir_all dir);
    lift (Err (Msg msg :: err)).

Definition pull_artifact (options : PullOptions) (feedback : bool) (ct : option nat)
    (client : ClientConfig) (dir : string) (b : ArtifactBinding) : AS unit :=
  let local := local_path dir b in
  _ ← match parent local with
      | Some p => context ("creating parent dir " +:+ p) (create_dir_all p)
      | None => mret tt
      end;
  let part := part_path dir b in
  _ ← context ("creating temp blob file " +:+ part) (file_create part);
  download ← try_ (download_blob_to_file client (tagged (pull_reference options)) (blob b)
                (pull_credentials options) part
                (λ downloaded total, notify feedback (BlobDownloading (digest b) downloaded total)) ct);
  _ ← match download with
      | inl _ => mret tt
      | inr err => abandon feedback dir ("blob-download:" +:+ digest b) ("downloading blob " +:+ digest b) err
      end;
  _ ← context ("renaming " +:+ part +:+ " to " +:+ local) (rename part local);
  _ ← notify feedback (BlobVerified (digest b));
  println ("artifact " +:+ media_type_str (kind b) +:+ ": remote media_type=" +:+ media_type_str (kind b)
           +:+ " digest=" +:+ digest b +:+ " -> local " +:+ local).

(** [Manifest::write_to_file] on this disk. *)
Definition write_manifest (m : Manifest.Manifest) (path : string) : AS unit :=
  content ← context "Serializing manifest" (lift (encode host m));
  context ("writing manifest to " +:+ path) (write_file path content).

Context (installer : Install.Env → string → bool → World → res unit * World).

Definition run_installer (manifest_path : string) (validate : bool) : AS unit := λ _ w,
  let '(r, w') := installer (env_of (disk w)) manifest_path validate w in (Ready r, w').

Definition fetch_remote (options : PullOptions) (feedback : bool) (ct : option nat)
    (client : ClientConfig) (dir : string) : AS RemoteImage :=
  remote ← timeout (30 * 1000) "pull timeout while fetching manifest"
    (fetch_manifest_and_config client (tagged (pull_reference options)) (pull_credentials options) ct);
  match remote with
  | Ok remote => mret remote
  | Err err => abandon feedback dir "fetch-manifest" "pull manifest fetch failed" err
  | Panic s => lift (Panic s)
  end.

Definition read_manifest (json : string) : res Manifest.Manifest :=
  manifest ← Manifest.from_slice (decode host) json;
  Manifest.normalize_paths manifest.

(** The manifest is written and, when asked for, the files are checked and
    the update installed. *)
Definition finish_pull (options : PullOptions) (feedback : bool) (dir : string)
    (manifest : Manifest.Manifest) : AS PullResult :=
  let manifest_path := path_join dir "manifest.json" in
  _ ← context ("writing manifest file " +:+ manifest_path) (write_manifest manifest manifest_path);
  _ ← notify feedback (ManifestWritten manifest_path);
  _ ← (if validate options then
         d ← gets disk;
         context "while validating pulled artifacts"
           (lift (Manifest.validate (fs_of d) (hex_encode host) manifest dir true))
       else mret tt);
  _ ← (if install options then
         _ ← notify feedback (InstallStarted manifest_path);
         context "while installing pulled manifest" (run_installer manifest_path (validate options))
       else mret tt);
  _ ← println ("manifest path: " +:+ manifest_path);
  _ ← notify feedback Done;
  mret (mkPullResult dir manifest_path).

Definition pull_locked (options : PullOptions) (feedback : bool) (ct : option nat) : AS PullResult :=
  tag ← lift (tag_or_digest (pull_reference options));
  let dir := pull_dir options tag in
  _ ← context ("creating output dir " +:+ dir) (create_dir_all dir);
  _ ← notify feedback (PullStarted (ref_to_string (tagged (pull_reference options))) dir);
  _ ← println ("pull layout: " +:+ dir);
  let client := build_client (pull_protocol options) in
  remote ← fetch_remote options feedback ct client dir;
  manifest ← lift (read_manifest (config_json remote));
  bindings ← lift (select_artifact_bindings manifest (layers remote));
  _ ← each (pull_artifact options feedback ct client dir) bindings;
  finish_pull options feedback dir manifest.

Definition pull_update (options : PullOptions) (feedback : bool) (ct : option nat) : AS PullResult :=
  _ ← context ("creating destination root " +:+ destination_root options)
        (create_dir_all (destination_root options));
  with_lock (lock_path options) "registry-pull" (pull_locked options feedback ct).

(** ** Changelog *)

Definition fetch_changelog (r : TaggedReference) (credentials : RegistryCredentials)
    (p : ClientProtocol) (feedback : bool) (ct : option nat) : AS string :=
  let client := build_client p in
  remote ← timeout (30 * 1000) "changelog timeout while fetching manifest"
             (fetch_manifest_and_config client (tagged r) credentials ct);
  remote ← lift remote;
  changelog ← lift (ok_or (find_layer_by_media_type (layers remote) Changelog)
                      "no changelog layer found for reference");
  bytes ← timeout (60 * 1000) "changelog timeout while downloading blob"
            (download_blob_to_vec client (tagged r) changelog credentials ct);
  bytes ← lift bytes;
  _ ← notify feedback (ChangelogFetched (String.length bytes));
  lift (with_context "changelog blob is not valid UTF-8" (from_utf8 host bytes)).

(** What an install does not touch: the downloads and the registry. *)
Definition installer_keeps : Prop := ∀ env p v w,
  disk (installer env p v w).2 = disk w ∧ trace (installer env p v w).2 = trace w ∧
  net (installer env p v w).2 = net w.

(** Files an install leaves alone, at every moment of it. *)
Definition installer_spares (K : string → Prop) : Prop := ∀ env p v w,
  (∃ l, trace (installer env p v w).2 = l ++ trace w ∧
     Forall (λ d, ∀ q, K q → d !! q = disk w !! q) (disk (installer env p v w).2 :: l)) ∧
  net (installer env p v w).2 = net w.

Lemma keeps_spares K : installer_keeps → installer_spares K.
Proof.
  intros Hk env p v w. destruct (Hk env p v w) as (Ed & Et & En). split; [|done].
  exists []. rewrite Ed, Et. split; [done|]. by constructor.
Qed.

(** ** Steps of a pull on the disk *)

Section steps.
Context (G : Disk → Prop) (N : Net → Prop).

Lemma safe_acquire (P : Disk → Prop) path purpose :
  (∀ d c, G d → G (<[path := c]> d)) → (∀ d c, P d → P (<[path := c]> d)) →
  safe G N P (acquire path purpose) (λ _, P).
Proof.
  intros HG HP. unfold acquire. eapply safe_bind.
  { apply safe_context, (safe_sys _ _ _ _ _ P); [|intros; by apply hist_refl]. intros w Hw Hpw.
    destruct (disk w !! path); [by split; [apply hist_refl|]|].
    split; [by apply hist_commit; [|apply HG, Hw] | by apply HP]. }
  intros []. eapply safe_bind; [apply safe_context, safe_sys_pure|]. intros [].
  eapply safe_bind.
  { apply safe_context, (safe_file_create _ _ _ _
      (λ d, ∃ d0, (d = <[path := ""]> d0) ∧ G d0 ∧ P d0)). intros d Hd Hp. split; [by apply HG|]. by exists d. }
  intros []. apply safe_exists. intros d0. apply safe_pure. intros [Hg0 Hp0].
  eapply safe_bind; [apply safe_context, safe_append; auto|]. intros [].
  eapply safe_post; [apply safe_context, safe_sys_pure|]. intros [] d _ ->. by apply HP.
Qed.

Lemma safe_remove_file (P Q : Disk → Prop) path :
  (∀ d, G d → G (delete path d)) → (∀ d, P d → Q (delete path d)) →
  safe G N P (remove_file path) (λ _, Q).
Proof.
  intros HG HP. apply safe_sys; [|intros; by apply hist_refl].
  intros w Hw Hpw. split; [by apply hist_commit; [|apply HG, Hw] | by apply HP].
Qed.

Lemma safe_dropping {A} P path (m : AS A) Q : safe G N P m Q →
  (∀ d, G d → G (delete path d)) → (∀ a d, Q a d → Q a (delete path d)) →
  safe G N P (dropping path m) Q.
Proof.
  intros Hm HG HQ ctx w Hw HP. destruct (Hm ctx w Hw HP) as [Hh Hr]. unfold dropping.
  destruct (m ctx w) as [r w1]. cbn [fst snd] in *. unfold remove_file, sys.
  destruct (fault (calls w1)).
  - split; [done|]. by destruct r as [[]|].
  - split.
    + eapply hist_trans; [exact Hh|]. pose proof (hist_now _ _ _ _ Hh) as Hn.
      apply (hist_commit G N (tick w1)); [exact Hn | apply HG, Hn].
    + destruct r as [[]|]; cbn in *; auto.
Qed.

Lemma safe_with_lock {A} P path purpose (m : AS A) Q : safe G N P m Q →
  (∀ d c, G d → G (<[path := c]> d)) → (∀ d c, P d → P (<[path := c]> d)) →
  (∀ d, G d → G (delete path d)) → (∀ a d, Q a d → Q a (delete path d)) →
  safe G N P (with_lock path purpose m) Q.
Proof.
  intros. eapply safe_bind; [by apply safe_acquire|]. intros []. by apply safe_dropping.
Qed.

Lemma safe_rename a b c d0 : G (<[b := c]> (delete a d0)) →
  safe G N (λ d, d = <[a := c]> d0) (rename a b) (λ _ d, d = <[b := c]> (delete a d0)).
Proof.
  intros HG. unfold rename. eapply safe_bind.
  { apply (safe_gets _ _ _ _ (λ x d, d = x ∧ x = <[a := c]> d0)). by intros w _ ->. }
  intros x. apply safe_pure. intros ->. rewrite lookup_insert_eq.
  apply safe_sys; [|intros; by apply hist_refl]. intros w Hw _. cbn. rewrite delete_insert_eq.
  split; [|done]. by apply hist_commit.
Qed.

Lemma safe_abandon {A} feedback dir stage msg err (Q : A → Disk → Prop) :
  (∀ d p, G d → under dir p = true → G (delete p d)) → (∀ d, G d → G (outside dir d)) →
  safe G N (λ _, True) (abandon feedback dir stage msg err) Q.
Proof.
  intros Hdel Hout. unfold abandon. destruct (is_cancellation err).
  - eapply safe_bind; [apply safe_notify|]. intros [].
    eapply safe_bind; [by eapply safe_ignore, safe_remove_dir_all|]. intros []. by apply safe_lift.
  - eapply safe_bind; [by eapply safe_ignore, safe_remove_dir_all|]. intros []. by apply safe_lift.
Qed.

Lemma safe_fetch client r cred ct P : reads_keep N client →
  safe G N P (fetch_manifest_and_config client r cred ct)
    (λ remote d, P d ∧ ∃ n t n' m dg json, N n ∧
       pull_manifest_and_config client r (to_registry_auth cred) n = ((t, Ok (m, dg, json)), n') ∧
       remote = remote_image r m dg json).
Proof.
  intros Hk. unfold fetch_manifest_and_config. apply safe_cancelable.
  eapply safe_bind; [apply safe_context, safe_request; intros n Hn; by apply Hk|]. intros [[m dg] json]. apply safe_ret.
  intros d _ [HP (n & t & n' & HN & E)]. split; [done|]. by exists n, t, n', m, dg, json.
Qed.

Lemma safe_installer (K : string → Prop) (P : Disk → Prop) p v :
  installer_spares K →
  (∀ d d', (∀ q, K q → d' !! q = d !! q) → G d → G d') →
  (∀ d d', (∀ q, K q → d' !! q = d !! q) → P d → P d') →
  safe G N P (run_installer p v) (λ _, P).
Proof.
  intros Hinst HG HP ctx w [Hg HN] Hp. unfold run_installer.
  destruct (Hinst (env_of (disk w)) p v w) as ((l & Et & Hl) & En).
  destruct (installer _ _ _ w) as [r w']. cbn [fst snd] in *. split.
  - split; [|by rewrite En]. exists l. split; [done|]. eapply Forall_impl; [exact Hl|]. intros d Hd. exact (HG (disk w) d Hd Hg).
  - destruct r; [|done..]. apply Forall_cons in Hl as [Hd _]. exact (HP (disk w) _ Hd Hp).
Qed.

(** One artifact: its file is replaced by a content that the stream of its
    blob delivered, and the temporary file is gone. *)
Lemma safe_pull_artifact options feedback ct client dir b (I J : Disk → Prop) :
  reads_keep N client →
  (∀ d c, G d → G (<[part_path dir b := c]> d)) →
  (∀ d p, G d → under dir p = true → G (delete p d)) → (∀ d, G d → G (outside dir d)) →
  (∀ d n t n' s cs, G d → I d → N n →
     pull_blob_stream client (tagged (pull_reference options)) (descriptor_of (blob b)) n
       = ((t, Ok s), n') → (stream_items s).*2 = Ok <$> cs →
     let d' := <[local_path dir b := String.concat "" cs]> (delete (part_path dir b) d) in
     G d' ∧ J d') →
  safe G N I (pull_artifact options feedback ct client dir b) (λ _, J).
Proof.
  intros Hk Hpart Hdel Hout Hstep. unfold pull_artifact.
  eapply safe_bind with (R := λ _, I).
  { destruct (parent _); [apply safe_context, safe_sys_pure | by apply safe_ret]. }
  intros []. eapply safe_bind.
  { apply safe_context, (safe_file_create _ _ _ _
      (λ d, ∃ d0, d = <[part_path dir b := ""]> d0 ∧ G d0 ∧ I d0)). intros d Hd HI.
    split; [by apply Hpart|]. by exists d. }
  intros []. apply safe_exists. intros d0. apply safe_pure. intros [Hg0 HI0].
  eapply safe_bind; [eapply safe_try, safe_download; [done | auto | intros; apply safe_notify]|].
  intros [[]|err].
  - apply safe_bind_ret. do 5 (apply safe_exists; intros ?). eapply safe_pre.
    2:{ intros d _ (HN & E1 & E2 & Ed). exact (conj Ed (conj HN (conj E1 E2))). }
    apply safe_pure. intros (HN & E1 & E2). destruct (Hstep d0 _ _ _ _ _ Hg0 HI0 HN E1 E2) as [HG' HJ'].
    eapply safe_bind; [by apply safe_context, safe_rename|]. intros [].
    eapply safe_bind; [apply safe_notify|]. intros []. eapply safe_post; [apply safe_println|].
    by intros [] d _ ->.
  - eapply safe_bind; [by apply (safe_abandon _ _ _ _ _ (λ _ _, False))|]. by intros [] ? ? ? [].
Qed.
End steps.

(** ** What a pull leaves on the disk

    In the states [N], which reading keeps, the registry serves the image [img]
    with the configuration [json] under the reference; the client library checks a blob against its digest before it
    ends the stream. *)
Section pulled.
Context (options : PullOptions) (img : OciImageManifest) (json tag : string).
Context (digest_ok : string → string → Prop) (N : Net → Prop).

Definition pull_client : ClientConfig := build_client (pull_protocol options).
Definition served : Prop := ∀ n t x n', N n →
  pull_manifest_and_config pull_client (tagged (pull_reference options))
    (to_registry_auth (pull_credentials options)) n = ((t, Ok x), n') → ∃ dg, x = (img, dg, json).
Definition streams_verified : Prop := ∀ r desc n t s n' cs, N n →
  pull_blob_stream pull_client r desc n = ((t, Ok s), n') → (stream_items s).*2 = Ok <$> cs →
  digest_ok (desc_digest desc) (String.concat "" cs).

Definition selected : res (list ArtifactBinding) :=
  manifest ← read_manifest json; select_artifact_bindings manifest (blob_of <$> oci_layers img).
Definition bindings : list ArtifactBinding := default [] (res_ok selected).

Definition the_dir : string := pull_dir options tag.
Definition the_manifest : string := path_join the_dir "manifest.json".
Definition locals : list string := local_path the_dir <$> bindings.
Definition parts : list string := part_path the_dir <$> bindings.
(** What a pull delivers. *)
Definition download (p : string) : Prop := p = the_manifest ∨ p ∈ locals.

(** The files under their final names are whole. *)
Definition whole (d : Disk) : Prop := ∀ b c,
  b ∈ bindings → d !! local_path the_dir b = Some c → digest_ok (digest b) c.
Definition all_there (d : Disk) : Prop := ∀ b, b ∈ bindings → is_Some (d !! local_path the_dir b).
(** Before the manifest, and at any time. *)
Definition staging (d : Disk) : Prop := d !! the_manifest = None ∧ whole d.
Definition consistent (d : Disk) : Prop := whole d ∧ (is_Some (d !! the_manifest) → all_there d).

(** On success. *)
Definition checked (d : Disk) (m : Manifest.Manifest) : Prop :=
  Forall (λ f, ∃ c, d !! Manifest.full_name f the_dir = Some c ∧ sha256 host c = Manifest.sha256sum f)
    [Manifest.kernel m; Manifest.store m; Manifest.verity m].
Definition pulled (r : PullResult) (d : Disk) : Prop :=
  r = mkPullResult the_dir the_manifest ∧ all_there d ∧
  ∃ m content, read_manifest json = Ok m ∧
    select_artifact_bindings m (blob_of <$> oci_layers img) = Ok bindings ∧
    encode host m = Ok content ∧ d !! the_manifest = Some content ∧
    (validate options = true → checked d m).

Lemma select_digest m ls bs b :
  select_artifact_bindings m ls = Ok bs → b ∈ bs → digest b = blob_digest (blob b).
Proof.
  unfold select_artifact_bindings, required_binding, make_binding. intros Hs. res_simp. intros Hb.
  repeat (apply elem_of_cons in Hb as [->|Hb]; [done|]).
  destruct (find_layer_by_media_type _ Changelog); [|by apply not_elem_of_nil in Hb].
  by apply list_elem_of_singleton in Hb as ->.
Qed.

Lemma select_files m ls bs f :
  select_artifact_bindings m ls = Ok bs →
  f ∈ [Manifest.kernel m; Manifest.store m; Manifest.verity m] →
  ∃ b, b ∈ bs ∧ local_name b = Manifest.name f.
Proof.
  unfold select_artifact_bindings, required_binding, make_binding. intros Hs. res_simp.
  rewrite !elem_of_cons. intros [->|[->|[->|[]%not_elem_of_nil]]].
  - eexists. split; [by left | done].
  - eexists. split; [right; by left | done].
  - eexists. split; [do 2 right; by left | done].
Qed.

Lemma selected_bindings m bs :
  read_manifest json = Ok m → select_artifact_bindings m (blob_of <$> oci_layers img) = Ok bs →
  bindings = bs.
Proof. clear. intros Em Es. unfold bindings, selected. rewrite Em. cbn. by rewrite Es. Qed.

Lemma binding_digest b : b ∈ bindings → digest b = blob_digest (blob b).
Proof.
  unfold bindings, selected. destruct (_ ≫= _) as [bs| |] eqn:Es; cbn; [|set_solver..].
  res_simp. by eapply select_digest.
Qed.

Lemma download_local b : b ∈ bindings → download (local_path the_dir b).
Proof. intros Hb. right. by apply list_elem_of_fmap_2. Qed.
Lemma there_same d d' : (∀ q, download q → d' !! q = d !! q) → all_there d → all_there d'.
Proof. intros Hd Ha b Hb. rewrite Hd by (by apply download_local). by apply Ha. Qed.
Lemma consistent_same d d' : (∀ q, download q → d' !! q = d !! q) → consistent d → consistent d'.
Proof.
  intros Hd [Hw Ha]. split.
  - intros b c Hb. rewrite Hd by (by apply download_local). by apply Hw.
  - rewrite Hd by (by left). intros Hm. by eapply there_same; [|apply Ha].
Qed.
Lemma checked_same m bs d d' :
  select_artifact_bindings m (blob_of <$> oci_layers img) = Ok bs → bindings = bs →
  (∀ q, download q → d' !! q = d !! q) → checked d m → checked d' m.
Proof.
  intros Es Eb Hd. unfold checked. rewrite !Forall_forall. intros Hc f Hf. destruct (Hc f Hf) as (c & Hl & Hs).
  exists c. split; [|done]. destruct (select_files _ _ _ f Es Hf) as (b & Hb & En).
  rewrite Hd; [done|]. unfold Manifest.full_name. rewrite <-En. apply download_local. by rewrite Eb.
Qed.

Context (Hkeep : reads_keep N pull_client) (Hserved : served) (Hverified : streams_verified).
Context (Htag : tag_or_digest (pull_reference options) = Ok tag).
Context (Hnames : NoDup (lock_path options :: the_manifest :: locals ++ parts)).
Context (Hinst : install options = true → installer_spares download).

#[local] Set Default Proof Using "All".

(** Paths that differ. *)
Lemma lock_not_manifest : lock_path options ≠ the_manifest.
Proof. apply NoDup_cons in Hnames as [Hn _]. set_solver. Qed.
Lemma lock_not_local b : b ∈ bindings → lock_path options ≠ local_path the_dir b.
Proof.
  intros Hb E. apply NoDup_cons in Hnames as [Hn _]. apply Hn. rewrite E. right.
  apply elem_of_app. left. by apply list_elem_of_fmap_2.
Qed.
Lemma manifest_not_local b : b ∈ bindings → the_manifest ≠ local_path the_dir b.
Proof.
  intros Hb E. apply NoDup_cons in Hnames as [_ [Hn _]%NoDup_cons]. apply Hn. rewrite E.
  apply elem_of_app. left. by apply list_elem_of_fmap_2.
Qed.
Lemma manifest_not_part b : b ∈ bindings → the_manifest ≠ part_path the_dir b.
Proof.
  intros Hb E. apply NoDup_cons in Hnames as [_ [Hn _]%NoDup_cons]. apply Hn. rewrite E.
  apply elem_of_app. right. by apply list_elem_of_fmap_2.
Qed.
Lemma part_not_local b b' : b ∈ bindings → b' ∈ bindings → part_path the_dir b ≠ local_path the_dir b'.
Proof.
  intros Hb Hb' E. apply NoDup_cons in Hnames as [_ [_ (_ & Hd & _)%NoDup_app]%NoDup_cons].
  apply (Hd (local_path the_dir b')); [by apply list_elem_of_fmap_2|].
  rewrite <-E. by apply list_elem_of_fmap_2.
Qed.
Lemma local_inj pre b todo b' : bindings = pre ++ b :: todo → b' ∈ pre →
  local_path the_dir b ≠ local_path the_dir b'.
Proof.
  intros Eb Hb' E. apply NoDup_cons in Hnames as [_ [_ (Hl & _ & _)%NoDup_app]%NoDup_cons].
  unfold locals in Hl. rewrite Eb, fmap_app in Hl. apply NoDup_app in Hl as (_ & Hd & _).
  apply (Hd (local_path the_dir b')); [by apply list_elem_of_fmap_2|]. rewrite <-E. cbn. by left.
Qed.
(** The lock file and the temporary files do not matter. *)
Definition elsewhere (p : string) : Prop := ∀ b, b ∈ bindings → p ≠ local_path the_dir b.

Lemma whole_insert d p c : elsewhere p → whole d → whole (<[p := c]> d).
Proof. intros Hp Hw b c' Hb. rewrite lookup_insert_ne by (by apply Hp). by apply Hw. Qed.
Lemma whole_delete d p : whole d → whole (delete p d).
Proof. intros Hw b c Hb [_ Hl]%lookup_delete_Some. by eapply Hw. Qed.
Lemma whole_outside d dir : whole d → whole (outside dir d).
Proof. intros Hw b c Hb [Hl _]%map_lookup_filter_Some. by eapply Hw. Qed.
Lemma there_insert d p c : all_there d → all_there (<[p := c]> d).
Proof. intros Ha b Hb. apply lookup_insert_is_Some'. right. by apply Ha. Qed.
Lemma there_delete d p : elsewhere p → all_there d → all_there (delete p d).
Proof. intros Hp Ha b Hb. rewrite lookup_delete_ne by (by apply Hp). by apply Ha. Qed.

Lemma staging_delete d p : staging d → staging (delete p d).
Proof. intros [Hm Hw]. split; [|by apply whole_delete]. apply lookup_delete_None. by right. Qed.
Lemma staging_outside d dir : staging d → staging (outside dir d).
Proof. intros [Hm Hw]. split; [|by apply whole_outside]. apply map_lookup_filter_None. by left. Qed.
Lemma staging_insert d p c : elsewhere p → p ≠ the_manifest → staging d → staging (<[p := c]> d).
Proof. intros Hp Hm [? Hw]. split; [by rewrite lookup_insert_ne | by apply whole_insert]. Qed.
Lemma staging_consistent d : staging d → consistent d.
Proof. intros [Hm Hw]. split; [done|]. rewrite Hm. by intros []%is_Some_None. Qed.

Lemma safe_artifacts feedback ct :
  safe staging N (λ _, True) (each (pull_artifact options feedback ct pull_client the_dir) bindings)
    (λ _, all_there).
Proof.
  eapply safe_post; [eapply safe_pre|].
  - apply (safe_each staging N (λ pre d, ∀ b, b ∈ pre → is_Some (d !! local_path the_dir b))).
    intros pre b todo Eb.
    assert (b ∈ bindings) as Hb by (rewrite Eb; set_solver).
    apply safe_pull_artifact.
    + exact Hkeep.
    + intros d c. apply staging_insert; [intros b' Hb'; by apply part_not_local|].
      intros E. by apply (manifest_not_part b Hb).
    + intros d p Hd _. by apply staging_delete.
    + intros d. apply staging_outside.
    + intros d n t n' st cs [Hm Hw] HI HN E1 E2. cbn zeta.
      pose proof (Hverified _ _ _ _ _ _ _ HN E1 E2) as Hok. cbn in Hok. rewrite <-binding_digest in Hok by done.
      split; [split|].
      * rewrite lookup_insert_ne by (intros E; by apply (manifest_not_local b Hb)).
        apply lookup_delete_None. by right.
      * intros b' c Hb'. destruct (decide (local_path the_dir b = local_path the_dir b')) as [E|E].
        -- rewrite E, lookup_insert_eq. intros [= <-].
           assert (b = b') as <-; [|done].
           rewrite Eb in Hb'. apply elem_of_app in Hb' as [Hb'|Hb'].
           { by destruct (local_inj pre b todo b' Eb Hb'). }
           apply elem_of_cons in Hb' as [->|Hb']; [done|].
           apply list_elem_of_split in Hb' as (t1 & t2 & ->).
           destruct (local_inj (pre ++ b :: t1) b' t2 b); [by rewrite Eb, <-app_assoc | set_solver | done].
        -- rewrite lookup_insert_ne by done. intros [_ Hl]%lookup_delete_Some. by eapply Hw.
      * intros b' [Hb'| ->%list_elem_of_singleton]%elem_of_app.
        -- apply lookup_insert_is_Some'. right. rewrite lookup_delete_ne; [by apply HI|].
           apply part_not_local; [done|]. rewrite Eb. set_solver.
        -- rewrite lookup_insert_eq. done.
  - intros d _ _ b []%not_elem_of_nil.
  - by intros [] d _ Hd.
Qed.

Lemma safe_finish feedback m bs :
  read_manifest json = Ok m → select_artifact_bindings m (blob_of <$> oci_layers img) = Ok bs →
  safe consistent N (λ d, staging d ∧ all_there d) (finish_pull options feedback the_dir m) pulled.
Proof.
  intros Em Es. unfold finish_pull. fold the_manifest.
  set (R := λ d : Disk, all_there d ∧ ∃ content, encode host m = Ok content ∧ d !! the_manifest = Some content).
  eapply safe_bind with (R := λ _, R).
  { apply safe_context. unfold write_manifest. eapply safe_bind.
    { apply safe_context, (safe_lift _ _ _ _ (λ c d, ∃ d0, (d = d0 ∧ True) ∧ staging d0 ∧ all_there d0 ∧ encode host m = Ok c)).
      intros c d Ec _ [Hs Ha]. by exists d. }
    intros content. apply safe_exists. intros d0. apply safe_pure. intros ([Hm Hw] & Ha & Ec).
    eapply safe_post; [apply safe_context, (safe_write_file _ _ _ _ (λ _, True))|].
    - intros c. split; [apply whole_insert; [exact manifest_not_local|done]|].
      intros _. by apply there_insert.
    - intros [] d _ [-> _]. split; [by apply there_insert|]. exists content. by rewrite lookup_insert_eq. }
  intros []. eapply safe_bind; [apply safe_notify|]. intros [].
  eapply safe_bind with (R := λ _ d, R d ∧ (validate options = true → checked d m)).
  { destruct (validate options); [|by apply safe_ret].
    eapply safe_bind; [apply (safe_gets _ _ _ _ (λ x d, x = d ∧ R d)); by intros w _ HR|]. intros x.
    apply safe_context, safe_lift. intros [] d Hv _ [-> HR]. split; [done|]. intros _.
    apply Install.validate_sound in Hv. eapply Forall_impl; [exact Hv|]. intros f (c & Hc & Hs).
    exists c. split; [|exact Hs]. revert Hc. cbn. unfold on_read. destruct (read_fault _ _); [done|].
    destruct (d !! _); [by intros [= ->] | done]. }
  intros []. eapply safe_bind with (R := λ _ d, R d ∧ (validate options = true → checked d m)).
  { destruct (install options) eqn:Ei; [|by apply safe_ret].
    eapply safe_bind; [apply safe_notify|]. intros [].
    apply safe_context, (safe_installer _ _ download); [by apply Hinst|exact consistent_same|].
    intros d d' Hd [(Ha & content & Ec & El) Hc]. split.
    - split; [by eapply there_same|]. exists content. by rewrite Hd by (by left).
    - intros Hv. eapply checked_same; [done|by apply (selected_bindings m bs)|done|by apply Hc]. }
  intros []. eapply safe_bind; [apply safe_println|]. intros []. eapply safe_bind; [apply safe_notify|]. intros [].
  apply safe_ret. intros d _ ((Ha & content & Ec & El) & Hc). split; [done|]. split; [done|].
  exists m, content. by rewrite (selected_bindings m bs Em Es).
Qed.

Lemma safe_fetch_remote feedback ct (Q : RemoteImage → Disk → Prop) :
  (∀ d dg, staging d → Q (remote_image (tagged (pull_reference options)) img dg json) d) →
  safe staging N (λ _, True) (fetch_remote options feedback ct pull_client the_dir) Q.
Proof.
  intros HQ. unfold fetch_remote. eapply safe_bind; [by apply safe_timeout, safe_fetch|].
  intros [r|e|x].
  - apply safe_ret. intros d Hd (_ & n & t & n' & m & dg & js & HN & E & ->).
    apply Hserved in E as [dg' [= -> -> ->]]; [|done]. by apply HQ.
  - apply safe_abandon; [intros d p Hd _; by apply staging_delete | intros d; apply staging_outside].
  - by apply safe_lift.
Qed.

Lemma safe_pull_locked feedback ct :
  safe consistent N staging (pull_locked options feedback ct) pulled.
Proof.
  unfold pull_locked. rewrite Htag. eapply safe_bind; [by apply (safe_lift _ _ _ _ (λ t d, t = tag ∧ staging d)); intros t d [= ->]|].
  intros t. apply (safe_pre _ _ (λ d, staging d ∧ t = tag)); [|by intros d _ [-> Hs]].
  apply safe_pure. intros ->.
  fold the_dir. eapply safe_bind; [apply safe_context, safe_sys_pure|]. intros [].
  eapply safe_bind; [apply safe_notify|]. intros []. eapply safe_bind; [apply safe_println|]. intros [].
  fold pull_client.
  eapply safe_bind.
  { eapply safe_pre; [apply (safe_within staging consistent N (λ _, True)); [exact staging_consistent|]|by intros d _ Hd].
    apply (safe_fetch_remote _ _ (λ r _, ∃ dg, r = remote_image (tagged (pull_reference options)) img dg json)).
    by eexists. }
  intros remote. cbn beta. apply safe_pure. intros [dg ->]. cbn [config_json layers remote_image].
  eapply safe_bind; [apply (safe_lift _ _ _ _ (λ m d, staging d ∧ read_manifest json = Ok m)); by intros m d Em _ Hd|].
  intros m. apply safe_pure. intros Em.
  eapply safe_bind; [apply (safe_lift _ _ _ _ (λ bs d, staging d ∧
    select_artifact_bindings m (blob_of <$> oci_layers img) = Ok bs)); by intros bs d Es _ Hd|].
  intros bs. apply safe_pure. intros Es. rewrite <-(selected_bindings m bs Em Es).
  eapply safe_bind.
  { eapply safe_pre; [apply (safe_within staging consistent N (λ _, True)); [exact staging_consistent|]|by intros d _ Hd].
    apply safe_artifacts. }
  intros []. by eapply safe_finish.
Qed.

Lemma consistent_lock d c : consistent d → consistent (<[lock_path options := c]> d).
Proof.
  intros [Hw Hm]. split; [apply whole_insert; [exact lock_not_local|done]|].
  rewrite lookup_insert_ne by exact lock_not_manifest. intros Hs. by apply there_insert, Hm.
Qed.
Lemma consistent_unlock d : consistent d → consistent (delete (lock_path options) d).
Proof.
  intros [Hw Hm]. split; [by apply whole_delete|].
  rewrite lookup_delete_ne by exact lock_not_manifest. intros Hs.
  apply there_delete; [exact lock_not_local|]. by apply Hm.
Qed.

Lemma pulled_unlock r d : pulled r d → pulled r (delete (lock_path options) d).
Proof.
  intros (-> & Ha & m & content & Em & Es & Ec & El & Hv).
  split; [done|]. split; [apply there_delete; [exact lock_not_local|done]|].
  exists m, content. rewrite lookup_delete_ne by exact lock_not_manifest. repeat split; try done.
  intros Hval. specialize (Hv Hval). unfold checked in *. rewrite Forall_forall in Hv |- *.
  intros f Hf. destruct (Hv f Hf) as (c & El' & Hs). exists c. split; [|done].
  destruct (select_files _ _ _ f Es Hf) as (b & Hb & Eb).
  rewrite lookup_delete_ne; [done|]. unfold Manifest.full_name. rewrite <-Eb. by apply lock_not_local.
Qed.

Lemma safe_pull_update feedback ct :
  safe consistent N staging (pull_update options feedback ct) pulled.
Proof.
  unfold pull_update. eapply safe_bind; [apply safe_context, safe_sys_pure|]. intros [].
  apply safe_with_lock; [apply safe_pull_locked | exact consistent_lock | | exact consistent_unlock | exact pulled_unlock].
  intros d c. apply staging_insert; [exact lock_not_local | exact lock_not_manifest].
Qed.

Lemma pull_run feedback ct w : N (net w) → staging (disk w) →
  hist consistent N w (pull_update options feedback ct [] w).2 ∧
  match (pull_update options feedback ct [] w).1 with
  | Ready (Ok r) => pulled r (disk (pull_update options feedback ct [] w).2)
  | _ => True
  end.
Proof. intros HN Hs. apply safe_pull_update; [by split; [apply staging_consistent|] | done]. Qed.
End pulled.

(** ** Where a pull writes *)

Lemma sanitize_normalize value r :
  sanitize_relative_file_path value = Ok r ↔ Manifest.normalize_relative_path value = Ok r.
Proof.
  unfold sanitize_relative_file_path, Manifest.normalize_relative_path.
  destruct (is_absolute value); [done|]. rewrite !bind_Ok.
  assert (∀ cs out x, foldM_res (push_part value) out cs = Ok x ↔
    foldM_res (Manifest.push_component value) out cs = Ok x) as Hf.
  { induction cs as [|c cs IH]; intros out x; [done|]. destruct c; cbn; [done|apply IH|done|apply IH]. }
  split; intros (out & Ho & Hr); (exists out; split; [by apply Hf|]); by case_bool_decide.
Qed.

Definition relative_name (n : string) : Prop := ∃ l, n = join "/" l ∧ l ≠ [] ∧ Forall plain l.

Lemma normalize_name p r : Manifest.normalize_relative_path p = Ok r → relative_name r.
Proof.
  intros (_ & _ & Hne & ->)%Manifest.normalize_Ok. eexists.
  split; [done|]. split; [done | apply Manifest.normals_plain].
Qed.

Lemma select_names json m ls bs b :
  read_manifest json = Ok m → select_artifact_bindings m ls = Ok bs → b ∈ bs →
  relative_name (local_name b).
Proof.
  unfold read_manifest, Manifest.normalize_paths, Manifest.normalize_path.
  unfold select_artifact_bindings, required_binding, make_binding. intros Hm Hs. res_simp. intros Hb.
  repeat (apply elem_of_cons in Hb as [->|Hb]; [by eapply normalize_name|]).
  destruct (find_layer_by_media_type _ Changelog) as [layer|]; [|by apply not_elem_of_nil in Hb].
  apply list_elem_of_singleton in Hb as ->. cbn. unfold changelog_local_name.
  assert (relative_name "changelog.txt").
  { exists ["changelog.txt"]. split; [done|]. split; [done|]. by repeat constructor. }
  destruct (_ ≫= _) as [title|]; [|done].
  destruct (sanitize_relative_file_path title) eqn:Et; [|done..].
  by eapply normalize_name, sanitize_normalize.
Qed.

Lemma under_local dir n : dir ≠ "" → ends_with "/" dir = false → relative_name n →
  under dir (path_join dir n) = true.
Proof.
  intros Hne Hend (l & -> & _ & Hl). rewrite path_join_names by done.
  apply starts_with_spec. exists (join "/" l). by rewrite str_app_assoc.
Qed.

Lemma under_part dir n : dir ≠ "" → ends_with "/" dir = false → relative_name n →
  under dir (with_added_extension (path_join dir n) "part") = true.
Proof.
  intros Hne Hend (l & -> & Hl0 & Hl). rewrite path_join_names by done.
  unfold with_added_extension. destruct (file_name _); apply starts_with_spec.
  - rewrite trim_back_names by done. exists (join "/" l +:+ ".part"). by rewrite !str_app_assoc.
  - exists (join "/" l). by rewrite str_app_assoc.
Qed.

Section confined.
Context (options : PullOptions) (tag : string) (d0 : Disk).
Context (Htag : tag_or_digest (pull_reference options) = Ok tag).
Context (Hplain : plain (sanitize_path_component tag)).
Context (K : string → Prop) (Hinst : install options = true → installer_spares K).

Definition confined (d : Disk) : Prop := ∀ p,
  K p → p ≠ lock_path options → under (pull_dir options tag) p = false → d !! p = d0 !! p.

#[local] Set Default Proof Using "All".
Local Abbreviation dir := (pull_dir options tag).

Lemma dir_ends : dir ≠ "" ∧ ends_with "/" dir = false.
Proof.
  unfold pull_dir. rewrite Manifest.path_join_plain by done.
  pose proof Hplain as (Hne & _). destruct (_ || _).
  - split; [by intros [_ ?]%str_app_eq_nil | by apply Manifest.no_slash_end].
  - split; [by intros [_ [? _]%str_app_eq_nil]%str_app_eq_nil|].
    rewrite <-str_app_assoc. by apply Manifest.no_slash_end.
Qed.

Lemma confined_insert d p c : under dir p = true → confined d → confined (<[p := c]> d).
Proof. intros Hu Hd q HK Hq Hq'. rewrite lookup_insert_ne by congruence. by apply Hd. Qed.
Lemma confined_delete d p : under dir p = true → confined d → confined (delete p d).
Proof. intros Hu Hd q HK Hq Hq'. rewrite lookup_delete_ne by congruence. by apply Hd. Qed.
Lemma confined_outside d : confined d → confined (outside dir d).
Proof.
  intros Hd q HK Hq Hq'. rewrite <-Hd by done. unfold outside.
  rewrite map_lookup_filter. destruct (d !! q) as [c|]; [|done]. cbn.
  by rewrite option_guard_True by done.
Qed.

Lemma confined_finish feedback m :
  safe confined (λ _, True) (λ _, True) (finish_pull options feedback dir m) (λ _ _, True).
Proof.
  destruct dir_ends as [Hne Hend]. unfold finish_pull.
  assert (relative_name "manifest.json").
  { exists ["manifest.json"]. split; [done|]. split; [done|]. by repeat constructor. }
  eapply safe_bind with (R := λ _ _, True).
  { apply safe_context. unfold write_manifest. eapply safe_bind.
    { apply safe_context, (safe_lift _ _ _ _ (λ _ d, ∃ x, (d = x ∧ True) ∧ confined x)).
      intros c d _ Hd _. by exists d. }
    intros content. apply safe_exists. intros x. apply safe_pure. intros Hx.
    eapply safe_post; [apply safe_context, (safe_write_file _ _ _ _ (λ _, True))|done].
    intros c. by apply confined_insert; [apply under_local|]. }
  intros []. eapply safe_bind; [apply safe_notify|]. intros [].
  eapply safe_bind with (R := λ _ _, True).
  { destruct (validate options); [|by apply safe_ret].
    eapply safe_bind; [by apply (safe_gets _ _ _ _ (λ _ _, True))|]. intros x.
    by apply safe_context, safe_lift. }
  intros []. eapply safe_bind with (R := λ _ _, True).
  { destruct (install options) eqn:Ei; [|by apply safe_ret].
    eapply safe_bind; [apply safe_notify|]. intros [].
    apply safe_context, (safe_installer _ _ K); [by apply Hinst| |done].
    intros d d' Hd Hc q HK Hq Hu. rewrite Hd by done. by apply Hc. }
  intros []. eapply safe_bind; [apply safe_println|]. intros [].
  eapply safe_bind; [apply safe_notify|]. intros []. by apply safe_ret.
Qed.

Lemma confined_artifacts feedback ct client json m ls bs :
  read_manifest json = Ok m → select_artifact_bindings m ls = Ok bs →
  safe confined (λ _, True) (λ _, True) (each (pull_artifact options feedback ct client dir) bs) (λ _ _, True).
Proof.
  destruct dir_ends as [Hne Hend]. intros Em Es.
  apply (safe_each _ _ (λ _ _, True)). intros pre b todo Eb.
  assert (relative_name (local_name b)) as Hb by (eapply select_names; [done..|]; rewrite Eb; set_solver).
  apply safe_pull_artifact; [by repeat split | | | exact confined_outside |].
  - intros d c. by apply confined_insert, under_part.
  - intros d p ? ?. by apply confined_delete.
  - intros d n t n' s cs Hd _ _ _ _. split; [|done].
    apply confined_insert; [by apply under_local|]. by apply confined_delete; [apply under_part|].
Qed.

Lemma confined_pull feedback ct :
  safe confined (λ _, True) (λ _, True) (pull_update options feedback ct) (λ _ _, True).
Proof.
  unfold pull_update. eapply safe_bind; [apply safe_context, safe_sys_pure|]. intros [].
  apply safe_with_lock; [| | done | | done].
  2:{ intros d c Hd q HK Hq Hq'. rewrite lookup_insert_ne by done. by apply Hd. }
  2:{ intros d Hd q HK Hq Hq'. rewrite lookup_delete_ne by done. by apply Hd. }
  unfold pull_locked. rewrite Htag.
  eapply safe_bind; [by apply (safe_lift _ _ _ _ (λ t _, True ∧ t = tag)); intros t d [= ->]|].
  intros t. apply safe_pure. intros ->.
  eapply safe_bind; [apply safe_context, safe_sys_pure|]. intros [].
  eapply safe_bind; [apply safe_notify|]. intros []. eapply safe_bind; [apply safe_println|]. intros [].
  eapply safe_bind with (R := λ _ _, True).
  { unfold fetch_remote. eapply safe_bind; [by apply safe_timeout, safe_fetch|]. intros [r|e|x].
    - by apply safe_ret.
    - eapply safe_pre; [apply safe_abandon; [|exact confined_outside] | done].
      intros d p ? ?. by apply confined_delete.
    - by apply safe_lift. }
  intros remote.
  eapply safe_bind; [by apply (safe_lift _ _ _ _ (λ m _, True ∧ read_manifest (config_json remote) = Ok m))|].
  intros m. apply safe_pure. intros Em.
  eapply safe_bind; [by apply (safe_lift _ _ _ _ (λ bs _, True ∧ select_artifact_bindings m (layers remote) = Ok bs))|].
  intros bs. apply safe_pure. intros Es.
  eapply safe_bind; [by eapply confined_artifacts|]. intros []. apply confined_finish.
Qed.
End confined.

(** ** What discovering returns *)

Section discovered.
Context (options : DiscoverOptions) (feedback : bool).
Local Abbreviation client := (build_client (disc_protocol options)).
Local Abbreviation auth := (to_registry_auth (disc_credentials options)).

(** The update behind a tag, if its image came in time and is one. *)
Definition tag_update (r : TaggedReference) (n : Net) : option AvailableUpdate * Net :=
  let '((t, answer), n') := pull_manifest_and_config client (tagged r) auth n in
  (if t <=? 30 * 1000 then
     '(m, dg, json) ← res_ok answer;
     manifest ← res_ok (Manifest.from_slice (decode host) json);
     Some (mkAvailable (repository_path (tagged r)) (default "latest" (tag_or (tagged r)))
             (Manifest.version manifest) (Manifest.root_verity_hash manifest))
   else None, n').
Fixpoint tags_updates (refs : list TaggedReference) (n : Net) : list AvailableUpdate :=
  match refs with
  | [] => []
  | r :: refs => let '(u, n') := tag_update r n in option_list u ++ tags_updates refs n'
  end.

(** The client library does not panic and has errors of its own. *)
Definition library_answer {A} (r : res A) : Prop :=
  match r with Ok _ => True | Err e => is_cancellation e = false | Panic _ => False end.
Context (Hdecode : ∀ s, is_panic (decode host s) = false).
Context (Hnet : ∀ r n, library_answer (pull_manifest_and_config client r auth n).1.2).
#[local] Set Default Proof Using "Hdecode Hnet".

(** A request under a deadline and no token. *)
Lemma timeout_request {A B} d msg cmsg (f : Net → (nat * res A) * Net) (g : A → B) (k : A → AS B) w :
  (∀ a ctx w, k a ctx w = (Ready (Ok (g a)), w)) →
  library_answer (f (net w)).1.2 →
  ∃ w', net w' = (f (net w)).2 ∧
    try_ (timeout d msg (context cmsg (request f) ≫= k)) [] w =
      (Ready (Ok (if (f (net w)).1.1 <=? d
                  then inl (g <$> with_context cmsg (f (net w)).1.2)
                  else inr [Msg msg; Msg "deadline has elapsed"])), w').
Proof.
  clear. intros Hk. unfold try_, timeout, until, context, request, gets, modify, await, lift, mbind, AS_bind, mret, AS_ret.
  cbn -[Nat.leb Nat.ltb Nat.eqb]. destruct (f (net w)) as [[t r] n']. cbn -[Nat.leb Nat.ltb Nat.eqb].
  intros Hp. destruct (Nat.eqb_spec t 0) as [->|Ht].
  { eexists. split; [|destruct r; cbn; by rewrite ?Hk]. done. }
  cbn -[Nat.leb Nat.ltb].
  destruct (Nat.ltb_spec (now w + d) (now w + t)); destruct (Nat.leb_spec t d); try lia; cbn.
  - eexists. split; [|done]. done.
  - eexists. split; [|destruct r; cbn; by rewrite ?Hk]. done.
Qed.

Lemma timeout_answer {A} d msg cmsg (f : Net → (nat * res A) * Net) w t a n' :
  f (net w) = ((t, Ok a), n') → t ≤ d →
  ∃ w', timeout d msg (context cmsg (request f)) [] w = (Ready (Ok (Ok a)), w') ∧ net w' = n'.
Proof.
  clear. intros Ef Ht.
  unfold timeout, until, context, request, gets, modify, await, lift, mbind, AS_bind, mret, AS_ret.
  cbn -[Nat.ltb Nat.eqb]. rewrite Ef. cbn -[Nat.ltb Nat.eqb].
  destruct (t =? 0); [by eexists|]. cbn -[Nat.ltb].
  destruct (Nat.ltb_spec (now w + d) (now w + t)); [lia|]. by eexists.
Qed.

Lemma notify_run e ctx w : ∃ w', notify feedback e ctx w = (Ready (Ok tt), w') ∧ net w' = net w.
Proof. clear. unfold notify. destruct feedback; by eexists. Qed.

Lemma discover_tag_run total current tag r w :
  for_tag (disc_reference options) tag = Ok r →
  ∃ w', discover_tag options feedback None client total current tag [] w =
          (Ready (Ok (tag_update r (net w)).1), w') ∧ net w' = (tag_update r (net w)).2.
Proof.
  intros Er. unfold discover_tag. rewrite Er. unfold mbind at 1, AS_bind at 1, lift at 1.
  destruct (notify_run (TagDiscovered (repository_path (tagged r)) tag current total) [] w) as (w1 & E1 & N1).
  unfold mbind at 1, AS_bind at 1. rewrite E1. unfold mbind at 1, AS_bind at 1.
  unfold fetch_manifest_and_config, cancelable.
  destruct (timeout_request (30 * 1000) "" "while fetching manifest and config"
    (pull_manifest_and_config client (tagged r) auth)
    (λ x, remote_image (tagged r) x.1.1 x.1.2 x.2)
    (λ x, let '(m, dg, json) := x in mret (remote_image (tagged r) m dg json)) w1) as (w2 & N2 & E2).
  { by intros [[m dg] json]. }
  { apply Hnet. }
  rewrite N1 in N2, E2. rewrite E2. unfold tag_update. pose proof (Hnet (tagged r) (net w)) as Ha.
  destruct (pull_manifest_and_config _ _ _ _) as [[t answer] n']. cbn [fst snd] in *.
  destruct (t <=? 30 * 1000); [|by eexists].
  destruct answer as [[[m dg] json]|e|s]; cbn in Ha |- *;
    [|unfold is_cancellation in Ha; rewrite Ha; by eexists|done].
  pose proof (Hdecode json) as Hj. unfold Manifest.from_slice.
  destruct (decode host json) as [mf| |]; [|by eexists|done]. cbn.
  destruct (notify_run (ManifestFetched (repository_path (tagged r)) (default "latest" (tag_or (tagged r)))
    current total) [] w2) as (w3 & E3 & N3).
  unfold mbind, AS_bind. rewrite E3. eexists. split; [done|]. by rewrite N3.
Qed.

Lemma discover_tags_run total refs : ∀ idx tags updates w,
  mapM_res (for_tag (disc_reference options)) tags = Ok refs →
  ∃ w', discover_tags options feedback None client total idx tags updates [] w =
    (Ready (Ok (updates ++ tags_updates refs (net w))), w').
Proof.
  induction refs as [|r refs IH]; intros idx tags updates w Ht%mapM_res_Ok.
  { inversion Ht; subst. eexists. cbn. by rewrite app_nil_r. }
  inversion Ht as [|tag r' tags' refs' Hr Hrs]; subst. cbn [discover_tags tags_updates].
  destruct (discover_tag_run total (idx + 1) tag r w Hr) as (w1 & E1 & N1).
  unfold mbind, AS_bind. rewrite E1. destruct (tag_update r (net w)) as [u n']. cbn [fst snd] in *.
  destruct (IH (S idx) tags' (updates ++ option_list u) w1) as (w2 & E2); [by apply mapM_res_Ok|].
  exists w2. by rewrite E2, N1, app_assoc.
Qed.

Lemma discover_run w t tags n' refs :
  client_list_tags client (untagged (disc_reference options)) auth (net w) = ((t, Ok tags), n') →
  t ≤ 30 * 1000 →
  mapM_res (for_tag (disc_reference options)) tags = Ok refs →
  ∃ w', discover_updates options feedback None [] w = (Ready (Ok (tags_updates refs n')), w').
Proof.
  intros El Ht Hrefs. unfold discover_updates, list_tags, cancelable.
  set (c := client_list_tags client (untagged (disc_reference options)) auth) in *.
  destruct (timeout_answer (30 * 1000) "discover timeout while listing tags"
    "while listing repository tags" c w t tags n' El Ht) as (w1 & E1 & N1).
  unfold mbind, AS_bind. rewrite E1. cbn [lift].
  destruct (notify_run (DiscoverStarted (ref_to_string (untagged (disc_reference options))) (length tags)) [] w1)
    as (w2 & E2 & N2). unfold lift. rewrite E2.
  destruct (discover_tags_run (length tags) refs 0 tags [] w2 Hrefs) as (w3 & E3). rewrite E3.
  destruct (notify_run Done [] w3) as (w4 & E4 & _). rewrite E4. exists w4. by rewrite N2, N1.
Qed.
End discovered.

End registry.
End Registry.

(** ** A registry in memory

    An instance of the client library that witnesses the assumptions on it: a
    blob is named by its content, and a request takes ten milliseconds. *)
Module MemRegistry.
Import Oci Transfer Registry.

Record MemRef := mkRef { mem_repo : string; mem_tag : option string; mem_digest : option string }.

#[global] Instance mem_reference : OciReference := {|
  Reference := MemRef;
  parse_ref s :=
    let s := default s (strip_prefix "r.io/" s) in
    match split_once ":"%char s with
    | Some (r, t) => Ok (mkRef r (Some t) None)
    | None => Ok (mkRef s (Some "latest") None)
    end;
  ref_to_string r := "r.io/" +:+ mem_repo r +:+ ":" +:+ default "" (mem_tag r);
  resolve_registry _ := "r.io";
  repository := mem_repo;
  ref_tag := mem_tag;
  ref_digest := mem_digest
|}.

Definition mem_sha (content : string) : string := "sha256:" +:+ content.
Record MemNet := mkNet {
  mem_blobs : gmap string string;
  mem_images : gmap string OciImageManifest
}.
Definition missing {A} : res A := Err [Msg "not found"].

Definition mem_pull (r : MemRef) (n : MemNet) : res (OciImageManifest * string * string) :=
  match mem_images n !! ref_to_string r with
  | Some m =>
      match mem_blobs n !! desc_digest (oci_config m) with
      | Some json => Ok (m, "sha256:manifest", json)
      | None => missing
      end
  | None => missing
  end.
Definition mem_stream (d : OciDescriptor) (n : MemNet) : res BlobStream :=
  match mem_blobs n !! desc_digest d with
  | Some c =>
      if bool_decide (mem_sha c = desc_digest d)
      then Ok (mkStream (Some (Z.of_nat (String.length c))) [(5, Ok c)] 1) else missing
  | None => missing
  end.
Definition mem_store (c dg : string) (n : MemNet) : (nat * res string) * MemNet :=
  if bool_decide (mem_sha c = dg)
  then ((10, Ok ("/blobs/" +:+ dg)), mkNet (<[dg := c]> (mem_blobs n)) (mem_images n))
  else ((10, Err [Msg "digest mismatch"]), n).

#[global] Instance mem_client : OciClient := {|
  Net := MemNet;
  client_list_tags _ r _ n :=
    ((10, Ok (filter_map (λ kv, strip_prefix ("r.io/" +:+ mem_repo r +:+ ":") kv.1)
                (map_to_list (mem_images n)))), n);
  client_auth _ _ _ _ n := ((10, Ok tt), n);
  pull_manifest_and_config _ r _ n := ((10, mem_pull r n), n);
  pull_blob_stream _ _ d n := ((10, mem_stream d n), n);
  push_blob_stream _ _ items dg _ n :=
    match mapM_res (λ x, x) items with
    | Ok cs => mem_store (String.concat "" cs) dg n
    | Err e => ((10, Err e), n)
    | Panic s => ((10, Panic s), n)
    end;
  push_consumed _ _ items _ _ _ := length items;
  push_blob _ _ c dg n := mem_store c dg n;
  push_manifest _ r m n :=
    ((10, Ok ("r.io/manifests/" +:+ default "" (mem_tag r))),
     mkNet (mem_blobs n) (<[ref_to_string r := m]> (mem_images n)))
|}.

(** No system call fails. *)
#[global] Instance no_faults : Os := {| fault _ := None; partial _ := 0; removal _ := [] |}.

(** An update: three files and a configuration; SHA-256 is the content itself. *)
Definition ex_manifest (version kernel root verity : string) : Manifest.Manifest :=
  Manifest.mkManifest ∅ 1 None version "0123456789abcdef"
    (Manifest.mkFile "uki.efi" kernel None) (Manifest.mkFile "root.raw" root None)
    (Manifest.mkFile "verity.raw" verity None).
Definition ex_manifests : list Manifest.Manifest :=
  [ex_manifest "v1" "K1" "R1" "V1"; ex_manifest "v2" "K2" "R2" "V2"].
Definition ex_host : Host :=
  mkHost (Some "ghaf") 42 (λ m, Ok (Manifest.version m))
    (λ s, ok_or (find_first (λ m, bool_decide (Manifest.version m = s)) ex_manifests) "bad json")
    (λ s, Ok s) (λ s, s) (λ s, s) (λ _, None) (Ok "") (Ok []) (Ok []).

Definition ex_layer (t : MediaType) (content : string) (title : option string) : OciDescriptor :=
  mkDescriptor (media_type_str t) (mem_sha content) (Z.of_nat (String.length content))
    ((λ t, {[TITLE := t]}) <$> title) None.
Definition ex_image (config : string) (layers : list OciDescriptor) : OciImageManifest :=
  mkOciManifest 2 None (ex_layer Manifest config None) layers None None None.
Definition ex_net (config : string) (layers : list OciDescriptor) (contents : list string) : MemNet :=
  mkNet (list_to_map ((λ c, (mem_sha c, c)) <$> (config :: contents)))
    {["r.io/ghaf:stable" := ex_image config layers]}.
Definition ex_reference : TaggedReference := mkTagged (mkRef "ghaf" (Some "stable") None).
Definition ex_layers : list OciDescriptor :=
  [ex_layer Uki "K1" None; ex_layer Root "R1" None; ex_layer Verity "V1" None].
Definition ex_store : MemNet := ex_net "v1" ex_layers ["K1"; "R1"; "V1"].
(** The tag moved on, and an image with a changelog named like its kernel. *)
Definition ex_store2 : MemNet :=
  ex_net "v2" [ex_layer Uki "K2" None; ex_layer Root "R2" None; ex_layer Verity "V2" None] ["K2"; "R2"; "V2"].
Definition ex_store3 : MemNet :=
  ex_net "v1" (ex_layers ++ [ex_layer Changelog "notes" (Some "uki.efi")]) ["K1"; "R1"; "V1"; "notes"].
Definition is_ok_fut {A} (f : fut A) : bool := match f with Ready r => is_ok r | Stopped _ => false end.
Definition ex_digest_ok (dg c : string) : Prop := mem_sha c = dg.

Definition ex_options (validate : bool) : PullOptions :=
  mkPull ex_reference "/persist" Anonymous Https false validate.
Definition ex_world (store : MemNet) (d : Disk) : World := mkWorld d [] 0 0 store [] [].
Definition no_install (env : Install.Env) (p : string) (v : bool) (w : World) : res unit * World := (Ok tt, w).
Abbreviation ex_pull store validate d :=
  (pull_update ex_host no_install (ex_options validate) true None [] (ex_world store d)).

Lemma mem_reads_keep store client : reads_keep (λ n, n = store) client.
Proof. by intros n ->. Qed.

Lemma mem_verified store validate :
  streams_verified (ex_options validate) ex_digest_ok (λ n, n = store).
Proof.
  intros r desc n t s n' cs _. cbn. unfold mem_stream.
  destruct (_ !! _) as [c|]; [|done]. case_bool_decide as E; [|done]. intros [= <- <- <-]. cbn.
  intros Hcs. destruct cs as [|c' [|? ?]]; cbn in Hcs; [done| |done].
  injection Hcs as <-. exact E.
Qed.

Lemma no_install_keeps : installer_keeps no_install.
Proof. by repeat split. Qed.

(** An installer that writes the kernel to the boot partition, and nothing
    else. *)
Definition boot_file : string := "/boot/EFI/Linux/ghaf.efi".
Definition boot_install (env : Install.Env) (p : string) (v : bool) (w : World) : res unit * World :=
  (Ok tt, commit (<[boot_file := "K1"]> (disk w)) w).

Lemma boot_install_spares : installer_spares boot_install (λ q, q ≠ boot_file).
Proof.
  intros env p v w. split; [|done]. exists [disk w]. split; [done|].
  constructor; [|by constructor]. intros q Hq. cbn. by rewrite lookup_insert_ne.
Qed.
End MemRegistry.

(** ** Properties *)

Module PullProps.
Import Oci Transfer Registry MemRegistry.

(** C5: A pull may be cut off at any moment: every state of the disk on the way -
    whatever system call fails, whenever the token is cancelled - has only whole
    files under the final names, and has the manifest only when all the files
    are there.  The conditions: the directory is fresh ([staging]): it has no
    [manifest.json], and what lies under the final names of the image's files is
    whole; the final and temporary names of the files, the manifest's and the
    lock's are different; the registry serves one image all the time; the client
    library ends a blob's stream only when its content has the digest asked for;
    and an installer, if one is run, leaves the pulled files alone.  A second
    pull of a tag that has moved does not satisfy the first
    ([repull_mixes_images]), a changelog named like another file not the second
    ([changelog_replaces_kernel]). *)
Theorem pull_crash_safe `{OciClient} `{Os} host installer options img json tag digest_ok N
    feedback ct w :
  reads_keep N (pull_client options) → N (net w) →
  served options img json N → streams_verified options digest_ok N →
  tag_or_digest (pull_reference options) = Ok tag →
  NoDup (lock_path options :: the_manifest options tag ::
         locals host options img json tag ++ parts host options img json tag) →
  (install options = true → installer_spares installer (download host options img json tag)) →
  staging host options img json tag digest_ok (disk w) →
  ∃ l, trace (pull_update host installer options feedback ct [] w).2 = l ++ trace w ∧
    Forall (λ d,
      (∀ b c, b ∈ bindings host img json → d !! local_path (pull_dir options tag) b = Some c →
         digest_ok (digest b) c) ∧
      (is_Some (d !! path_join (pull_dir options tag) "manifest.json") →
       ∀ b, b ∈ bindings host img json → is_Some (d !! local_path (pull_dir options tag) b)))
      (disk (pull_update host installer options feedback ct [] w).2 :: l).
Proof.
  intros Hk HN Hs Hv Ht Hn Hi Hst.
  by destruct (pull_run host installer options img json tag digest_ok N Hk Hs Hv Ht Hn Hi
    feedback ct w HN Hst) as [[Hh _] _].
Qed.

(** C31: A pull that returns has done its work: it names the directory and the
    manifest it wrote, the manifest is the one the image's configuration
    describes, with its paths made safe, and every file is there and has the
    digest of its layer; when validation was asked for, the three files have
    the SHA-256 sums of the manifest.  The conditions are those of
    [pull_crash_safe]: a fresh directory ([staging]), names that do not clash
    (lock, manifest, final and temporary files), one image served, streams
    checked against their digests, and an installer that leaves the pulled files
    alone. *)
Theorem pull_complete `{OciClient} `{Os} host installer options img json tag digest_ok N
    feedback ct w r w' :
  reads_keep N (pull_client options) → N (net w) →
  served options img json N → streams_verified options digest_ok N →
  tag_or_digest (pull_reference options) = Ok tag →
  NoDup (lock_path options :: the_manifest options tag ::
         locals host options img json tag ++ parts host options img json tag) →
  (install options = true → installer_spares installer (download host options img json tag)) →
  staging host options img json tag digest_ok (disk w) →
  pull_update host installer options feedback ct [] w = (Ready (Ok r), w') →
  let dir := pull_dir options tag in
  r = mkPullResult dir (path_join dir "manifest.json") ∧
  ∃ m content bs, read_manifest host json = Ok m ∧ encode host m = Ok content ∧
    select_artifact_bindings m (blob_of <$> oci_layers img) = Ok bs ∧
    disk w' !! path_join dir "manifest.json" = Some content ∧
    (∀ b, b ∈ bs → ∃ c, disk w' !! local_path dir b = Some c ∧ digest_ok (digest b) c) ∧
    (validate options = true →
     Forall (λ f, ∃ c, disk w' !! Manifest.full_name f dir = Some c ∧
                    sha256 host c = Manifest.sha256sum f)
       [Manifest.kernel m; Manifest.store m; Manifest.verity m]).
Proof.
  intros Hk HN Hs Hv Ht Hn Hi Hst E.
  destruct (pull_run host installer options img json tag digest_ok N Hk Hs Hv Ht Hn Hi
    feedback ct w HN Hst) as [Hh HQ].
  apply hist_now in Hh as [[Hw _] _]. rewrite E in Hw, HQ. cbn [fst snd] in *.
  destruct HQ as (-> & Ha & m & content & Em & Es & Ec & El & Hc). split; [done|].
  exists m, content, (bindings host img json). do 4 (split; [done|]). split; [|exact Hc].
  intros b Hb. destruct (Ha b Hb) as [c Hl]. exists c. split; [done|]. by apply Hw.
Qed.

(** C32: A pull writes nowhere but in its own directory: whatever names the
    image and its annotations carry, in every state on the way each path that
    is not below the directory of the tag, the lock file apart, is as before -
    every such path if the pull does not install; if it does, those that the
    installer it runs leaves alone ([K]).  The tag is assumed to be a plain
    directory name once sanitised. *)
Theorem pull_confined `{OciClient} `{Os} host installer options tag feedback ct w K :
  tag_or_digest (pull_reference options) = Ok tag → plain (sanitize_path_component tag) →
  (install options = true → installer_spares installer K) →
  ∃ l, trace (pull_update host installer options feedback ct [] w).2 = l ++ trace w ∧
    Forall (λ d, ∀ p, (install options = true → K p) → p ≠ lock_path options →
      starts_with (pull_dir options tag +:+ "/") p = false → d !! p = disk w !! p)
      (disk (pull_update host installer options feedback ct [] w).2 :: l).
Proof.
  intros Ht Hp Hi.
  by destruct (confined_pull host installer options tag (disk w) Ht Hp (λ p, install options = true → K p)
    ltac:(intros Hon env p v x; destruct (Hi Hon env p v x) as [(l & El & Hl) En]; split; [|done]; exists l;
      split; [done|]; eapply Forall_impl; [exact Hl|]; intros d Hd q HK; by apply Hd, HK)
    feedback ct [] w) as [[Hh _] _].
Qed.

(** Discovering agrees with its definition tag by tag: it lists the update
    of every tag whose image arrives within thirty seconds and holds a
    manifest, in the registry's order; a tag that fails, is late or is no
    update is left out and costs no other tag. *)
Theorem discover_lists_updates `{OciClient} host options feedback w t tags n' refs :
  (∀ s, is_panic (decode host s) = false) →
  (∀ r n, library_answer (pull_manifest_and_config (build_client (disc_protocol options)) r
            (to_registry_auth (disc_credentials options)) n).1.2) →
  client_list_tags (build_client (disc_protocol options)) (untagged (disc_reference options))
    (to_registry_auth (disc_credentials options)) (net w) = ((t, Ok tags), n') →
  t ≤ 30 * 1000 → mapM_res (for_tag (disc_reference options)) tags = Ok refs →
  (discover_updates host options feedback None [] w).1 =
    Ready (Ok (tags_updates host options refs n')).
Proof.
  intros Hd Hn El Ht Hr.
  by destruct (discover_run host options feedback Hd Hn w t tags n' refs El Ht Hr) as (w' & ->).
Qed.

(** Pulling a tag again is not safe against a crash: when the tag has moved
    to another image, the disk passes through states that have the manifest of
    the old image, its root file and the kernel of the new one. *)
Theorem repull_mixes_images :
  let first := ex_pull ex_store true ∅ in
  let second := ex_pull ex_store2 true (disk first.2) in
  is_ok_fut first.1 = true ∧ is_ok_fut second.1 = true ∧
  ∃ d, d ∈ trace second.2 ∧
    d !! "/persist/ghaf/stable/manifest.json" = Some "v1" ∧
    d !! "/persist/ghaf/stable/uki.efi" = Some "K2" ∧
    d !! "/persist/ghaf/stable/root.raw" = Some "R1".
Proof.
  cbn zeta. split; [vm_compute; reflexivity|]. split; [vm_compute; reflexivity|].
  set (second := ex_pull ex_store2 true _).
  set (f := λ d : Disk, bool_decide (d !! "/persist/ghaf/stable/manifest.json" = Some "v1") &&
    bool_decide (d !! "/persist/ghaf/stable/uki.efi" = Some "K2") &&
    bool_decide (d !! "/persist/ghaf/stable/root.raw" = Some "R1")).
  assert (existsb f (trace second.2) = true) as Hx by (vm_compute; reflexivity).
  apply existsb_exists in Hx as (d & Hd%list_elem_of_In & Hf). exists d. split; [done|].
  unfold f in Hf. rewrite !andb_true_iff, !bool_decide_eq_true in Hf. by destruct Hf as [[? ?] ?].
Qed.

(** The annotation of the changelog layer picks its file name without
    regard to the other files: an image whose changelog is titled like its
    kernel is pulled without an error, and the changelog is where the kernel
    should be; only a pull with validation notices. *)
Theorem changelog_replaces_kernel :
  is_ok_fut (ex_pull ex_store3 false ∅).1 = true ∧
  disk (ex_pull ex_store3 false ∅).2 !! "/persist/ghaf/stable/uki.efi" = Some "notes" ∧
  disk (ex_pull ex_store3 false ∅).2 !! "/persist/ghaf/stable/manifest.json" = Some "v1" ∧
  is_ok_fut (ex_pull ex_store3 true ∅).1 = false.
Proof. repeat split; vm_compute; reflexivity. Qed.

Lemma ex_names validate :
  NoDup (lock_path (ex_options validate) :: the_manifest (ex_options validate) "stable" ::
    locals ex_host (ex_options validate) (ex_image "v1" ex_layers) "v1" "stable" ++
    parts ex_host (ex_options validate) (ex_image "v1" ex_layers) "v1" "stable").
Proof. apply (bool_decide_unpack _). destruct validate; vm_compute; exact I. Qed.

Lemma ex_served validate :
  served (ex_options validate) (ex_image "v1" ex_layers) "v1" (λ n, n = ex_store).
Proof.
  intros n t x n' ->. cbn. intros E.
  assert (mem_pull (mkRef "ghaf" (Some "stable") None) ex_store =
          Ok (ex_image "v1" ex_layers, "sha256:manifest", "v1")) as Hp by (vm_compute; reflexivity).
  rewrite Hp in E. simplify_eq. by eexists.
Qed.

Lemma ex_staging options img json tag digest_ok : staging ex_host options img json tag digest_ok ∅.
Proof. split; [apply lookup_empty|]. intros b c _. by rewrite lookup_empty. Qed.

Lemma pull_crash_safe_witness :
  Forall (λ d, is_Some (d !! "/persist/ghaf/stable/manifest.json") →
    is_Some (d !! "/persist/ghaf/stable/uki.efi")) (trace (ex_pull ex_store true ∅).2).
Proof.
  destruct (pull_crash_safe ex_host no_install (ex_options true)
    (ex_image "v1" ex_layers) "v1" "stable" ex_digest_ok (λ n, n = ex_store) true None (ex_world ex_store ∅)
    (mem_reads_keep _ _) eq_refl (ex_served true) (mem_verified ex_store true) eq_refl (ex_names true)) as (l & El & [_ Hl]%Forall_cons).
  - exact (λ _, keeps_spares _ _ no_install_keeps).
  - apply ex_staging.
  - rewrite El, app_nil_r. eapply Forall_impl; [exact Hl|].
    intros d [_ Hd] Hm. apply (Hd Hm
      (mkBinding Uki (blob_of (ex_layer Uki "K1" None)) (mem_sha "K1") "uki.efi")).
    vm_compute. left.
Defined.

Lemma ex_pull_ok : ∃ w', ex_pull ex_store true ∅ =
  (Ready (Ok (mkPullResult "/persist/ghaf/stable" "/persist/ghaf/stable/manifest.json")), w').
Proof.
  assert ((ex_pull ex_store true ∅).1 =
    Ready (Ok (mkPullResult "/persist/ghaf/stable" "/persist/ghaf/stable/manifest.json"))) as Er
    by (vm_compute; reflexivity).
  revert Er. destruct (ex_pull ex_store true ∅) as [r w']. cbn [fst]. intros ->. by exists w'.
Qed.

Lemma pull_complete_witness : ∃ w',
  ex_pull ex_store true ∅ =
    (Ready (Ok (mkPullResult "/persist/ghaf/stable" "/persist/ghaf/stable/manifest.json")), w') ∧
  is_Some (disk w' !! path_join "/persist/ghaf/stable" "manifest.json").
Proof.
  destruct ex_pull_ok as (w' & E). exists w'. split; [exact E|].
  destruct (pull_complete ex_host no_install (ex_options true)
    (ex_image "v1" ex_layers) "v1" "stable" ex_digest_ok (λ n, n = ex_store) true None (ex_world ex_store ∅)
    _ w' (mem_reads_keep _ _) eq_refl (ex_served true) (mem_verified ex_store true) eq_refl (ex_names true)
    (λ _, keeps_spares _ _ no_install_keeps) (ex_staging _ _ _ _ _) E)
    as (_ & m & content & bs & _ & _ & _ & El & _).
  exists content. exact El.
Defined.

Lemma pull_confined_witness :
  let w := (pull_update ex_host boot_install (mkPull ex_reference "/persist" Anonymous Https true false)
              true None [] (ex_world ex_store3 {["/etc/passwd" := "root"]})).2 in
  disk w !! boot_file = Some "K1" ∧ disk w !! "/etc/passwd" = Some "root".
Proof.
  split; [vm_compute; reflexivity|].
  destruct (pull_confined ex_host boot_install (mkPull ex_reference "/persist" Anonymous Https true false)
    "stable" true None (ex_world ex_store3 {["/etc/passwd" := "root"]}) (λ q, q ≠ boot_file) eq_refl)
    as (l & _ & [Hd _]%Forall_cons).
  - repeat split; discriminate.
  - exact (λ _, boot_install_spares).
  - rewrite Hd; [reflexivity | discriminate | discriminate | reflexivity].
Defined.

Definition ex_discover : DiscoverOptions := mkDiscover (mkUntagged (mkRef "ghaf" None None)) Anonymous Https.

Lemma discover_lists_updates_witness :
  (discover_updates ex_host ex_discover true None [] (ex_world ex_store ∅)).1 =
    Ready (Ok [mkAvailable "r.io/ghaf" "stable" "v1" "0123456789abcdef"]).
Proof.
  rewrite (discover_lists_updates ex_host ex_discover true (ex_world ex_store ∅)
    10 ["stable"] ex_store [ex_reference]).
  - vm_compute. reflexivity.
  - intros s. cbn. unfold ok_or. by destruct (if bool_decide _ then _ else _).
  - intros r n. cbn. unfold mem_pull. destruct (_ !! _); [|reflexivity]. by destruct (_ !! _).
  - vm_compute. reflexivity.
  - lia.
  - vm_compute. reflexivity.
Defined.
End PullProps.
