(* ===== verification/OciPush.v ===== *)
(** * Pushing updates ([registry/mod.rs], [registry/oras.rs])

    [push_update] uploads the files of a validated update, then its manifest.
    The class [LawfulRegistry] states what a registry promises about the blobs
    and images it stores; against it, pulling what was pushed gives back the
    same files. *)

From S2P Require Import Prelude RustStr RustInt RustPath CommonTypes.
From S2P Require Import ImageManifest ImageInstall OciTypes OciTransfer OciPull.
From Stdlib Require Import Ascii.

Module Push.
Import Oci Transfer Registry.

Definition OCI_IMAGE_MEDIA_TYPE : string := "application/vnd.oci.image.manifest.v1+json".

Section push.
Context `{OciClient} `{Os}.
(** Reading an open file piece by piece, as [ReaderStream] does; a read may
    fail. *)
Context (host : Host) (file_items : string → list (res string)).

Record PushOptions := mkPush {
  push_reference : TaggedReference;
  push_manifest_path : string;
  changelog_path : option string;
  push_credentials : RegistryCredentials;
  push_protocol : ClientProtocol
}.
Record PushResult := mkPushResult {
  res_reference : string; res_manifest_url : string; res_digest : string
}.

(** [File::open] and what is in the file then. *)
Definition open_file (path : string) : AS string :=
  d ← gets disk; lift (Manifest.read (fs_of host d) path).

Definition digest_of (content : string) : string := "sha256:" +:+ hex_encode host (sha256 host content).

(** [digest_and_size]: hashing the file in pieces is hashing its content. *)
Definition digest_and_size (path : string) : AS (string * Z) :=
  content ← context ("opening file " +:+ path) (open_file path);
  _ ← context ("reading file " +:+ path) sys_pure;
  mret (digest_of content, Z.of_nat (String.length content)).

(** [total.try_into().context("Payload too large")] to [i64] *)
Definition to_i64 (n : Z) : res Z :=
  if (n <=? i64_max)%Z then Ok n
  else Err [Msg "Payload too large"; Msg "out of range integral type conversion attempted"].

(** The reports of [file_stream_with_progress] while [n] items are taken. *)
Definition stream_progress (feedback : bool) (kind : MediaType) (total : Z)
    (items : list (res string)) (n : nat) : AS unit :=
  let sizes := filter_map (λ r, (λ c, Z.of_nat (String.length c)) <$> res_ok r) (take n items) in
  ns ← lift (reports (new_reporter PROGRESS_EVENT_STEP) 0 sizes);
  each (λ uploaded, notify feedback (LayerUploading kind uploaded (Some total))) ns.

(** One turn of the loop over the layers. *)
Definition push_layer (client : ClientConfig) (r : Reference) (feedback : bool) (input : LayerInput)
    : AS OciDescriptor :=
  '(digest, total) ← context ("digesting layer file " +:+ layer_path input)
                       (digest_and_size (layer_path input));
  _ ← notify feedback (LayerUploading (layer_media_type input) 0 (Some total));
  content ← context ("opening layer file " +:+ layer_path input) (open_file (layer_path input));
  let items := file_items content in
  n ← gets (λ w, push_consumed client r items digest (Some total) (net w));
  _ ← stream_progress feedback (layer_media_type input) total items n;
  _ ← context ("while pushing blob " +:+ layer_path input)
        (request (push_blob_stream client r items digest (Some total)));
  _ ← notify feedback (LayerUploaded (layer_media_type input) digest);
  size ← lift (to_i64 total);
  mret (mkDescriptor (media_type_str (layer_media_type input)) digest size
          (layer_annotations input) None).

Fixpoint push_layers (client : ClientConfig) (r : Reference) (feedback : bool)
    (inputs : list LayerInput) (layer_descriptors : list OciDescriptor) : AS (list OciDescriptor) :=
  match inputs with
  | [] => mret layer_descriptors
  | input :: inputs =>
      d ← push_layer client r feedback input;
      push_layers client r feedback inputs (layer_descriptors ++ [d])
  end.

Definition push_layers_and_config (client : ClientConfig) (r : Reference)
    (credentials : RegistryCredentials) (layer_inputs : list LayerInput) (config_bytes : string)
    (config_media_type : MediaType) (feedback : bool) : AS string :=
  _ ← context "while authenticating for push"
        (request (client_auth client r (to_registry_auth credentials) PushOp));
  _ ← notify feedback (PushStarted (ref_to_string r) (length layer_inputs));
  layer_descriptors ← push_layers client r feedback layer_inputs [];
  size ← lift (to_i64 (Z.of_nat (String.length config_bytes)));
  let config_descriptor :=
    mkDescriptor (media_type_str config_media_type) (digest_of config_bytes) size None None in
  _ ← context "while pushing config blob"
        (request (push_blob client r config_bytes (desc_digest config_descriptor)));
  let manifest :=
    mkOciManifest 2 (Some OCI_IMAGE_MEDIA_TYPE) config_descriptor layer_descriptors None None None in
  context "while pushing image manifest" (request (push_manifest client r manifest)).

(** [path.file_name().and_then(to_str)] *)
Definition layer_input_with_title (path : string) (t : MediaType) : res LayerInput :=
  title ← ok_or (file_name path) "layer path has invalid filename";
  title ← sanitize_relative_file_path title;
  Ok (mkLayerInput path t (Some {[TITLE := title]})).

Definition changelog_input (path : string) : res LayerInput :=
  title ← ok_or (file_name path) "changelog path has invalid filename";
  title ← sanitize_relative_file_path title;
  Ok (mkLayerInput path Changelog (Some {[TITLE := title]})).

(** The layers of a manifest below [base_dir]. *)
Definition layer_inputs (manifest : Manifest.Manifest) (base_dir : string) (changelog : option string)
    : res (list LayerInput) :=
  uki ← layer_input_with_title (Manifest.full_name (Manifest.kernel manifest) base_dir) Uki;
  root ← layer_input_with_title (Manifest.full_name (Manifest.store manifest) base_dir) Root;
  verity ← layer_input_with_title (Manifest.full_name (Manifest.verity manifest) base_dir) Verity;
  match changelog with
  | Some path => c ← changelog_input path; Ok [uki; root; verity; c]
  | None => Ok [uki; root; verity]
  end.

Definition push_update_with_feedback (options : PushOptions) (feedback : bool) : AS PushResult :=
  config_bytes ← context ("reading manifest file " +:+ push_manifest_path options)
                   (open_file (push_manifest_path options));
  manifest ← lift (Manifest.from_slice (decode host) config_bytes);
  base_dir ← lift (ok_or (parent (push_manifest_path options)) "manifest path has no parent directory");
  d ← gets disk;
  _ ← context "while validating manifest content"
        (lift (Manifest.validate (fs_of host d) (hex_encode host) manifest base_dir true));
  layers ← lift (layer_inputs manifest base_dir (changelog_path options));
  let client := build_client (push_protocol options) in
  let r := tagged (push_reference options) in
  pushed ← push_layers_and_config client r (push_credentials options) layers config_bytes Manifest feedback;
  remote ← timeout (30 * 1000) "push timeout while verifying manifest digest"
             (fetch_manifest_and_config client r (push_credentials options) None);
  remote ← lift remote;
  _ ← notify feedback (ManifestPushed (ref_to_string r) pushed (manifest_digest remote));
  mret (mkPushResult (ref_to_string r) pushed (manifest_digest remote)).

Definition push_update (options : PushOptions) : AS PushResult := push_update_with_feedback options false.

End push.

(** ** What a registry promises

    It stores blobs under their digests and images under references; reading
    changes neither, a blob or an image that was accepted is stored, and what
    is read is what is stored. *)
Class LawfulRegistry `{OciClient} := {
  blobs : Net → gmap string string;
  images : Net → gmap string OciImageManifest;
  law_auth c r a op n :
    let n' := (client_auth c r a op n).2 in blobs n' = blobs n ∧ images n' = images n;
  law_fetch c r a n :
    let n' := (pull_manifest_and_config c r a n).2 in blobs n' = blobs n ∧ images n' = images n;
  law_fetched c r a n t m dg json n' :
    pull_manifest_and_config c r a n = ((t, Ok (m, dg, json)), n') →
    images n !! ref_to_string r = Some m ∧ blobs n !! desc_digest (oci_config m) = Some json;
  law_stream c r d n :
    let n' := (pull_blob_stream c r d n).2 in blobs n' = blobs n ∧ images n' = images n;
  law_streamed c r d n t s n' cs :
    pull_blob_stream c r d n = ((t, Ok s), n') → (stream_items s).*2 = Ok <$> cs →
    blobs n !! desc_digest d = Some (String.concat "" cs);
  law_push_stream c r items dg total n t loc n' :
    push_blob_stream c r items dg total n = ((t, Ok loc), n') →
    ∃ cs, items = Ok <$> cs ∧ blobs n' = <[dg := String.concat "" cs]> (blobs n) ∧ images n' = images n;
  law_push_blob c r content dg n t loc n' :
    push_blob c r content dg n = ((t, Ok loc), n') →
    blobs n' = <[dg := content]> (blobs n) ∧ images n' = images n;
  law_push_manifest c r m n t url n' :
    push_manifest c r m n = ((t, Ok url), n') →
    blobs n' = blobs n ∧ images n' = <[ref_to_string r := m]> (images n)
}.

Section stored.
Context `{LawfulRegistry} `{Os}.
Context (host : Host) (file_items : string → list (res string)).
(** Reading a file piece by piece to its end gives its content. *)
Context (Hitems : ∀ content cs, file_items content = Ok <$> cs → String.concat "" cs = content).
(** No two files on the disk have different contents and the same digest. *)
Context (d0 : Disk).
Context (Hcoll : ∀ p p' c c', d0 !! p = Some c → d0 !! p' = Some c' →
  digest_of host c = digest_of host c' → c = c').
#[local] Set Default Proof Using "All".

Lemma open_file_Ready path ctx w content w' :
  open_file host path ctx w = (Ready (Ok content), w') → w' = w ∧ disk w !! path = Some content.
Proof.
  clear. unfold open_file. intros (d & w1 & [-> ->]%gets_Ready & [E ->]%lift_Ready)%AS_bind_Ok.
  split; [done|]. revert E. cbn. unfold on_read. destruct (read_fault _ _); [done|].
  destruct (disk w !! path); [by intros [= ->] | done].
Qed.

(** A descriptor whose blob is the content of a file. *)
Definition holds (n : Net) (p : string) (desc : OciDescriptor) : Prop :=
  ∃ c, d0 !! p = Some c ∧ desc_digest desc = digest_of host c ∧ blobs n !! desc_digest desc = Some c.

Lemma holds_insert n n' p desc c q : d0 !! q = Some c →
  blobs n' = <[digest_of host c := c]> (blobs n) → holds n p desc → holds n' p desc.
Proof.
  intros Hq Hb (c1 & Hp & Ed & El). exists c1. split; [done|]. split; [done|]. rewrite Hb.
  destruct (decide (digest_of host c = desc_digest desc)) as [E|E].
  - rewrite E, lookup_insert_eq. f_equal. eapply Hcoll; [done..|]. congruence.
  - by rewrite lookup_insert_ne.
Qed.

Lemma push_layer_Ready client r fb input ctx w desc w' :
  disk w = d0 → push_layer host file_items client r fb input ctx w = (Ready (Ok desc), w') →
  disk w' = d0 ∧ images (net w') = images (net w) ∧ holds (net w') (layer_path input) desc ∧
  desc_media_type desc = media_type_str (layer_media_type input) ∧
  (∀ p x, holds (net w) p x → holds (net w') p x).
Proof.
  intros Hd. unfold push_layer, digest_and_size.
  intros ([dg total] & w1 & E1%context_Ready & E)%AS_bind_Ok.
  apply AS_bind_Ok in E1 as (c & w2 & [-> Hc]%context_Ready%open_file_Ready & E1).
  apply AS_bind_Ok in E1 as ([] & w3 & [Hd3 Hn3]%context_Ready%sys_pure_Ready & [[= -> ->] ->]%ret_Ready).
  apply AS_bind_Ok in E as ([] & w4 & [Hd4 Hn4]%notify_Ready & E).
  apply AS_bind_Ok in E as (c' & w5 & [-> Hc']%context_Ready%open_file_Ready & E).
  assert (c' = c) as -> by congruence.
  apply AS_bind_Ok in E as (n & w6 & [-> ->]%gets_Ready & E).
  apply AS_bind_Ok in E as ([] & w7 & Ep & E). unfold stream_progress in Ep.
  apply AS_bind_Ok in Ep as (ns & w8 & [_ ->]%lift_Ready & [Hd8 Hn8]%each_notify_Ready).
  apply AS_bind_Ok in E as (loc & w9 & (t & Er & Hd9)%context_Ready%request_Ready & E).
  apply AS_bind_Ok in E as ([] & w10 & [Hd10 Hn10]%notify_Ready & E).
  apply AS_bind_Ok in E as (size & w11 & [_ ->]%lift_Ready & [-> ->]%ret_Ready).
  apply law_push_stream in Er as (cs & Ei & Hb & Him).
  rewrite (Hitems _ _ Ei) in Hb. rewrite Hn8, Hn4, Hn3 in Hb, Him. rewrite <-Hn10 in Hb, Him.
  rewrite Hd in Hc. split; [congruence|]. split; [done|]. split; [|split; [done|]].
  - exists c. cbn. split; [done|]. split; [done|]. by rewrite Hb, lookup_insert_eq.
  - intros p x. by apply (holds_insert _ _ p x c (layer_path input)).
Qed.
Definition layer_stored (n : Net) (input : LayerInput) (desc : OciDescriptor) : Prop :=
  holds n (layer_path input) desc ∧ desc_media_type desc = media_type_str (layer_media_type input).

Lemma push_layers_Ready client r fb inputs : ∀ acc ctx w descs w',
  disk w = d0 → push_layers host file_items client r fb inputs acc ctx w = (Ready (Ok descs), w') →
  disk w' = d0 ∧ images (net w') = images (net w) ∧
  (∀ p x, holds (net w) p x → holds (net w') p x) ∧
  ∃ ds, descs = acc ++ ds ∧ Forall2 (layer_stored (net w')) inputs ds.
Proof.
  induction inputs as [|input inputs IH]; intros acc ctx w descs w' Hd; cbn [push_layers].
  - intros [-> ->]%ret_Ready. split; [done|]. split; [done|]. split; [done|].
    exists []. split; [by rewrite app_nil_r | constructor].
  - intros (desc & w1 & Hl%push_layer_Ready & E)%AS_bind_Ok; [|done].
    destruct Hl as (Hd1 & Hi1 & Hh1 & Ht1 & Hk1).
    apply IH in E as (Hd2 & Hi2 & Hk2 & ds & -> & Hds); [|done].
    split; [done|]. split; [congruence|]. split; [by auto|].
    exists (desc :: ds). split; [by rewrite <-app_assoc|]. constructor; [|done]. by split; [apply Hk2|].
Qed.

(** The image a push stores, and its blobs. *)
Definition image_stored (n : Net) (r : Reference) (inputs : list LayerInput) (manifest_path : string) : Prop :=
  ∃ img, images n !! ref_to_string r = Some img ∧ holds n manifest_path (oci_config img) ∧
    Forall2 (layer_stored n) inputs (oci_layers img).

Lemma push_all_Ready client r cred inputs config mt fb manifest_path ctx w url w' :
  disk w = d0 → d0 !! manifest_path = Some config →
  push_layers_and_config host file_items client r cred inputs config mt fb ctx w = (Ready (Ok url), w') →
  disk w' = d0 ∧ image_stored (net w') r inputs manifest_path.
Proof.
  intros Hd Hm. unfold push_layers_and_config.
  intros ([] & w1 & (t1 & E1 & Hd1)%context_Ready%request_Ready & E)%AS_bind_Ok.
  apply AS_bind_Ok in E as ([] & w2 & [Hd2 Hn2]%notify_Ready & E).
  apply AS_bind_Ok in E as (descs & w3 & Hl%push_layers_Ready & E); [|congruence].
  destruct Hl as (Hd3 & Hi3 & Hk3 & ds & -> & Hds).
  apply AS_bind_Ok in E as (size & w4 & [_ ->]%lift_Ready & E).
  apply AS_bind_Ok in E as (loc & w5 & (t5 & E5 & Hd5)%context_Ready%request_Ready & E).
  apply context_Ready, request_Ready in E as (t6 & E6 & Hd6).
  apply law_push_blob in E5 as [Hb5 Hi5]. apply law_push_manifest in E6 as [Hb6 Hi6].
  cbn in Hb5. rewrite <-Hb6 in Hb5. split; [congruence|]. eexists. rewrite Hi6, lookup_insert_eq.
  split; [done|]. cbn. split.
  - exists config. cbn. split; [done|]. split; [done|]. by rewrite Hb5, lookup_insert_eq.
  - eapply Forall2_impl; [exact Hds|]. intros input desc [Hh Ht]. split; [|done].
    by apply (holds_insert (net w3) _ _ _ config manifest_path).
Qed.

(** Reading leaves the stored images and blobs. *)
Definition view (n : Net) : gmap string string * gmap string OciImageManifest := (blobs n, images n).

Lemma stored_view n n' r inputs p : view n' = view n → image_stored n r inputs p → image_stored n' r inputs p.
Proof.
  intros [= Hb Hi] (img & Hl & Hc & Hls). exists img. rewrite Hi. split; [done|].
  assert (∀ q x, holds n q x → holds n' q x) as Hh.
  { intros q x (c & ? & ? & ?). exists c. by rewrite Hb. }
  split; [by apply Hh|]. eapply Forall2_impl; [exact Hls|]. intros i x [? ?]. by split; [apply Hh|].
Qed.

Lemma push_update_Ready options fb w res w' :
  disk w = d0 → push_update_with_feedback host file_items options fb [] w = (Ready (Ok res), w') →
  disk w' = d0 ∧
  ∃ config m base inputs, d0 !! push_manifest_path options = Some config ∧
    Manifest.from_slice (decode host) config = Ok m ∧ parent (push_manifest_path options) = Some base ∧
    layer_inputs m base (changelog_path options) = Ok inputs ∧
    image_stored (net w') (tagged (push_reference options)) inputs (push_manifest_path options).
Proof.
  intros Hd. unfold push_update_with_feedback.
  intros (config & w1 & [-> Hc]%context_Ready%open_file_Ready & E)%AS_bind_Ok.
  apply AS_bind_Ok in E as (m & w2 & [Hm ->]%lift_Ready & E).
  apply AS_bind_Ok in E as (base & w3 & [Hb ->]%lift_Ready & E). apply ok_or_Ok in Hb.
  apply AS_bind_Ok in E as (d & w4 & [-> ->]%gets_Ready & E).
  apply AS_bind_Ok in E as ([] & w5 & [_ ->]%context_Ready%lift_Ready & E).
  apply AS_bind_Ok in E as (inputs & w6 & [Hi ->]%lift_Ready & E).
  rewrite Hd in Hc. apply AS_bind_Ok in E as (url & w7 & Hp & E).
  apply push_all_Ready with (manifest_path := push_manifest_path options) in Hp as [Hd7 Hs]; [|done..].
  apply AS_bind_Ok in E as (remote & w8 & Ht & E).
  apply AS_bind_Ok in E as (rm & w9 & [-> ->]%lift_Ready & E).
  apply timeout_Ready in Ht. unfold fetch_manifest_and_config, cancelable in Ht.
  apply AS_bind_Ok in Ht as ([[im dg] js] & w10 & (t & Ef & Hd10)%context_Ready%request_Ready & [-> ->]%ret_Ready).
  apply AS_bind_Ok in E as ([] & w11 & [Hd11 Hn11]%notify_Ready & [_ ->]%ret_Ready).
  split; [congruence|]. exists config, m, base, inputs. do 4 (split; [done|]).
  eapply stored_view; [|exact Hs]. rewrite Hn11.
  pose proof (law_fetch (build_client (push_protocol options)) (tagged (push_reference options))
    (to_registry_auth (push_credentials options)) (net w7)) as Hv.
  rewrite Ef in Hv. cbn in Hv. destruct Hv as [E1 E2]. unfold view. by rewrite E1, E2.
Qed.
End stored.

(** The files of a pushed image are found again by their media types. *)
Lemma select_stored m du dr dv rest bs :
  desc_media_type du = media_type_str Uki → desc_media_type dr = media_type_str Root →
  desc_media_type dv = media_type_str Verity →
  select_artifact_bindings m (blob_of <$> du :: dr :: dv :: rest) = Ok bs →
  ∃ more, bs = make_binding (blob_of du) Uki (Manifest.name (Manifest.kernel m)) ::
    make_binding (blob_of dr) Root (Manifest.name (Manifest.store m)) ::
    make_binding (blob_of dv) Verity (Manifest.name (Manifest.verity m)) :: more.
Proof.
  intros Eu Er Ev. unfold select_artifact_bindings, required_binding, find_layer_by_media_type. cbn.
  rewrite Eu, Er, Ev. cbn. intros [= <-]. by eexists.
Qed.

Lemma inputs_paths m base changelog inputs : layer_inputs m base changelog = Ok inputs →
  ∃ u r v rest, inputs = u :: r :: v :: rest ∧
    layer_path u = Manifest.full_name (Manifest.kernel m) base ∧ layer_media_type u = Uki ∧
    layer_path r = Manifest.full_name (Manifest.store m) base ∧ layer_media_type r = Root ∧
    layer_path v = Manifest.full_name (Manifest.verity m) base ∧ layer_media_type v = Verity.
Proof.
  unfold layer_inputs, layer_input_with_title. intros E. res_simp.
  destruct changelog; res_simp; do 4 eexists; by repeat split.
Qed.

Section round_trip.
Context `{LawfulRegistry} `{Os}.
Context (host : Host) (file_items : string → list (res string))
  (installer : Install.Env → string → bool → World → res unit * World).
Context (Hitems : ∀ content cs, file_items content = Ok <$> cs → String.concat "" cs = content).
#[local] Set Default Proof Using "All".

(** Pulling an image the registry stores. *)
Lemma pull_stored n1 options img config tag fb' ct w2 r w2' :
  (install options = true → installer_keeps installer) →
  images n1 !! ref_to_string (tagged (pull_reference options)) = Some img →
  blobs n1 !! desc_digest (oci_config img) = Some config →
  tag_or_digest (pull_reference options) = Ok tag → view (net w2) = view n1 →
  NoDup (lock_path options :: the_manifest options tag ::
         locals host options img config tag ++ parts host options img config tag) →
  staging host options img config tag (λ dg c, blobs n1 !! dg = Some c) (disk w2) →
  pull_update host installer options fb' ct [] w2 = (Ready (Ok r), w2') →
  whole host options img config tag (λ dg c, blobs n1 !! dg = Some c) (disk w2') ∧
  pulled host options img config tag r (disk w2').
Proof.
  intros Hinst Himg Hcfg Htag Hview Hnd Hst Hpull. set (N := λ n : Net, view n = view n1).
  assert (∀ n, N n → blobs n = blobs n1 ∧ images n = images n1) as HN by (by intros n [= ? ?]).
  destruct (pull_run host installer options img config tag (λ dg c, blobs n1 !! dg = Some c) N)
    with (feedback := fb') (ct := ct) (w := w2) as [Hh HQ]; try done.
  - intros n Hn. unfold N, view. destruct (HN n Hn) as [E1 E2]. repeat split; intros.
    + destruct (law_auth (pull_client options) r0 a op n) as [-> ->]. congruence.
    + destruct (law_fetch (pull_client options) r0 a n) as [-> ->]. congruence.
    + destruct (law_stream (pull_client options) r0 d n) as [-> ->]. congruence.
  - intros n t [[m0 dg] json] n' Hn (Hi0 & Hj0)%law_fetched. exists dg.
    destruct (HN n Hn) as [E1 E2]. rewrite E2 in Hi0. rewrite E1 in Hj0.
    assert (m0 = img) as -> by congruence. congruence.
  - intros r0 desc n t st n' cs Hn E1 E2. destruct (HN n Hn) as [<- _]. by eapply law_streamed.
  - intros Hon. by apply keeps_spares, Hinst.
  - rewrite Hpull in Hh, HQ. by apply hist_now in Hh as [[Hwhole _] _].
Qed.

Lemma push_pull_stored popts fb w pr w1 options tag fb' ct w2 r w2' :
  (install options = true → installer_keeps installer) →
  (∀ p p' c c', disk w !! p = Some c → disk w !! p' = Some c' →
     digest_of host c = digest_of host c' → c = c') →
  push_update_with_feedback host file_items popts fb [] w = (Ready (Ok pr), w1) →
  pull_reference options = push_reference popts →
  tag_or_digest (pull_reference options) = Ok tag →
  view (net w2) = view (net w1) →
  (∀ img json, images (net w1) !! ref_to_string (tagged (push_reference popts)) = Some img →
     blobs (net w1) !! desc_digest (oci_config img) = Some json →
     NoDup (lock_path options :: the_manifest options tag ::
         locals host options img json tag ++ parts host options img json tag) ∧
     staging host options img json tag (λ dg c, blobs (net w1) !! dg = Some c) (disk w2)) →
  pull_update host installer options fb' ct [] w2 = (Ready (Ok r), w2') →
  ∃ config m m' base, disk w !! push_manifest_path popts = Some config ∧
    Manifest.from_slice (decode host) config = Ok m ∧ parent (push_manifest_path popts) = Some base ∧
    Manifest.normalize_paths m = Ok m' ∧
    (r = mkPullResult (pull_dir options tag) (the_manifest options tag) ∧
     ∃ content, encode host m' = Ok content ∧ disk w2' !! the_manifest options tag = Some content) ∧
    Forall2 (λ f f', ∃ c, disk w !! Manifest.full_name f base = Some c ∧
                       disk w2' !! Manifest.full_name f' (pull_dir options tag) = Some c)
      [Manifest.kernel m; Manifest.store m; Manifest.verity m]
      [Manifest.kernel m'; Manifest.store m'; Manifest.verity m'].
Proof.
  intros Hinst Hcoll Hpush Href Htag Hview Hfresh Hpull.
  apply push_update_Ready with (d0 := disk w) in Hpush
    as (_ & config & m & base & inputs & Hc & Hm & Hb & Hi & (img & Himg & (c0 & Hc0 & _ & Hcfg) & Hls));
    [|done..].
  assert (c0 = config) as -> by congruence. destruct (Hfresh img config Himg Hcfg) as [Hnd Hst].
  rewrite <-Href in Himg.
  destruct (pull_stored _ _ _ _ _ _ _ _ _ _ Hinst Himg Hcfg Htag Hview Hnd Hst Hpull)
    as [Hwhole (Hr & Hall & m' & content & Em & Es & Ec & El & _)].
  unfold read_manifest in Em. rewrite Hm in Em. cbn in Em.
  exists config, m, m', base. do 4 (split; [done|]). split; [by eauto|]. clear Hr Ec El.
  destruct (inputs_paths _ _ _ _ Hi) as (u & rt & v & rest & -> & Pu & Tu & Pr & Tr & Pv & Tv).
  inversion Hls as [|? du ? ? [Hu Mu] Hls1 Ei E1]; subst.
  inversion Hls1 as [|? dr ? ? [Hr Mr] Hls2 Ei2 E2]; subst.
  inversion Hls2 as [|? dv ? ? [Hv Mv] _ Ei3 E3]; subst.
  rewrite <-E1 in Es. rewrite Tu in Mu. rewrite Tr in Mr. rewrite Tv in Mv.
  destruct (select_stored m' du dr dv _ _ Mu Mr Mv Es) as (more & Ebs).
  assert (∀ f f' desc (t : MediaType), holds host (disk w) (net w1) (Manifest.full_name f base) desc →
    make_binding (blob_of desc) t (Manifest.name f') ∈ bindings host img config →
    ∃ c, disk w !! Manifest.full_name f base = Some c ∧
         disk w2' !! Manifest.full_name f' (pull_dir options tag) = Some c) as Hfile.
  { intros f f' desc t (c & Hd & _ & Hl) Hin. exists c. split; [done|].
    destruct (Hall _ Hin) as [c' Hl']. pose proof (Hwhole _ _ Hin Hl') as Hb'. cbn in Hb'.
    assert (c' = c) as -> by congruence. exact Hl'. }
  rewrite Pu in Hu. rewrite Pr in Hr. rewrite Pv in Hv. rewrite Ebs in Hfile.
  constructor; [apply (Hfile _ _ du Uki Hu); by left|].
  constructor; [apply (Hfile _ _ dr Root Hr); right; by left|].
  constructor; [apply (Hfile _ _ dv Verity Hv); do 2 right; by left | constructor].
Qed.

Lemma push_pull_files popts fb w pr w1 options tag fb' ct w2 r w2' :
  (install options = true → installer_keeps installer) →
  (∀ p p' c c', disk w !! p = Some c → disk w !! p' = Some c' →
     digest_of host c = digest_of host c' → c = c') →
  push_update_with_feedback host file_items popts fb [] w = (Ready (Ok pr), w1) →
  pull_reference options = push_reference popts →
  tag_or_digest (pull_reference options) = Ok tag →
  view (net w2) = view (net w1) →
  (∀ img json, images (net w1) !! ref_to_string (tagged (push_reference popts)) = Some img →
     blobs (net w1) !! desc_digest (oci_config img) = Some json →
     NoDup (lock_path options :: the_manifest options tag ::
         locals host options img json tag ++ parts host options img json tag) ∧
     staging host options img json tag (λ dg c, blobs (net w1) !! dg = Some c) (disk w2)) →
  pull_update host installer options fb' ct [] w2 = (Ready (Ok r), w2') →
  ∃ config m m' base, disk w !! push_manifest_path popts = Some config ∧
    Manifest.from_slice (decode host) config = Ok m ∧ parent (push_manifest_path popts) = Some base ∧
    Manifest.normalize_paths m = Ok m' ∧
    Forall2 (λ f f', ∃ c, disk w !! Manifest.full_name f base = Some c ∧
                       disk w2' !! Manifest.full_name f' (pull_dir options tag) = Some c)
      [Manifest.kernel m; Manifest.store m; Manifest.verity m]
      [Manifest.kernel m'; Manifest.store m'; Manifest.verity m'].
Proof.
  intros Hinst Hcoll Hpush Href Htag Hview Hfresh Hpull.
  destruct (push_pull_stored popts fb w pr w1 options tag fb' ct w2 r w2')
    as (config & m & m' & base & Hc & Hm & Hb & Hn & _ & Hf); [done..|]. by exists config, m, m', base.
Qed.
End round_trip.
End Push.

(** The registry in memory keeps these promises. *)
Module MemLaws.
Import Oci Transfer Registry MemRegistry Push.

Lemma mapM_id_Ok {A} (items : list (res A)) cs : mapM_res (λ x, x) items = Ok cs → items = Ok <$> cs.
Proof. intros Hf%mapM_res_Ok. induction Hf; cbn; [done|]. by f_equal. Qed.

Lemma mem_store_Ok c dg n t loc n' : mem_store c dg n = ((t, Ok loc), n') →
  mem_blobs n' = <[dg := c]> (mem_blobs n) ∧ mem_images n' = mem_images n.
Proof. unfold mem_store. case_bool_decide; intros E; by simplify_eq. Qed.

#[global] Program Instance mem_lawful : LawfulRegistry := {|
  blobs := mem_blobs;
  images := mem_images
|}.
Next Obligation. done. Qed.
Next Obligation. done. Qed.
Next Obligation.
  intros c r a n t m dg json n'. cbn. unfold mem_pull.
  destruct (mem_images n !! _) as [m'|]; [|done].
  destruct (mem_blobs n !! _) eqn:Eb; [|done]. intros E. by simplify_eq.
Qed.
Next Obligation. done. Qed.
Next Obligation.
  intros c r d n t s n' cs. cbn. unfold mem_stream.
  destruct (mem_blobs n !! _) as [x|]; [|done]. case_bool_decide; [|done].
  intros E Hs. simplify_eq. cbn in Hs. by destruct cs as [|y [|? ?]]; simplify_eq/=.
Qed.
Next Obligation.
  intros c r items dg total n t loc n'. cbn.
  destruct (mapM_res _ items) as [cs| |] eqn:Em; [|done..].
  intros [Hb Hi]%mem_store_Ok. exists cs. split; [by apply mapM_id_Ok | done].
Qed.
Next Obligation. intros c r content dg n t loc n' E. by apply mem_store_Ok in E. Qed.
Next Obligation. intros c r m n t url n' E. by simplify_eq/=. Qed.
End MemLaws.

(** ** Properties *)

Module PushProps.
Import Oci Transfer Registry MemRegistry PullProps Push MemLaws.

(** What was pushed is what is pulled: when a push of an update returned
    and a pull of the same reference from the registry returned, the kernel,
    root and verity files in the download directory have the contents of the
    files next to the pushed manifest - for any registry that stores what it
    accepts, provided no two files on the pushing disk collide under SHA-256
    and the download directory was fresh. *)
Theorem push_pull_round_trip `{LawfulRegistry} `{Os} host file_items installer
    popts fb w pr w1 options tag fb' ct w2 r w2' :
  (∀ content cs, file_items content = Ok <$> cs → String.concat "" cs = content) →
  installer_keeps installer →
  (∀ p p' c c', disk w !! p = Some c → disk w !! p' = Some c' →
     digest_of host c = digest_of host c' → c = c') →
  push_update_with_feedback host file_items popts fb [] w = (Ready (Ok pr), w1) →
  pull_reference options = push_reference popts →
  tag_or_digest (pull_reference options) = Ok tag →
  view (net w2) = view (net w1) →
  (∀ img json, images (net w1) !! ref_to_string (tagged (push_reference popts)) = Some img →
     blobs (net w1) !! desc_digest (oci_config img) = Some json →
     NoDup (lock_path options :: the_manifest options tag ::
         locals host options img json tag ++ parts host options img json tag) ∧
     staging host options img json tag (λ dg c, blobs (net w1) !! dg = Some c) (disk w2)) →
  pull_update host installer options fb' ct [] w2 = (Ready (Ok r), w2') →
  ∃ config m m' base, disk w !! push_manifest_path popts = Some config ∧
    Manifest.from_slice (decode host) config = Ok m ∧ parent (push_manifest_path popts) = Some base ∧
    Manifest.normalize_paths m = Ok m' ∧
    Forall2 (λ f f', ∃ c, disk w !! Manifest.full_name f base = Some c ∧
                       disk w2' !! Manifest.full_name f' (pull_dir options tag) = Some c)
      [Manifest.kernel m; Manifest.store m; Manifest.verity m]
      [Manifest.kernel m'; Manifest.store m'; Manifest.verity m'].
Proof. intros Hitems Hinst. by apply push_pull_files. Qed.

Definition ex_push_disk : Disk :=
  list_to_map [("/build/manifest.json", "v1"); ("/build/uki.efi", "K1");
               ("/build/root.raw", "R1"); ("/build/verity.raw", "V1")].
Definition ex_push : PushOptions :=
  mkPush ex_reference "/build/manifest.json" None Anonymous Https.
Abbreviation ex_pushed :=
  (push_update_with_feedback ex_host (λ c, [Ok c]) ex_push true [] (ex_world (mkNet ∅ ∅) ex_push_disk)).

Definition ex_pushed_image : OciImageManifest :=
  mkOciManifest 2 (Some OCI_IMAGE_MEDIA_TYPE) (ex_layer Manifest "v1" None)
    [ex_layer Uki "K1" (Some "uki.efi"); ex_layer Root "R1" (Some "root.raw");
     ex_layer Verity "V1" (Some "verity.raw")] None None None.

Lemma ex_push_runs : ∃ w1 w2',
  ex_pushed = (Ready (Ok (mkPushResult "r.io/ghaf:stable" "r.io/manifests/stable" "sha256:manifest")), w1) ∧
  ex_pull w1.(net) true ∅ =
    (Ready (Ok (mkPullResult "/persist/ghaf/stable" "/persist/ghaf/stable/manifest.json")), w2') ∧
  mem_images (net w1) !! "r.io/ghaf:stable" = Some ex_pushed_image ∧
  mem_blobs (net w1) !! mem_sha "v1" = Some "v1".
Proof.
  assert (ex_pushed.1 = Ready (Ok (mkPushResult "r.io/ghaf:stable" "r.io/manifests/stable" "sha256:manifest")))
    as E1 by (vm_compute; reflexivity).
  assert ((ex_pull ex_pushed.2.(net) true ∅).1 =
    Ready (Ok (mkPullResult "/persist/ghaf/stable" "/persist/ghaf/stable/manifest.json")))
    as E2 by (vm_compute; reflexivity).
  assert (mem_images (net ex_pushed.2) !! "r.io/ghaf:stable" = Some ex_pushed_image)
    as E3 by (vm_compute; reflexivity).
  assert (mem_blobs (net ex_pushed.2) !! mem_sha "v1" = Some "v1") as E4 by (vm_compute; reflexivity).
  revert E1 E2 E3 E4. destruct ex_pushed as [r w1]. cbn [fst snd]. intros -> E2 E3 E4.
  exists w1. revert E2. destruct (ex_pull (net w1) true ∅) as [r2 w2']. cbn [fst]. intros ->. by exists w2'.
Qed.

Lemma ex_pushed_names :
  NoDup (lock_path (ex_options true) :: the_manifest (ex_options true) "stable" ::
    locals ex_host (ex_options true) ex_pushed_image "v1" "stable" ++
    parts ex_host (ex_options true) ex_pushed_image "v1" "stable").
Proof. apply (bool_decide_unpack _). vm_compute. exact I. Qed.

Lemma one_item (content : string) cs : [Ok content] = Ok <$> cs → String.concat "" cs = content.
Proof. destruct cs as [|c [|? ?]]; cbn; by intros [= <-]. Qed.

Lemma push_pull_round_trip_witness : ∃ w2' f c,
  ex_push_disk !! Manifest.full_name f "/build" = Some c ∧
  disk w2' !! Manifest.full_name f "/persist/ghaf/stable" = Some c.
Proof.
  destruct ex_push_runs as (w1 & w2' & E1 & E2 & E3 & E4).
  destruct (push_pull_round_trip ex_host (λ c, [Ok c]) no_install ex_push true
    (ex_world (mkNet ∅ ∅) ex_push_disk)
    (mkPushResult "r.io/ghaf:stable" "r.io/manifests/stable" "sha256:manifest") w1
    (ex_options true) "stable" true None (ex_world (net w1) ∅)
    (mkPullResult "/persist/ghaf/stable" "/persist/ghaf/stable/manifest.json") w2') as (config & m & m' & base & Ec & Em & Eb & En & Hf).
  - exact one_item.
  - exact no_install_keeps.
  - intros p p' c c' _ _ E. by injection E.
  - exact E1.
  - reflexivity.
  - reflexivity.
  - reflexivity.
  - intros img json Hi Hj. change (mem_images (net w1) !! "r.io/ghaf:stable" = Some img) in Hi.
    rewrite E3 in Hi. injection Hi as <-. change (mem_blobs (net w1) !! mem_sha "v1" = Some json) in Hj.
    rewrite E4 in Hj. injection Hj as <-.
    split; [exact ex_pushed_names | apply ex_staging].
  - exact E2.
  - exists w2', (Manifest.kernel m).
    apply Forall2_cons in Hf as [(c & Hc1 & Hc2) _]. exists c.
    assert (base = "/build") as -> by (vm_compute in Eb; congruence). split; [exact Hc1|].
    assert (Manifest.name (Manifest.kernel m') = Manifest.name (Manifest.kernel m)) as Hn.
    { clear -Ec Em En. vm_compute in Ec. injection Ec as <-. vm_compute in Em. injection Em as <-.
      vm_compute in En. injection En as <-. reflexivity. }
    unfold Manifest.full_name in *. rewrite Hn in Hc2. exact Hc2.
Defined.
End PushProps.
