(* ===== verification/RegistrySmoke.v ===== *)
(** * The round trip program ([ota-update/examples/smoke_registry_roundtrip.rs])

    The program pushes an update to a registry, pulls it into a fresh directory
    and validates what it got.  [main] is composed of the updater's own push, pull
    and validation; its theorem says what a run that prints [PASS] has shown.

    Parameters: the clock, the directory for temporary files. *)

From S2P Require Import Prelude RustStr RustInt RustPath ImageManifest ImageInstall.
From S2P Require Import CommonTypes OciTypes OciTransfer OciPull OciPush.
From Stdlib Require Import Ascii.

Module Smoke.
Import Oci Transfer Registry Push.

Record Args := mkArgs {
  manifest : string;
  reference : string;
  changelog : option string;
  allow_nonlocal : bool;
  cleanup : bool;
  username : option string;
  password : option string;
  token : option string;
  insecure : bool
}.

Definition validate_reference_host (reference : string) (allow_nonlocal : bool) : res unit :=
  host ← ok_or (head (split "/"%char reference)) "invalid reference";
  if allow_nonlocal || starts_with "localhost" host || starts_with "127.0.0.1" host then Ok tt
  else bail ("refusing non-local registry host `" +:+ host +:+ "`; use --allow-nonlocal").

Definition credentials (args : Args) : res RegistryCredentials :=
  match token args with
  | Some token => Ok (Bearer token)
  | None =>
      match username args, password args with
      | Some username, Some password => Ok (Basic username password)
      | None, None => Ok Anonymous
      | Some _, None => bail "--password is required when --username is set"
      | None, Some _ => bail "--username is required when --password is set"
      end
  end.

Section smoke.
Context `{OciClient} `{Os} (host : Host) (file_items : string → list (res string))
  (installer : Install.Env → string → bool → World → res unit * World).
(** Nanoseconds since the epoch, an error if the clock is before it. *)
Context (clock : res N) (temp_dir : string).

Definition output_root (stamp : N) : string := path_join temp_dir ("ota-update-smoke-" +:+ pretty stamp).

(** What the program hands to [push_update] and [pull_update]. *)
Definition push_options (args : Args) (reference : TaggedReference) (creds : RegistryCredentials) : PushOptions :=
  mkPush reference (manifest args) (changelog args) creds (if insecure args then Http else Https).
Definition pull_options (args : Args) (reference : TaggedReference) (creds : RegistryCredentials) (stamp : N) :
    PullOptions :=
  mkPull reference (output_root stamp) creds (if insecure args then Http else Https) false true.

Definition main (args : Args) : AS unit :=
  _ ← lift (validate_reference_host (reference args) (allow_nonlocal args));
  d ← gets disk;
  _ ← lift (Install.validate_manifest_path (env_of host d) (manifest args));
  creds ← lift (credentials args);
  reference ← lift (parse_tagged (reference args));
  push ← push_update host file_items (push_options args reference creds);
  stamp ← lift clock;
  pull ← pull_update host installer (pull_options args reference creds stamp) false None;
  d ← gets disk;
  _ ← lift (Install.validate_manifest_path (env_of host d) (manifest_path pull));
  _ ← println ("PASS pushed=" +:+ res_manifest_url push +:+ " pulled=" +:+ output_dir pull);
  if cleanup args then ignore (remove_dir_all (output_root stamp)) else mret tt.

(** The parts of a run that ended with success. *)
Lemma main_Ready args w w' :
  main args [] w = (Ready (Ok tt), w') →
  validate_reference_host (reference args) (allow_nonlocal args) = Ok tt ∧
  Install.validate_manifest_path (env_of host (disk w)) (manifest args) = Ok tt ∧
  ∃ creds ref stamp pr w1 r w2,
    credentials args = Ok creds ∧ parse_tagged (reference args) = Ok ref ∧ clock = Ok stamp ∧
    push_update host file_items (push_options args ref creds) [] w = (Ready (Ok pr), w1) ∧
    pull_update host installer (pull_options args ref creds stamp) false None [] w1 = (Ready (Ok r), w2) ∧
    Install.validate_manifest_path (env_of host (disk w2)) (manifest_path r) = Ok tt ∧
    let w3 := add_line ("PASS pushed=" +:+ res_manifest_url pr +:+ " pulled=" +:+ output_dir r) w2 in
    (if cleanup args then ignore (remove_dir_all (output_root stamp)) [] w3 else (Ready (Ok tt), w3)) =
      (Ready (Ok tt), w').
Proof.
  unfold main. intros ([] & wa & [Hv ->]%lift_Ready & E)%AS_bind_Ok.
  apply AS_bind_Ok in E as (d & wb & [-> ->]%gets_Ready & E).
  apply AS_bind_Ok in E as ([] & wc & [Hm ->]%lift_Ready & E).
  apply AS_bind_Ok in E as (creds & wd & [Hc ->]%lift_Ready & E).
  apply AS_bind_Ok in E as (ref & we & [Hr ->]%lift_Ready & E).
  apply AS_bind_Ok in E as (pr & w1 & Hp & E).
  apply AS_bind_Ok in E as (stamp & wf & [Hs ->]%lift_Ready & E).
  apply AS_bind_Ok in E as (r & w2 & Hq & E).
  apply AS_bind_Ok in E as (d & wg & [-> ->]%gets_Ready & E).
  apply AS_bind_Ok in E as ([] & wh & [Hm' ->]%lift_Ready & E).
  split; [done|]. split; [done|]. exists creds, ref, stamp, pr, w1, r, w2. do 6 (split; [done|]).
  apply AS_bind_Ok in E as ([] & wi & [= <-] & E). by destruct (cleanup args).
Qed.

(** Clearing away a directory, as an observer of the disk sees it: nothing
    outside the directory changes, and when the call does not fail nothing is
    left in it. *)
Definition cleared (dir : string) (w w' : World) : Prop :=
  printed w' = printed w ∧ disk w ∈ disk w' :: trace w' ∧
  ∀ p, under dir p = false → disk w' !! p = disk w !! p.

Lemma cleared_commit dir w w' d : cleared dir w w' →
  (∀ p, under dir p = false → d !! p = disk w' !! p) → cleared dir w (commit d w').
Proof.
  intros (Hp & Hd & Hs) Hn. split; [done|]. split; [by right|].
  intros p Hq. cbn. by rewrite Hn, Hs.
Qed.

Lemma cleared_list dir l w w' : cleared dir w w' → cleared dir w (foldl (remove_one dir) w' l).
Proof.
  revert w'. induction l as [|p l IH]; intros w' Hc; cbn; [done|]. apply IH. unfold remove_one.
  destruct (under dir p) eqn:Ep; [|done]. apply cleared_commit; [done|].
  intros q Hq. rewrite lookup_delete_ne; [done|congruence].
Qed.

Lemma remove_clears dir ctx w w' : ignore (remove_dir_all dir) ctx w = (Ready (Ok tt), w') →
  cleared dir w w' ∧ ((∀ i, fault i = None) → ∀ p, under dir p = true → disk w' !! p = None).
Proof.
  assert (cleared dir w (tick w)) as Ht by (by split; [|split; [left|]]).
  unfold ignore, try_, remove_dir_all, sys, gets, mbind, AS_bind, mret, AS_ret.
  destruct (fault (calls w)) as [e|] eqn:Ef; intros E; injection E as <-.
  - split; [by apply cleared_list|]. intros Hf. by rewrite Hf in Ef.
  - split.
    + apply cleared_commit; [by apply cleared_list|]. intros p Hp.
      destruct (disk (foldl _ _ _) !! p) as [c|] eqn:El; apply map_lookup_filter_Some || apply map_lookup_filter_None; auto.
    + intros _ p Hp. apply map_lookup_filter_None. right. intros x _. cbn. by rewrite Hp.
Qed.

Lemma refused {A} (r : res A) (k : A → AS unit) ctx w :
  (∀ a, r = Ok a → (k a ctx w).2 = w) → ((lift r ≫= k) ctx w).2 = w.
Proof. destruct r as [a| |]; cbn; [intros Hk; by apply Hk|done..]. Qed.

Lemma refused_read {A} (f : World → A) (k : A → AS unit) ctx w :
  (k (f w) ctx w).2 = w → ((gets f ≫= k) ctx w).2 = w.
Proof. done. Qed.

(** Before the checks of the arguments have passed nothing is sent, written or
    printed. *)
Lemma main_refuses args ctx w :
  is_ok (_ ← validate_reference_host (reference args) (allow_nonlocal args);
         _ ← Install.validate_manifest_path (env_of host (disk w)) (manifest args);
         _ ← credentials args; parse_tagged (reference args)) = false →
  (main args ctx w).2 = w.
Proof.
  intros Hn. unfold main. apply refused. intros [] Hv. apply refused_read.
  apply refused. intros [] Hm. apply refused. intros creds Hc. apply refused. intros ref Hr.
  rewrite Hv in Hn. cbn in Hn. rewrite Hm in Hn. cbn in Hn. rewrite Hc in Hn. cbn in Hn. by rewrite Hr in Hn.
Qed.
End smoke.
End Smoke.

Module SmokeProps.
Import Oci Transfer Registry MemRegistry PullProps Push MemLaws PushProps Smoke.

Lemma local_host reference allow : validate_reference_host reference allow = Ok tt →
  ∃ host_name, head (split "/"%char reference) = Some host_name ∧
    (allow = false → starts_with "localhost" host_name = true ∨ starts_with "127.0.0.1" host_name = true).
Proof.
  unfold validate_reference_host. intros Hhost. res_simp. eexists. split; [done|]. intros ->. cbn in Hhost.
  destruct (starts_with "localhost" _); [by left|]. destruct (starts_with "127.0.0.1" _); [by right|done].
Qed.

(** The end of a run that printed [line] on the disk of [w2]. *)
Lemma pass_clears `{OciClient} `{Os} line (clean : bool) root w2 w' :
  (if clean then ignore (remove_dir_all root) [] (add_line line w2) else (Ready (Ok tt), add_line line w2)) =
    (Ready (Ok tt), w') →
  printed w' = printed (add_line line w2) ∧ disk w2 ∈ disk w' :: trace w' ∧
  (∀ p, under root p = false → disk w' !! p = disk w2 !! p) ∧
  (clean = false → disk w' = disk w2) ∧
  (clean = true → (∀ i, fault i = None) → ∀ p, under root p = true → disk w' !! p = None).
Proof.
  destruct clean; intros E.
  - apply remove_clears in E as [(Hp & Hd & Hs) Hg]. by repeat split.
  - injection E as <-. by repeat split; [left|..].
Qed.

(** C15: What a [PASS] of the round trip program means: the reference's host was
    accepted, the publisher's manifest validated against the files beside it, and
    the disk passed through a state [seen] - the one in which [PASS] was printed -
    in which the pulled manifest validated too, held the publisher's data with its
    paths made safe, and the three files it names had the bytes of the publisher's.
    Without [--cleanup] that state is the final one; with it, the final disk
    differs from it only below the program's own directory, which is empty then
    unless a system call failed.  The conditions: a file is read in pieces that
    make up its content; the registry stores what it accepts; no two of the publisher's files collide under SHA-256; below the
    program's directory, named after the time, there is no manifest yet and what
    lies under the names of the image's files is whole; and the names of the
    lock, the manifest, the files and the temporary files are different. *)
Theorem smoke_pass_means `{LawfulRegistry} `{Os} host file_items installer clock temp_dir args w w' :
  (∀ content cs, file_items content = Ok <$> cs → String.concat "" cs = content) →
  (∀ p p' c c', disk w !! p = Some c → disk w !! p' = Some c' →
     digest_of host c = digest_of host c' → c = c') →
  (∀ creds ref stamp tag img json,
     credentials args = Ok creds → parse_tagged (reference args) = Ok ref → clock = Ok stamp →
     tag_or_digest ref = Ok tag →
     let n := net (push_update host file_items (push_options args ref creds) [] w).2 in
     let options := pull_options temp_dir args ref creds stamp in
     images n !! ref_to_string (tagged ref) = Some img →
     blobs n !! desc_digest (oci_config img) = Some json →
     NoDup (lock_path options :: the_manifest options tag ::
         locals host options img json tag ++ parts host options img json tag) ∧
     staging host options img json tag (λ dg c, blobs n !! dg = Some c) (disk w)) →
  main host file_items installer clock temp_dir args [] w = (Ready (Ok tt), w') →
  (∃ host_name, head (split "/"%char (reference args)) = Some host_name ∧
     (allow_nonlocal args = false → starts_with "localhost" host_name = true ∨ starts_with "127.0.0.1" host_name = true)) ∧
  Install.validate_manifest_path (env_of host (disk w)) (manifest args) = Ok tt ∧
  ∃ seen stamp config m m' base dir url,
    seen ∈ disk w' :: trace w' ∧ clock = Ok stamp ∧
    (cleanup args = false → disk w' = seen) ∧
    (∀ p, under (output_root temp_dir stamp) p = false → disk w' !! p = seen !! p) ∧
    (cleanup args = true → (∀ i, fault i = None) →
     ∀ p, under (output_root temp_dir stamp) p = true → disk w' !! p = None) ∧
    disk w !! manifest args = Some config ∧
    Manifest.from_slice (decode host) config = Ok m ∧ parent (manifest args) = Some base ∧
    Manifest.normalize_paths m = Ok m' ∧
    last (printed w') = Some ("PASS pushed=" +:+ url +:+ " pulled=" +:+ dir) ∧
    Install.validate_manifest_path (env_of host seen) (path_join dir "manifest.json") = Ok tt ∧
    (∃ content, encode host m' = Ok content ∧ seen !! path_join dir "manifest.json" = Some content) ∧
    Forall2 (λ f f', ∃ c, disk w !! Manifest.full_name f base = Some c ∧
                       seen !! Manifest.full_name f' dir = Some c)
      [Manifest.kernel m; Manifest.store m; Manifest.verity m]
      [Manifest.kernel m'; Manifest.store m'; Manifest.verity m'].
Proof.
  intros Hitems Hcoll Hfresh
    (Hhost & Hman & creds & ref & stamp & pr & w1 & r & w2 & Hc & Hr & Hs & Hpush & Hpull & Hval & E)%main_Ready.
  split; [by apply local_host|]. split; [done|].
  destruct (parse_tagged_total _ _ Hr) as [tag Htag].
  pose proof (push_update_Ready host file_items Hitems (disk w) Hcoll _ _ _ _ _ eq_refl Hpush) as [Hd _].
  assert ((push_update host file_items (push_options args ref creds) [] w).2 = w1) as Ew by (by rewrite Hpush).
  destruct (push_pull_stored host file_items installer Hitems (push_options args ref creds) false w pr w1
    (pull_options temp_dir args ref creds stamp) tag false None w1 r w2)
    as (config & m & m' & base & Hcfg & Hm & Hb & Hn & [-> Hcon] & Hf); try done.
  { intros img json Hi Hj. rewrite Hd, <-Ew in *. by apply Hfresh. }
  apply pass_clears in E as (Hp & Hin & Hout & Hoff & Hgone).
  exists (disk w2), stamp, config, m, m', base, (pull_dir (pull_options temp_dir args ref creds stamp) tag), (res_manifest_url pr).
  do 9 (split; [done|]). split; [rewrite Hp; cbn; by rewrite last_snoc|]. split; [exact Hval|]. by split.
Qed.

(** The publisher of [ex_push_disk] and a registry in memory. *)
Definition ex_args : Args := mkArgs "/build/manifest.json" "localhost/ghaf:stable" None false true None None None true.
Definition ex_ref : TaggedReference := mkTagged (mkRef "localhost/ghaf" (Some "stable") None).
Definition ex_smoke_world : World := ex_world (mkNet ∅ ∅) ex_push_disk.
Definition ex_smoke_run : fut unit * World :=
  main ex_host (λ c, [Ok c]) no_install (Ok 5%N) "/tmp" ex_args [] ex_smoke_world.
Definition ex_smoke_net : MemNet :=
  net (push_update ex_host (λ c, [Ok c]) (push_options ex_args ex_ref Anonymous) [] ex_smoke_world).2.
Definition ex_smoke_options : PullOptions := pull_options "/tmp" ex_args ex_ref Anonymous 5.

Lemma ex_smoke_fresh :
  NoDup (lock_path ex_smoke_options :: the_manifest ex_smoke_options "stable" ::
    locals ex_host ex_smoke_options ex_pushed_image "v1" "stable" ++
    parts ex_host ex_smoke_options ex_pushed_image "v1" "stable") ∧
  Forall (λ p, ex_push_disk !! p = None)
    (the_manifest ex_smoke_options "stable" :: locals ex_host ex_smoke_options ex_pushed_image "v1" "stable").
Proof. split; apply (bool_decide_unpack _); vm_compute; exact I. Qed.

Lemma ex_smoke_passes :
  main ex_host (λ c, [Ok c]) no_install (Ok 5%N) "/tmp" ex_args [] ex_smoke_world = (Ready (Ok tt), ex_smoke_run.2).
Proof.
  assert (ex_smoke_run.1 = Ready (Ok tt)) as E by (vm_compute; reflexivity). revert E.
  change (main _ _ _ _ _ _ _ _) with ex_smoke_run. destruct ex_smoke_run as [r w']. cbn [fst snd]. by intros ->.
Qed.

Lemma smoke_pass_means_witness : ∃ seen dir url f c,
  seen ∈ disk ex_smoke_run.2 :: trace ex_smoke_run.2 ∧
  disk ex_smoke_run.2 !! "/tmp/ota-update-smoke-5/ghaf/stable/uki.efi" = None ∧
  last (printed ex_smoke_run.2) = Some ("PASS pushed=" +:+ url +:+ " pulled=" +:+ dir) ∧
  ex_push_disk !! "/build/uki.efi" = Some c ∧ seen !! Manifest.full_name f dir = Some c.
Proof.
  destruct (smoke_pass_means ex_host (λ c, [Ok c]) no_install (Ok 5%N) "/tmp" ex_args ex_smoke_world ex_smoke_run.2)
    as (_ & _ & seen & stamp & config & m & m' & base & dir & url & Hin & _ & _ & _ & Hgone & Ec & Em & Eb & En & Hl & _ & _ & Hf).
  - exact one_item.
  - intros p p' c c' _ _ E. by injection E.
  - intros creds ref stamp tag img json [= <-] [= <-] [= <-] [= <-] n options Hi Hj.
    assert (mem_images ex_smoke_net !! "r.io/localhost/ghaf:stable" = Some ex_pushed_image) as Ei
      by (vm_compute; reflexivity).
    assert (mem_blobs ex_smoke_net !! mem_sha "v1" = Some "v1") as Ej by (vm_compute; reflexivity).
    change (mem_images ex_smoke_net !! "r.io/localhost/ghaf:stable" = Some img) in Hi.
    rewrite Ei in Hi. injection Hi as <-.
    change (mem_blobs ex_smoke_net !! mem_sha "v1" = Some json) in Hj. rewrite Ej in Hj. injection Hj as <-.
    destruct ex_smoke_fresh as [Hnd [Hm Hloc]%Forall_cons]. split; [exact Hnd|]. split; [exact Hm|].
    intros b c Hb Hc. rewrite Forall_forall in Hloc. exfalso.
    pose proof (Hloc _ (list_elem_of_fmap_2 _ _ _ Hb)) as E. cbn beta in E.
    change (ex_push_disk !! local_path (the_dir ex_smoke_options "stable") b = Some c) in Hc.
    rewrite E in Hc. discriminate Hc.
  - exact ex_smoke_passes.
  - exists seen, dir, url, (Manifest.kernel m').
    apply Forall2_cons in Hf as [(c & Hc1 & Hc2) _]. exists c. split; [exact Hin|]. split; [vm_compute; reflexivity|]. split; [exact Hl|]. split; [|exact Hc2].
    vm_compute in Ec. injection Ec as <-. vm_compute in Em. injection Em as <-. vm_compute in Eb. injection Eb as <-.
    exact Hc1.
Defined.

(** The host is checked by its prefix: a name that only begins like a local one
    is taken for local. *)
Lemma foreign_host_accepted :
  validate_reference_host "localhost.example.com/ghaf:stable" false = Ok tt ∧
  validate_reference_host "127.0.0.1.example.com/ghaf:stable" false = Ok tt ∧
  is_ok (validate_reference_host "example.com/ghaf:stable" false) = false.
Proof. done. Qed.
End SmokeProps.
