(* ===== verification/ImageDelivery.v ===== *)
(** * An image from the publisher to the device

    The three parts of the updater put together: [registry push] on the
    publisher's side, [registry pull] on the device, and [image install] of the
    pulled manifest.  What the publisher has next to its manifest is what the
    device's volumes and its boot partition hold in the end. *)

From S2P Require Import Prelude RustStr RustInt RustPath ImagePipeline.
From S2P Require Import ImageSlot ImageUki ImageManifest ImageGroup ImageRuntime ImagePlan ImageDevice ImageInstall.
From S2P Require Import CommonTypes OciTypes OciTransfer OciPull OciPush.

Module Delivery.
Import Plan.

(** A plan is that of the manifest in the file, for the state that was read. *)
Lemma plan_from_Ok env path check plan :
  Install.plan_from_manifest_path env path check = Ok plan →
  ∃ rt dir content m, Install.populate_runtime env = Ok rt ∧ parent path = Some dir ∧
    Manifest.read (Install.fs env) path = Ok content ∧
    Install.decode env content = Ok m ∧ install rt m dir = Ok plan.
Proof.
  unfold Install.plan_from_manifest_path, Manifest.from_file, Manifest.from_slice. intros H. res_simp.
  by repeat eexists.
Qed.

Lemma populate_Ok env rt :
  Install.populate_runtime env = Ok rt → ∃ vols cmdline bootctl, Runtime.new vols cmdline bootctl = Ok rt.
Proof. unfold Install.populate_runtime. intros H. res_simp. by repeat eexists. Qed.

Lemma read_disk host d p c :
  Manifest.read (Registry.fs_of host d) p = Ok c → d !! p = Some c.
Proof.
  cbn. unfold Registry.on_read. destruct (Registry.read_fault host p); [done|].
  destruct (d !! p); [by intros [= ->] | done].
Qed.

(** A device holds the image of a manifest with these three files: the volumes
    with its version's names begin with what the root and verity files stand
    for, and its boot entry is the kernel. *)
Definition device_holds `{Device.Device W} (w : W) (m : Manifest.Manifest) (kernel root verity : string) : Prop :=
  ∀ ir iv, Device.image_of (Manifest.store m) root = Some ir →
    Device.image_of (Manifest.verity m) verity = Some iv →
    ∃ t vg vg' rest rest', Manifest.to_version m = Ok t ∧
      Device.lvs (Device.view w) !! (vg, Plan.used_name Slot.Root t) = Some (ir +:+ rest) ∧
      Device.lvs (Device.view w) !! (vg', Plan.used_name Slot.Verity t) = Some (iv +:+ rest') ∧
      Device.files (Device.view w) !! ("/boot/EFI/Linux/" +:+ Uki.display (Uki.mkUki t None)) = Some kernel.

Section delivered.
Import Oci Transfer Registry Push Device.
Context `{Device W} (host : Host).
Context (Hjson : ∀ m c, encode host m = Ok c → decode host c = Ok m).
#[local] Set Default Proof Using "All".

(** Installing the manifest that a pull stored. *)
Lemma install_pulled d dir path m content rt check plan (w w' : W) cr cv ir iv :
  parent path = Some dir → encode host m = Ok content → d !! path = Some content →
  Install.populate_runtime (env_of host d) = Ok rt → plain_rt rt →
  Install.plan_from_manifest_path (env_of host d) path check = Ok plan → Plan.steps plan ≠ [] →
  (∀ p c, d !! p = Some c → Device.files (Device.view w) !! p = Some c) →
  Plan.run_plan plan w = (Ok tt, w') →
  d !! Manifest.full_name (Manifest.store m) dir = Some cr →
  d !! Manifest.full_name (Manifest.verity m) dir = Some cv →
  image_of (Manifest.store m) cr = Some ir → image_of (Manifest.verity m) cv = Some iv →
  ∃ t vg vg' rest rest' ck, Manifest.to_version m = Ok t ∧
    Device.lvs (Device.view w') !! (vg, used_name Slot.Root t) = Some (ir +:+ rest) ∧
    Device.lvs (Device.view w') !! (vg', used_name Slot.Verity t) = Some (iv +:+ rest') ∧
    Device.files (Device.view w) !! Manifest.full_name (Manifest.kernel m) dir = Some ck ∧
    Device.files (Device.view w') !! ("/boot/EFI/Linux/" +:+ Uki.display (Uki.mkUki t None)) = Some ck.
Proof.
  intros Hp Hc Hd Hrt Hpl Hplan Hne Hfiles Hrun Hr Hv Hir Hiv.
  apply plan_from_Ok in Hplan as (rt' & dir' & content' & m' & Hrt' & Hp' & Hread & Hdec & Hi).
  apply read_disk in Hread. cbn in Hdec. rewrite Hd in Hread. injection Hread as <-.
  rewrite (Hjson _ _ Hc) in Hdec. injection Hdec as <-.
  rewrite Hrt in Hrt'. injection Hrt' as <-. rewrite Hp in Hp'. injection Hp' as <-.
  apply populate_Ok in Hrt as (vols & cmdline & bootctl & Hnew).
  destruct (Manifest.to_version m) as [t| |] eqn:Ht.
  - exists t. destruct (installed_image w w' vols cmdline bootctl rt m t dir plan cr cv ir iv)
      as (vg & vg' & rest & rest' & ck & Himg); try done; [by apply Hfiles..|].
    exists vg, vg', rest, rest', ck. by split.
  - unfold Plan.install, Runtime.select_update_slot in Hi. rewrite Ht in Hi. done.
  - unfold Plan.install, Runtime.select_update_slot in Hi. rewrite Ht in Hi. done.
Qed.
End delivered.
End Delivery.

(** ** Properties *)

Module DeliveryProps.
Import Oci Transfer Registry MemRegistry PullProps Push MemLaws PushProps Device SimDevice Delivery.

(** C1: An update arrives as it was published: when a push, a pull of the same
    reference from that registry and an install of the pulled manifest have all
    ended with success, the volumes of the new version begin with the root and
    verity images the publisher has next to its manifest, and the boot entry of
    that version is the publisher's kernel.  Relied on: the registry stores what
    it accepts, JSON reads back what it printed, no two of the publisher's files
    collide under SHA-256, the download directory was fresh, and the tools on the
    device do what they document. *)
Theorem image_delivered `{LawfulRegistry} `{Os} `{Device W} host file_items installer
    popts fb w pr w1 options tag fb' ct w2 r w2' rt check plan (w3 w4 : W) :
  (∀ content cs, file_items content = Ok <$> cs → String.concat "" cs = content) →
  installer_keeps installer →
  (∀ m c, encode host m = Ok c → decode host c = Ok m) →
  (∀ p p' c c', disk w !! p = Some c → disk w !! p' = Some c' →
     digest_of host c = digest_of host c' → c = c') →
  push_update_with_feedback host file_items popts fb [] w = (Ready (Ok pr), w1) →
  pull_reference options = push_reference popts →
  tag_or_digest (pull_reference options) = Ok tag →
  Push.view (net w2) = Push.view (net w1) →
  (∀ img json, images (net w1) !! ref_to_string (tagged (push_reference popts)) = Some img →
     blobs (net w1) !! desc_digest (oci_config img) = Some json →
     NoDup (lock_path options :: the_manifest options tag ::
         locals host options img json tag ++ parts host options img json tag) ∧
     staging host options img json tag (λ dg c, blobs (net w1) !! dg = Some c) (disk w2)) →
  pull_update host installer options fb' ct [] w2 = (Ready (Ok r), w2') →
  parent (manifest_path r) = Some (output_dir r) →
  Install.populate_runtime (env_of host (disk w2')) = Ok rt → plain_rt rt →
  Install.plan_from_manifest_path (env_of host (disk w2')) (manifest_path r) check = Ok plan →
  Plan.steps plan ≠ [] →
  (∀ p c, disk w2' !! p = Some c → Device.files (Device.view w3) !! p = Some c) →
  Plan.run_plan plan w3 = (Ok tt, w4) →
  ∃ config m m' base kernel root verity,
    disk w !! push_manifest_path popts = Some config ∧
    Manifest.from_slice (decode host) config = Ok m ∧ parent (push_manifest_path popts) = Some base ∧
    Manifest.normalize_paths m = Ok m' ∧
    disk w !! Manifest.full_name (Manifest.kernel m) base = Some kernel ∧
    disk w !! Manifest.full_name (Manifest.store m) base = Some root ∧
    disk w !! Manifest.full_name (Manifest.verity m) base = Some verity ∧
    device_holds w4 m' kernel root verity.
Proof.
  intros Hitems Hinst Hjson Hcoll Hpush Href Htag Hview Hfresh Hpull Hpar Hrt Hpl Hplan Hne Hfiles Hrun.
  destruct (push_pull_stored host file_items installer Hitems popts fb w pr w1 options tag fb' ct w2 r w2')
    as (config & m & m' & base & Hc & Hm & Hb & Hn & (-> & content & He & Hd) & Hf); [done..|].
  cbn [manifest_path output_dir] in *.
  apply Forall2_cons in Hf as [(ck & Hk & Hk') Hf]. apply Forall2_cons in Hf as [(cr & Hr & Hr') Hf].
  apply Forall2_cons in Hf as [(cv & Hv & Hv') _].
  exists config, m, m', base, ck, cr, cv. do 7 (split; [done|]). intros ir iv Hir Hiv.
  destruct (install_pulled host Hjson (disk w2') _ _ m' content rt check plan w3 w4 cr cv ir iv Hpar He Hd)
    as (t & vg & vg' & rest & rest' & ck' & Ht & Hlr & Hlv & Hck & Hb'); [done..|].
  apply Hfiles in Hk'. rewrite Hk' in Hck. injection Hck as <-.
  by exists t, vg, vg', rest, rest'.
Qed.

(** A device that runs version 1.0 and pulls version 2.0 from a registry in
    memory; JSON is the version alone, for one manifest. *)
Definition ex_published : Manifest.Manifest :=
  Manifest.mkManifest ∅ 1 None "2.0" RuntimeProps.ex_hash
    (Manifest.mkFile "uki.efi" "K2" None) (Manifest.mkFile "root.raw" "R2" None)
    (Manifest.mkFile "verity.zst" "zV2" None).
Definition same_manifest (m : Manifest.Manifest) : bool :=
  let file (f g : Manifest.File) :=
    bool_decide (Manifest.name f = Manifest.name g) && bool_decide (Manifest.sha256sum f = Manifest.sha256sum g) &&
    bool_decide (Manifest.unpacked_size f = Manifest.unpacked_size g) in
  bool_decide (Manifest.meta m = Manifest.meta ex_published) &&
  bool_decide (Manifest.manifest_version m = 1%Z) && bool_decide (Manifest.system m = None) &&
  bool_decide (Manifest.version m = "2.0") && bool_decide (Manifest.root_verity_hash m = RuntimeProps.ex_hash) &&
  file (Manifest.kernel m) (Manifest.kernel ex_published) && file (Manifest.store m) (Manifest.store ex_published) &&
  file (Manifest.verity m) (Manifest.verity ex_published).
Definition ex_device_host : Host :=
  mkHost (Some "ghaf") 42 (λ m, if same_manifest m then Ok "2.0" else bail "other")
    (λ s, if bool_decide (s = "2.0") then Ok ex_published else bail "bad json")
    (λ s, Ok s) (λ s, s) (λ s, s) (λ _, None)
    (Ok RuntimeProps.ex_cmdline) (Ok RuntimeProps.ex_bootctl) (Ok RuntimeProps.ex_volumes).

Lemma ex_json m c : encode ex_device_host m = Ok c → decode ex_device_host c = Ok m.
Proof.
  cbn. destruct (same_manifest m) eqn:E; [|done]. intros [= <-]. unfold same_manifest in E.
  repeat (apply andb_prop in E as [E ?]).
  repeat match goal with H : bool_decide _ = true |- _ => apply bool_decide_eq_true in H end.
  repeat match goal with H : _ && _ = true |- _ => apply andb_prop in H as [??] end.
  repeat match goal with H : bool_decide _ = true |- _ => apply bool_decide_eq_true in H end.
  destruct m as [? ? ? ? ? [] [] []]. cbn in *. subst. done.
Qed.

Definition ex_build : Transfer.Disk :=
  list_to_map [("/build/manifest.json", "2.0"); ("/build/uki.efi", "K2");
               ("/build/root.raw", "R2"); ("/build/verity.zst", "zV2")].
Abbreviation ex_pushing :=
  (push_update_with_feedback ex_device_host (λ c, [Ok c]) ex_push true [] (ex_world (mkNet ∅ ∅) ex_build)).
Abbreviation ex_pulling n :=
  (pull_update ex_device_host no_install (ex_options true) true None [] (ex_world n ∅)).
Abbreviation ex_planning d :=
  (Install.plan_from_manifest_path (env_of ex_device_host d) "/persist/ghaf/stable/manifest.json" true).
Abbreviation ex_device d := (Device.mkDisk (Device.lvs DeviceProps.ex_disk) d).
Definition ok_run (d : Transfer.Disk) (p : res Plan.Plan) : bool :=
  match p with
  | Ok p => bool_decide (length (Plan.steps p) = 7) && is_ok (Plan.run_plan p (ex_device d)).1
  | _ => false
  end.
Definition ex_image2 : OciImageManifest :=
  mkOciManifest 2 (Some OCI_IMAGE_MEDIA_TYPE) (ex_layer Manifest "2.0" None)
    [ex_layer Uki "K2" (Some "uki.efi"); ex_layer Root "R2" (Some "root.raw");
     ex_layer Verity "zV2" (Some "verity.zst")] None None None.

Lemma ex_published_names :
  NoDup (lock_path (ex_options true) :: the_manifest (ex_options true) "stable" ::
    locals ex_device_host (ex_options true) ex_image2 "2.0" "stable" ++
    parts ex_device_host (ex_options true) ex_image2 "2.0" "stable").
Proof. apply (bool_decide_unpack _). vm_compute. exact I. Qed.

Lemma ex_delivery_runs : ∃ w1 w2' plan d',
  ex_pushing = (Ready (Ok (mkPushResult "r.io/ghaf:stable" "r.io/manifests/stable" "sha256:manifest")), w1) ∧
  mem_images (net w1) !! "r.io/ghaf:stable" = Some ex_image2 ∧
  mem_blobs (net w1) !! mem_sha "2.0" = Some "2.0" ∧
  ex_pulling (net w1) =
    (Ready (Ok (mkPullResult "/persist/ghaf/stable" "/persist/ghaf/stable/manifest.json")), w2') ∧
  ex_planning (disk w2') = Ok plan ∧ length (Plan.steps plan) = 7 ∧
  Plan.run_plan plan (ex_device (disk w2')) = (Ok tt, d').
Proof.
  assert (ex_pushing.1 = Ready (Ok (mkPushResult "r.io/ghaf:stable" "r.io/manifests/stable" "sha256:manifest")))
    as E1 by (vm_compute; reflexivity).
  assert (mem_images (net ex_pushing.2) !! "r.io/ghaf:stable" = Some ex_image2) as E2 by (vm_compute; reflexivity).
  assert (mem_blobs (net ex_pushing.2) !! mem_sha "2.0" = Some "2.0") as E3 by (vm_compute; reflexivity).
  assert ((ex_pulling (net ex_pushing.2)).1 =
    Ready (Ok (mkPullResult "/persist/ghaf/stable" "/persist/ghaf/stable/manifest.json")))
    as E4 by (vm_compute; reflexivity).
  assert (ok_run (disk (ex_pulling (net ex_pushing.2)).2) (ex_planning (disk (ex_pulling (net ex_pushing.2)).2)) = true)
    as E5 by (vm_compute; reflexivity).
  revert E1 E2 E3 E4 E5. destruct ex_pushing as [r1 w1]. cbn [fst snd]. intros -> E2 E3 E4 E5.
  exists w1. revert E4 E5. destruct (ex_pulling (net w1)) as [r2 w2']. cbn [fst snd]. intros -> E5.
  exists w2'. revert E5. destruct (ex_planning (disk w2')) as [plan| |]; [|done..]. cbn.
  intros [E6%bool_decide_eq_true E7]%andb_prop. exists plan. revert E7.
  destruct (Plan.run_plan plan _) as [[[]| |] d']; [|done..]. intros _. by exists d'.
Qed.

Lemma image_delivered_witness : ∃ d' vg rest kernel root,
  ex_build !! "/build/root.raw" = Some root ∧ ex_build !! "/build/uki.efi" = Some kernel ∧
  Device.lvs d' !! (vg, "root_2.0_0123456789abcdef") = Some (root +:+ rest) ∧
  Device.files d' !! DeviceProps.ex_boot "2.0" = Some kernel.
Proof.
  destruct ex_delivery_runs as (w1 & w2' & plan & d' & Hpush & Himg & Hblob & Hpull & Hplan & Hlen & Hrun).
  destruct (image_delivered ex_device_host (λ c, [Ok c]) no_install ex_push true
    (ex_world (mkNet ∅ ∅) ex_build)
    (mkPushResult "r.io/ghaf:stable" "r.io/manifests/stable" "sha256:manifest") w1
    (ex_options true) "stable" true None (ex_world (net w1) ∅)
    (mkPullResult "/persist/ghaf/stable" "/persist/ghaf/stable/manifest.json") w2'
    RuntimeProps.ex_rt true plan (Device.mkDisk (Device.lvs DeviceProps.ex_disk) (disk w2')) d')
    as (config & m & m' & base & kernel & root & verity & Ec & Em & Eb & En & Hk & Hr & Hv & Hd).
  - exact one_item.
  - exact no_install_keeps.
  - exact ex_json.
  - intros p p' c c' _ _ E. by injection E.
  - exact Hpush.
  - reflexivity.
  - reflexivity.
  - reflexivity.
  - intros img json Hi Hj. change (mem_images (net w1) !! "r.io/ghaf:stable" = Some img) in Hi.
    rewrite Himg in Hi. injection Hi as <-. change (mem_blobs (net w1) !! mem_sha "2.0" = Some json) in Hj.
    rewrite Hblob in Hj. injection Hj as <-.
    split; [exact ex_published_names|]. split; [reflexivity|]. intros b c _ Hb. discriminate Hb.
  - exact Hpull.
  - vm_compute; reflexivity.
  - exact RuntimeProps.ex_rt_new.
  - exact DeviceProps.ex_plain.
  - exact Hplan.
  - intros E. rewrite E in Hlen. discriminate Hlen.
  - intros p c Hp. exact Hp.
  - exact Hrun.
  - vm_compute in Ec. injection Ec as <-. vm_compute in Em. injection Em as <-.
    vm_compute in Eb. injection Eb as <-. vm_compute in En. injection En as <-.
    destruct (Hd root "V2") as (t & vg & vg' & rest & rest' & Ht & Hlr & _ & Hb); [reflexivity| |].
    + vm_compute in Hv. injection Hv as <-. reflexivity.
    + vm_compute in Ht. injection Ht as <-. exists d', vg, rest, kernel, root.
      split; [exact Hr|]. split; [exact Hk|]. split; [exact Hlr | exact Hb].
Defined.
End DeliveryProps.
