(* ===== verification/OciPrune.v ===== *)
(** * Pruning downloads, and the registry commands
    ([registry/mod.rs], [registry/cli.rs])

    [Prune] is the loop that looks for repositories below the download root
    with a stack of paths, on a tree of directories; it is equal to a recursive
    function on the tree, which keeps the two newest updates of a repository.
    [RegistryCli] is the command line on top of the operations. *)

From S2P Require Import Prelude RustStr RustInt RustPath CommonTypes.
From S2P Require Import ImageManifest ImageInstall OciTypes OciTransfer OciPull OciPush.
From Stdlib Require Import Ascii.
From stdpp Require Import sorting.

Module Prune.

(** A directory has a time of last change, if the system tells, and entries in
    the order in which they are read. *)
Inductive node :=
| NFile
| NDir (modified : option Z) (entries : list (string * node)).

Section node_ind.
Context (P : node → Prop).
Context (Hfile : P NFile) (Hdir : ∀ m es, Forall (λ kc, P kc.2) es → P (NDir m es)).
Fixpoint node_ind' (n : node) : P n :=
  match n with
  | NFile => Hfile
  | NDir m es =>
      Hdir m es ((fix go es : Forall (λ kc, P kc.2) es :=
        match es with
        | [] => Forall_nil_2 _
        | kc :: es => Forall_cons_2 _ _ _ (node_ind' kc.2) (go es)
        end) es)
  end.
End node_ind.

Abbreviation entries_t := (list (string * node)).
Abbreviation fpath := (list string).

Definition is_dir (n : node) : bool := match n with NDir _ _ => true | NFile => false end.
Fixpoint child (k : string) (es : entries_t) : option node :=
  match es with
  | [] => None
  | (k', c) :: es => if bool_decide (k' = k) then Some c else child k es
  end.
Fixpoint alter_child (k : string) (f : node → node) (es : entries_t) : entries_t :=
  match es with
  | [] => []
  | (k', c) :: es => if bool_decide (k' = k) then (k', f c) :: es else (k', c) :: alter_child k f es
  end.
Fixpoint get (t : node) (p : fpath) {struct p} : option node :=
  match p, t with
  | [], _ => Some t
  | k :: p, NDir _ es => child k es ≫= λ c, get c p
  | _ :: _, NFile => None
  end.
Fixpoint put (t : node) (p : fpath) (d : node) {struct p} : node :=
  match p, t with
  | [], _ => d
  | k :: p, NDir m es => NDir m (alter_child k (λ c, put c p d) es)
  | _ :: _, NFile => NFile
  end.

Definition has_manifest (c : node) : bool :=
  match c with
  | NDir _ es => match child "manifest.json" es with Some _ => true | None => false end
  | NFile => false
  end.
Definition modified_of (c : node) : option Z := match c with NDir m _ => m | NFile => None end.

(** [Option<SystemTime>] is ordered with [None] first. *)
Definition mtime_le (a b : option Z) : bool :=
  match a, b with
  | None, _ => true
  | Some _, None => false
  | Some x, Some y => (x <=? y)%Z
  end.
Fixpoint insert_newest (x : string * option Z) (l : list (string * option Z)) : list (string * option Z) :=
  match l with
  | [] => [x]
  | y :: l => if mtime_le y.2 x.2 then x :: y :: l else y :: insert_newest x l
  end.
(** [tags.sort_by(|a, b| b.1.cmp(&a.1))], a stable sort *)
Definition sort_newest (l : list (string * option Z)) : list (string * option Z) :=
  foldr insert_newest [] l.

Definition KEEP_PER_REPOSITORY : nat := 2.

(** The updates among the entries, and those that are too many. *)
Definition subdirs (es : entries_t) : entries_t := keep (λ kc, is_dir kc.2) es.
Definition tags (es : entries_t) : list (string * option Z) :=
  (λ kc, (kc.1, modified_of kc.2)) <$> keep (λ kc, has_manifest kc.2) (subdirs es).
Definition stale (es : entries_t) : list string := (drop KEEP_PER_REPOSITORY (sort_newest (tags es))).*1.

Section prune.
(** System calls that fail, by the path they are about: reading a directory,
    looking at an entry, and removing a directory, of which then something is
    left; and the time a removal is made. *)
Context (show : fpath → string).
Context (read_fault probe_fault : fpath → option error) (remove_fault : fpath → option (error * node)).
Context (now : Z).

Definition touch (t : node) : node := match t with NDir _ es => NDir (Some now) es | NFile => NFile end.
Definition drop_child (k : string) (t : node) : node :=
  match t with NDir m es => NDir m (keep (λ kc, negb (bool_decide (kc.1 = k))) es) | NFile => NFile end.

(** [remove_dir_all] of an entry of the directory [p] *)
Definition remove_child (p : fpath) (k : string) (t : node) : res unit * node :=
  let msg := "removing stale update dir " +:+ show (p ++ [k]) in
  match get t p, get t (p ++ [k]) with
  | Some d, Some _ =>
      match remove_fault (p ++ [k]) with
      | None => (Ok tt, put t p (touch (drop_child k d)))
      | Some (e, left_over) => (Err (Msg msg :: e), put t (p ++ [k]) left_over)
      end
  | _, _ => (Err [Msg msg; Msg "No such file or directory (os error 2)"], t)
  end.
Fixpoint remove_children (p : fpath) (ks : list string) (t : node) : res unit * node :=
  match ks with
  | [] => (Ok tt, t)
  | k :: ks =>
      match remove_child p k t with
      | (Ok _, t) => remove_children p ks t
      | failed => failed
      end
  end.

(** Whether each subdirectory holds a manifest, and when it changed. *)
Definition probe (p : fpath) (kc : string * node) : res unit :=
  match probe_fault (p ++ [kc.1]) with Some e => Err e | None => Ok tt end.

(** The loop: the top of the stack is the head of the list. *)
Fixpoint prune_loop (fuel : nat) (stack : list fpath) (t : node) : option (res unit * node) :=
  match stack with
  | [] => Some (Ok tt, t)
  | current :: stack =>
      match fuel with
      | 0 => None
      | S fuel =>
          match read_fault current, get t current with
          | Some e, _ => Some (Err (Msg ("reading directory " +:+ show current) :: e), t)
          | None, Some (NDir _ es) =>
              match mapM_res (probe current) (subdirs es) with
              | Ok _ =>
                  if bool_decide (tags es = [])
                  then prune_loop fuel (reverse ((λ kc, current ++ [kc.1]) <$> subdirs es) ++ stack) t
                  else
                    match remove_children current (stale es) t with
                    | (Ok _, t) => prune_loop fuel stack t
                    | failed => Some failed
                    end
              | Err e => Some (Err e, t)
              | Panic s => Some (Panic s, t)
              end
          | None, _ => Some (Err [Msg ("reading directory " +:+ show current); Msg "not a directory"], t)
          end
      end
  end.

(** [prune_downloaded_updates]: [exists_] is what looking for the root gives,
    [lock] what acquiring the lock gives. *)
Definition prune_downloaded_updates (fuel : nat) (exists_ lock : res unit) (root : option node)
    : option (res unit * option node) :=
  match exists_, root with
  | Err e, _ => Some (Err e, root)
  | Panic s, _ => Some (Panic s, root)
  | Ok _, None => Some (Ok tt, None)
  | Ok _, Some t =>
      match lock with
      | Ok _ => '(r, t') ← prune_loop fuel [[]] t; Some (r, Some t')
      | Err e => Some (Err e, Some t)
      | Panic s => Some (Panic s, Some t)
      end
  end.

(** ** The same by recursion *)

Definition drop_stale (m : option Z) (es : entries_t) : node :=
  match stale es with
  | [] => NDir m es
  | ks => NDir (Some now) (keep (λ kc, negb (bool_decide (kc.1 ∈ ks))) es)
  end.
Fixpoint pruned (n : node) : node :=
  match n with
  | NFile => NFile
  | NDir m es =>
      if bool_decide (tags es = []) then NDir m ((λ kc, (kc.1, pruned kc.2)) <$> es)
      else drop_stale m es
  end.

(** The directories the loop can visit. *)
Fixpoint dirs (n : node) : nat :=
  match n with
  | NFile => 0
  | NDir _ es => S (sum_list ((λ kc, dirs kc.2) <$> es))
  end.
(** No two entries of a directory have the same name. *)
Fixpoint well_named (n : node) : Prop :=
  match n with
  | NFile => True
  | NDir _ es => NoDup es.*1 ∧ foldr (λ kc r, well_named kc.2 ∧ r) True es
  end.

(** ** Paths *)

Lemma get_app t p q : get t (p ++ q) = get t p ≫= λ c, get c q.
Proof.
  revert t; induction p as [|k p IH]; intros t; [done|]. destruct t as [|m es]; cbn; [done|].
  destruct (child k es); cbn; [apply IH | done].
Qed.

Lemma child_alter k f es : child k (alter_child k f es) = f <$> child k es.
Proof.
  induction es as [|[k' c] es IH]; cbn; [done|].
  case_bool_decide; cbn; [by rewrite bool_decide_eq_true_2 | by rewrite bool_decide_eq_false_2].
Qed.
Lemma child_alter_ne k k' f es : k ≠ k' → child k (alter_child k' f es) = child k es.
Proof.
  intros Hk. induction es as [|[k2 c] es IH]; cbn; [done|].
  case_bool_decide; cbn; [|by case_bool_decide].
  subst. by rewrite !bool_decide_eq_false_2.
Qed.
Lemma alter_alter k f g es : alter_child k f (alter_child k g es) = alter_child k (λ c, f (g c)) es.
Proof.
  induction es as [|[k' c] es IH]; cbn; [done|]. case_bool_decide; cbn.
  - by rewrite bool_decide_eq_true_2.
  - by rewrite bool_decide_eq_false_2, IH.
Qed.
Lemma alter_ext k f g es c : child k es = Some c → f c = g c → alter_child k f es = alter_child k g es.
Proof.
  intros Hc E. induction es as [|[k' c'] es IH]; [done|]. cbn in *. case_bool_decide; simplify_eq.
  - by rewrite E.
  - by rewrite IH.
Qed.

Lemma get_put t p x d : get t p = Some x → get (put t p d) p = Some d.
Proof.
  revert t; induction p as [|k p IH]; intros t; [done|]. destruct t as [|m es]; cbn; [done|].
  rewrite child_alter. destruct (child k es); cbn; [apply IH | done].
Qed.
Lemma put_put t p x d d' : get t p = Some x → put (put t p d) p d' = put t p d'.
Proof.
  revert t; induction p as [|k p IH]; intros t; [done|]. destruct t as [|m es]; cbn; [done|].
  destruct (child k es) as [c|] eqn:Ec; cbn; [|done]. intros Hg. f_equal. rewrite alter_alter.
  eapply alter_ext; [done|]. by apply IH.
Qed.
Lemma put_app t p q x d : get t p = Some x → put t (p ++ q) d = put t p (put x q d).
Proof.
  revert t; induction p as [|k p IH]; intros t; cbn; [by intros [= ->]|].
  destruct t as [|m es]; [done|]. destruct (child k es) as [c|] eqn:Ec; cbn; [|done].
  intros Hg. f_equal. eapply alter_ext; [done|]. by apply IH.
Qed.
Lemma put_get t p x : get t p = Some x → put t p x = t.
Proof.
  revert t; induction p as [|k p IH]; intros t; cbn; [by intros [= ->]|].
  destruct t as [|m es]; [done|]. destruct (child k es) as [c|] eqn:Ec; cbn; [|done].
  intros Hg. f_equal. transitivity (alter_child k (λ c, c) es).
  - eapply alter_ext; [done|]. by apply IH.
  - clear. induction es as [|[k' c] es IH]; cbn; [done|]. case_bool_decide; [done|]. by rewrite IH.
Qed.

Lemma child_elem es k c : NoDup es.*1 → (k, c) ∈ es → child k es = Some c.
Proof.
  induction es as [|[k' c'] es IH]; cbn; [by intros _ ?%not_elem_of_nil|].
  intros [Hn Hnd]%NoDup_cons [[= -> ->]|Hin]%elem_of_cons; [by rewrite bool_decide_eq_true_2|].
  rewrite bool_decide_eq_false_2; [by apply IH|].
  intros ->. apply Hn. apply list_elem_of_fmap. by exists (k, c).
Qed.

(** ** Sorting *)

Lemma insert_perm x l : insert_newest x l ≡ₚ x :: l.
Proof.
  induction l as [|y l IH]; cbn; [done|]. destruct (mtime_le _ _); [done|]. rewrite IH. constructor.
Qed.
Lemma sort_perm l : sort_newest l ≡ₚ l.
Proof. induction l as [|x l IH]; cbn; [done|]. by rewrite insert_perm, IH. Qed.




(** ** Names *)


Lemma tags_names es : sublist (tags es).*1 es.*1.
Proof.
  unfold tags. rewrite <-list_fmap_compose.
  change (sublist (fst <$> keep (λ kc, has_manifest kc.2) (subdirs es)) (fst <$> es)).
  apply fmap_sublist. etransitivity; apply keep_sublist.
Qed.
Lemma stale_names es : NoDup es.*1 → NoDup (stale es) ∧ stale es ⊆ es.*1.
Proof.
  intros Hnd. pose proof (tags_names es) as Hsub. unfold stale.
  assert ((sort_newest (tags es)).*1 ≡ₚ (tags es).*1) as Hp by (by rewrite sort_perm).
  assert (sublist (drop KEEP_PER_REPOSITORY (sort_newest (tags es))).*1 (sort_newest (tags es)).*1) as Hd.
  { apply fmap_sublist, sublist_drop. }
  split.
  - eapply sublist_NoDup; [|exact Hd]. rewrite Hp. by eapply sublist_NoDup.
  - intros k Hk. eapply sublist_subseteq; [exact Hsub|]. rewrite <-Hp.
    by eapply sublist_subseteq; [exact Hd|].
Qed.

Lemma well_named_children m es : well_named (NDir m es) → Forall (λ kc, well_named kc.2) es.
Proof. intros [_ Hw]. induction es as [|kc es IH]; [done|]. destruct Hw. constructor; [done | by apply IH]. Qed.

(** ** Without faults *)

Section no_faults.
Context (Hread : ∀ p, read_fault p = None) (Hprobe : ∀ p, probe_fault p = None).
Context (Hremove : ∀ p, remove_fault p = None).
#[local] Set Default Proof Using "All".

Definition without (ks : list string) (m : option Z) (es : entries_t) : node :=
  match ks with
  | [] => NDir m es
  | _ => NDir (Some now) (keep (λ kc, negb (bool_decide (kc.1 ∈ ks))) es)
  end.

Lemma child_keep k k' es : k ≠ k' →
  child k (keep (λ kc, negb (bool_decide (kc.1 = k'))) es) = child k es.
Proof.
  intros Hk. induction es as [|[k2 c] es IH]; cbn; [done|].
  destruct (decide (k2 = k')) as [->|E2].
  - rewrite bool_decide_eq_true_2 by done. cbn. by rewrite bool_decide_eq_false_2.
  - rewrite bool_decide_eq_false_2 by done. cbn. by rewrite IH.
Qed.

Lemma keep_cons k ks es :
  keep (λ kc, negb (bool_decide (kc.1 ∈ ks))) (keep (λ kc, negb (bool_decide (kc.1 = k))) es) =
  keep (λ kc : string * node, negb (bool_decide (kc.1 ∈ k :: ks))) es.
Proof.
  rewrite keep_keep. apply keep_ext. intros [k' c]. cbn.
  rewrite <-negb_orb, <-bool_decide_or. f_equal. apply bool_decide_ext. by rewrite elem_of_cons.
Qed.

Lemma remove_children_run p ks : ∀ t m es,
  get t p = Some (NDir m es) → NoDup ks → (∀ k, k ∈ ks → is_Some (child k es)) →
  remove_children p ks t = (Ok tt, put t p (without ks m es)).
Proof.
  induction ks as [|k ks IH]; intros t m es Hg Hnd Hks; cbn [remove_children].
  { cbn [without]. by rewrite (put_get t p (NDir m es)). }
  apply NoDup_cons in Hnd as [Hk Hnd]. destruct (Hks k) as [c Hc]; [by left|].
  unfold remove_child. rewrite get_app, Hg. cbn. rewrite Hc. cbn. rewrite Hremove.
  set (es' := keep (λ kc, negb (bool_decide (kc.1 = k))) es).
  rewrite (IH _ (Some now) es').
  - rewrite (put_put t p (NDir m es)) by done. f_equal. f_equal. unfold without, es'.
    destruct ks as [|k2 ks]; [|by rewrite keep_cons].
    f_equal. apply keep_ext. intros [k' c']. cbn. f_equal. apply bool_decide_ext. set_solver.
  - by eapply get_put.
  - done.
  - intros k' Hk'. unfold es'. rewrite child_keep; [apply Hks; by right | by intros ->].
Qed.

Lemma probe_run p es : ∃ us, mapM_res (probe p) es = Ok us.
Proof.
  induction es as [|kc es [us IH]]; [by eexists|]. cbn [mapM_res].
  rewrite IH. unfold probe. rewrite Hprobe. by eexists.
Qed.

(** The entries after the subdirectories in [ks] were pruned. *)
Definition prune_in (es : entries_t) (ks : list string) : entries_t :=
  foldl (λ es k, alter_child k pruned es) es ks.

Lemma child_prune_in es ks k : k ∉ ks → child k (prune_in es ks) = child k es.
Proof.
  revert es; induction ks as [|k' ks IH]; intros es Hk; [done|].
  apply not_elem_of_cons in Hk as [Hk Hks]. cbn. rewrite IH by done. by apply child_alter_ne.
Qed.

(** Pruning the subdirectories one by one is pruning all entries. *)
Lemma alter_fmap k f es : NoDup es.*1 →
  alter_child k f es = (λ kc, if bool_decide (kc.1 = k) then (kc.1, f kc.2) else kc) <$> es.
Proof.
  induction es as [|[k' c] es IH]; intros Hnd; [done|]. cbn in Hnd |- *. apply NoDup_cons in Hnd as [Hk Hnd].
  case_bool_decide as E; f_equal; [|by apply IH].
  subst. symmetry. erewrite list_fmap_ext; [by rewrite list_fmap_id|]. intros i [k2 c2] Hi. cbn.
  rewrite bool_decide_eq_false_2; [done|]. intros ->. apply Hk. apply list_elem_of_fmap.
  exists (k, c2). split; [done|]. by eapply list_elem_of_lookup_2.
Qed.

Lemma alter_fmap_names k f (es : entries_t) :
  ((λ kc, if bool_decide (kc.1 = k) then (kc.1, f kc.2) else kc) <$> es).*1 = es.*1.
Proof. rewrite <-list_fmap_compose. apply list_fmap_ext. intros i [k' c] _. cbn. by case_bool_decide. Qed.

Lemma prune_in_fmap ks : ∀ es, NoDup es.*1 → NoDup ks →
  prune_in es ks = (λ kc, if bool_decide (kc.1 ∈ ks) then (kc.1, pruned kc.2) else kc) <$> es.
Proof.
  induction ks as [|k ks IH]; intros es Hnd Hks; cbn.
  { erewrite list_fmap_ext; [by rewrite list_fmap_id|]. intros i [k c] _. cbn.
    by rewrite bool_decide_eq_false_2 by set_solver. }
  apply NoDup_cons in Hks as [Hk Hks]. rewrite alter_fmap by done. rewrite IH; [|by rewrite alter_fmap_names|done].
  rewrite <-list_fmap_compose. apply list_fmap_ext. intros i [k' c] _. cbn.
  destruct (decide (k' = k)) as [->|E].
  - rewrite (bool_decide_eq_true_2 (k = k)) by done. cbn.
    rewrite (bool_decide_eq_false_2 (k ∈ ks)) by done. by rewrite bool_decide_eq_true_2 by set_solver.
  - rewrite (bool_decide_eq_false_2 (k' = k)) by done. cbn.
    assert (bool_decide (k' ∈ k :: ks) = bool_decide (k' ∈ ks)) as -> by (apply bool_decide_ext; set_solver).
    done.
Qed.

Lemma prune_all es ks : NoDup es.*1 → NoDup ks → (∀ k c, (k, c) ∈ es → is_dir c = true → k ∈ ks) →
  prune_in es ks = (λ kc, (kc.1, pruned kc.2)) <$> es.
Proof.
  intros Hnd Hks Hd. rewrite prune_in_fmap by done. apply list_fmap_ext. intros i [k c] Hi. cbn.
  destruct (is_dir c) eqn:Ec; [|by destruct c; [case_bool_decide|]].
  rewrite bool_decide_eq_true_2; [done|]. eapply Hd; [|done]. by eapply list_elem_of_lookup_2.
Qed.

Lemma loop_more fuel k stack t r :
  prune_loop fuel stack t = Some r → prune_loop (k + fuel) stack t = Some r.
Proof.
  rewrite Nat.add_comm. revert stack t; induction fuel as [|fuel IH]; intros [|c stack] t; cbn; try done.
  { by destruct k. }
  destruct (read_fault c); [done|]. destruct (get t c) as [[|m es]|]; [done| |done].
  destruct (mapM_res _ _); [|done..]. case_bool_decide; [apply IH|].
  destruct (remove_children _ _ _) as [[] ?]; [apply IH | done..].
Qed.

(** What is claimed of a directory: visiting it and all below it prunes it. *)
Definition visits (x : node) : Prop := ∀ t p stack fuel r, get t p = Some x →
  prune_loop fuel stack (put t p (pruned x)) = Some r →
  prune_loop (dirs x + fuel) (p :: stack) t = Some r.

Lemma visit_children m es t p y stack r : get t p = Some y → ∀ L seen fuel,
  NoDup (seen ++ L.*1) → (∀ kc, kc ∈ L → child kc.1 es = Some kc.2 ∧ visits kc.2) →
  prune_loop fuel stack (put t p (NDir m (prune_in es (seen ++ L.*1)))) = Some r →
  prune_loop (sum_list (dirs <$> L.*2) + fuel) (((λ kc, p ++ [kc.1]) <$> L) ++ stack)
    (put t p (NDir m (prune_in es seen))) = Some r.
Proof.
  intros Hg. induction L as [|[k c] L IH]; intros seen fuel Hnd HL Hr; cbn in *.
  { by rewrite app_nil_r in Hr. }
  destruct (HL (k, c)) as [Hc Hv]; [by left|]. cbn in Hc, Hv.
  assert (get (put t p (NDir m (prune_in es seen))) p = Some (NDir m (prune_in es seen))) as Hp by (by eapply get_put).
  assert (child k (prune_in es seen) = Some c) as Hck.
  { rewrite child_prune_in; [done|]. intros Hk. apply NoDup_app in Hnd as (_ & Hn & _). apply (Hn k Hk). by left. }
  rewrite <-Nat.add_assoc. apply Hv.
  - rewrite get_app, Hp. cbn. by rewrite Hck.
  - rewrite (put_app _ p [k] (NDir m (prune_in es seen))) by done. cbn [put].
    rewrite (put_put t p y) by done.
    rewrite (alter_ext k _ pruned (prune_in es seen) c) by done.
    replace (alter_child k pruned (prune_in es seen)) with (prune_in es (seen ++ [k]))
      by (unfold prune_in; by rewrite foldl_app).
    apply IH.
    + by rewrite <-app_assoc.
    + intros kc Hkc. apply HL. by right.
    + by rewrite <-app_assoc.
Qed.

Lemma sum_subdirs es : sum_list (dirs <$> (reverse (subdirs es)).*2) = sum_list ((λ kc, dirs kc.2) <$> es).
Proof.
  rewrite <-list_fmap_compose. transitivity (sum_list ((λ kc : string * node, dirs kc.2) <$> subdirs es)).
  - change (dirs ∘ snd) with (λ kc : string * node, dirs kc.2). by rewrite reverse_Permutation.
  - induction es as [|[k c] es IH]; [done|]. unfold subdirs in *. by destruct c; cbn in *; rewrite IH.
Qed.

Lemma visits_dir x : is_dir x = true → well_named x → visits x.
Proof.
  induction x as [|m es IH] using node_ind'; [done|]. intros _ Hw t p stack fuel r Hg Hr.
  pose proof (well_named_children m es Hw) as Hcs. destruct Hw as [Hnd _].
  cbn [dirs]. rewrite Nat.add_succ_l. cbn [prune_loop]. rewrite Hread, Hg.
  destruct (probe_run p (subdirs es)) as [us ->]. cbn [pruned] in Hr.
  case_bool_decide as Ht.
  - rewrite <-sum_subdirs. rewrite <-(put_get t p (NDir m es) Hg) at 1.
    change es with (prune_in es []) at 3. rewrite <-fmap_reverse.
    assert (NoDup (reverse (subdirs es)).*1) as Hnd'.
    { rewrite fmap_reverse, reverse_Permutation. eapply sublist_NoDup; [exact Hnd|]. apply fmap_sublist, keep_sublist. }
    apply (visit_children m es t p (NDir m es)); [done|done| |].
    + intros [k c] Hin%elem_of_reverse%elem_of_keep. destruct Hin as [Hin Hd]. cbn in *.
      split; [by apply child_elem|]. rewrite Forall_forall in IH, Hcs.
      apply (IH (k, c)); [done | done | by apply (Hcs (k, c))].
    + cbn [app]. rewrite prune_all; [done|done|done|].
      intros k c Hin Hd. apply list_elem_of_fmap. exists (k, c). split; [done|].
      apply elem_of_reverse, elem_of_keep. done.
  - destruct (stale_names es Hnd) as [Hsd Hss].
    rewrite (remove_children_run p (stale es) t m es Hg Hsd).
    + apply loop_more. unfold drop_stale in Hr. unfold without. by destruct (stale es).
    + intros k Hk. apply Hss, list_elem_of_fmap in Hk as ([k' c] & -> & Hin). exists c. by apply child_elem.
Qed.

Lemma prune_run t : is_dir t = true → well_named t →
  prune_loop (dirs t) [[]] t = Some (Ok tt, pruned t).
Proof.
  intros Hd Hw. rewrite <-(Nat.add_0_r (dirs t)). by apply (visits_dir t Hd Hw t [] [] 0).
Qed.

End no_faults.

(** ** What is kept *)



End prune.
End Prune.

(** ** The command line *)

Module RegistryCli.
Import Oci Transfer Registry Push.

Inductive OutputFormat := Text | Jsonl.
Record PasswordAuth := mkAuth { username : string; password : string }.

Section cli.
Context `{OciClient} `{Os}.
Context (host : Host) (installer : Install.Env → string → bool → World → res unit * World).
Context (file_items : string → list (res string)).
(** Pruning acts on the tree of directories; the JSON printers. *)
Context (prune : string → AS unit).
Context (json_updates : list AvailableUpdate → res string) (json_pull : PullResult → res string).
Context (json_event : RegistryEvent → res string).

Inductive RegistryAction :=
| Discover (reference : UntaggedReference)
| Pull (reference : TaggedReference) (destination : string) (validate no_validate install : bool)
| ChangelogOf (reference : TaggedReference)
| PruneAction (destination : string)
| PushAction (manifest : string) (reference : TaggedReference) (changelog : option string).

Record RegistryCommand := mkCommand {
  action : RegistryAction;
  output : OutputFormat;
  auth : option PasswordAuth;
  token : option string;
  insecure : bool
}.

Definition credentials (c : RegistryCommand) : RegistryCredentials :=
  match token c with
  | Some t => Bearer t
  | None =>
      match auth c with
      | Some a => Basic (username a) (password a)
      | None => Anonymous
      end
  end.

Definition short_hash (value : string) : string := default value (get_to 16 value).

Definition run_action (c : RegistryCommand) (p : ClientProtocol) : AS unit :=
  match action c with
  | Discover reference =>
      updates ← discover_updates host (mkDiscover reference (credentials c) p) true None;
      match output c with
      | Text => each (λ u, println (upd_repository u +:+ "/" +:+ upd_tag u +:+ " version=" +:+ upd_version u
                                    +:+ " hash=" +:+ short_hash (upd_hash u))) updates
      | Jsonl => line ← lift (json_updates updates); println line
      end
  | Pull reference destination validate no_validate install =>
      result ← pull_update host installer
        (mkPull reference destination (credentials c) p install (validate && negb no_validate)) true None;
      match output c with
      | Text =>
          _ ← println ("pulled to: " +:+ output_dir result);
          println ("manifest: " +:+ manifest_path result)
      | Jsonl => line ← lift (json_pull result); println line
      end
  | ChangelogOf reference =>
      changelog ← fetch_changelog host reference (credentials c) p true None;
      println changelog
  | PruneAction destination =>
      _ ← prune destination;
      match output c with Text => println "prune done" | Jsonl => mret tt end
  | PushAction manifest reference changelog =>
      result ← push_update_with_feedback host file_items
        (mkPush reference manifest changelog (credentials c) p) true;
      println ("pushed: " +:+ res_reference result +:+ " manifest_url=" +:+ res_manifest_url result
               +:+ " digest=" +:+ res_digest result)
  end.

(** [RegistryCommand::handle]; the printer task prints [feedback_printer] of
    the events meanwhile. *)
Definition handle (c : RegistryCommand) : AS unit :=
  run_action c (if insecure c then Http else Https).

Definition print_text_event (e : RegistryEvent) : option string :=
  match e with
  | DiscoverStarted reference total =>
      Some ("discover start: " +:+ reference +:+ " (" +:+ pretty total +:+ " tags)")
  | TagDiscovered repository tag current total =>
      Some ("tag [" +:+ pretty current +:+ "/" +:+ pretty total +:+ "]: " +:+ repository +:+ ":" +:+ tag)
  | ManifestFetched repository tag current total =>
      Some ("manifest [" +:+ pretty current +:+ "/" +:+ pretty total +:+ "]: " +:+ repository +:+ ":" +:+ tag)
  | Done => Some "done"
  | PullStarted reference destination =>
      Some ("pull start: " +:+ reference +:+ " -> " +:+ destination)
  | PushStarted reference layers =>
      Some ("push start: " +:+ reference +:+ " (" +:+ pretty layers +:+ " layers)")
  | LayerUploading kind uploaded total =>
      Some ("upload " +:+ media_type_str kind +:+ ": " +:+ pretty uploaded +:+ "/" +:+ pretty (default 0%Z total))
  | LayerUploaded kind digest => Some ("uploaded " +:+ media_type_str kind +:+ ": " +:+ digest)
  | ManifestPushed reference manifest_url digest =>
      Some ("push done: " +:+ reference +:+ " url=" +:+ manifest_url +:+ " digest=" +:+ digest)
  | _ => None
  end.

Definition feedback_printer (format : OutputFormat) (events : list RegistryEvent) : list string :=
  match format with
  | Text => Prelude.filter_map print_text_event events
  | Jsonl => Prelude.filter_map (λ e, res_ok (json_event e)) events
  end.
End cli.
End RegistryCli.

(** ** Properties *)

Module PruneProps.
Import Prune.

(** C30: The loop with a stack of paths is the recursive function on the tree,
    for every tree of directories, when no system call fails: it ends after at
    most as many turns as there are directories, without an error. *)
Theorem prune_loop_is_recursive show now t :
  is_dir t = true → well_named t →
  prune_downloaded_updates show (λ _, None) (λ _, None) (λ _, None) now (dirs t) (Ok tt) (Ok tt) (Some t)
  = Some (Ok tt, Some (pruned now t)).
Proof. intros Hd Hw. unfold prune_downloaded_updates. by rewrite prune_run. Qed.

(** An update in the words of the file system: a directory with an entry named
    [manifest.json]. *)
Definition is_update (c : node) : bool :=
  match c with NDir _ es => bool_decide ("manifest.json" ∈ es.*1) | NFile => false end.
Definition updates (es : entries_t) : entries_t := keep (λ kc, is_update kc.2) es.











Definition ex_update (t : Z) : node := NDir (Some t) [("manifest.json", NFile); ("root.raw", NFile)].
Definition ex_repo : entries_t := [("v1", ex_update 10); ("notes.txt", NFile); ("v3", ex_update 30); ("v2", ex_update 20)].
Definition ex_tree : node := NDir None [(".ota-update.lock", NFile); ("ghaf", NDir (Some 5%Z) ex_repo)].

(** Two repositories of which one name extends the other share a directory:
    pruning [ghaf] removes its stale tag [dev] and with it everything pulled
    from [ghaf/dev]. *)
Lemma prune_removes_nested now :
  pruned now (NDir None [("ghaf", NDir None
    [("dev", NDir (Some 1%Z) [("manifest.json", NFile); ("v9", ex_update 90)]);
     ("v1", ex_update 10); ("v2", ex_update 20)])]) =
  NDir None [("ghaf", NDir (Some now) [("v1", ex_update 10); ("v2", ex_update 20)])].
Proof. reflexivity. Qed.

Lemma prune_loop_is_recursive_witness :
  prune_downloaded_updates (λ _, "") (λ _, None) (λ _, None) (λ _, None) 99 (dirs ex_tree) (Ok tt) (Ok tt)
    (Some ex_tree) =
  Some (Ok tt, Some (NDir None [(".ota-update.lock", NFile);
    ("ghaf", NDir (Some 99%Z) [("notes.txt", NFile); ("v3", ex_update 30); ("v2", ex_update 20)])])).
Proof.
  rewrite (prune_loop_is_recursive (λ _, "") 99 ex_tree).
  - vm_compute. reflexivity.
  - reflexivity.
  - cbn. repeat split; try (apply (bool_decide_unpack _); vm_compute; exact I).
Defined.

End PruneProps.
