(* ===== verification/Generations.v ===== *)
(** * NixOS generations ([profile.rs], [nixos.rs], [query.rs], [cli.rs],
      [bin/ota-update.rs], [bin/update-server.rs] and the crate
      [cachix-client])

    [Profile] reads and sets profile links, [Cachix] is the client of the
    binary cache, [UpdateServer] the server that offers the generations of a
    directory under the same interface, and [OtaUpdate] the program that
    installs one.  HTTP, the JSON codecs, processes and the file system are
    parameters; the theorems compose the client with the server. *)

From S2P Require Import Prelude RustStr RustInt RustPath RustRegex CommonTypes ImageUki.
From Stdlib Require Import Ascii.

(** [a == b] on paths compares components. *)
Definition path_eq (a b : string) : bool := bool_decide (components a = components b).

Module Profile.

Record ProfileElement := mkElement { num : Z; store_path : string; elem_current : bool }.

Definition format_profile_link (profile : string) (generation : Z) : string :=
  profile +:+ "-" +:+ pretty generation +:+ "-link".

Definition parse_profile_link (profile link : string) : res Z :=
  ok_or (p ← strip_prefix profile link; p ← strip_prefix "-" p; p ← strip_suffix "-link" p;
         res_ok (parse_i32 p))
    "Unable to parse generation".

(** What is read of the file system: symbolic links, the entries of a directory
    with their names unless they are no UTF-8, and what exists. *)
Record FS := mkFS {
  read_link : string → res string;
  to_utf8 : string → option string;
  read_dir : string → res (list (res (option string)));
  exists_ : string → bool;
  read_to_string : string → res string
}.

Section links.
Context (fs : FS).

Definition read_symlink (path : string) : res string :=
  with_context ("While read symlink " +:+ path) (read_link fs path).

(** One entry of the directory: [None] is [continue]. *)
Definition read_entry (path profile default_target : string) (entry : res (option string))
    : res (option ProfileElement) :=
  name ← entry;
  name ← ok_or name "Decode UTF-8 string";
  match parse_profile_link profile name with
  | Ok num =>
      match read_link fs (path_join path name) with
      | Ok t =>
          if is_absolute t && exists_ fs t
          then Ok (Some (mkElement num t (bool_decide (default_target = name))))
          else Ok None
      | Err _ => Ok None
      | Panic s => Panic s
      end
  | _ => Ok None
  end.

Definition read_profile_links (path profile : string) : res (Z * list ProfileElement) :=
  default_target ← read_symlink (path_join path profile);
  default_target_str ← ok_or (to_utf8 fs default_target) "decode UTF-8 for default profile link";
  default_gen_no ← with_context "Parsing {default_target_str}"
                     (parse_profile_link profile default_target_str);
  dir ← with_context ("while read_dir() on " +:+ path) (read_dir fs path);
  generations ← mapM_res (read_entry path profile default_target_str) dir;
  Ok (default_gen_no, filter_map (λ g, g) generations).

(** ** Generations *)

Record NixosVersion := mkVersion {
  nixos_version : string;
  nixpkgs_revision : option string;
  configuration_revision : option string
}.
(** The fields of [bootspec::v1::GenerationV1] that are used. *)
Record BootSpec := mkBootSpec {
  label : string; init : string; toplevel : string; system : string
}.

(** The regular expression library, and the JSON decoders. *)
Context (captures : string → string → option string) (is_match : string → string → bool).
Context (decode_version : string → res NixosVersion) (decode_bootspec : string → res BootSpec).
Context (modules_dir : string → res (list (res (option string)))).
Context (bootctl_info : res (list Bootctl.BootctlItem)).

Definition JSON_RE : string := "(?s)cat <<EOF\s*(\{.*?\})\s*EOF".
Definition KERNEL_RE : string := "^\d+\.\d+\.\d+(-[\w.+]+)?$".

Definition read_nixos_version (path : string) : res NixosVersion :=
  let path := path_join path "sw/bin/nixos-version" in
  script ← with_context ("Reading nixos-version script from " +:+ path) (read_to_string fs path);
  match captures JSON_RE script with
  | Some json_str => with_context ("while parsing " +:+ json_str) (decode_version json_str)
  | None => bail ("Can't find embedded json with version info in " +:+ path)
  end.

Fixpoint first_kernel (entries : list (res (option string))) : res string :=
  match entries with
  | [] => bail "Unable to find kernel version"
  | entry :: entries =>
      name ← entry;
      match name with
      | Some name => if is_match KERNEL_RE name then Ok name else first_kernel entries
      | None => first_kernel entries
      end
  end.
Definition read_kernel_version (top : string) : res string :=
  let mod_dir := path_join top "kernel-modules/lib/modules" in
  dir ← with_context ("while read_dir() on " +:+ mod_dir) (modules_dir mod_dir);
  first_kernel dir.

Record GenerationDetails := mkDetails {
  name : string;
  generation : Z;
  det_version : NixosVersion;
  kernel_version : string;
  det_store_path : string;
  current : bool;
  booted : bool;
  bootable : bool;
  default_ : bool;
  bootspec : BootSpec;
  bootctl : option Bootctl.BootctlItem
}.

Definition init_matches (spec : BootSpec) (item : Bootctl.BootctlItem) : bool :=
  match Bootctl.find_init item with
  | Some i => path_eq i (init spec)
  | None => false
  end.

Definition generation_details (booted_system current_system : string)
    (items : list Bootctl.BootctlItem) (profile : ProfileElement) : res GenerationDetails :=
  let bootspec_path := path_join (store_path profile) "boot.json" in
  bootspec_json ← with_context ("while reading bootspec " +:+ bootspec_path)
                    (read_to_string fs bootspec_path);
  spec ← with_context "while parsing bootspec.json" (decode_bootspec bootspec_json);
  version ← with_context "while read nixos version" (read_nixos_version (toplevel spec));
  kernel ← with_context "while read kernel version" (read_kernel_version (toplevel spec));
  let item := find_first (init_matches spec) items in
  Ok (mkDetails (label spec) (num profile) version kernel (store_path profile)
        (path_eq (store_path profile) current_system) (path_eq (store_path profile) booted_system)
        (match item with Some i => Bootctl.is_default i | None => false end)
        (elem_current profile) spec item).

Definition read_generations : res (list GenerationDetails) :=
  booted_system ← read_symlink "/run/booted-system";
  current_system ← read_symlink "/run/current-system";
  items ← bootctl_info;
  '(_, system_profiles) ← read_profile_links "/nix/var/nix/profiles" "system";
  mapM_res (generation_details booted_system current_system items) system_profiles.
End links.

(** ** Processes *)

(** A command line and how it ended: an exit code, or none when a signal
    killed it; starting it may fail. *)
Record Proc := mkProc { argv : list string; status : res (option Z) }.

Section run.
Context {S : Type} (spawn : list string → S → res (option Z) * S) (unlink : string → S → S).

(** The outside world and, for the theorems, the commands run so far. *)
Record World := mkWorld { outside : S; log : list Proc }.

Definition run (args : list string) : SR World (option Z) := λ w,
  let '(r, s) := spawn args (outside w) in (r, mkWorld s (log w ++ [mkProc args r])).
(** A failure to remove the file is only logged. *)
Definition remove_file (path : string) : SR World unit := λ w,
  (Ok tt, mkWorld (unlink path (outside w)) (log w)).
Definition success (code : option Z) : bool := bool_decide (code = Some 0%Z).

Definition nix_env_args (path profile closure : string) : list string :=
  ["nix-env"; "-p"; path_join path profile; "--set"; closure].
Definition set (path profile closure : string) : SR World unit :=
  code ← SR_context "Fail to execute nix-env" (run (nix_env_args path profile closure));
  SR_lift (ensure (success code) "nix-env failed").
End run.

(** ** Links *)

Lemma parse_link_round profile n : (i32_min ≤ n ≤ i32_max)%Z →
  parse_profile_link profile (format_profile_link profile n) = Ok n.
Proof.
  intros Hn. unfold parse_profile_link, format_profile_link.
  rewrite strip_prefix_app. cbn [mbind option_bind].
  rewrite (strip_prefix_app "-"). cbn [mbind option_bind].
  rewrite strip_suffix_app. cbn [mbind option_bind].
  unfold parse_i32. by rewrite parse_int_round.
Qed.

Lemma parse_link_Ok profile link n : parse_profile_link profile link = Ok n →
  ∃ s, link = profile +:+ "-" +:+ s +:+ "-link" ∧ parse_i32 s = Ok n.
Proof.
  unfold parse_profile_link. intros Hp%ok_or_Ok.
  apply bind_Some in Hp as (p1 & E1 & Hp). apply bind_Some in Hp as (p2 & E2 & Hp).
  apply bind_Some in Hp as (p3 & E3 & Hp). apply strip_prefix_Some in E1 as ->.
  apply strip_prefix_Some in E2 as ->.
  apply strip_suffix_Some in E3 as ->. exists p3. split; [done|]. by apply res_ok_Some.
Qed.

(** Every listed element is behind a link of that profile. *)
Definition linked (fs : FS) (path profile : string) (e : ProfileElement) : Prop :=
  ∃ entries link, read_dir fs path = Ok entries ∧ Ok (Some link) ∈ entries ∧
    parse_profile_link profile link = Ok (num e) ∧
    read_link fs (path_join path link) = Ok (store_path e) ∧
    is_absolute (store_path e) = true ∧ exists_ fs (store_path e) = true.

Lemma read_links_linked fs path profile n l :
  read_profile_links fs path profile = Ok (n, l) → Forall (linked fs path profile) l.
Proof.
  unfold read_profile_links. intros H. res_simp.
  match goal with H : mapM_res _ _ = Ok _ |- _ => apply mapM_res_Ok in H; rename H into Hm end.
  match goal with H : read_dir _ _ = Ok ?d |- _ => rename H into Hd end.
  apply Forall_forall. intros e (g & Hg & ->)%elem_of_filter_map.
  apply list_elem_of_lookup in Hg as [i Hi].
  destruct (Forall2_lookup_r _ _ _ _ _ Hm Hi) as (entry & He & Hr).
  unfold read_entry in Hr. res_simp. revert Hr. repeat case_match; intros; simplify_eq.
  match goal with H : _ && _ = true |- _ => apply andb_true_iff in H as [? ?] end.
  eexists _, _. split; [done|]. split; [by eapply list_elem_of_lookup_2|]. done.
Qed.
End Profile.

Module Cachix.

Record Revision := mkRevision {
  rev_store_path : string; rev_created_on : string; revision : Z; artifacts : list string
}.
Record Pin := mkPin { pin_name : string; pin_created_on : string; last_revision : Revision }.
Record CacheInfo := mkInfo {
  info_name : string;
  uri : string;
  public_signing_keys : list string;
  permission : string;
  preferred_compression_method : string;
  github_username : string
}.

(** [CachixError] *)
Inductive CachixError := HttpError (e : error) | Unauthorized | UnexpectedStatus (status : Z).

Record CachixClientConfig := mkConfig {
  cache_name : string;
  hostname : string;
  auth_token : option string;
  binary_caches : list (string * string)
}.
Definition new_config (cache_name : string) : CachixClientConfig :=
  mkConfig cache_name "https://cachix.org" None [].
Definition set_hostname (c : CachixClientConfig) (h : string) : CachixClientConfig :=
  mkConfig (cache_name c) h (auth_token c) (binary_caches c).
Definition set_auth_token (c : CachixClientConfig) (t : string) : CachixClientConfig :=
  mkConfig (cache_name c) (hostname c) (Some t) (binary_caches c).

Record CachixClient := mkClient {
  client_cache : string; client_token : option string; base_url : string
}.
Definition build (c : CachixClientConfig) : CachixClient :=
  mkClient (cache_name c) (auth_token c) (hostname c).

(** Requests as [reqwest] sends them. *)
Inductive Method := GET | DELETE.
Record Request := mkRequest { method : Method; url : string; authorization : option string }.
Record Response := mkResponse { resp_status : Z; body : string }.

Section client.
Context (http : Request → res Response).
Context (decode_info : string → res CacheInfo) (decode_pins : string → res (list Pin)).
Context (decode_bootspec : string → res Profile.BootSpec).
Context (client : CachixClient).

Definition api_url (path : list string) : string :=
  base_url client +:+ "/api/v1/cache/" +:+ client_cache client +:+ "/" +:+ join "/" path.
Definition request (m : Method) (path : list string) : Request :=
  mkRequest m (api_url path) ((λ t, "Bearer " +:+ t) <$> client_token client).

(** The results of the client's methods. *)
Definition cres (A : Type) : Type := A + CachixError.
Definition of_http {A} (r : res A) : cres A :=
  match r with
  | Ok a => inl a
  | Err e => inr (HttpError e)
  | Panic s => inr (HttpError [Msg s])
  end.
Definition error_for_status (r : Response) : res Response :=
  if (400 <=? resp_status r)%Z && (resp_status r <? 600)%Z
  then bail ("HTTP status error (" +:+ pretty (resp_status r) +:+ ")") else Ok r.
Definition fetch (path : list string) : res string :=
  r ← http (request GET path); r ← error_for_status r; Ok (body r).

Definition cache_info : cres CacheInfo := of_http (b ← fetch []; decode_info b).
Definition list_pins : cres (list Pin) := of_http (b ← fetch ["pin"]; decode_pins b).
Definition delete_pin (name : string) : cres unit :=
  match http (request DELETE ["pin"; name]) with
  | Ok r =>
      if (resp_status r =? 204)%Z then inl tt
      else if (resp_status r =? 401)%Z then inr Unauthorized
      else inr (UnexpectedStatus (resp_status r))
  | Err e => inr (HttpError e)
  | Panic s => inr (HttpError [Msg s])
  end.
Definition get_file_from_store (nar_hash path : string) : cres string :=
  of_http (fetch ["serve"; nar_hash; trim_start_matches "/" path]).

(** [store_path.strip_prefix("/nix/store")] and the hash of its file name. *)
Definition store_hash (store_path : string) : option string :=
  match components store_path with
  | RootDir :: Normal "nix" :: Normal "store" :: rest =>
      match last rest with
      | Some (Normal name) => fst <$> split_once "-"%char name
      | _ => None
      end
  | _ => None
  end.

(** Whether a pin is a system: [None] is [continue]. *)
Definition valid_system (system : string) (pin : Pin) : option (Pin * Profile.BootSpec) :=
  hash ← store_hash (rev_store_path (last_revision pin));
  match get_file_from_store hash "boot.json" with
  | inl boot_json =>
      spec ← res_ok (decode_bootspec boot_json);
      if path_eq (Profile.toplevel spec) (rev_store_path (last_revision pin)) &&
         bool_decide (Profile.system spec = system)
      then Some (pin, spec) else None
  | inr _ => None
  end.
Definition filter_valid_systems (system : string) : cres (list (Pin * Profile.BootSpec)) :=
  match list_pins with
  | inl pins => inl (filter_map (valid_system system) pins)
  | inr e => inr e
  end.
End client.
End Cachix.

Module UpdateServer.
Import Profile Cachix.

(** [UpdateInfo] *)
Record UpdateInfo := mkUpdate {
  upd_name : string; upd_store_path : string; upd_current : bool; pub_key : string
}.
Record Serve := mkServe {
  serve_path : string;
  allowed_profiles : list string;
  port : Z;                       (* u16 *)
  serve_pub_key : string;
  serve_cachix : string
}.

Section server.
Context (fs : FS) (serve : Serve).
Context (encode_updates : list UpdateInfo → string) (encode_pins : list Pin → string)
  (encode_info : CacheInfo → string).
Context (show_error : error → string).

Definition allowed (profile : string) : bool := bool_decide (profile ∈ allowed_profiles serve).
Definition internal_error (e : error) : Response :=
  mkResponse 500 ("Something went wrong: " +:+ show_error e).

Definition update_of (pub_key : string) (p : ProfileElement) : UpdateInfo :=
  mkUpdate ("Update #" +:+ pretty (num p)) (store_path p) (elem_current p) pub_key.
Definition get_update_list (path default_name pub_key : string) : res (list UpdateInfo) :=
  links ← with_context ("While reading profile " +:+ path +:+ " with " +:+ default_name)
            (read_profile_links fs path default_name);
  Ok (fmap (M := list) (update_of pub_key) links.2).

Definition update_handler (profile : string) : Response :=
  if negb (allowed profile) then mkResponse 200 (encode_updates [])
  else
    match get_update_list (serve_path serve) profile (serve_pub_key serve) with
    | Ok links => mkResponse 200 (encode_updates links)
    | Err e => internal_error e
    | Panic s => mkResponse 500 s
    end.

Definition hash_matches (hash : string) (p : UpdateInfo) : bool :=
  match file_name (upd_store_path p) ≫= strip_prefix hash with
  | Some s => starts_with "-" s
  | None => false
  end.

Definition boot_json (profile hash : string) : Response :=
  if negb (allowed profile) then mkResponse 404 "boot.json not found"
  else
    match get_update_list (serve_path serve) profile (serve_pub_key serve) with
    | Ok profiles =>
        match find_first (hash_matches hash) profiles with
        | Some p =>
            let boot_json := path_join (upd_store_path p) "boot.json" in
            match read_to_string fs boot_json with
            | Ok content => mkResponse 200 content
            | _ => mkResponse 404 ("boot.json not found at " +:+ boot_json)
            end
        | None => mkResponse 404 ("profile not found for cache=" +:+ profile +:+ ", hash=" +:+ hash)
        end
    | _ => mkResponse 404 "boot.json not found"
    end.

Definition server_cache_info (profile : string) : Response :=
  mkResponse 200 (encode_info
    (mkInfo profile (serve_cachix serve) [serve_pub_key serve] "read" "ZSTD" "bogus")).

Definition pin_of (profile : string) (each : UpdateInfo) : Pin :=
  mkPin profile "dummy date" (mkRevision (upd_store_path each) "dummy date" 1 []).
Definition pin_list (profile : string) : Response :=
  if negb (allowed profile)
  then internal_error [Msg ("Requested profile " +:+ profile +:+ " not in list of allowed profiles")]
  else
    match get_update_list (serve_path serve) profile (serve_pub_key serve) with
    | Ok profiles =>
        mkResponse 200 (encode_pins (pin_of profile <$> profiles))
    | Err e => internal_error e
    | Panic s => mkResponse 500 s
    end.

(** The routes of [main], by the segments of the path of a GET request. *)
Definition route (segments : list string) : Response :=
  match segments with
  | ["update"; profile] => update_handler profile
  | ["api"; "v1"; "cache"; cache; ""] => server_cache_info cache
  | ["api"; "v1"; "cache"; cache; "pin"] => pin_list cache
  | ["api"; "v1"; "cache"; cache; "serve"; hash; "boot.json"] => boot_json cache hash
  | _ => mkResponse 404 ""
  end.

(** The server at [base]; other methods are not allowed. *)
Definition serve_http (base : string) (r : Request) : res Response :=
  match strip_prefix (base +:+ "/") (url r), method r with
  | Some path, GET => Ok (route (split "/"%char path))
  | Some _, DELETE => Ok (mkResponse 405 "")
  | None, _ => bail "connection refused"
  end.
End server.
End UpdateServer.

Module OtaUpdate.
Import Profile Cachix UpdateServer.

(** ** Store paths *)

(** [[a-df-np-sv-z0-9]] *)
Definition hash_char (a : ascii) : bool :=
  let b := byte a in
  ((97 <=? b) && (b <=? 100)) || ((102 <=? b) && (b <=? 110)) || ((112 <=? b) && (b <=? 115)) ||
  ((118 <=? b) && (b <=? 122)) || is_ascii_digit a.
Definition not_slash (a : ascii) : bool := negb (bool_decide (a = "/"%char)).
Fixpoint times (n : nat) (r : re) : re := match n with 0 => Eps | S n => Cat r (times n r) end.
Definition nix_path_re : re :=
  Cat (lit "/nix/store/") (Cat (times 32 (Cls hash_char)) (Cat (lit "-nixos-system-") (plus (Cls not_slash)))).

Definition is_valid_nix_path (path : string) : res unit :=
  if matches nix_path_re path then Ok tt
  else bail ("Path " +:+ path +:+ " is not valid NixOS system path!").

(** ** Setting a generation *)

Section update.
Context {S : Type} (spawn : list string → S → res (option Z) * S) (unlink : string → S → S).

Definition GCROOT : string := "/nix/var/nix/gcroots/auto/ota-update".

Definition nix_build_args (path : string) (sources pub_keys : list string) (no_check_signs : bool)
    : list string :=
  ["nix"; "--extra-experimental-features"; "nix-command"; "build"; path; "--out-link"; GCROOT] ++
  mjoin ((λ s, ["--extra-substituters"; s]) <$> sources) ++
  mjoin ((λ k, ["--extra-trusted-public-keys"; k]) <$> pub_keys) ++
  (if no_check_signs then ["--no-check-sigs"] else []).
Definition profile_args (path : string) : list string :=
  nix_env_args "/nix/var/nix/profiles/" "system" path.
Definition boot_args (path : string) : list string :=
  [path_join path "bin/switch-to-configuration"; "boot"].

Definition set_generation (path : string) (sources pub_keys : list string) (no_check_signs : bool)
    : SR World unit :=
  _ ← SR_lift (is_valid_nix_path path);
  code ← SR_context "Failed to execute 'nix build'"
           (run spawn (nix_build_args path sources pub_keys no_check_signs));
  _ ← SR_lift (ensure (success code) "nix build failed");
  _ ← Profile.set spawn "/nix/var/nix/profiles/" "system" path;
  _ ← remove_file unlink GCROOT;
  _ ← SR_context ("Fail to execute " +:+ path_join path "bin/switch-to-configuration")
        (run spawn (boot_args path));
  mret tt.

(** ** Choosing one *)

Context (fs : FS) (http : Request → res Response).
Context (decode_info : string → res CacheInfo) (decode_pins : string → res (list Pin))
  (decode_updates : string → res (list UpdateInfo)).
Context (decode_bootspec : string → res BootSpec) (show_cachix : CachixError → string).

Definition of_cachix {A} (r : cres A) : res A :=
  match r with inl a => Ok a | inr e => bail (show_cachix e) end.

Definition read_system_boot_json : res string :=
  contents ← read_to_string fs "/run/current-system/boot.json";
  spec ← decode_bootspec contents;
  Ok (system spec).

Definition cachix_client (token host : option string) (cache : string) : CachixClient :=
  let c := new_config cache in
  let c := match token with Some t => set_auth_token c t | None => c end in
  let c := match host with Some h => set_hostname c h | None => c end in
  build c.

Definition cachix_candidate (client : CachixClient) (pin : string) : res (string * CacheInfo) :=
  system ← read_system_boot_json;
  systems ← of_cachix (filter_valid_systems http decode_pins decode_bootspec client system);
  candidate ← ok_or (find_map (λ s, if bool_decide (pin_name s.1 = pin)
                                    then Some (rev_store_path (last_revision s.1)) else None) systems)
                "no valid systems";
  info ← of_cachix (cache_info http decode_info client);
  Ok (candidate, info).
Definition perform_cachix_update (pin : string) (token host : option string) (cache : string)
    : SR World unit :=
  '(candidate, info) ← SR_lift (cachix_candidate (cachix_client token host cache) pin);
  set_generation candidate [uri info] (public_signing_keys info) false.

(** [query_available_updates]: a GET without authorization; any status is
    decoded. *)
Definition query_available_updates (server_url pin : string) : res (list UpdateInfo) :=
  let url := server_url +:+ "/update/" +:+ pin in
  r ← with_context ("Fail to fetch updates info! Url is " +:+ url) (http (mkRequest GET url None));
  with_context "fail to parse update info json" (decode_updates (body r)).

Definition local_candidate (maybe_path : option string) (source pin : string) : res UpdateInfo :=
  updates ← query_available_updates source pin;
  ok_or (find_first (λ u, match maybe_path with
                          | Some path => path_eq path (upd_store_path u)
                          | None => upd_current u
                          end) updates) "No valid candidate found".
Definition perform_local_update (maybe_path : option string) (source pin : string) (no_check_signs : bool)
    : SR World unit :=
  candidate ← SR_lift (local_candidate maybe_path source pin);
  set_generation (upd_store_path candidate) [source] [pub_key candidate] no_check_signs.

(** [query_updates]: what is printed. *)
Definition query_updates (encode_updates : list UpdateInfo → res string) (source pin : string)
    (raw current : bool) : res (list string) :=
  updates ← query_available_updates source pin;
  let shown := keep (λ u, current || upd_current u) updates in
  if raw then Ok (upd_store_path <$> shown) else line ← encode_updates shown; Ok [line].
End update.

(** ** The language of store paths *)

Lemma lang_cat_iff r s x : lang (Cat r s) x ↔ ∃ y z, x = y +:+ z ∧ lang r y ∧ lang s z.
Proof. split; [inversion 1; by eauto | intros (y & z & -> & ? & ?); by constructor]. Qed.

Lemma lang_lit s x : lang (lit s) x ↔ x = s.
Proof.
  revert x; induction s as [|a s IH]; intros x; cbn.
  - split; [by inversion 1 | intros ->; constructor].
  - split.
    + inversion 1 as [| |? ? y z Hy Hz| | | |]; subst. apply IH in Hz as ->.
      inversion Hy as [|f b Hb| | | | |]; subst. by apply bool_decide_eq_true in Hb as ->.
    + intros ->. apply (lang_cat _ _ (String a "") s); [|by apply IH]. constructor. by apply bool_decide_eq_true.
Qed.

Lemma lang_times n f x :
  lang (times n (Cls f)) x ↔ String.length x = n ∧ all_chars f x = true.
Proof.
  revert x; induction n as [|n IH]; intros x; cbn.
  - split; [by inversion 1 | intros [? _]; destruct x; [constructor | done]].
  - split.
    + inversion 1 as [| |? ? y z Hy Hz| | | |]; subst. apply IH in Hz as [<- Hz].
      inversion Hy as [|g b Hb| | | | |]; subst. rewrite str_cons_app, str_nil_app. cbn. by rewrite Hb.
    + destruct x as [|a x]; cbn; [by intros [? _]|]. intros [[= El] [Ha Hx]%andb_true_iff].
      apply (lang_cat _ _ (String a "") x); [by constructor | by apply IH].
Qed.

Lemma lang_star_cls f x : lang (Star (Cls f)) x ↔ all_chars f x = true.
Proof.
  split.
  - apply lang_within. by cbn.
  - induction x as [|a x IH]; cbn; [intros _; constructor|]. intros [Ha Hx]%andb_true_iff.
    apply (lang_star_cons _ (String a "") x); [by constructor | by apply IH].
Qed.

Lemma lang_plus_cls f x : lang (plus (Cls f)) x ↔ x ≠ "" ∧ all_chars f x = true.
Proof.
  unfold plus. split.
  - inversion 1 as [| |? ? y z Hy Hz| | | |]; subst. apply lang_star_cls in Hz.
    inversion Hy as [|g b Hb| | | | |]; subst. rewrite str_cons_app, str_nil_app. cbn. by rewrite Hb.
  - destruct x as [|a x]; cbn; [by intros [? _]|]. intros [_ [Ha Hx]%andb_true_iff].
    apply (lang_cat _ _ (String a "") x); [by constructor | by apply lang_star_cls].
Qed.

Lemma not_slash_has s : all_chars not_slash s = true ↔ has_char "/" s = false.
Proof.
  induction s as [|a s IH]; cbn; [done|]. rewrite andb_true_iff, orb_false_iff, IH.
  unfold not_slash. by rewrite negb_true_iff, !bool_decide_eq_false.
Qed.

Definition store_entry (p hash name : string) : Prop :=
  p = "/nix/store/" +:+ hash +:+ "-nixos-system-" +:+ name ∧
  String.length hash = 32 ∧ all_chars hash_char hash = true ∧ name ≠ "" ∧ has_char "/" name = false.

Lemma valid_path_iff p : is_valid_nix_path p = Ok tt ↔ ∃ hash name, store_entry p hash name.
Proof.
  unfold is_valid_nix_path, store_entry. setoid_rewrite <-not_slash_has. split.
  - destruct (matches nix_path_re p) eqn:E; [intros _|done]. apply matches_lang in E.
    apply lang_cat_iff in E as (x1 & y1 & -> & ->%lang_lit & E1).
    apply lang_cat_iff in E1 as (x2 & y2 & -> & [Hl Hc]%lang_times & E2).
    apply lang_cat_iff in E2 as (x3 & y3 & -> & ->%lang_lit & E3).
    apply lang_plus_cls in E3 as [Hn Hs]. by exists x2, y3.
  - intros (hash & name & -> & Hl & Hc & Hn & Hs).
    assert (matches nix_path_re ("/nix/store/" +:+ hash +:+ "-nixos-system-" +:+ name) = true) as ->; [|done].
    apply matches_lang. apply lang_cat; [by apply lang_lit|].
    apply lang_cat; [by apply lang_times|]. apply lang_cat; [by apply lang_lit | by apply lang_plus_cls].
Qed.

Lemma store_entry_components p hash name : store_entry p hash name →
  components p = [RootDir; Normal "nix"; Normal "store"; Normal (hash +:+ "-nixos-system-" +:+ name)].
Proof.
  intros (-> & Hl & Hc & Hn & Hs).
  assert (has_char "/" (hash +:+ "-nixos-system-" +:+ name) = false) as Hh.
  { rewrite !has_char_app, Hs. rewrite (all_chars_has_char hash_char "/" hash Hc); done. }
  assert ("/nix/store/" +:+ hash +:+ "-nixos-system-" +:+ name =
    join "/" [""; "nix"; "store"; hash +:+ "-nixos-system-" +:+ name]) as -> by done.
  unfold components. rewrite split_join; [|done|by repeat constructor].
  assert (plain (hash +:+ "-nixos-system-" +:+ name)) as Hp.
  { assert (String.length (hash +:+ "-nixos-system-" +:+ name) > 2).
    { rewrite !str_length_app, Hl. cbn. lia. }
    repeat split; [..|done]; intros E; rewrite E in *; cbn in *; lia. }
  change (is_absolute _) with true. cbn [filter_map]. rewrite (piece_component_Normal _ Hp). done.
Qed.

(** ** The commands of [set_generation] *)

Section order.
Context {S : Type} (spawn : list string → S → res (option Z) * S) (unlink : string → S → S).

Lemma run_eq args w : ∃ st w', run spawn args w = (st, w') ∧ log w' = log w ++ [mkProc args st].
Proof. unfold run. destruct (spawn args (outside w)) as [st s']. by eexists _, _. Qed.

(** What was run, by how far it came. *)
Inductive ran (path : string) (build : list string) : list Proc → bool → Prop :=
| ran_build st : st ≠ Ok (Some 0%Z) → ran path build [mkProc build st] false
| ran_profile st : st ≠ Ok (Some 0%Z) →
    ran path build [mkProc build (Ok (Some 0%Z)); mkProc (profile_args path) st] false
| ran_boot st :
    ran path build [mkProc build (Ok (Some 0%Z)); mkProc (profile_args path) (Ok (Some 0%Z));
                    mkProc (boot_args path) st] (is_ok st).

Lemma set_run path w : ∃ st w',
  Profile.set spawn "/nix/var/nix/profiles/" "system" path w =
    (match st with Ok (Some 0%Z) => Ok tt | Ok _ => bail "nix-env failed"
     | Err e => Err (Msg "Fail to execute nix-env" :: e) | Panic s => Panic s end, w') ∧
  log w' = log w ++ [mkProc (profile_args path) st].
Proof.
  unfold Profile.set, mbind, SR_bind, SR_context, SR_lift.
  destruct (run_eq (nix_env_args "/nix/var/nix/profiles/" "system" path) w) as (st & w' & -> & El).
  exists st, w'. split; [|done]. destruct st as [[[| |]|]| |]; done.
Qed.

Lemma set_generation_run path sources keys no_check w :
  is_valid_nix_path path = Ok tt →
  ∃ done ok, ran path (nix_build_args path sources keys no_check) done ok ∧
    log (set_generation spawn unlink path sources keys no_check w).2 = log w ++ done ∧
    is_ok (set_generation spawn unlink path sources keys no_check w).1 = ok.
Proof.
  intros Hv. unfold set_generation. rewrite Hv.
  destruct (run_eq (nix_build_args path sources keys no_check) w) as (st1 & w1 & E1 & L1).
  unfold mbind, SR_bind, SR_lift, SR_context. rewrite E1.
  destruct (decide (st1 = Ok (Some 0%Z))) as [->|Hst].
  2:{ exists [mkProc (nix_build_args path sources keys no_check) st1], false. split; [by constructor|].
      destruct st1 as [[[| |]|]| |]; done. }
  cbn -[Profile.set run nix_build_args].
  change (ensure (success (Some 0%Z)) "nix build failed") with (Ok tt). cbn iota. destruct (set_run path w1) as (st2 & w2 & -> & L2).
  destruct (decide (st2 = Ok (Some 0%Z))) as [->|Hst].
  2:{ eexists _, false. split; [by apply (ran_profile _ _ st2)|].
      destruct st2 as [[[| |]|]| |]; cbn -[nix_build_args]; rewrite ?L2, ?L1, <-?app_assoc; done. }
  cbn -[run nix_build_args]. set (w3 := mkWorld _ _).
  destruct (run_eq (boot_args path) w3) as (st3 & w4 & -> & L4).
  eexists _, _. split; [apply (ran_boot _ _ st3)|]. destruct st3; cbn -[nix_build_args];
    rewrite L4; cbn -[nix_build_args]; rewrite L2, L1, <-!app_assoc; done.
Qed.

Lemma set_generation_invalid path sources keys no_check w e :
  is_valid_nix_path path = Err e → set_generation spawn unlink path sources keys no_check w = (Err e, w).
Proof. intros E. unfold set_generation, mbind, SR_bind, SR_lift. by rewrite E. Qed.
End order.

(** ** The client on the server *)

Section served.
Context (fs : FS) (serve : Serve) (base : string).
Context (encode_updates : list UpdateInfo → string) (encode_pins : list Pin → string)
  (encode_info : CacheInfo → string) (show_error : error → string).
Local Abbreviation http := (serve_http fs serve encode_updates encode_pins encode_info show_error base).
Context (client : CachixClient) (Hbase : base_url client = base).
Context (Hcache : has_char "/" (client_cache client) = false).
#[local] Set Default Proof Using "All".

Lemma fetch_route segs : Forall (λ x, has_char "/" x = false) segs → segs ≠ [] →
  fetch http client segs =
  (r ← error_for_status (route fs serve encode_updates encode_pins encode_info show_error
      ("api" :: "v1" :: "cache" :: client_cache client :: segs)); Ok (body r)).
Proof.
  intros Hs Hne. unfold fetch, serve_http. cbn [method request url].
  assert (api_url client segs =
    (base +:+ "/") +:+ join "/" ("api" :: "v1" :: "cache" :: client_cache client :: segs)) as ->.
  { unfold api_url. rewrite Hbase. rewrite !join_cons by done. by rewrite !str_app_assoc. }
  rewrite strip_prefix_app, split_join; [done|done|]. by repeat constructor.
Qed.

Lemma fetch_root :
  fetch http client [] =
  Ok (encode_info (mkInfo (client_cache client) (serve_cachix serve) [serve_pub_key serve] "read" "ZSTD" "bogus")).
Proof.
  unfold fetch, serve_http. cbn [method request url].
  assert (api_url client [] =
    (base +:+ "/") +:+ join "/" ["api"; "v1"; "cache"; client_cache client; ""]) as ->.
  { unfold api_url. rewrite Hbase. cbn. by rewrite !str_app_assoc. }
  rewrite strip_prefix_app, split_join; [done|done|]. by repeat constructor.
Qed.

Context (decode_pins : string → res (list Pin)) (decode_info : string → res CacheInfo)
  (decode_bootspec : string → res BootSpec).
Context (Hpins : ∀ l, decode_pins (encode_pins l) = Ok l) (Hinfo : ∀ i, decode_info (encode_info i) = Ok i).

Lemma list_pins_served pins : list_pins http decode_pins client = inl pins →
  client_cache client ∈ allowed_profiles serve ∧
  ∃ n l, read_profile_links fs (serve_path serve) (client_cache client) = Ok (n, l) ∧
    pins = pin_of (client_cache client) <$> (update_of (serve_pub_key serve) <$> l).
Proof.
  unfold list_pins. rewrite fetch_route; [|by repeat constructor|done]. cbn [route].
  unfold pin_list, allowed. case_bool_decide as Ha; cbn [negb]; [|done].
  unfold get_update_list.
  destruct (read_profile_links _ _ _) as [[n l]| |] eqn:El; cbn; [|done..].
  rewrite Hpins. cbn. intros [= <-]. split; [done|]. by exists n, l.
Qed.

Lemma candidate_served show pin p info :
  cachix_candidate fs http decode_info decode_pins decode_bootspec show client pin = Ok (p, info) →
  client_cache client ∈ allowed_profiles serve ∧ pin = client_cache client ∧
  uri info = serve_cachix serve ∧ public_signing_keys info = [serve_pub_key serve] ∧
  ∃ e spec, linked fs (serve_path serve) (client_cache client) e ∧ p = store_path e ∧
    path_eq (toplevel spec) p = true ∧ read_system_boot_json fs decode_bootspec = Ok (system spec).
Proof.
  unfold cachix_candidate, filter_valid_systems, cache_info. rewrite fetch_root. cbn [mbind res_bind].
  rewrite Hinfo. intros Hc. apply bind_Ok in Hc as (sys & Hsys & Hc).
  apply bind_Ok in Hc as (systems & Hl & Hc). apply bind_Ok in Hc as (cand & Hf%ok_or_Ok & Hc).
  cbn in Hc. injection Hc as <- <-.
  destruct (list_pins http decode_pins client) as [pins|] eqn:Ep; [|done].
  apply list_pins_served in Ep as (Ha & n & l & Hr & ->). split; [done|]. cbn in Hl. injection Hl as <-.
  apply find_map_Some_elem in Hf as ([pin' spec] & Hin & Hp). cbn in Hp. case_bool_decide as En; [|done].
  injection Hp as <-. apply elem_of_filter_map in Hin as (x & Hx & Hv).
  apply list_elem_of_fmap in Hx as (u & -> & Hu). apply list_elem_of_fmap in Hu as (e & -> & He).
  unfold valid_system in Hv. apply bind_Some in Hv as (hash & _ & Hv).
  destruct (get_file_from_store _ _ _ _) as [bj|]; [|done].
  apply bind_Some in Hv as (spec' & _ & Hv). destruct (path_eq _ _ && _) eqn:Ec; [|done].
  apply andb_true_iff in Ec as [Et Es%bool_decide_eq_true]. injection Hv as <- <-.
  split; [done|]. do 2 (split; [done|]). exists e, spec'. split; [|by rewrite Es].
  apply read_links_linked in Hr. rewrite Forall_forall in Hr. by apply Hr.
Qed.
End served.
End OtaUpdate.

(** ** Properties *)

Module GenerationsProps.
Import Profile Cachix UpdateServer OtaUpdate.

(** The check of a store path accepts exactly the entries of the store that
    are NixOS systems: a 32 character hash, the infix and a name without a
    slash; such a path has the components of a direct child of the store, so
    it leads nowhere else and is no option of a command. *)
Theorem valid_nix_path_exact p :
  (is_valid_nix_path p = Ok tt ↔ ∃ hash name,
     p = "/nix/store/" +:+ hash +:+ "-nixos-system-" +:+ name ∧
     String.length hash = 32 ∧ all_chars hash_char hash = true ∧ name ≠ "" ∧ has_char "/" name = false) ∧
  (is_valid_nix_path p = Ok tt →
   ∃ entry, components p = [RootDir; Normal "nix"; Normal "store"; Normal entry]).
Proof.
  split; [apply valid_path_iff|]. intros (hash & name & He)%valid_path_iff.
  eexists. by eapply store_entry_components.
Qed.

(** Setting a generation runs its commands in order and stops at the first
    failure: nothing for a path that is no system; then the build, the profile
    only when the build exited with zero, and the boot entry only when the
    profile was set.  It reports success exactly when the last command could be
    started - whatever its exit status. *)
Theorem set_generation_order {S} spawn unlink path sources keys no_check (w : @World S) :
  match is_valid_nix_path path with
  | Ok _ =>
      ∃ done ok, ran path (nix_build_args path sources keys no_check) done ok ∧
        log (set_generation spawn unlink path sources keys no_check w).2 = log w ++ done ∧
        is_ok (set_generation spawn unlink path sources keys no_check w).1 = ok
  | Err e => set_generation spawn unlink path sources keys no_check w = (Err e, w)
  | Panic _ => False
  end.
Proof.
  destruct (is_valid_nix_path path) as [[]|e|x] eqn:E.
  - by apply set_generation_run.
  - by apply set_generation_invalid.
  - unfold is_valid_nix_path in E. by destruct (matches _ _).
Qed.

(** C35: A cachix update from this project's own server installs only what the
    server's directory links: when the client picks a system, the cache is one
    of the allowed profiles, the path is the target of a link of that profile
    that is absolute and exists, its boot specification names that very path
    and the running system's platform, and it is fetched from the configured
    cache with the server's key. *)
Theorem cachix_update_linked fs serve base encode_updates encode_pins encode_info show_error
    client decode_pins decode_info decode_bootspec show pin p info :
  base_url client = base → has_char "/" (client_cache client) = false →
  (∀ l, decode_pins (encode_pins l) = Ok l) → (∀ i, decode_info (encode_info i) = Ok i) →
  cachix_candidate fs (serve_http fs serve encode_updates encode_pins encode_info show_error base)
    decode_info decode_pins decode_bootspec show client pin = Ok (p, info) →
  client_cache client ∈ allowed_profiles serve ∧ pin = client_cache client ∧
  uri info = serve_cachix serve ∧ public_signing_keys info = [serve_pub_key serve] ∧
  ∃ e spec, linked fs (serve_path serve) (client_cache client) e ∧ p = store_path e ∧
    path_eq (toplevel spec) p = true ∧ read_system_boot_json fs decode_bootspec = Ok (system spec).
Proof. intros. by eapply candidate_served. Qed.

(** A generation's link name round-trips for every [i32], and a name that
    parses spells its number between the profile's name and the suffix. *)
Theorem profile_link_round_trip profile :
  (∀ n, (i32_min ≤ n ≤ i32_max)%Z → parse_profile_link profile (format_profile_link profile n) = Ok n) ∧
  (∀ link n, parse_profile_link profile link = Ok n →
     (i32_min ≤ n ≤ i32_max)%Z ∧
     ∃ s, link = profile +:+ "-" +:+ s +:+ "-link" ∧ parse_i32 s = Ok n).
Proof.
  split; [intros n; apply parse_link_round|]. intros link n (s & -> & Hs)%parse_link_Ok.
  split; [|by exists s]. eapply parse_int_range; [|exact Hs]. done.
Qed.

(** Two generations of which the second is the current one. *)
Definition gen1 : string := "/nix/store/b4fmrar918b1l8hwfjzxqv7whnq5c33q-nixos-system-adminvm-1".
Definition gen2 : string := "/nix/store/c4fmrar918b1l8hwfjzxqv7whnq5c33q-nixos-system-adminvm-2".
Definition ex_links : list (string * string) :=
  [("/up/ghaf", "ghaf-2-link"); ("/up/ghaf-1-link", gen1); ("/up/ghaf-2-link", gen2)].
Definition ex_files : list (string * string) :=
  [("/run/current-system/boot.json", gen1); (gen1 +:+ "/boot.json", gen1); (gen2 +:+ "/boot.json", gen2)].
Definition assoc (l : list (string * string)) (k : string) : res string :=
  ok_or (snd <$> find_first (λ kv, bool_decide (kv.1 = k)) l) "not found".
Definition ex_fs : FS :=
  mkFS (assoc ex_links) Some (λ _, Ok [Ok (Some "ghaf-1-link"); Ok (Some "ghaf"); Ok (Some "ghaf-2-link")])
    (λ _, true) (assoc ex_files).
Definition ex_serve : Serve := mkServe "/up" ["ghaf"] 3000 "key" "http://cache".
(** A boot specification is written as its top level, and everything else as the
    bits of its number. *)
Definition ex_decode_bootspec (s : string) : res BootSpec := Ok (mkBootSpec "NixOS" "" s "x86_64-linux").

Fixpoint bits (p : positive) : string :=
  match p with xH => "" | xO p => String "0" (bits p) | xI p => String "1" (bits p) end.
Fixpoint of_bits (s : string) : positive :=
  match s with
  | "" => xH
  | String a s => if bool_decide (a = "0"%char) then xO (of_bits s) else xI (of_bits s)
  end.
Lemma of_bits_bits p : of_bits (bits p) = p.
Proof. induction p as [p IH|p IH|]; cbn; by rewrite ?IH. Qed.

Definition to_json {A} `{Countable A} (a : A) : string := bits (encode a).
Definition of_json {A} `{Countable A} (s : string) : res A := ok_or (decode (of_bits s)) "bad json".
Lemma of_to_json {A} `{Countable A} (a : A) : of_json (to_json a) = Ok a.
Proof. unfold of_json, to_json. by rewrite of_bits_bits, decode_encode. Qed.

#[global] Instance Pin_eq_dec : EqDecision Pin.
Proof. unfold EqDecision, Decision. repeat decide equality. Defined.
#[global] Instance CacheInfo_eq_dec : EqDecision CacheInfo.
Proof. solve_decision. Defined.
#[global] Instance UpdateInfo_eq_dec : EqDecision UpdateInfo.
Proof. solve_decision. Defined.
#[global] Instance Pin_countable : Countable Pin.
Proof.
  refine (inj_countable' (λ p, (pin_name p, pin_created_on p, (rev_store_path (last_revision p),
      rev_created_on (last_revision p), revision (last_revision p), artifacts (last_revision p))))
    (λ '(n, c, (s, rc, r, a)), mkPin n c (mkRevision s rc r a)) _).
  by intros [? ? []].
Defined.
#[global] Instance CacheInfo_countable : Countable CacheInfo.
Proof.
  refine (inj_countable' (λ i, (info_name i, uri i, public_signing_keys i, permission i,
      preferred_compression_method i, github_username i))
    (λ '(n, u, k, p, c, g), mkInfo n u k p c g) _).
  by intros [].
Defined.
#[global] Instance UpdateInfo_countable : Countable UpdateInfo.
Proof.
  refine (inj_countable' (λ u, (upd_name u, upd_store_path u, upd_current u, pub_key u))
    (λ '(n, s, c, k), mkUpdate n s c k) _).
  by intros [].
Defined.

Abbreviation ex_http := (serve_http ex_fs ex_serve to_json to_json to_json (λ _, "") "http://up").
Definition ex_client : CachixClient := cachix_client None (Some "http://up") "ghaf".
Abbreviation ex_candidate :=
  (cachix_candidate ex_fs ex_http of_json of_json ex_decode_bootspec (λ _, "") ex_client "ghaf").

(** The server lists a pin of the same name for every generation, and the
    client takes the first: a cachix update installs the generation that the
    directory happens to list first, where a local update from the same server
    takes the current one. *)
Theorem cachix_ignores_current :
  fst <$> ex_candidate = Ok gen1 ∧
  upd_store_path <$> local_candidate ex_http of_json None "http://up" "ghaf" = Ok gen2.
Proof. split; vm_compute; reflexivity. Qed.

Lemma cachix_update_linked_witness :
  ∃ e, linked ex_fs "/up" "ghaf" e ∧ store_path e = gen1.
Proof.
  assert (ex_candidate = Ok (gen1, mkInfo "ghaf" "http://cache" ["key"] "read" "ZSTD" "bogus")) as E
    by (vm_compute; reflexivity).
  destruct (cachix_update_linked ex_fs ex_serve "http://up" to_json to_json to_json (λ _, "")
    ex_client of_json of_json ex_decode_bootspec (λ _, "") "ghaf" gen1 _ eq_refl eq_refl
    of_to_json of_to_json E) as (_ & _ & _ & _ & e & spec & He & Ep & _).
  exists e. split; [exact He | symmetry; exact Ep].
Defined.
End GenerationsProps.
