(* ===== verification/AdminClient.v ===== *)
(** * The client library ([crates/client], [admin/bin/givc-cli.rs])

    [Endpoint]: from an endpoint configuration to a connection.  [Streams]: a
    server's response stream as the client reads it.  [Client]: the methods of
    [AdminClient] over [AdminApi], the interface the generated gRPC client
    offers; [Loopback] is the instance in which the calls reach the handlers of
    [AdminServer].  [Cli]: the commands of [givc-cli].

    Parameters: the transport ([tonic], [tokio]), file reads, the host name, the
    [Display] of a status and the encodings of messages that are only passed
    on. *)

From S2P Require Import Prelude RustStr RustInt CommonTypes AdminRegistry AdminAuth AdminServer.
From Stdlib Require Import Ascii.

Module Endpoint.
Import Types Server.

Definition transport_config_to_url (ea : EndpointAddress) (with_tls : bool) : string :=
  let scheme := if with_tls then "https" else "http" in
  match ea with
  | Tcp addr port => scheme +:+ "://" +:+ addr +:+ ":" +:+ pretty port
  | _ => scheme +:+ "://[::]:443"
  end.

(** [ClientTlsConfig] and [ServerTlsConfig] as built here *)
Record ClientTlsConfig := mkClientTls {
  ca_certificate : string;
  domain_name : string;
  identity : string * string
}.
Record ServerTlsConfig := mkServerTls { server_identity : string * string; client_ca_root : string }.

(** [tonic::transport::Endpoint] after the builder calls *)
Record Dial := mkDial {
  dial_url : string;
  connect_timeout_ms : Z;
  concurrency_limit : Z;
  dial_tls : option ClientTlsConfig
}.

Section endpoint.
Context {Channel : Type} (read : string → res string).
Context (parse_uri : string → res unit) (check_tls : ClientTlsConfig → res unit).
Context (dial_tcp : Dial → res Channel) (dial_unix : Dial → string → res Channel)
  (dial_vsock : Dial → Z → Z → res Channel).
Context (show_tls : option TlsConfig → string).

Definition client_config (t : TlsConfig) : res ClientTlsConfig :=
  ca ← read (ca_cert_file_path t);
  client_cert ← read (cert_file_path t);
  client_key ← read (key_file_path t);
  tls_name ← ok_or (tls_server_name t) "Missing TLS name";
  Ok (mkClientTls ca tls_name (client_cert, client_key)).

Definition server_config (t : TlsConfig) : res ServerTlsConfig :=
  ca ← read (ca_cert_file_path t);
  cert ← read (cert_file_path t);
  key ← read (key_file_path t);
  Ok (mkServerTls (cert, key) ca).

Definition dial_options (ec : EndpointConfig) : res Dial :=
  let url := transport_config_to_url (address (transport ec)) (bool_decide (is_Some (tls ec))) in
  _ ← parse_uri url;
  let endpoint := mkDial url 300 30 None in
  match tls ec with
  | Some t =>
      c ← client_config t;
      _ ← check_tls c;
      Ok (mkDial url 300 30 (Some c))
  | None => Ok endpoint
  end.

Definition connect (ec : EndpointConfig) : res Channel :=
  d ← dial_options ec;
  let show := show_tls (tls ec) in
  match address (transport ec) with
  | Tcp _ _ => with_context ("Connecting TCP " +:+ dial_url d +:+ " with " +:+ show) (dial_tcp d)
  | Unix path =>
      with_context ("Connecting unix socket " +:+ path +:+ " with " +:+ show) (dial_unix d path)
  | Abstract abs =>
      with_context ("Connecting abstract socket " +:+ abs +:+ " with " +:+ show) (dial_unix d abs)
  | Vsock cid port =>
      with_context ("Connecting vsock " +:+ pretty cid +:+ ":" +:+ pretty port +:+ " with " +:+ show)
        (dial_vsock d cid port)
  end.
End endpoint.
End Endpoint.

Module Streams.
Import Wire.

(** What a client reads from a [tonic::Streaming]: messages, then a failure or
    the end with the trailers, where [Status::from_header_map] may find no
    status in them. *)
Inductive Streaming (T : Type) :=
| Next (t : T) (rest : Streaming T)
| Failed (s : Status)
| Closed (trailers : option (option Status)).
Arguments Next {T} t rest.
Arguments Failed {T} s.
Arguments Closed {T} trailers.

(** [stream.trailers()] reads the rest of the stream. *)
Fixpoint trailers {T} (s : Streaming T) : reply (option (option Status)) :=
  match s with
  | Next _ rest => trailers rest
  | Failed st => Fail st
  | Closed t => Reply t
  end.

(** How the server's side of a stream looks to the client: the items, then the
    status it ended with. *)
Definition sent {T} (items : list T) (failure : option Status) : Streaming T :=
  foldr Next
    (match failure with
     | Some s => Failed s
     | None => Closed (Some (Some (mkStatus CodeOk "" None)))
     end) items.

Section streams.
(** [impl Display for Status] *)
Context (show_status : Status → string).

(** [?] on a [Result<_, Status>]: the status becomes an [anyhow] error. *)
Definition question {A} (r : reply A) : res A :=
  match r with Reply a => Ok a | Fail s => Err [Msg (show_status s)] end.

Definition check_trailers {T} (s : Streaming T) : res unit :=
  t ← question (trailers s);
  match t with
  | Some (Some st) => if bool_decide (code st = CodeOk) then Ok tt else Err (rewrap_error st)
  | Some None => bail "invalid grpc-status trailer"
  | None => Ok tt
  end.

(** The callback acts on the state [W] and may fail. *)
Fixpoint drain_stream_with_callback {T W} (callback : T → SR W unit) (s : Streaming T) : SR W unit :=
  match s with
  | Next item rest => callback item ≫= λ _, drain_stream_with_callback callback rest
  | Failed st => SR_lift (Err (rewrap_error st))
  | Closed t => SR_lift (with_context "While check trailers" (check_trailers (Closed (T := T) t)))
  end.

Lemma trailers_sent {T} (items : list T) failure :
  trailers (sent items failure) =
  match failure with Some s => Fail s | None => Reply (Some (Some (mkStatus CodeOk "" None))) end.
Proof. unfold sent. induction items; cbn; [by destruct failure | done]. Qed.

Lemma check_trailers_sent {T} (items : list T) failure :
  check_trailers (sent items failure) =
  match failure with Some s => Err [Msg (show_status s)] | None => Ok tt end.
Proof. unfold check_trailers. rewrite trailers_sent. by destruct failure. Qed.

(** A callback that never fails sees every item, and the drain ends the way
    the server did. *)
Lemma drain_sent {T W} (f : T → W → W) (items : list T) failure w :
  drain_stream_with_callback (λ t, SR_modify (f t)) (sent items failure) w =
  (match failure with Some s => Err (rewrap_error s) | None => Ok tt end,
   foldl (λ w t, f t w) w items).
Proof.
  revert w. unfold sent. induction items as [|t items IH]; intros w; cbn.
  - by destruct failure.
  - apply IH.
Qed.
End streams.
End Streams.

Module Client.
Import Types Locale Wire Server.

(** [pb::notify::UserNotification]; the urgency is the enum's number. *)
Record UserNotification := mkNotification {
  n_event : string;
  n_title : string;
  n_urgency : Z;
  n_icon : string;
  n_message : string
}.
(** [pb::stats::SysinfoResponse] *)
Record Sysinfo := mkSysinfo {
  ghaf_version : string;
  secure_boot : option bool;
  disk_encrypted : option bool
}.
Record CtapRequest := mkCtap { ctap_req : string; ctap_args : list string; ctap_payload : string }.

(** The unary methods of the generated [AdminServiceClient]: what a call
    replies, in a world [W] it may change.  Connecting can fail. *)
Class AdminApi (W : Type) := {
  api_connect : EndpointConfig → SR W unit;
  api_register_service : Pb.RegistryRequest → W → reply (option string) * W;
  api_start_application : ApplicationRequest → W → reply string * W;
  api_start_vm : string → W → reply string * W;
  api_start_service : string → string → W → reply string * W;
  api_stop_service : string → string → W → reply (string * string) * W;
  api_stop_application : ApplicationRequest → W → reply (string * string) * W;
  api_pause_application : ApplicationRequest → W → reply (string * string) * W;
  api_resume_application : ApplicationRequest → W → reply (string * string) * W;
  api_get_unit_status : string → string → W → reply Pb.UnitStatus * W;
  api_reboot : W → reply unit * W;
  api_poweroff : W → reply unit * W;
  api_suspend : W → reply unit * W;
  api_wakeup : W → reply unit * W;
  api_sysinfo : W → reply Sysinfo * W;
  api_query_list : W → reply (list Pb.QueryListItem) * W;
  api_set_locale : list LocaleAssignment → W → reply unit * W;
  api_set_timezone : string → W → reply unit * W;
  api_get_stats : string → W → reply string * W;
  api_notify_user : string → option UserNotification → W → reply string * W;
  api_ctap : CtapRequest → W → reply string * W
}.

(** [AdminClient] *)
Record AdminClient := mkAdminClient { endpoint : EndpointConfig }.

Definition from_endpoint_address (address : EndpointAddress) (tls_info : option (string * TlsConfig)) :
    AdminClient :=
  let '(tls_name, tls) :=
    match tls_info with
    | Some (name, tls) => (name, Some tls)
    | None => ("bogus(no tls)", None)
    end in
  mkAdminClient (mkEndpointConfig (mkEndpoint address tls_name) tls).
Definition new (addr : string) (port : Z) (tls_info : option (string * TlsConfig)) : AdminClient :=
  from_endpoint_address (Tcp addr port) tls_info.

(** [UrgencyLevel] from its name.  No character outside ASCII has a lower case
    form within the two names compared with. *)
Definition urgency_level (urgency : string) : Z :=
  if eq_ignore_ascii_case urgency "low" then 0
  else if eq_ignore_ascii_case urgency "critical" then 2
  else 1.

(** [LocaleMacroKey::Lang] and [LocaleMacroKey::LcAll] *)
Definition Lang : Z := 0.
Definition LcAll : Z := 13.

Section client.
Context {W : Type} {api : AdminApi W}.
Context (show_status : Status → string) (hostname : string).
Context (self : AdminClient).

Definition connect_to : SR W unit := api_connect (endpoint self).

(** A call whose error is rewrapped, and one with a plain [?]. *)
Definition ask {A} (of_reply : reply A → res A) (call : W → reply A * W) : SR W A := λ w,
  let '(r, w') := call w in (of_reply r, w').
Definition rewrapped {A} (call : W → reply A * W) : SR W A :=
  _ ← connect_to;
  ask rewrap_err call.
Definition plain {A} (call : W → reply A * W) : SR W A :=
  _ ← connect_to;
  ask (Streams.question show_status) call.
Definition discard {A} (m : SR W A) : SR W unit := _ ← m; mret tt.

Definition register_service (name : string) (ty : UnitType) (endpoint : EndpointEntry)
    (status : UnitStatus) : SR W unit :=
  let request := Pb.mkRegistryRequest name (u32_of_unit_type ty) ""
    (Some (endpoint_to_pb endpoint)) (Some (unit_status_to_pb status)) in
  error ← plain (api_register_service request);
  SR_lift (match error with Some e => bail e | None => Ok tt end).

Definition start_app (app_name vm_name : string) (args : list string) : SR W string :=
  rewrapped (api_start_application (mkAppRequest app_name (Some vm_name) args)).
Definition start_vm (vm_name : string) : SR W string := rewrapped (api_start_vm vm_name).
Definition start_service (service_name vm_name : string) : SR W string :=
  rewrapped (api_start_service service_name vm_name).
Definition stop_service (service_name vm_name : string) : SR W unit :=
  discard (rewrapped (api_stop_service service_name vm_name)).
Definition stop (app_name : string) : SR W unit :=
  discard (rewrapped (api_stop_application (mkAppRequest app_name None []))).
Definition pause (app_name : string) : SR W unit :=
  discard (rewrapped (api_pause_application (mkAppRequest app_name None []))).
Definition resume (app_name : string) : SR W unit :=
  discard (rewrapped (api_resume_application (mkAppRequest app_name None []))).
Definition get_status (vm_name unit_name : string) : SR W Pb.UnitStatus :=
  rewrapped (api_get_unit_status vm_name unit_name).
Definition reboot : SR W unit := discard (rewrapped api_reboot).
Definition poweroff : SR W unit := discard (rewrapped api_poweroff).
Definition suspend : SR W unit := discard (rewrapped api_suspend).
Definition sysinfo : SR W Sysinfo := rewrapped api_sysinfo.
Definition wakeup : SR W unit := discard (rewrapped api_wakeup).

Definition query_list : SR W (list Query.QueryResult) :=
  list ← rewrapped api_query_list;
  SR_lift (mapM_res Query.query_of_pb list).
(** The filters are not used. *)
Definition query (by_type : option UnitType) (by_name : list string) : SR W (list Query.QueryResult) :=
  query_list.

Definition set_locales (locales : list LocaleAssignment) : SR W unit :=
  discard (rewrapped (api_set_locale locales)).
Definition set_locale (locale : string) : SR W unit := set_locales [mkAssignment Lang locale].
Definition set_timezone (timezone : string) : SR W unit :=
  discard (rewrapped (api_set_timezone timezone)).
Definition get_stats (vm_name : string) : SR W string := rewrapped (api_get_stats vm_name).

Definition notify_user (vm_name event title urgency icon message : string) : SR W string :=
  let origin_and_event := "[" +:+ hostname +:+ "] " +:+ event in
  rewrapped (api_notify_user vm_name
    (Some (mkNotification origin_and_event title (urgency_level urgency) icon message))).

Definition ctap (req : string) (args : list string) (payload : string) : SR W string :=
  plain (api_ctap (mkCtap req args payload)).
End client.
End Client.

Module Loopback.
Import Types Locale Wire Server Client.

(** ** Calls that reach the service

    The connection hands the request to the handler and the handler's reply
    back.  When the handler panics its task is gone and the client sees the
    status [aborted]. *)
Section loopback.
Context {order : HashOrder} {Ext : Type}.
Context (rpc : EndpointConfig → Call → World Ext → RpcResult * World Ext).
Context (agent : EndpointConfig → World Ext → res unit * World Ext).
Context (unary : string → EndpointConfig → Message → World Ext → res string * World Ext).
Context (sleep : nat → World Ext → World Ext) (write_file : string → string → World Ext → World Ext).
Context (reachable : EndpointConfig → World Ext → res unit) (aborted : Status).
Context (encode_notification : UserNotification → string) (encode_ctap : CtapRequest → string).
Context (decode_sysinfo : string → Sysinfo) (decode_ctap : string → string).

Definition served {A} (m : M Ext (reply A)) (w : World Ext) : reply A * World Ext :=
  match m w with
  | (Ok r, w') => (r, w')
  | (_, w') => (Fail aborted, w')
  end.
Definition mapped {A B} (f : A → B) (m : World Ext → reply A * World Ext) (w : World Ext) :
    reply B * World Ext :=
  let '(r, w') := m w in (f <$> r, w').

Definition loopback : AdminApi (World Ext) := {|
  api_connect ec w := (reachable ec w, w);
  api_register_service req := mapped (λ _, None) (served (Server.register_service req));
  api_start_application req := served (rpc_start_application rpc sleep req);
  api_start_vm n := served (rpc_start_vm rpc sleep n);
  api_start_service s v := served (rpc_start_service rpc s v);
  api_stop_service s v := served (rpc_stop_service rpc s v);
  api_stop_application req := served (rpc_stop_application rpc req);
  api_pause_application req := served (rpc_pause_application rpc req);
  api_resume_application req := served (rpc_resume_application rpc req);
  api_get_unit_status v u := served (rpc_get_unit_status rpc v u);
  api_reboot := served (rpc_reboot rpc);
  api_poweroff := served (rpc_poweroff rpc);
  api_suspend := served (rpc_suspend rpc);
  api_wakeup w := (Server.wakeup, w);
  api_sysinfo := mapped decode_sysinfo (served (rpc_sysinfo agent unary));
  api_query_list := served rpc_query_list;
  api_set_locale l := served (rpc_set_locale write_file l);
  api_set_timezone tz := served (rpc_set_timezone write_file tz);
  api_get_stats v := served (rpc_get_stats agent unary v);
  api_notify_user v n := served (rpc_notify_user agent unary v (encode_notification <$> n));
  api_ctap req := mapped decode_ctap (served (rpc_ctap agent unary (encode_ctap req)))
|}.
End loopback.
End Loopback.

(** ** Properties *)

Module ClientProps.
Import Naming Types Entry Locale Wire Server Client Loopback.

Section loopback.
Context {order : HashOrder} {Ext : Type}.
Context (rpc : EndpointConfig → Call → World Ext → RpcResult * World Ext).
Context (agent : EndpointConfig → World Ext → res unit * World Ext).
Context (unary : string → EndpointConfig → Message → World Ext → res string * World Ext).
Context (sleep : nat → World Ext → World Ext) (write_file : string → string → World Ext → World Ext).
Context (reachable : EndpointConfig → World Ext → res unit) (aborted : Status).
Context (encode_notification : UserNotification → string) (encode_ctap : CtapRequest → string).
Context (decode_sysinfo : string → Sysinfo) (decode_ctap : string → string).
#[local] Set Default Proof Using "Type".

#[local] Instance service : AdminApi (World Ext) :=
  loopback rpc agent unary sleep write_file reachable aborted encode_notification encode_ctap
    decode_sysinfo decode_ctap.

(** A client that can connect has the handler's result and leaves the
    handler's world; the handler's error arrives as its chain on the wire. *)
Lemma rewrapped_served {A} self (m : M Ext A) w :
  reachable (endpoint self) w = Ok tt →
  rewrapped self (served aborted (respond m)) w =
  (match fst (m w) with
   | Ok a => Ok a
   | Err e => Err (rewrap_error (wrap_error e))
   | Panic _ => Err (rewrap_error aborted)
   end, snd (m w)).
Proof.
  intros Hr. unfold rewrapped, mbind, SR_bind, connect_to. cbn. rewrite Hr.
  unfold ask, served, respond. destruct (m w) as [[a|e|s] w']; done.
Qed.

Lemma query_list_Ok self w :
  reachable (endpoint self) w = Ok tt →
  Client.query_list self w = (Ok (to_query <$> Registry.contents (registry (admin w))), w).
Proof.
  intros Hr. unfold Client.query_list, rewrapped, mbind, SR_bind, connect_to. cbn. rewrite Hr.
  cbn. unfold SR_lift. f_equal.
  rewrite (list_fmap_compose to_query Query.query_to_pb). apply Query.parse_list_round.
Qed.

Lemma register_entry_map e (w : World Ext) :
  ∃ w', register_entry e w = (Ok (Reply tt), w') ∧
    Registry.map (registry (admin w')) = <[Entry.name e := e]> (Registry.map (registry (admin w))).
Proof.
  assert (∀ r, Registry.map (Registry.register e r) = <[Entry.name e := e]> (Registry.map r)) as Hm.
  { intros r. unfold Registry.register. by destruct (Registry.map r !! Entry.name e). }
  unfold register_entry, propagate, mbind, M_bind, SR_bind. cbn.
  destruct (negb _); destruct (bool_decide _); cbn;
    try destruct (agent_endpoint _ _); eexists; (split; [reflexivity|]); cbn; apply Hm.
Qed.

(** What the service stores for a client's registration. *)
Definition registered (name : string) (ty : UnitType) (ep : EndpointEntry) (st : UnitStatus) :
    RegistryEntry :=
  mkEntry name ty st (Endpoint ep "")
    (bool_decide (Types.service ty = Mgr) ||
     (bool_decide (vm ty = AppVM) && negb (bool_decide (Types.service ty = Svc)))).

Lemma register_service_Ok show_status self name ty ep st w :
  reachable (endpoint self) w = Ok tt → ty ≠ mkUnitType Host VM → wf_address (address ep) →
  ∃ w', Client.register_service show_status self name ty ep st w = (Ok tt, w') ∧
    Registry.map (registry (admin w')) =
      <[name := registered name ty ep st]> (Registry.map (registry (admin w))).
Proof.
  intros Hr Hty Hep. unfold Client.register_service, plain, mbind, SR_bind, connect_to. cbn.
  rewrite Hr. unfold ask, mapped, served, Server.register_service, entry_of_pb.
  cbn [Pb.rr_type Pb.rr_state Pb.rr_transport Pb.rr_name Pb.rr_parent ok_or].
  rewrite unit_type_round, bool_decide_eq_false_2 by done. cbn [mbind res_bind].
  unfold unit_status_of_pb. cbn [mbind res_bind]. rewrite endpoint_round by done.
  cbn [mbind res_bind].
  destruct (register_entry_map (registered name ty ep st) w) as (w' & Hw & Hm). destruct st.
  change (default "" (parse_vm_name "")) with "". unfold registered in Hw.
  exists w'. cbn [Pb.name Pb.description Pb.load_state Pb.active_state Pb.sub_state Pb.path
    Pb.freezer_state unit_status_to_pb Types.name description load_state active_state sub_state
    path freezer_state]. rewrite Hw. by split.
Qed.
End loopback.

(** C37: What a client registers it can query: when the service is reachable,
    registering a unit of any type but a host VM, at any valid address,
    succeeds and stores exactly that unit under its name, replacing what was
    there and nothing else; and a query from any client afterwards succeeds
    and lists the units of the registry, this one among them with the fields it
    was registered with. *)
Theorem register_query_round_trip `{HashOrder} {Ext} rpc agent unary sleep write_file
    (reachable : EndpointConfig → World Ext → res unit) aborted encode_notification encode_ctap
    decode_sysinfo decode_ctap show_status self other name ty ep st (w : World Ext) :
  (∀ ec w, reachable ec w = Ok tt) → ty ≠ mkUnitType Host VM → wf_address (address ep) →
  let api := loopback rpc agent unary sleep write_file reachable aborted encode_notification
    encode_ctap decode_sysinfo decode_ctap in
  ∃ w' l, Client.register_service (api := api) show_status self name ty ep st w = (Ok tt, w') ∧
    Registry.map (registry (admin w')) =
      <[name := registered name ty ep st]> (Registry.map (registry (admin w))) ∧
    Client.query_list (api := api) other w' = (Ok l, w') ∧
    (∀ q, q ∈ l ↔ ∃ k e, Registry.map (registry (admin w')) !! k = Some e ∧ q = to_query e) ∧
    to_query (registered name ty ep st) ∈ l.
Proof.
  intros Hr Hty Hep api.
  destruct (register_service_Ok rpc agent unary sleep write_file reachable aborted
    encode_notification encode_ctap decode_sysinfo decode_ctap show_status self name ty ep st w
    (Hr _ _) Hty Hep) as (w' & Hreg & Hm).
  assert (∀ q, q ∈ to_query <$> Registry.contents (registry (admin w')) ↔
    ∃ k e, Registry.map (registry (admin w')) !! k = Some e ∧ q = to_query e) as Hl.
  { intros q. rewrite list_elem_of_fmap. unfold Registry.contents.
    setoid_rewrite elem_of_hash_values. naive_solver. }
  exists w', (to_query <$> Registry.contents (registry (admin w'))).
  split; [exact Hreg|]. split; [done|]. split; [by apply query_list_Ok|]. split; [done|].
  apply Hl. exists name, (registered name ty ep st). by rewrite Hm, lookup_insert_eq.
Qed.

Definition ex_status : UnitStatus := mkUnitStatus "net" "Network" "loaded" "active" "running" "" "running".
Definition ex_self : AdminClient := new "127.0.0.1" 9001 None.
Lemma register_query_round_trip_witness :
  ∃ w', Client.register_service (api := loopback (order := map_to_list_order) ServerProps.ex_rpc
      ServerProps.ex_connect ServerProps.ex_unary ServerProps.ex_sleep ServerProps.ex_write
      (λ _ _, Ok tt) (mkStatus Internal "" None) (λ _, "") (λ _, "")
      (λ _, mkSysinfo "" None None) (λ s, s)) (λ _, "") ex_self "givc-net-vm.service"
      (mkUnitType SysVM Mgr) (mkEndpoint (Tcp "192.168.100.1" 9000) "net-vm") ex_status
      ServerProps.ex_world = (Ok tt, w').
Proof.
  destruct (@register_query_round_trip map_to_list_order unit ServerProps.ex_rpc
      ServerProps.ex_connect ServerProps.ex_unary ServerProps.ex_sleep ServerProps.ex_write
      (λ _ _, Ok tt) (mkStatus Internal "" None) (λ _, "") (λ _, "")
      (λ _, mkSysinfo "" None None) (λ s, s) (λ _, "") ex_self ex_self "givc-net-vm.service"
      (mkUnitType SysVM Mgr) (mkEndpoint (Tcp "192.168.100.1" 9000) "net-vm") ex_status
      ServerProps.ex_world) as (w' & l & Hw & _);
    [done | done | cbn; unfold u16_max; lia | by exists w'].
Defined.
End ClientProps.
