(* ===== verification/PolicyClient.v ===== *)
(** * Pushing policies to agents ([admin/policyclient.rs], [admin/server.rs],
      [modules/pkgs/policyadmin])

    [Upload]: the client that streams a policy file to an agent, and the admin
    service's [push_policy_update].  [Agent]: the agent's server, which writes
    the chunks to a temporary file and installs it.  [Delivery] connects the
    two.

    A file system is a map from paths to contents; directories are not part of
    it.  Every system call may fail, as the parameters decide.  SHA-256 and the
    JSON of the agent's policy table are parameters. *)

From S2P Require Import Prelude RustStr RustInt RustPath CommonTypes AdminRegistry AdminAuth AdminServer PolicyAdmin AdminClient.
From Stdlib Require Import Ascii.

Abbreviation files := (gmap string string).

(** [Path::with_extension] *)
Definition with_extension (p ext : string) : string :=
  match file_name p with
  | None => p
  | Some name =>
      let stem := match rsplit_once "."%char name with
                  | Some (a, _) => if bool_decide (a = "") then name else a
                  | None => name
                  end in
      let pieces := trim_back (split "/"%char p) in
      join "/" (take (length pieces - 1) pieces ++ [stem]) +:+ "." +:+ ext
  end.

(** [StreamPolicyRequest] *)
Record StreamPolicyRequest := mkPolicyRequest { req_policy_name : string; policy_chunk : string }.

Module Upload.
Import Naming Types Wire Server.

(** ** Reading the file in chunks *)

(** [3 * 1024 * 1024] bytes *)
Definition BUFFER : Z := 3 * 1024 * 1024.

(** How reads of an open file go: at an offset a read fails, or returns at
    least one and at most so many bytes. *)
Record Reads := mkReads { read_fault : nat → bool; read_grain : nat → nat }.

(** [file.read(&mut buffer)] with [rest] still to come: the number of bytes. *)
Definition read_len (r : Reads) (offset : nat) (rest : string) : nat :=
  let most := Z.to_nat (Z.min BUFFER (Z.of_nat (String.length rest))) in
  Nat.max 1 (Nat.min (read_grain r offset) most).

(** The loop of the stream; it runs as often as there are bytes, at most. *)
Fixpoint chunks (fuel : nat) (r : Reads) (name : string) (is_first_chunk : bool) (offset : nat)
    (rest : string) : list StreamPolicyRequest :=
  match fuel with
  | 0 => []
  | S fuel =>
      if read_fault r offset then []
      else if bool_decide (rest = "") then []
      else
        let n := read_len r offset rest in
        mkPolicyRequest (if is_first_chunk then name else "") (take_bytes n rest)
        :: chunks fuel r name false (offset + n) (drop_bytes n rest)
  end.

(** The outbound stream; a file that cannot be opened ends it at once. *)
Definition outbound (r : Reads) (name : string) (file : option string) : list StreamPolicyRequest :=
  match file with
  | Some content => chunks (S (String.length content)) r name true 0 content
  | None => []
  end.

(** ** The client and the service *)

Section upload.
Context {W : Type}.
(** The service's state and its disk within the world. *)
Context (admin_of : W → Admin) (open_file : string → W → option string) (reads : string → W → Reads).
Context (copy : string → string → SR W unit) (remove_file : string → SR W unit).
(** Connecting, and the agent's answer to the stream. *)
Context (connect : EndpointConfig → SR W unit).
Context (agent_stream : EndpointConfig → list StreamPolicyRequest → W → reply string * W).
Context (show_status : Status → string).

Definition stream_policy (ec : EndpointConfig) (updates : list StreamPolicyRequest) : SR W unit :=
  _ ← connect ec;
  status ← (λ w, let '(r, w') := agent_stream ec updates w in (Streams.question show_status r, w')) : SR W string;
  SR_lift (if bool_decide (status = "Success") then Ok tt
           else bail ("Policy update failed: " +:+ status)).

(** The stream reads the file while the call runs. *)
Definition upload_policy (ec : EndpointConfig) (name path : string) : SR W unit := λ w,
  stream_policy ec (outbound (reads path w) name (open_file path w)) w.

Definition push_policy_update (vm_name policy_file_path policy_name : string) : SR W unit :=
  let agent_service_name := agent_service (Vm vm_name) in
  ec ← (λ w, (with_context
                ("policy-admin: failed to get endpoint for agent " +:+ agent_service_name)
                (agent_endpoint agent_service_name (admin_of w)), w)) : SR W EndpointConfig;
  let temp_path := with_extension policy_file_path "tmp" in
  _ ← copy policy_file_path temp_path;
  result ← SR_try (upload_policy ec policy_name temp_path);
  _ ← SR_ignore (remove_file temp_path);
  SR_lift (match result with inl a => Ok a | inr e => Err e end).

(** The task that serves the workers: each update is pushed, the outcome goes
    back to the worker, which only logs it. *)
Definition serve_update (u : Manager.Update) : SR W unit :=
  SR_ignore (push_policy_update (Manager.vm_name u) (Manager.update_file u) (Manager.policy u)).
Definition serve_updates (us : list Manager.Update) : SR W unit := SR_each serve_update us.
End upload.

(** ** What is sent *)

#[local] Set Default Proof Using "Type".

Definition payload (l : list StreamPolicyRequest) : string :=
  foldr (λ q acc, policy_chunk q +:+ acc) "" l.

Lemma payload_cons q l : payload (q :: l) = policy_chunk q +:+ payload l.
Proof. done. Qed.

Lemma take_bytes_add n m s :
  take_bytes (n + m) s = take_bytes n s +:+ take_bytes m (drop_bytes n s).
Proof.
  revert s. induction n as [|n IH]; intros s; [done|].
  destruct s as [|a s]; [by destruct m|]. cbn. by rewrite IH.
Qed.

(** The first message names the policy, the others do not; none is empty and
    none is longer than the buffer. *)
Definition well_formed (name : string) (l : list StreamPolicyRequest) : Prop :=
  Forall (λ q, policy_chunk q ≠ "" ∧ (Z.of_nat (String.length (policy_chunk q)) ≤ BUFFER)%Z) l ∧
  match l with
  | [] => True
  | q :: l => req_policy_name q = name ∧ Forall (λ q, req_policy_name q = "") l
  end.

Lemma read_len_bound r offset rest :
  rest ≠ "" → 1 ≤ read_len r offset rest ≤ String.length rest ∧
  (Z.of_nat (read_len r offset rest) ≤ BUFFER)%Z.
Proof.
  intros Hne. assert (1 ≤ String.length rest) by (destruct rest; [done | cbn; lia]).
  assert (1 < BUFFER)%Z by (unfold BUFFER; lia). unfold read_len.
  generalize (read_grain r offset). generalize dependent BUFFER. intros B HB g. lia.
Qed.

Lemma chunks_spec fuel r name first offset rest :
  String.length rest < fuel → ∃ n,
    payload (chunks fuel r name first offset rest) = take_bytes n rest ∧
    well_formed (if first then name else "") (chunks fuel r name first offset rest) ∧
    ((∀ o, read_fault r o = false) → payload (chunks fuel r name first offset rest) = rest).
Proof.
  revert first offset rest. induction fuel as [|fuel IH]; intros first offset rest Hf; [lia|].
  cbn [chunks]. destruct (read_fault r offset) eqn:Er.
  { exists 0. split; [by destruct rest|]. split; [by split|]. intros Hno. by rewrite Hno in Er. }
  case_bool_decide as Hne. { exists 0. subst. by repeat split. }
  destruct (read_len_bound r offset rest Hne) as [Hn Hb].
  remember (read_len r offset rest) as n eqn:En. clear En.
  pose proof (take_drop_bytes n rest) as Hsplit.
  pose proof (take_bytes_length n rest ltac:(lia)) as Hlen.
  assert (String.length rest = n + String.length (drop_bytes n rest)) as Hl.
  { rewrite <-Hsplit at 1. by rewrite str_length_app, Hlen. }
  destruct (IH false (offset + n) (drop_bytes n rest)) as (m & Hp & [Hc Hnames] & Hall); [lia|].
  exists (n + m). split; [|split; [split|]].
  - by rewrite payload_cons, Hp, take_bytes_add.
  - constructor; [|done]. cbn. split; [|by rewrite Hlen]. intros H0. rewrite H0 in Hlen. cbn in Hlen. lia.
  - cbn. split; [by destruct first|]. destruct (chunks _ _ _ _ _ _); [done|].
    destruct Hnames. by constructor.
  - intros Hno. by rewrite payload_cons, Hall.
Qed.
End Upload.

Module Agent.

(** ** The agent's policy server ([transport.go], [controller.go]) *)

(** [filepath.Clean] and [filepath.Join] *)
Definition clean_piece (rooted : bool) (stack : list string) (c : string) : list string :=
  if bool_decide (c = "") || bool_decide (c = ".") then stack
  else if bool_decide (c = "..") then
    match stack with
    | [] => if rooted then [] else [".."]
    | x :: rest => if bool_decide (x = "..") then ".." :: stack else rest
    end
  else c :: stack.
Definition clean (p : string) : string :=
  let rooted := starts_with "/" p in
  let out := join "/" (rev (foldl (clean_piece rooted) [] (split "/"%char p))) in
  if rooted then "/" +:+ out else if bool_decide (out = "") then "." else out.
Definition filepath_join (l : list string) : string :=
  match keep (λ s, negb (bool_decide (s = ""))) l with
  | [] => ""
  | l => clean (join "/" l)
  end.

Record PolicyDetail := mkDetail { Destination : string; Sha : string }.

(** The agent's disk and [policyMap]. *)
Record State := mkState { disk : files; policyMap : gmap string PolicyDetail }.

(** The system calls that can fail. *)
Inductive Op :=
| CreateTemp (dir : string) | Chmod (p : string) | Write (p : string) | Remove (p : string)
| MkdirAll (p : string) | Open (p : string) | OpenTrunc (p : string)
| Copy (src dst : string) | Rename (a b : string) | WriteFile (p : string).

Section agent.
Context (storePath : string) (fault : Op → files → option error).
(** The name [os.CreateTemp] picks; how much of a failing copy was written. *)
Context (temp_name : string → files → string) (copied : string → string → files → nat).
Context (sha256_hex : string → string) (show_error : error → string).
Context (marshal : gmap string PolicyDetail → res string).
Context (unmarshal : string → gmap string PolicyDetail).

Definition policiesInfoFile : string := filepath_join [storePath; "policies.json"].
Definition tempDir : string := filepath_join [storePath; ".temp"].
Definition policy_file (name : string) : string :=
  filepath_join [filepath_join [storePath; name]; "policy.bin"].

Definition AG : Type → Type := SR State.
Definition sys (op : Op) : SR State unit := λ st,
  (match fault op (disk st) with Some e => Err e | None => Ok tt end, st).
Definition on_disk (f : files → files) : SR State unit :=
  SR_modify (λ st, mkState (f (disk st)) (policyMap st)).
Definition PathExists (p : string) (d : files) : bool := bool_decide (is_Some (d !! p)).
(** [os.Remove], its error ignored *)
Definition remove (p : string) : SR State unit := λ st,
  match fault (Remove p) (disk st) with
  | Some _ => (Ok tt, st)
  | None => on_disk (delete p) st
  end.
Definition remove_if_there (p : string) : SR State unit := λ st,
  if PathExists p (disk st) then remove p st else (Ok tt, st).
(** [fmt.Errorf("...: %v", err)] around a failing call *)
Definition errorf {A} (prefix suffix : string) (m : SR State A) : SR State A := λ st,
  match m st with
  | (Err e, st') => (bail (prefix +:+ show_error e +:+ suffix), st')
  | r => r
  end.
(** Clean up after a failing call and pass its error on. *)
Definition or_else {A} (cleanup : SR State unit) (m : SR State A) : SR State A := λ st,
  match m st with
  | (Err e, st') => (Err e, snd (cleanup st'))
  | r => r
  end.
Definition open (p : string) : SR State string :=
  _ ← sys (Open p);
  (λ st, (ok_or (disk st !! p) ("open " +:+ p +:+ ": no such file or directory"), st)) : SR State string.

Definition getFileHash (p : string) : SR State string :=
  content ← open p;
  mret (sha256_hex content).

Definition copyPolicy (src dest : string) : SR State unit :=
  _ ← errorf "policy-admin: failed to open destination file. (" ")" (sys (OpenTrunc dest));
  _ ← on_disk <[dest := ""]>;
  content ← errorf "policy-admin: failed to open policy file. (" ")" (open src);
  errorf "policy-admin: failed to copy policy. (" ")" (λ st,
    match fault (Copy src dest) (disk st) with
    | Some e => (Err e, snd (on_disk <[dest := take_bytes (copied src dest (disk st)) content]> st))
    | None => on_disk <[dest := content]> st
    end).

Definition savePolicyMap : SR State unit := λ st,
  match marshal (policyMap st), fault (WriteFile policiesInfoFile) (disk st) with
  | Ok json, None => on_disk <[policiesInfoFile := json]> st
  | _, _ => (Ok tt, st)
  end.

Definition set_sha (name sha : string) : SR State unit := SR_modify (λ st,
  mkState (disk st) (alter (λ d, mkDetail (Destination d) sha) name (policyMap st))).

Definition rename (a b : string) : SR State unit :=
  _ ← sys (Rename a b);
  content ← (λ st, (ok_or (disk st !! a) ("rename " +:+ a), st)) : SR State string;
  on_disk (λ d, <[b := content]> (delete a d)).

Definition install (name pulled : string) (sha : string) : SR State unit :=
  _ ← errorf "policy-admin: failed to write policy locally: " "" (rename pulled (policy_file name));
  _ ← set_sha name sha;
  savePolicyMap.

Definition UpdatePolicy (name pulled : string) : SR State unit := λ st,
  match policyMap st !! name with
  | None => (bail ("Unknown policy " +:+ name +:+ "."), st)
  | Some policy =>
      (_ ← (if PathExists (policy_file name) (disk st) then mret tt
            else errorf "policy-admin: failed to create policy directory: " ""
                   (sys (MkdirAll (filepath_join [storePath; name]))));
       pulledPolicyHash ← getFileHash pulled;
       if bool_decide (Sha policy = pulledPolicyHash) then mret tt
       else if bool_decide (Destination policy = "") then install name pulled pulledPolicyHash
       else
         _ ← errorf "policy-admin: failed to deploy policy file: " ""
               (copyPolicy pulled (Destination policy));
         install name pulled pulledPolicyHash) st
  end.

(** The first chunk names the policy and creates the temporary file, whose
    path is recorded after its mode is set. *)
Definition begin_policy (q : StreamPolicyRequest) : SR State (string * string) :=
  if bool_decide (req_policy_name q = "") then SR_lift (bail "policy-admin: policy name is nil")
  else
    _ ← sys (CreateTemp tempDir);
    path ← (λ st, (Ok (temp_name tempDir (disk st)), st)) : SR State string;
    _ ← on_disk <[path := ""]>;
    _ ← or_else (remove "") (sys (Chmod path));
    mret (req_policy_name q, path).

Definition write_chunk (path chunk : string) : SR State unit :=
  if bool_decide (chunk = "") then mret tt
  else or_else (remove path) (
    _ ← sys (Write path);
    on_disk (alter (λ c, c +:+ chunk) path)).

(** The receive loop; [broken] is the error the stream ends with. *)
Fixpoint receive (cur : option (string * string)) (reqs : list StreamPolicyRequest)
    (broken : option error) : SR State (string * string) :=
  match reqs with
  | [] =>
      match broken with
      | Some e =>
          _ ← (match cur with Some (_, path) => remove path | None => mret tt end);
          SR_lift (Err e)
      | None => mret (default ("", "") cur)
      end
  | q :: reqs =>
      '(name, path) ← (match cur with Some c => mret c | None => begin_policy q end);
      _ ← write_chunk path (policy_chunk q);
      receive (Some (name, path)) reqs broken
  end.

Definition StreamPolicy (reqs : list StreamPolicyRequest) (broken : option error) : SR State string :=
  '(name, path) ← receive None reqs broken;
  _ ← or_else (remove_if_there path) (UpdatePolicy name path);
  _ ← remove_if_there path;
  mret "Success".

(** [loadPolicyMap]: the table is taken from the configuration only when no
    saved one exists; errors are not reported. *)
Definition loadPolicyMap (policies : gmap string string) (d : files) : gmap string PolicyDetail :=
  match d !! policiesInfoFile with
  | None => (λ dest, mkDetail dest "") <$> policies
  | Some json =>
      match fault (Open policiesInfoFile) d with
      | Some _ => ∅
      | None => unmarshal json
      end
  end.
Definition NewPolicyAdminController (policies : gmap string string) (d : files) : State :=
  mkState d (loadPolicyMap policies d).
End agent.
End Agent.

Module Delivery.
Import Naming Types Wire Server Upload Agent.

#[global] Instance TlsConfig_eq_dec : EqDecision TlsConfig.
Proof. solve_decision. Defined.
#[global] Instance EndpointConfig_eq_dec : EqDecision EndpointConfig.
Proof. solve_decision. Defined.

(** ** The admin service with the agents it can reach *)

Inductive HostOp := HostCopy (a b : string) | HostRemove (p : string).

Record World := mkWorld {
  admin : Admin;
  host_disk : files;
  peer : EndpointConfig → option State
}.

Definition set_disk (d : files) (w : World) : World := mkWorld (admin w) d (peer w).
Definition set_peer (ec : EndpointConfig) (st : State) (w : World) : World :=
  mkWorld (admin w) (host_disk w) (λ ec', if decide (ec' = ec) then Some st else peer w ec').

Section delivery.
Context (host_fault : HostOp → files → option error) (reads : string → World → Reads).
Context (storePath : string) (fault : Op → files → option error).
Context (temp_name : string → files → string) (copied : string → string → files → nat).
Context (sha256_hex : string → string) (show_error : error → string).
Context (marshal : gmap string PolicyDetail → res string) (show_status : Status → string).

(** [tokio::fs::copy]; copying a file onto itself truncates it. *)
Definition copy_file (a b : string) : SR World unit := λ w,
  match host_fault (HostCopy a b) (host_disk w), host_disk w !! a with
  | Some e, _ => (Err e, w)
  | None, None => (bail ("No such file or directory"), w)
  | None, Some c => (Ok tt, set_disk (<[b := if bool_decide (a = b) then "" else c]> (host_disk w)) w)
  end.
Definition remove_file (p : string) : SR World unit := λ w,
  match host_fault (HostRemove p) (host_disk w) with
  | Some e => (Err e, w)
  | None => (Ok tt, set_disk (delete p (host_disk w)) w)
  end.

Definition connect (ec : EndpointConfig) : SR World unit := λ w,
  (match peer w ec with Some _ => Ok tt | None => bail "Connecting" end, w).
(** An error of the agent's handler reaches the client as status [Unknown]. *)
Definition agent_stream (ec : EndpointConfig) (reqs : list StreamPolicyRequest) (w : World) :
    reply string * World :=
  match peer w ec with
  | None => (fail Internal "transport error", w)
  | Some st =>
      let '(r, st') := StreamPolicy storePath fault temp_name copied sha256_hex show_error marshal
                         reqs None st in
      (match r with
       | Ok s => Reply s
       | Err e => fail Unknown (show_error e)
       | Panic s => fail Internal s
       end, set_peer ec st' w)
  end.

Definition push : string → string → string → SR World unit :=
  push_policy_update admin (λ p w, host_disk w !! p) reads copy_file remove_file connect agent_stream
    show_status.

#[local] Set Default Proof Using "Type".

(** ** What an agent has installed *)

(** The paths that hold a policy. *)
Definition owns (t : gmap string PolicyDetail) (n p : string) : Prop :=
  p = policy_file storePath n ∨ ∃ d, t !! n = Some d ∧ Destination d ≠ "" ∧ p = Destination d.

(** Different policies use different paths, none of which is the saved table or
    a temporary file. *)
Definition separate (t : gmap string PolicyDetail) : Prop :=
  (∀ n m p, is_Some (t !! n) → is_Some (t !! m) → owns t n p → owns t m p → n = m) ∧
  (∀ n p, is_Some (t !! n) → owns t n p → p ≠ policiesInfoFile storePath) ∧
  (∀ n p d, is_Some (t !! n) → owns t n p → temp_name (tempDir storePath) d ≠ p) ∧
  (∀ d, temp_name (tempDir storePath) d ≠ policiesInfoFile storePath).

(** A policy whose hash is recorded is in the store and at its destination. *)
Definition holds (n : string) (c : string) (st : State) : Prop :=
  ∀ d, policyMap st !! n = Some d →
    disk st !! policy_file storePath n = Some c ∧
    (Destination d ≠ "" → disk st !! Destination d = Some c).
Definition installed (st : State) : Prop :=
  ∀ n d, policyMap st !! n = Some d → Sha d ≠ "" → ∃ c, sha256_hex c = Sha d ∧ holds n c st.

(** ** A run without failing system calls *)

Section run.
Context (no_fault : ∀ op d, fault op d = None).

Abbreviation t := (temp_name (tempDir storePath)).

Lemma write_chunk_Ok p chunk c st :
  disk st !! p = Some c →
  write_chunk fault p chunk st = (Ok tt, mkState (<[p := c +:+ chunk]> (disk st)) (policyMap st)).
Proof using no_fault.
  intros Hc. unfold write_chunk. case_bool_decide as Hq.
  - subst. rewrite str_app_nil_r, insert_id by done. by destruct st.
  - unfold or_else, mbind, SR_bind, sys, on_disk, SR_modify. rewrite no_fault. do 2 f_equal.
    apply map_eq. intros k. destruct (decide (k = p)) as [->|Hk].
    + by rewrite lookup_insert_eq, lookup_alter_eq, Hc.
    + by rewrite lookup_insert_ne, lookup_alter_ne by done.
Qed.

Lemma receive_Ok reqs n p c st :
  disk st !! p = Some c →
  receive storePath fault temp_name (Some (n, p)) reqs None st =
  (Ok (n, p), mkState (<[p := c +:+ payload reqs]> (disk st)) (policyMap st)).
Proof using no_fault.
  revert c st. induction reqs as [|q reqs IH]; intros c st Hc; cbn [receive].
  - cbn. rewrite str_app_nil_r, insert_id by done. by destruct st.
  - unfold mbind, SR_bind at 1. change (mret (M := SR State) (n, p) st) with (Ok (n, p), st). cbn iota beta.
    unfold SR_bind. rewrite (write_chunk_Ok _ _ c) by done.
    rewrite (IH (c +:+ policy_chunk q)) by (cbn; by rewrite lookup_insert_eq).
    cbn [disk policyMap]. by rewrite payload_cons, str_app_assoc, insert_insert_eq.
Qed.

Lemma begin_policy_Ok q st :
  req_policy_name q ≠ "" →
  begin_policy storePath fault temp_name q st =
  (Ok (req_policy_name q, t (disk st)), mkState (<[t (disk st) := ""]> (disk st)) (policyMap st)).
Proof using no_fault.
  intros Hn. unfold begin_policy. rewrite bool_decide_eq_false_2 by done.
  unfold mbind, SR_bind, or_else, sys, on_disk, SR_modify. by rewrite !no_fault.
Qed.

Lemma receive_policy n reqs st :
  n ≠ "" → reqs ≠ [] → well_formed n reqs →
  receive storePath fault temp_name None reqs None st =
  (Ok (n, t (disk st)), mkState (<[t (disk st) := payload reqs]> (disk st)) (policyMap st)).
Proof using no_fault.
  intros Hn Hne [_ Hnames]. destruct reqs as [|q reqs]; [done|]. destruct Hnames as [Hq _].
  cbn [receive]. unfold mbind, SR_bind at 1. rewrite begin_policy_Ok, Hq by (by rewrite Hq).
  unfold SR_bind.
  rewrite (write_chunk_Ok _ _ "") by (cbn; by rewrite lookup_insert_eq). cbn [disk policyMap].
  rewrite (receive_Ok _ _ _ (policy_chunk q)) by (cbn; by rewrite lookup_insert_eq).
  cbn [disk policyMap]. by rewrite payload_cons, !insert_insert_eq.
Qed.

Lemma getFileHash_Ok p c st :
  disk st !! p = Some c → getFileHash fault sha256_hex p st = (Ok (sha256_hex c), st).
Proof using no_fault.
  intros Hc. unfold getFileHash, open, mbind, SR_bind, sys. by rewrite no_fault, Hc.
Qed.

Lemma copyPolicy_Ok src dest c st :
  disk st !! src = Some c → src ≠ dest →
  copyPolicy fault copied show_error src dest st =
  (Ok tt, mkState (<[dest := c]> (disk st)) (policyMap st)).
Proof using no_fault.
  intros Hc Hne. unfold copyPolicy, open, errorf, mbind, SR_bind, sys, on_disk, SR_modify.
  rewrite !no_fault. cbn [disk policyMap]. rewrite lookup_insert_ne, Hc by done. cbn.
  by rewrite no_fault, insert_insert_eq.
Qed.

Lemma install_Ok n a sha c st :
  disk st !! a = Some c → ∃ st', install storePath fault show_error marshal n a sha st = (Ok tt, st') ∧
    policyMap st' = alter (λ d, mkDetail (Destination d) sha) n (policyMap st) ∧
    ∀ p, p ≠ policiesInfoFile storePath →
      disk st' !! p = <[policy_file storePath n := c]> (delete a (disk st)) !! p.
Proof using no_fault.
  intros Hc. unfold install, rename, errorf, set_sha, mbind, SR_bind, sys, on_disk, SR_modify.
  rewrite no_fault, Hc. cbn. unfold savePolicyMap. cbn [policyMap disk]. rewrite no_fault.
  destruct (marshal _) as [json|e|e]; eexists; (split; [done|]); (split; [done|]); intros p Hp; [|done..].
  cbn. by rewrite lookup_insert_ne.
Qed.

(** Where the policy ends up; no other path changes but the saved table. *)
Lemma UpdatePolicy_Ok n det a c st :
  policyMap st !! n = Some det → disk st !! a = Some c →
  a ≠ policy_file storePath n → a ≠ policiesInfoFile storePath →
  policy_file storePath n ≠ policiesInfoFile storePath →
  (Destination det ≠ "" → a ≠ Destination det ∧ Destination det ≠ policiesInfoFile storePath) →
  ∃ st', UpdatePolicy storePath fault copied sha256_hex show_error marshal n a st = (Ok tt, st') ∧
    (Sha det = sha256_hex c ∧ st' = st ∨
     policyMap st' = alter (λ d, mkDetail (Destination d) (sha256_hex c)) n (policyMap st) ∧
     disk st' !! a = None ∧ disk st' !! policy_file storePath n = Some c ∧
     (Destination det ≠ "" → disk st' !! Destination det = Some c) ∧
     ∀ p, p ≠ policiesInfoFile storePath → p ≠ policy_file storePath n → p ≠ a →
       (Destination det ≠ "" → p ≠ Destination det) → disk st' !! p = disk st !! p).
Proof using no_fault.
  intros Hn Hc Hpf Hi Hpi Hd. unfold UpdatePolicy. rewrite Hn.
  set (rest := λ h : string, if bool_decide (Sha det = h) then mret (M := SR State) tt else _).
  assert (∀ m : SR State unit, m st = (Ok tt, st) →
    (m ≫= λ _, getFileHash fault sha256_hex a ≫= rest) st = rest (sha256_hex c) st) as ->.
  { intros m Hm. unfold mbind, SR_bind. by rewrite Hm, (getFileHash_Ok a c). }
  2: { destruct (PathExists _ _); [done|]. unfold errorf, sys. by rewrite no_fault. }
  unfold rest. clear rest. case_bool_decide as Hs; [exists st; by split; [|left]|].
  case_bool_decide as Hde.
  - destruct (install_Ok n a (sha256_hex c) c st Hc) as (st' & Hi' & Hm & Hp).
    exists st'. split; [done|]. right. split; [done|].
    rewrite !Hp, lookup_insert_ne, lookup_delete_eq, lookup_insert_eq by done.
    split; [done|]. split; [done|]. split; [done|].
    intros p Hpi' Hp1 Hp2 _. by rewrite Hp, lookup_insert_ne, lookup_delete_ne by done.
  - destruct (Hd Hde). unfold mbind, SR_bind, errorf. rewrite (copyPolicy_Ok a _ c) by done.
    edestruct (install_Ok n a (sha256_hex c) c) as (st' & Hi' & Hm & Hp);
      [|exists st'; split; [exact Hi'|]; right; split; [done|]].
    { cbn. by rewrite lookup_insert_ne. }
    cbn [disk] in Hp. rewrite !Hp, lookup_insert_ne, lookup_delete_eq, lookup_insert_eq by done.
    split; [done|]. split; [done|]. split.
    + intros _. destruct (decide (policy_file storePath n = Destination det)) as [->|Hne].
      * by rewrite lookup_insert_eq.
      * by rewrite lookup_insert_ne, lookup_delete_ne, lookup_insert_eq by done.
    + intros p Hpi' Hp1 Hp2 Hp3.
      specialize (Hp3 Hde). by rewrite Hp, lookup_insert_ne, lookup_delete_ne, lookup_insert_ne by done.
Qed.

Lemma remove_if_there_spec p st :
  ∃ st', remove_if_there fault p st = (Ok tt, st') ∧ policyMap st' = policyMap st ∧
    disk st' !! p = None ∧ ∀ q, q ≠ p → disk st' !! q = disk st !! q.
Proof using no_fault.
  unfold remove_if_there, PathExists, remove, on_disk, SR_modify. rewrite no_fault.
  case_bool_decide as Hp; eexists; (split; [done|]); (split; [done|]).
  - cbn. split; [apply lookup_delete_eq|]. intros q Hq. by rewrite lookup_delete_ne.
  - split; [by apply eq_None_not_Some | done].
Qed.

Context (collision_free : ∀ c c', sha256_hex c = sha256_hex c' → c = c').
Context (hex_nonempty : ∀ c, sha256_hex c ≠ "").

(** Only the named policy's entry and paths change. *)
Lemma installed_after n det c st st' :
  installed st → policyMap st !! n = Some det →
  policyMap st' = alter (λ d, mkDetail (Destination d) (sha256_hex c)) n (policyMap st) ∨
    policyMap st' = policyMap st →
  holds n c st' → (∀ d', policyMap st' !! n = Some d' → Sha d' = sha256_hex c) →
  (∀ m p, m ≠ n → is_Some (policyMap st !! m) → owns (policyMap st) m p →
     disk st' !! p = disk st !! p) →
  installed st'.
Proof.
  intros Hinst Hn Hmap Hh Hsha Hframe m d Hm Hd. destruct (decide (m = n)) as [->|Hne].
  { exists c. split; [by rewrite (Hsha d)|done]. }
  assert (policyMap st !! m = Some d) as Hm0.
  { destruct Hmap as [E|E]; rewrite E in Hm; [by rewrite lookup_alter_ne in Hm|done]. }
  destruct (Hinst m d Hm0 Hd) as (c' & Hc' & Hh'). exists c'. split; [done|].
  intros d' Hd'. rewrite Hd' in Hm. simplify_eq. destruct (Hh' d Hm0) as [H1 H2]. split.
  - rewrite (Hframe m) by (done || by left). done.
  - intros He. rewrite (Hframe m); [by apply H2|done|done|]. right. by exists d.
Qed.

(** What a stream that names [n] leaves: the entry is up to date and nothing
    but the temporary file was touched, or the policy is in place and only its
    own paths changed. *)
Definition updated (n : string) (det : PolicyDetail) (c tmp : string) (st st' : State) : Prop :=
  Sha det = sha256_hex c ∧ policyMap st' = policyMap st ∧
    (∀ p, p ≠ tmp → disk st' !! p = disk st !! p) ∨
  policyMap st' = alter (λ d, mkDetail (Destination d) (sha256_hex c)) n (policyMap st) ∧
    (∀ p, owns (policyMap st) n p → disk st' !! p = Some c) ∧
    (∀ p, p ≠ tmp → p ≠ policiesInfoFile storePath → ¬ owns (policyMap st) n p →
       disk st' !! p = disk st !! p).

Lemma StreamPolicy_updated n det reqs st :
  n ≠ "" → reqs ≠ [] → well_formed n reqs → policyMap st !! n = Some det →
  separate (policyMap st) →
  ∃ st', StreamPolicy storePath fault temp_name copied sha256_hex show_error marshal reqs None st
           = (Ok "Success", st') ∧
    updated n det (payload reqs) (t (disk st)) st st' ∧ disk st' !! t (disk st) = None.
Proof using no_fault.
  intros Hn Hne Hwf Hm (Hdis & Hinfo & Htmp & Htinfo).
  set (c := payload reqs). set (tmp := t (disk st)).
  assert (is_Some (policyMap st !! n)) as Hin by (by rewrite Hm).
  unfold StreamPolicy. unfold mbind, SR_bind. rewrite (receive_policy n) by done. fold tmp c.
  set (st1 := mkState (<[tmp := c]> (disk st)) (policyMap st)).
  destruct (UpdatePolicy_Ok n det tmp c st1) as (st2 & Hup & Hcase).
  { done. } { apply lookup_insert_eq. }
  { by apply (Htmp n); [|left]. } { apply Htinfo. } { by apply (Hinfo n); [|left]. }
  { intros Hd. split; [apply (Htmp n)|apply (Hinfo n)]; try done; right; by exists det. }
  unfold or_else. rewrite Hup.
  destruct (remove_if_there_spec tmp st2) as (st3 & Hrm & Hmap3 & Ht3 & Hd3). rewrite Hrm.
  exists st3. split; [done|]. split; [|done].
  destruct Hcase as [[Hs ->]|(Hm2 & _ & Hpf & Hde & Hf)]; [left|right].
  - split; [done|]. split; [done|]. intros p Hp. rewrite Hd3 by done. cbn. by rewrite lookup_insert_ne.
  - split; [by rewrite Hmap3|]. split.
    + intros p Ho. rewrite Hd3 by (intros E; exact (Htmp n p (disk st) Hin Ho (eq_sym E))).
      destruct Ho as [->|(d & Hd & Hd0 & ->)]; [done|]. rewrite Hm in Hd. simplify_eq. by apply Hde.
    + intros p Hp Hpi Ho. rewrite Hd3, Hf; try done; [cbn; by rewrite lookup_insert_ne| |].
      * intros ->. by apply Ho; left.
      * intros Hd ->. apply Ho. right. by exists det.
Qed.

Lemma updated_holds n det c tmp st st' :
  policyMap st !! n = Some det → installed st → updated n det c tmp st st' →
  (∀ p, owns (policyMap st) n p → p ≠ tmp) →
  holds n c st' ∧ policyMap st' !! n = Some (mkDetail (Destination det) (sha256_hex c)).
Proof using collision_free hex_nonempty.
  intros Hm Hinst [(Hs & Hmap & Hd)|(Hmap & Hown & _)] Hot.
  - destruct (Hinst n det Hm) as (c' & Hc' & Hh'); [rewrite Hs; apply hex_nonempty|].
    assert (c' = c) as -> by (apply collision_free; by rewrite Hc', Hs).
    destruct (Hh' det Hm) as [H1 H2]. split; [|rewrite Hmap, Hm, <-Hs; by destruct det].
    intros d Hd'. rewrite Hmap, Hm in Hd'. simplify_eq. split.
    + rewrite Hd; [done|]. by apply Hot; left.
    + intros Hne. rewrite Hd; [by apply H2|]. apply Hot. right. by exists d.
  - split; [|by rewrite Hmap, lookup_alter_eq, Hm].
    intros d Hd'. rewrite Hmap, lookup_alter_eq, Hm in Hd'. simplify_eq/=. split.
    + by apply Hown; left.
    + intros Hne. apply Hown. right. by exists det.
Qed.

Lemma StreamPolicy_Ok n det reqs st :
  n ≠ "" → reqs ≠ [] → well_formed n reqs → policyMap st !! n = Some det →
  separate (policyMap st) → installed st →
  ∃ st', StreamPolicy storePath fault temp_name copied sha256_hex show_error marshal reqs None st
           = (Ok "Success", st') ∧
    holds n (payload reqs) st' ∧ installed st' ∧
    policyMap st' !! n = Some (mkDetail (Destination det) (sha256_hex (payload reqs))) ∧
    (∀ m, m ≠ n → policyMap st' !! m = policyMap st !! m) ∧
    disk st' !! t (disk st) = None.
Proof using no_fault collision_free hex_nonempty.
  intros Hn Hne Hwf Hm Hsep Hinst.
  destruct (StreamPolicy_updated n det reqs st) as (st' & Hst & Hup & Ht); try done.
  destruct Hsep as (Hdis & Hinfo & Htmp & _).
  assert (is_Some (policyMap st !! n)) as Hin by (by rewrite Hm).
  assert (∀ m p, is_Some (policyMap st !! m) → owns (policyMap st) m p → p ≠ t (disk st)) as Hot.
  { intros m p Hsm Ho E. exact (Htmp m p (disk st) Hsm Ho (eq_sym E)). }
  destruct (updated_holds n det _ _ st st' Hm Hinst Hup) as [Hh Hn']; [eauto|].
  exists st'. split; [done|]. split; [done|]. split; [|split; [done|split; [|done]]].
  - apply (installed_after n det (payload reqs) st); try done.
    + destruct Hup as [(_ & ? & _)|(? & _)]; auto.
    + intros d Hd. rewrite Hn' in Hd. by simplify_eq.
    + intros m p Hmn Hsm Ho. destruct Hup as [(_ & _ & Hd)|(_ & _ & Hd)]; [eauto|].
      apply Hd; [eauto|eauto|]. intros Ho'. by apply Hmn, (Hdis m n p).
  - intros m Hmn. destruct Hup as [(_ & -> & _)|(-> & _)]; [done|]. by rewrite lookup_alter_ne.
Qed.

Context (no_host_fault : ∀ op d, host_fault op d = None).
Context (reads_ok : ∀ p w o, read_fault (reads p w) o = false).

Lemma outbound_whole r n c :
  (∀ o, read_fault r o = false) → c ≠ "" →
  outbound r n (Some c) ≠ [] ∧ well_formed n (outbound r n (Some c)) ∧
  payload (outbound r n (Some c)) = c.
Proof.
  intros Hr Hc. unfold outbound.
  destruct (chunks_spec (S (String.length c)) r n true 0 c) as (_ & _ & Hwf & Hall); [lia|].
  specialize (Hall Hr). split; [|done]. intros E. rewrite E in Hall. by apply Hc.
Qed.

Lemma push_Ok vm path n w ec st det c :
  agent_endpoint (agent_service (Vm vm)) (admin w) = Ok ec → peer w ec = Some st →
  host_disk w !! path = Some c → c ≠ "" → with_extension path "tmp" ≠ path →
  n ≠ "" → policyMap st !! n = Some det → separate (policyMap st) → installed st →
  ∃ w' st', push vm path n w = (Ok tt, w') ∧ peer w' ec = Some st' ∧
    holds n c st' ∧ installed st' ∧
    policyMap st' !! n = Some (mkDetail (Destination det) (sha256_hex c)) ∧
    (∀ m, m ≠ n → policyMap st' !! m = policyMap st !! m) ∧
    disk st' !! t (disk st) = None ∧
    host_disk w' = delete (with_extension path "tmp") (host_disk w) ∧ admin w' = admin w ∧
    ∀ ec', ec' ≠ ec → peer w' ec' = peer w ec'.
Proof using no_fault collision_free hex_nonempty no_host_fault reads_ok.
  intros Hec Hpeer Hfile Hc Hext Hn Hm Hsep Hinst.
  unfold push, push_policy_update. unfold mbind, SR_bind at 1. rewrite Hec. cbn [with_context].
  unfold SR_bind at 1, copy_file. rewrite no_host_fault, Hfile, bool_decide_eq_false_2 by done.
  set (tmp := with_extension path "tmp"). set (w1 := set_disk _ w).
  destruct (outbound_whole (reads tmp w1) n c) as (Hne & Hwf & Hpay); [by intros; apply reads_ok|done|].
  destruct (StreamPolicy_Ok n det _ st Hn Hne Hwf Hm Hsep Hinst) as (st' & Hst & Hrest).
  rewrite Hpay in Hrest.
  assert (upload_policy (λ p w, host_disk w !! p) reads connect agent_stream show_status ec n tmp w1
    = (Ok tt, set_peer ec st' w1)) as Hup.
  { unfold upload_policy. rewrite (lookup_insert_eq (host_disk w) tmp c : host_disk w1 !! tmp = Some c).
    unfold stream_policy, mbind, SR_bind, connect, agent_stream. cbn [peer w1 set_disk].
    rewrite Hpeer. cbn iota. by rewrite Hst. }
  unfold SR_bind at 1, SR_try. rewrite Hup. unfold SR_bind, SR_ignore, remove_file. rewrite no_host_fault.
  do 2 eexists. split; [reflexivity|]. cbn. rewrite decide_True by done. split; [done|].
  destruct Hrest as (? & ? & ? & ? & ?). do 5 (split; [done|]). split; [|split; [done|]].
  - by rewrite delete_insert_eq.
  - intros ec' Hne'. by rewrite decide_False.
Qed.
End run.
End delivery.
End Delivery.

(** ** Properties *)

Module PolicyClientProps.
Import Naming Types Entry Wire Server Upload Agent Delivery.

(** C9: A pushed policy is delivered, whatever the sizes of the reads: the push
    succeeds; afterwards the agent's store and, if one is configured, the
    destination hold exactly the bytes of the admin's file, the recorded hash is
    that file's, every other policy of the agent is still in place, and neither
    side keeps a temporary file.  The conditions: no system call fails; the hash
    is free of collisions and not empty; the agent is registered and reachable
    and knows the policy, whose name is not empty; the admin's file is there, is
    not empty and its name does not end in [.tmp] (it is not its own temporary
    copy); the paths of the agent's policies and its temporary file are distinct
    ([separate]); and the agent is consistent ([installed]): for every policy
    with a recorded hash its store and the destination hold a content with that
    hash.  Without the last the destination can stay wrong
    ([failed_deploy_sticks]). *)
Theorem policy_delivered host_fault reads storePath fault temp_name copied sha256_hex
    show_error marshal show_status vm path n w ec st det c :
  (∀ op d, fault op d = None) → (∀ op d, host_fault op d = None) →
  (∀ p w o, read_fault (reads p w) o = false) →
  (∀ c c', sha256_hex c = sha256_hex c' → c = c') → (∀ c, sha256_hex c ≠ "") →
  agent_endpoint (agent_service (Vm vm)) (admin w) = Ok ec → peer w ec = Some st →
  host_disk w !! path = Some c → c ≠ "" → with_extension path "tmp" ≠ path →
  n ≠ "" → policyMap st !! n = Some det →
  separate storePath temp_name (policyMap st) → installed storePath sha256_hex st →
  ∃ w' st',
    push host_fault reads storePath fault temp_name copied sha256_hex show_error marshal show_status
      vm path n w = (Ok tt, w') ∧
    peer w' ec = Some st' ∧
    disk st' !! policy_file storePath n = Some c ∧
    (Destination det ≠ "" → disk st' !! Destination det = Some c) ∧
    policyMap st' !! n = Some (mkDetail (Destination det) (sha256_hex c)) ∧
    (∀ m, m ≠ n → policyMap st' !! m = policyMap st !! m) ∧ installed storePath sha256_hex st' ∧
    disk st' !! temp_name (tempDir storePath) (disk st) = None ∧
    host_disk w' = delete (with_extension path "tmp") (host_disk w).
Proof.
  intros Hf Hhf Hr Hinj Hhex Hec Hpeer Hfile Hc Hext Hn Hm Hsep Hinst.
  destruct (push_Ok host_fault reads storePath fault temp_name copied sha256_hex show_error marshal
    show_status Hf Hinj Hhex Hhf Hr vm path n w ec st det c)
    as (w' & st' & Hp & Hpeer' & Hh & Hi & Hn' & Ho & Ht & Hd & _); try done.
  destruct (Hh _ Hn') as [H1 H2]. exists w', st'. by repeat split.
Qed.

(** ** A concrete admin and agent *)

Definition ex_ec : EndpointConfig := mkEndpointConfig
  (mkEndpoint (Tcp "192.168.101.5" 9000) "app-vm") None.
Definition ex_temp (dir : string) (d : files) : string := dir +:+ "/policy.bin-1".
Definition ex_sha (c : string) : string := "h" +:+ c.
Definition ex_agent (sha stored : string) : State :=
  mkState (if bool_decide (sha = "") then ∅
           else {["/store/fw/policy.bin" := stored; "/etc/fw.bin" := stored]})
    {["fw" := mkDetail "/etc/fw.bin" sha]}.
Definition ex_admin : Admin :=
  set_registry (Registry.register
    (mkEntry "givc-app-vm.service" (mkUnitType AppVM Mgr) RegistryProps.ex_status
       (Endpoint (mkEndpoint (Tcp "192.168.101.5" 9000) "app-vm") "") true) Registry.new)
    (Server.new None true None None).
Definition ex_world (content : string) (st : State) : World :=
  mkWorld ex_admin {["/policies/fw.bin" := content]}
    (λ ec, if decide (ec = ex_ec) then Some st else None).
Definition ex_reads (broken : option nat) (p : string) (w : World) : Reads :=
  mkReads (λ o, bool_decide (broken = Some o)) (λ _, 2).
Abbreviation ex_push broken fault :=
  (push (λ _ _, None) (ex_reads broken) "/store" fault ex_temp
    (λ _ _ _, 1) ex_sha (λ _, "") (λ _, Ok "{}") (λ _, "") "app-vm" "/policies/fw.bin" "fw").

Lemma ex_entry_only sha stored n d :
  policyMap (ex_agent sha stored) !! n = Some d → n = "fw" ∧ d = mkDetail "/etc/fw.bin" sha.
Proof. cbn. rewrite lookup_singleton_Some. by intros [<- <-]. Qed.

Lemma ex_owns sha stored n p :
  owns "/store" (policyMap (ex_agent sha stored)) n p → is_Some (policyMap (ex_agent sha stored) !! n) →
  n = "fw" ∧ (p = "/store/fw/policy.bin" ∨ p = "/etc/fw.bin").
Proof.
  intros Ho [d [-> ->]%ex_entry_only].
  destruct Ho as [->|(d & [_ ->]%ex_entry_only & _ & ->)]; [by split; [|left]|by split; [|right]].
Qed.

Lemma ex_separate sha stored : separate "/store" ex_temp (policyMap (ex_agent sha stored)).
Proof.
  split; [|split; [|split]]; [| | |done].
  - intros n m p [d [-> _]%ex_entry_only] [d' [-> _]%ex_entry_only] _ _. done.
  - intros n p Hn Ho. destruct (ex_owns _ _ _ _ Ho Hn) as [_ [->| ->]]; done.
  - intros n p d Hn Ho. destruct (ex_owns _ _ _ _ Ho Hn) as [_ [->| ->]]; done.
Qed.

Lemma policy_delivered_witness :
  ∃ w', ex_push None (λ _ _, None) (ex_world "allow all" (ex_agent "" "")) = (Ok tt, w').
Proof.
  edestruct (policy_delivered (λ _ _, None) (ex_reads None) "/store"
    (λ _ _, None) ex_temp (λ _ _ _, 1) ex_sha (λ _, "") (λ _, Ok "{}") (λ _, "") "app-vm"
    "/policies/fw.bin" "fw" (ex_world "allow all" (ex_agent "" "")) ex_ec (ex_agent "" "")
    (mkDetail "/etc/fw.bin" "") "allow all") as (w' & st' & Hw & _); [..|by exists w'].
  - done.
  - done.
  - done.
  - by intros c c' [= ?].
  - done.
  - vm_compute. reflexivity.
  - vm_compute. reflexivity.
  - done.
  - done.
  - by vm_compute.
  - done.
  - done.
  - apply ex_separate.
  - by intros n d [-> ->]%ex_entry_only.
Defined.

(** An upload that breaks off is reported as a success: when reading the
    admin's file fails after the first bytes, the stream just ends, the agent
    installs what it received and the push succeeds, so that a truncated
    policy is in force. *)
Theorem truncated_policy_accepted :
  let '(r, w') := ex_push (Some 4) (λ _ _, None) (ex_world "allow all" (ex_agent "" "")) in
  r = Ok tt ∧ (λ st, (disk st !! "/etc/fw.bin", disk st !! "/store/fw/policy.bin")) <$> peer w' ex_ec
    = Some (Some "allo", Some "allo").
Proof. vm_compute. split; reflexivity. Qed.

(** A failed deployment can stick: while version [v2] is copied to the
    destination the copy fails after one byte, and the push reports the error;
    pushing the previous version again then succeeds without repairing the
    destination, because the recorded hash is still that version's. *)
Theorem failed_deploy_sticks :
  let fault op (d : files) :=
    match op with Copy _ _ => Some [Msg "no space left"] | _ => None end in
  let '(r1, w1) := ex_push None fault (ex_world "v2" (ex_agent (ex_sha "v1") "v1")) in
  let w1 := mkWorld (admin w1) {["/policies/fw.bin" := "v1"]} (peer w1) in
  let '(r2, w2) := ex_push None (λ _ _, None) w1 in
  is_ok r1 = false ∧ r2 = Ok tt ∧
  (λ st, (disk st !! "/etc/fw.bin", disk st !! "/store/fw/policy.bin")) <$> peer w2 ex_ec
    = Some (Some "v", Some "v1").
Proof. vm_compute. repeat split; reflexivity. Qed.
End PolicyClientProps.
