(* ===== verification/AdminOta.v ===== *)
(** * Updating the host through the admin service ([client/exec.rs],
      [admin/OTA.rs], [admin/server.rs], [modules/pkgs/exec])

    [Exec]: the client of an agent's exec service.  [ExecAgent]: the agent's
    side of it.  [OTA]: the admin service runs [ota-update] on the host's agent
    to list generations and to install one.  [Generation]: the two methods of
    the service and of the client library.  [Chain] connects them.

    Parameters: the process that runs, the JSON decoder, the lossy conversion
    of bytes to text.  A response stream is what it delivers until it ends. *)

From S2P Require Import Prelude RustStr RustInt CommonTypes AdminRegistry AdminAuth AdminServer Generations AdminClient.
From Stdlib Require Import Ascii.

Module Exec.
Import Wire Streams.

Record StartCommand := mkStart {
  command : string;
  arguments : list string;
  working_directory : option string;
  env_vars : gmap string string;
  stdin : option string;
  role : option string
}.

(** [command_response::Event]; a response may carry none. *)
Inductive Event :=
| Stdout (payload : string)
| Stderr (payload : string)
| Started (pid : Z)
| Finished (return_code : Z).
Abbreviation CommandResponse := (option Event).

Section exec.
(** The world and the state of the callbacks. *)
Context {W S : Type} (show_status : Status → string).
Context (run_command : StartCommand → W → reply (Streaming CommandResponse) * W).
Context (stdout_fn stderr_fn : string → S → S).

(** The loop over the responses: the return code and what is left of the
    stream. *)
Fixpoint events (s : Streaming CommandResponse) (σ : S) :
    reply (Z * Streaming CommandResponse) * S :=
  match s with
  | Next (Some (Stdout payload)) rest => events rest (stdout_fn payload σ)
  | Next (Some (Stderr payload)) rest => events rest (stderr_fn payload σ)
  | Next (Some (Started _)) rest => events rest σ
  | Next (Some (Finished rc)) rest => (Reply (rc, rest), σ)
  | Next None rest => events rest σ
  | Failed st => (Fail st, σ)
  | Closed t => (Reply ((-1)%Z, Closed t), σ)
  end.

Definition start_command (command : string) (arguments : list string)
    (working_directory : option string) (env_vars : option (gmap string string))
    (stdin role : option string) : SR (W * S) Z := λ '(w, σ),
  let start := mkStart command arguments working_directory (default ∅ env_vars) stdin role in
  match run_command start w with
  | (Fail st, w') => (Err [Msg (show_status st)], (w', σ))
  | (Reply response, w') =>
      let '(r, σ') := events response σ in
      ('(return_code, rest) ← question show_status r;
       _ ← with_context "While check trailers in exec.rs" (check_trailers show_status rest);
       Ok return_code, (w', σ'))
  end.
End exec.

Definition get_program_output {W} (show_status : Status → string)
    (run_command : StartCommand → W → reply (Streaming CommandResponse) * W)
    (command : string) (arguments : list string) (working_directory : option string)
    (env_vars : option (gmap string string)) (stdin role : option string) :
    SR W (string * string * Z) := λ w,
  match start_command show_status run_command
          (λ payload '(out, err), (out +:+ payload, err))
          (λ payload '(out, err), (out, err +:+ payload))
          command arguments working_directory env_vars stdin role (w, ("", "")) with
  | (Ok rc, (w', (stdout_buffer, stderr_buffer))) => (Ok (stdout_buffer, stderr_buffer, rc), w')
  | (Err e, (w', _)) => (Err e, w')
  | (Panic s, (w', _)) => (Panic s, w')
  end.
End Exec.

Module ExecAgent.
Import Wire Streams Exec.

(** How the process ended, as [cmd.Wait] tells. *)
Inductive Exit := Exited (code : Z) | Signaled | WaitFailed.

(** [exitCode] of [RunCommand]; [ExitCode] is [-1] for a process ended by a
    signal. *)
Definition exit_code (e : Exit) : Z :=
  match e with Exited c => c | Signaled => -1 | WaitFailed => 0 end.

(** What the two readers sent, in the order in which it went out. *)
Inductive Output := OnStdout (s : string) | OnStderr (s : string).
Definition output_event (o : Output) : CommandResponse :=
  match o with OnStdout s => Some (Stdout s) | OnStderr s => Some (Stderr s) end.

Definition allowedCommands : list string := ["ota-update"; "uptime"].
(** [validateCommand], which no code calls *)
Definition validateCommand (cmd : string) : reply unit :=
  if bool_decide (cmd ∈ allowedCommands) then Reply tt
  else fail PermissionDenied ("access denied: command " +:+ cmd +:+ " is not allowed").

Section agent.
(** Starting a process: an error, or its id, output and end. *)
Context {W : Type} (spawn : StartCommand → W → (string + (Z * list Output * Exit)) * W).

(** [RunCommand] on a first request that is a start command *)
Definition RunCommand (start : StartCommand) (w : W) : Streaming CommandResponse * W :=
  match spawn start w with
  | (inl err, w') => (Failed (mkStatus Unknown err None), w')
  | (inr (pid, out, exit), w') =>
      (sent (Some (Started pid) :: (output_event <$> out) ++ [Some (Finished (exit_code exit))]) None, w')
  end.
End agent.
End ExecAgent.

Module OTA.
Import Types Wire Server Streams Exec.

(** [pb::Generation] *)
Record Generation := mkGeneration {
  generation : Z;
  date : string;
  g_nixos_version : string;
  g_kernel_version : string;
  g_configuration_revision : string;
  g_specialisations : list string;
  g_current : bool;
  g_store_path : string
}.
Record Cachix := mkCachix { pin : string; cachix_host : option string; cache : string; token : option string }.
Record SetGenerationResponse := mkResponse { finished : bool; output : option string; error_text : option string }.

Section ota.
Context {W : Type} (show_status : Status → string).
Context (connect : EndpointConfig → SR W unit).
Context (run_command : EndpointConfig → StartCommand → W → reply (Streaming CommandResponse) * W).
Context (decode_details : string → res (list Profile.GenerationDetails)) (is_utf8 : string → bool)
  (lossy : string → string).
Context (endpoint : EndpointConfig).

Definition generation_of (g : Profile.GenerationDetails) : res Generation :=
  let path := Profile.det_store_path g in
  _ ← ensure (is_utf8 path) "Decode UTF-8";
  Ok (mkGeneration (Profile.generation g) "bogus" (Profile.nixos_version (Profile.det_version g))
        (Profile.kernel_version g)
        (default "unknown" (Profile.configuration_revision (Profile.det_version g))) [] (Profile.current g) path).

Definition ota_list : SR W (list Generation) :=
  _ ← connect endpoint;
  '(stdout, stderr, rc) ← get_program_output show_status (run_command endpoint) "ota-update" ["get"]
                            None None None None;
  SR_lift (
    if (0 <? rc)%Z then bail ("Exec error: " +:+ lossy stderr)
    else
      gens ← decode_details stdout;
      mapM_res generation_of gens).

Definition cachix_args (r : Cachix) : list string :=
  ["cachix"; pin r; "--cache"; cache r] ++
  (match token r with Some t => ["--token"; t] | None => [] end) ++
  (match cachix_host r with Some h => ["--cachix-host"; h] | None => [] end).

(** The body of the response stream: what it emits and how it ends. *)
Definition install_stream (args : list string) (w : W) :
    (list SetGenerationResponse * option Status) * W :=
  let emit_out payload (l : list SetGenerationResponse) :=
    l ++ [mkResponse false (Some (lossy payload)) None] in
  let emit_err payload (l : list SetGenerationResponse) :=
    l ++ [mkResponse false None (Some (lossy payload))] in
  match start_command show_status (run_command endpoint) emit_out emit_err "ota-update" args
          None None None None (w, []) with
  | (Err e, (w', l)) =>
      ((l, Some (mkStatus Unknown (default "" (frame_str <$> head e)) None)), w')
  | (Panic s, (w', l)) => ((l, Some (mkStatus Internal s None)), w')
  | (Ok rc, (w', l)) =>
      ((l ++ [mkResponse true None None],
        if (0 <? rc)%Z
        then Some (wrap_error [Msg ("Execution of ota-update failed, RC code is " +:+ pretty rc)])
        else None), w')
  end.

Definition install_via_cachix (r : Cachix) : SR W (Streaming SetGenerationResponse) :=
  _ ← connect endpoint;
  (λ w, let '((l, failure), w') := install_stream (cachix_args r) w in (Ok (sent l failure), w'))
    : SR W (Streaming SetGenerationResponse).
End ota.
End OTA.

Module Generation.
Import Types Wire Server Streams Client OTA.

(** ** The service's methods *)

Section service.
Context {order : HashOrder} {Ext : Type} (show_status : Status → string).
Context (connect : EndpointConfig → World Ext → res unit * World Ext).
Context (run_command : EndpointConfig → Exec.StartCommand → World Ext →
  reply (Streaming Exec.CommandResponse) * World Ext).
Context (decode_details : string → res (list Profile.GenerationDetails)) (is_utf8 : string → bool)
  (lossy : string → string).

Definition list_generations : M Ext (reply (list Generation)) :=
  respond (
    endpoint ← Server.query host_endpoint;
    ota_list show_status connect run_command decode_details is_utf8 lossy endpoint).

(** [SetGenerationRequest]'s update field *)
Definition set_generation (update : option Cachix) : M Ext (reply (Streaming SetGenerationResponse)) :=
  respond (
    endpoint ← Server.query host_endpoint;
    match update with
    | Some cachix_request => install_via_cachix show_status connect run_command lossy endpoint cachix_request
    | None => lift (bail "unimplemented update method")
    end).

(** ** Everything that can happen to the service *)

Context (rpc : EndpointConfig → Call → World Ext → RpcResult * World Ext).
Context (unary : string → EndpointConfig → Message → World Ext → res string * World Ext).
Context (send_all_policies : string → World Ext → World Ext).
Context (sleep : nat → World Ext → World Ext) (write_file : string → string → World Ext → World Ext).

Inductive Happening :=
| Other (i : Input)
| ListGenerations
| SetGeneration (update : option Cachix).

Definition happen (h : Happening) (w : World Ext) : World Ext :=
  match h with
  | Other i => handle rpc connect unary send_all_policies sleep write_file i w
  | ListGenerations => snd (list_generations w)
  | SetGeneration update => snd (set_generation update w)
  end.

#[local] Set Default Proof Using "Type".

Context (connect_keeps : ∀ ec, keeps (λ w, snd (connect ec w))).
Context (run_keeps : ∀ ec start, keeps (λ w, snd (run_command ec start w))).

(** Running a command changes the world only in [run_command]. *)
Lemma start_command_world {S} (f g : string → S → S) ec c args dir env si ro (w : World Ext) σ :
  ∃ start, fst (snd (Exec.start_command show_status (run_command ec) f g c args dir env si ro (w, σ))) =
    snd (run_command ec start w).
Proof.
  exists (Exec.mkStart c args dir (default ∅ env) si ro). unfold Exec.start_command. destruct (run_command ec _ w) as [[s|st] w']; cbn; [|done].
  by destruct (Exec.events f g s σ).
Qed.

Lemma preserves_list_generations : preserves list_generations.
Proof using connect_keeps run_keeps.
  apply preserves_respond, preserves_bind; [apply preserves_query|]. intros ec.
  apply preserves_bind; [exact (connect_keeps ec)|]. intros _.
  apply preserves_bind; [|intros [[out err] rc]; apply preserves_lift].
  intros w Hw. unfold Exec.get_program_output.
  match goal with |- context [Exec.start_command ?a ?b ?c ?d ?e ?f ?g ?h ?i ?j (?k, ?l)] =>
    destruct (start_command_world c d ec e f g h i j k l) as [start Hst];
    destruct (Exec.start_command a b c d e f g h i j (k, l)) as [[rc|er|x] [w' [so se]]] end;
    cbn in Hst |- *; rewrite Hst; by apply run_keeps.
Qed.

Lemma preserves_set_generation u : preserves (set_generation u).
Proof using connect_keeps run_keeps.
  apply preserves_respond, preserves_bind; [apply preserves_query|]. intros ec.
  destruct u as [r|]; [|apply preserves_lift].
  apply preserves_bind; [exact (connect_keeps ec)|]. intros _ w Hw. unfold install_stream.
  match goal with |- context [Exec.start_command ?a ?b ?c ?d ?e ?f ?g ?h ?i ?j (?k, ?l)] =>
    destruct (start_command_world c d ec e f g h i j k l) as [start Hst];
    destruct (Exec.start_command a b c d e f g h i j (k, l)) as [[rc|er|x] [w' so]] end;
    cbn in Hst |- *; rewrite Hst; by apply run_keeps.
Qed.
End service.

(** ** The client's methods *)

Class GenerationApi (W : Type) := {
  api_list_generations : W → reply (list Generation) * W;
  api_set_generation : option Cachix → W → reply (Streaming SetGenerationResponse) * W
}.

Section client.
Context {W : Type} {api : AdminApi W} {gen : GenerationApi W}.
Context (show_status : Status → string) (self : AdminClient).

Definition client_list_generations : SR W (list Generation) :=
  rewrapped self api_list_generations.

Definition set_generation_cachix (pin : string) (server : option string) (cache : string)
    (token : option string) : SR W unit :=
  stream ← rewrapped self (api_set_generation (Some (mkCachix pin server cache token)));
  drain_stream_with_callback show_status (λ _, mret tt) stream.
End client.

(** ** The client, the service and the host's agent connected *)

Section chain.
Context {order : HashOrder} {Ext : Type} (show_status : Status → string) (aborted : Status).
Context (connect : EndpointConfig → World Ext → res unit * World Ext).
Context (spawn : EndpointConfig → Exec.StartCommand → World Ext →
  (string + (Z * list ExecAgent.Output * ExecAgent.Exit)) * World Ext).
Context (decode_details : string → res (list Profile.GenerationDetails)) (is_utf8 : string → bool)
  (lossy : string → string).

Definition run_on_agent (ec : EndpointConfig) (start : Exec.StartCommand) (w : World Ext) :
    reply (Streaming Exec.CommandResponse) * World Ext :=
  let '(s, w') := ExecAgent.RunCommand (spawn ec) start w in (Reply s, w').

Definition chained : GenerationApi (World Ext) := {|
  api_list_generations := Loopback.served aborted
    (list_generations show_status connect run_on_agent decode_details is_utf8 lossy);
  api_set_generation u := Loopback.served aborted
    (set_generation show_status connect run_on_agent lossy u)
|}.
End chain.
End Generation.

(** ** Properties *)

Module OtaProps.
Import Types Wire Server Streams Exec ExecAgent Client OTA Generation.

(** C7: Every method of the admin service - [watch], [wakeup] and the two of the
    update included -, every spawned task and every tick of the monitor keep the
    registry well formed and every manager a direct endpoint, whatever runs
    while the handler waits, as long as that keeps the same invariant; a fresh
    service satisfies it; and under it the closures that resolve endpoints while
    the registry's mutex is held - those of [set_locale] and [set_timezone] over
    all managers and the one of [get_stats] - never look up a parent, which
    would lock the mutex again. *)
Theorem handlers_keep_invariant `{HashOrder} {Ext} show_status decode_details is_utf8 lossy
    (rpc : EndpointConfig → Call → World Ext → RpcResult * World Ext)
    (connect : EndpointConfig → World Ext → res unit * World Ext)
    (unary : string → EndpointConfig → Message → World Ext → res string * World Ext)
    (run_command : EndpointConfig → StartCommand → World Ext → reply (Streaming CommandResponse) * World Ext)
    (policies : string → World Ext → World Ext)
    (sleep : nat → World Ext → World Ext) (write_file : string → string → World Ext → World Ext) :
  (∀ ec c, keeps (λ w, snd (rpc ec c w))) → (∀ ec, keeps (λ w, snd (connect ec w))) →
  (∀ m ec r, keeps (λ w, snd (unary m ec r w))) → (∀ ec c, keeps (λ w, snd (run_command ec c w))) →
  (∀ n, keeps (policies n)) → (∀ n, keeps (sleep n)) → (∀ p c, keeps (write_file p c)) →
  (∀ h, keeps (happen show_status connect run_command decode_details is_utf8 lossy
                 rpc unary policies sleep write_file h)) ∧
  (∀ tls p tz lc ext, safe (mkWorld (Ext := Ext) (Server.new tls p tz lc) ext)) ∧
  (∀ w : World Ext, safe w →
     (∃ ms, managers (admin w) = Ok ms) ∧ ∀ vm s, stats_endpoint vm (admin w) ≠ Panic s).
Proof.
  intros Hr Hc Hu Hx Hp Hs Hw. split; [|split].
  - intros [i| |u]; [by apply handle_keeps|by apply preserves_list_generations|by apply preserves_set_generation].
  - intros. split; [apply Registry.wf_new | apply map_Forall_empty].
  - intros w Hsafe. split; [by apply managers_Ok|]. intros vm s. by apply stats_endpoint_safe.
Qed.

(** What a process wrote, by stream. *)
Definition stdout_of (out : list Output) : string :=
  foldr (λ o acc, match o with OnStdout s => s +:+ acc | OnStderr _ => acc end) "" out.
Definition stderr_of (out : list Output) : string :=
  foldr (λ o acc, match o with OnStdout _ => acc | OnStderr s => s +:+ acc end) "" out.

Lemma events_sent {S} (f g : string → S → S) out rc σ :
  events f g (sent ((output_event <$> out) ++ [Some (Finished rc)]) None) σ =
  (Reply (rc, sent [] None),
   foldl (λ σ o, match o with OnStdout s => f s σ | OnStderr s => g s σ end) σ out).
Proof.
  revert σ. unfold sent. induction out as [|o out IH]; intros σ; [done|].
  destruct o; cbn; apply IH.
Qed.

Lemma collect_output out a b :
  foldl (λ σ o, match o with
     | OnStdout s => (λ payload '(out, err), (out +:+ payload, err)) s σ
     | OnStderr s => (λ payload '(out, err), (out, err +:+ payload)) s σ end) (a, b) out =
  (a +:+ stdout_of out, b +:+ stderr_of out).
Proof.
  revert a b. induction out as [|[s|s] out IH]; intros a b; cbn.
  - by rewrite !str_app_nil_r.
  - rewrite IH. by rewrite str_app_assoc.
  - rewrite IH. by rewrite str_app_assoc.
Qed.

Section chain.
Context {order : HashOrder} {Ext : Type} (show_status : Status → string) (aborted : Status).
Context (connect : EndpointConfig → World Ext → res unit * World Ext).
Context (spawn : EndpointConfig → StartCommand → World Ext →
  (string + (Z * list Output * Exit)) * World Ext).
Context (decode_details : string → res (list Profile.GenerationDetails)) (is_utf8 : string → bool)
  (lossy : string → string).
#[local] Set Default Proof Using "Type".

Lemma start_command_agent {S} (f g : string → S → S) ec cmd args (w : World Ext) (σ : S) :
  start_command show_status (run_on_agent spawn ec) f g cmd args None None None None (w, σ) =
  match spawn ec (mkStart cmd args None ∅ None None) w with
  | (inl err, w') => (Err [Msg (show_status (mkStatus Unknown err None))], (w', σ))
  | (inr (_, out, exit), w') =>
      (Ok (exit_code exit),
       (w', foldl (λ σ o, match o with OnStdout s => f s σ | OnStderr s => g s σ end) σ out))
  end.
Proof.
  unfold start_command, run_on_agent, RunCommand. cbn [default].
  destruct (spawn ec _ w) as [[err|[[pid out] exit]] w']; [done|].
  change (sent (Some (Started pid) :: ?l) None) with (Next (Some (Started pid)) (sent l None)).
  cbn [events]. by rewrite events_sent.
Qed.

Context (api : AdminApi (World Ext)).

(** The command the agent is given, and how its end reaches the client. *)
Definition update_command (r : Cachix) : StartCommand :=
  mkStart "ota-update" (cachix_args r) None ∅ None None.
Definition update_result (o : string + (Z * list Output * Exit)) : res unit :=
  match o with
  | inl err => bail (show_status (mkStatus Unknown err None))
  | inr (_, _, exit) =>
      if (0 <? exit_code exit)%Z then
        Err [Msg ("Detail: Execution of ota-update failed, RC code is " +:+ pretty (exit_code exit));
             Msg "request contains invalid arguments"]
      else Ok tt
  end.

Lemma drain_quiet {T W} (items : list T) failure (w : W) :
  drain_stream_with_callback show_status (λ _, mret tt) (sent items failure) w =
  (match failure with Some s => Err (rewrap_error s) | None => Ok tt end, w).
Proof.
  pose proof (drain_sent show_status (λ (_ : T) (w : W), w) items failure w) as Hd.
  assert (foldl (λ (w : W) (_ : T), w) w items = w) as Hf by (clear; by induction items).
  cbn beta in Hd. by rewrite Hf in Hd.
Qed.

Lemma install_stream_result r ec w :
  ∃ l failure,
    install_stream show_status (run_on_agent spawn) lossy ec (cachix_args r) w =
      ((l, failure), snd (spawn ec (update_command r) w)) ∧
    match failure with Some s => Err (rewrap_error s) | None => Ok tt end =
      update_result (fst (spawn ec (update_command r) w)).
Proof.
  unfold install_stream. rewrite start_command_agent. fold (update_command r).
  destruct (spawn ec (update_command r) w) as [[err|[[pid out] exit]] w']; cbn [fst snd].
  - do 2 eexists. split; [done|]. done.
  - do 2 eexists. split; [done|]. cbn [update_result].
    destruct (0 <? exit_code exit)%Z; [|done]. by rewrite rewrap_wrap.
Qed.

Lemma set_generation_result self p server c tok ec w w1 :
  api_connect (Client.endpoint self) w = (Ok tt, w) →
  host_endpoint (admin w) = Ok ec → connect ec w = (Ok tt, w1) →
  let r := mkCachix p server c tok in
  set_generation_cachix (api := api)
    (gen := chained show_status aborted connect spawn decode_details is_utf8 lossy)
    show_status self p server c tok w =
  (update_result (fst (spawn ec (update_command r) w1)), snd (spawn ec (update_command r) w1)).
Proof.
  intros Hc Hh Hconn r. unfold set_generation_cachix, rewrapped, mbind, SR_bind, connect_to.
  rewrite Hc. unfold ask. cbn [api_set_generation chained]. fold r.
  unfold Loopback.served, set_generation, respond, mbind, M_bind, SR_bind, Server.query.
  rewrite Hh. unfold install_via_cachix, mbind, SR_bind. rewrite Hconn.
  destruct (install_stream_result r ec w1) as (l & failure & Hi & Hr).
  cbn zeta beta iota in Hi |- *. rewrite Hi. cbn. by rewrite drain_quiet, Hr.
Qed.

Lemma list_generations_result self ec w w1 pid out exit w2 :
  api_connect (Client.endpoint self) w = (Ok tt, w) →
  host_endpoint (admin w) = Ok ec → connect ec w = (Ok tt, w1) →
  spawn ec (mkStart "ota-update" ["get"] None ∅ None None) w1 = (inr (pid, out, exit), w2) →
  (exit_code exit ≤ 0)%Z →
  client_list_generations (api := api)
    (gen := chained show_status aborted connect spawn decode_details is_utf8 lossy) self w =
  (match gens ← decode_details (stdout_of out); mapM_res (generation_of is_utf8) gens with
   | Ok l => Ok l
   | Err e => Err (rewrap_error (wrap_error e))
   | Panic _ => Err (rewrap_error aborted)
   end, w2).
Proof.
  intros Hc Hh Hconn Hs He. unfold client_list_generations, rewrapped, mbind, SR_bind, connect_to.
  rewrite Hc. unfold ask. cbn [api_list_generations chained].
  unfold Loopback.served, list_generations, respond, mbind, M_bind, SR_bind, Server.query.
  rewrite Hh. unfold ota_list, mbind, SR_bind. rewrite Hconn.
  unfold get_program_output. rewrite start_command_agent, Hs, collect_output.
  unfold SR_lift. destruct (Z.ltb_spec 0 (exit_code exit)); [lia|]. cbn [String.append].
  rewrite str_nil_app. unfold mbind. by destruct (res_bind _ _).
Qed.

Lemma list_generations_failed self ec w w1 pid out exit w2 :
  api_connect (Client.endpoint self) w = (Ok tt, w) →
  host_endpoint (admin w) = Ok ec → connect ec w = (Ok tt, w1) →
  spawn ec (mkStart "ota-update" ["get"] None ∅ None None) w1 = (inr (pid, out, exit), w2) →
  (0 < exit_code exit)%Z →
  client_list_generations (api := api)
    (gen := chained show_status aborted connect spawn decode_details is_utf8 lossy) self w =
  (Err (rewrap_error (wrap_error [Msg ("Exec error: " +:+ lossy (stderr_of out))])), w2).
Proof.
  intros Hc Hh Hconn Hs He. unfold client_list_generations, rewrapped, mbind, SR_bind, connect_to.
  rewrite Hc. unfold ask. cbn [api_list_generations chained].
  unfold Loopback.served, list_generations, respond, mbind, M_bind, SR_bind, Server.query.
  rewrite Hh. unfold ota_list, mbind, SR_bind. rewrite Hconn.
  unfold get_program_output. rewrite start_command_agent, Hs, collect_output.
  unfold SR_lift. destruct (Z.ltb_spec 0 (exit_code exit)); [|lia]. cbn [String.append].
  by rewrite str_nil_app.
Qed.
End chain.

(** C36: How an update requested through the admin service ends: when the
    client reaches the service and the service the host's agent, exactly the
    command [ota-update cachix <pin> --cache <cache>], with the token and the
    host when given, is started there; the client's call fails with the agent's
    error when the process does not start and with the exit code when that is
    positive; in every other case it succeeds, which includes a process ended
    by a signal, whose code is [-1]. *)
Theorem update_outcome `{HashOrder} {Ext} show_status aborted
    (connect : EndpointConfig → World Ext → res unit * World Ext) spawn decode_details is_utf8 lossy
    (api : AdminApi (World Ext)) self p server c tok ec w w1 o w2 :
  api_connect (Client.endpoint self) w = (Ok tt, w) →
  host_endpoint (admin w) = Ok ec → connect ec w = (Ok tt, w1) →
  spawn ec (mkStart "ota-update"
    (["cachix"; p; "--cache"; c] ++ match tok with Some t => ["--token"; t] | None => [] end ++
     match server with Some h => ["--cachix-host"; h] | None => [] end) None ∅ None None) w1 = (o, w2) →
  let '(r, w') := set_generation_cachix (api := api)
    (gen := chained show_status aborted connect spawn decode_details is_utf8 lossy)
    show_status self p server c tok w in
  w' = w2 ∧
  match o with
  | inl err => r = bail (show_status (mkStatus Unknown err None))
  | inr (_, _, Exited code) =>
      if (0 <? code)%Z then
        r = Err [Msg ("Detail: Execution of ota-update failed, RC code is " +:+ pretty code);
                 Msg "request contains invalid arguments"]
      else r = Ok tt
  | inr (_, _, Signaled) | inr (_, _, WaitFailed) => r = Ok tt
  end.
Proof.
  intros Hc Hh Hconn Hs.
  rewrite (set_generation_result show_status aborted connect spawn decode_details is_utf8 lossy
    api self p server c tok ec w w1 Hc Hh Hconn).
  assert (spawn ec (update_command (mkCachix p server c tok)) w1 = (o, w2)) as -> by exact Hs.
  cbn [fst snd]. split; [done|]. destruct o as [err|[[pid out] [code| |]]]; [done| |done|done].
  cbn [update_result exit_code]. by destruct (0 <? code)%Z.
Qed.

(** The generations reach the client as [ota-update get] printed them: if
    the process writes the JSON of a list to its standard output, in pieces of
    any size and with anything in between on its standard error, and does not
    exit with a positive code, the client's call returns one entry per
    generation, in order, with its number, path, versions and current mark,
    and the revision ["unknown"] where there is none. *)
Theorem generations_reach_client `{HashOrder} {Ext} show_status aborted
    (connect : EndpointConfig → World Ext → res unit * World Ext) spawn
    decode_details is_utf8 lossy
    (api : AdminApi (World Ext)) self ec w w1 pid out exit w2 gens :
  api_connect (Client.endpoint self) w = (Ok tt, w) →
  host_endpoint (admin w) = Ok ec → connect ec w = (Ok tt, w1) →
  spawn ec (mkStart "ota-update" ["get"] None ∅ None None) w1 = (inr (pid, out, exit), w2) →
  decode_details (stdout_of out) = Ok gens → (exit_code exit ≤ 0)%Z →
  Forall (λ g, is_utf8 (Profile.det_store_path g) = true) gens →
  ∃ l, client_list_generations (api := api)
      (gen := chained show_status aborted connect spawn decode_details is_utf8 lossy) self w = (Ok l, w2) ∧
    Forall2 (λ g r, generation r = Profile.generation g ∧ g_store_path r = Profile.det_store_path g ∧
      g_current r = Profile.current g ∧ g_kernel_version r = Profile.kernel_version g ∧
      g_nixos_version r = Profile.nixos_version (Profile.det_version g) ∧
      g_configuration_revision r =
        default "unknown" (Profile.configuration_revision (Profile.det_version g))) gens l.
Proof.
  intros Hc Hh Hconn Hs Hout He Hu.
  assert (∃ l, mapM_res (generation_of is_utf8) gens = Ok l) as [l Hl].
  { apply mapM_res_total. eapply Forall_impl; [exact Hu|]. intros g Hg. unfold generation_of.
    rewrite Hg. by eexists. }
  exists l. split.
  - rewrite (list_generations_result show_status aborted connect spawn decode_details is_utf8 lossy
      api self ec w w1 pid out exit w2) by done.
    rewrite Hout. cbn [mbind res_bind]. by rewrite Hl.
  - apply mapM_res_Ok in Hl. eapply Forall2_impl; [exact Hl|]. intros g r Hg.
    unfold generation_of in Hg. apply bind_Ok in Hg as ([] & _ & [= <-]). done.
Qed.

(** ** A concrete host *)

Definition ex_host : World unit :=
  mkWorld (set_registry (Registry.register
    (Entry.mkEntry "givc-ghaf-host.service" (mkUnitType Host Mgr) RegistryProps.ex_status
       (Entry.Endpoint (mkEndpoint (Tcp "192.168.100.2" 9000) "ghaf-host") "") true) Registry.new)
    (Server.new None false None None)) tt.
Definition ex_ec : EndpointConfig :=
  mkEndpointConfig (mkEndpoint (Tcp "192.168.100.2" 9000) "ghaf-host") None.
Definition ex_api : AdminApi (World unit) :=
  Loopback.loopback (order := map_to_list_order) ServerProps.ex_rpc ServerProps.ex_connect
    ServerProps.ex_unary ServerProps.ex_sleep ServerProps.ex_write (λ _ _, Ok tt)
    (mkStatus Internal "" None) (λ _, "") (λ _, "") (λ _, mkSysinfo "" None None) (λ s, s).
Definition ex_gens : list Profile.GenerationDetails :=
  [Profile.mkDetails "NixOS" 7 (Profile.mkVersion "24.11" None None) "6.6.1"
     "/nix/store/b4fmrar918b1l8hwfjzxqv7whnq5c33q-nixos" true true true true
     (Profile.mkBootSpec "" "" "" "") None].
Definition ex_decode (s : string) : res (list Profile.GenerationDetails) :=
  if bool_decide (s = "[7]") then Ok ex_gens else bail "bad json".
Definition ex_spawn (exit : Exit) (ec : EndpointConfig) (s : StartCommand) (w : World unit) :
    (string + (Z * list Output * Exit)) * World unit :=
  (inr (1%Z, [OnStdout "["; OnStderr "warning"; OnStdout "7]"], exit), w).

Lemma update_outcome_witness :
  fst (set_generation_cachix (api := ex_api)
    (gen := chained (order := map_to_list_order) (λ _, "") (mkStatus Internal "" None)
       ServerProps.ex_connect (ex_spawn Signaled) (λ _, Ok []) (λ _, true) (λ s, s))
    (λ _, "") ClientProps.ex_self "pin" None "ghaf-dev" (Some "secret") ex_host) = Ok tt.
Proof.
  pose proof (@update_outcome map_to_list_order unit (λ _, "") (mkStatus Internal "" None)
    ServerProps.ex_connect (ex_spawn Signaled) (λ _, Ok []) (λ _, true) (λ s, s) ex_api
    ClientProps.ex_self "pin" None "ghaf-dev" (Some "secret") ex_ec ex_host ex_host
    (inr (1%Z, [OnStdout "["; OnStderr "warning"; OnStdout "7]"], Signaled)) ex_host
    eq_refl ltac:(vm_compute; reflexivity) eq_refl eq_refl) as Hu.
  destruct (set_generation_cachix _ _ _ _ _ _ _) as [r w']. exact (proj2 Hu).
Defined.

Lemma generations_reach_client_witness :
  ∃ l, fst (client_list_generations (api := ex_api)
    (gen := chained (order := map_to_list_order) (λ _, "") (mkStatus Internal "" None)
       ServerProps.ex_connect (ex_spawn (Exited 0)) ex_decode (λ _, true) (λ s, s))
    ClientProps.ex_self ex_host) = Ok l.
Proof.
  destruct (@generations_reach_client map_to_list_order unit (λ _, "") (mkStatus Internal "" None)
    ServerProps.ex_connect (ex_spawn (Exited 0)) ex_decode (λ _, true) (λ s, s) ex_api
    ClientProps.ex_self ex_ec ex_host ex_host 1%Z
    [OnStdout "["; OnStderr "warning"; OnStdout "7]"] (Exited 0) ex_host ex_gens
    eq_refl ltac:(vm_compute; reflexivity) eq_refl eq_refl ltac:(vm_compute; reflexivity)
    ltac:(cbn; lia) ltac:(repeat constructor)) as (l & Hl & _).
  exists l. by rewrite Hl.
Defined.

Lemma handlers_keep_invariant_witness :
  safe (happen (order := map_to_list_order) (λ _, "") ServerProps.ex_connect
    (λ _ _ w, (Reply (sent [Some (Finished 0)] None), w)) (λ _, Ok []) (λ _, true) (λ s, s)
    ServerProps.ex_rpc ServerProps.ex_unary ServerProps.ex_policies ServerProps.ex_sleep ServerProps.ex_write
    (Other (SetTimezone "Europe/Helsinki")) ServerProps.ex_world).
Proof.
  destruct (@handlers_keep_invariant map_to_list_order unit (λ _, "") (λ _, Ok []) (λ _, true) (λ s, s)
    ServerProps.ex_rpc ServerProps.ex_connect ServerProps.ex_unary
    (λ _ _ w, (Reply (sent [Some (Finished 0)] None), w))
    ServerProps.ex_policies ServerProps.ex_sleep ServerProps.ex_write) as (Hh & _);
    [..|exact (Hh (Other (SetTimezone "Europe/Helsinki")) ServerProps.ex_world ServerProps.ex_world_safe)].
  - intros ec c w Hw. destruct c; exact Hw.
  - intros ec w Hw. exact Hw.
  - intros m ec r w Hw. exact Hw.
  - intros ec c w Hw. exact Hw.
  - intros n w Hw. exact Hw.
  - intros n w Hw. exact Hw.
  - intros p c w Hw. exact Hw.
Defined.
End OtaProps.
