(* ===== verification/AgentExec.v ===== *)
(** * The agent's exec service ([modules/pkgs/exec/transport.go])

    [RunCommand] runs in parts that interleave: the handler itself, which waits
    for the process, a reader for each of its outputs, the goroutine that hands
    on the client's input, and the process.  [step] is what each of them does
    next; the pipes between them, the buffers of the readers and the client's
    connection are part of the state.  Operating system calls that can fail and
    the process are nondeterministic.

    A [stream.Send] takes two steps: it begins, and it returns when the transport
    has taken the message - for which the client must have given it credit, by
    reading - or when the client is gone.  grpc-go does not allow two goroutines
    to send at the same time; the two readers here do.  Once their sends have
    overlapped ([raced]) anything may reach the client.

    The theorems relate these interleavings to the sequence of events that
    [AdminOta] takes the agent's answer to be, up to the client library's result,
    and say when the service returns and when the agent dies. *)

From S2P Require Import Prelude RustStr RustInt CommonTypes AdminRegistry AdminAuth AdminServer Generations.
From S2P Require Import AdminClient AdminOta.
From Stdlib Require Import Ascii.

Module AgentExec.
Import Wire Streams Exec ExecAgent.

(** ** Starting the process *)

(** [CommandRequest]; its command may be missing. *)
Inductive CommandRequest :=
| Start (c : StartCommand)
| Stdin (payload : string)
| Signal (signal : Z)
| NoCommand.

(** [exec.Cmd]: without an environment of its own ([nil]) a process inherits the
    agent's. *)
Record Cmd := mkCmd { path : string; args : list string; dir : option string; env : option (list string) }.

Definition flattenEnv (env : gmap string string) : list string :=
  (λ kv, kv.1 +:+ "=" +:+ kv.2) <$> map_to_list env.

Definition to_cmd (req : StartCommand) : Cmd :=
  let flat := flattenEnv (env_vars req) in
  mkCmd (command req) (arguments req) (working_directory req)
    (if bool_decide (flat = []) then None else Some flat).

(** A standard output of the process. *)
Inductive Fd := Out | Errs.
#[global] Instance Fd_eq_dec : EqDecision Fd.
Proof. solve_decision. Defined.

(** One output: all that was written, what is in the pipe, what [bufio.Reader]
    holds, whether its writing end is open, whether its reader runs and whether
    that is sending. *)
Record Chan := mkChan {
  wrote : string;
  unread : string;
  buffered : string;
  writable : bool;
  reading : bool;
  sending : option string    (** the data of the [stream.Send] its reader is in *)
}.

(** Where [RunCommand] is; a panic of a goroutine ends the agent. *)
Inductive Main :=
| WritesStdin (payload : string)
| Waits
| Joins (e : Exit)
| Finishes (e : Exit)      (** in the last [stream.Send] *)
| Returned (err : option string).

Inductive Input := NotStarted | Receives | Stopped.
#[global] Instance Input_eq_dec : EqDecision Input.
Proof. solve_decision. Defined.

Record Sys := mkSys {
  out : Chan;
  errs : Chan;
  exited : option Exit;
  main : Main;
  input : Input;
  piped : bool;                      (** [proc.stdin] is not nil *)
  requests : list CommandRequest;    (** not yet received *)
  stdin_got : string;
  signalled : list Z;
  pipes_closed : bool;               (** by [cmd.Wait] *)
  up : bool;                         (** the client is connected *)
  credit : nat;                      (** messages the transport takes without waiting *)
  raced : bool;                      (** two sends have overlapped *)
  events : list CommandResponse;     (** what was sent *)
  crashed : bool
}.

Definition chan (f : Fd) (s : Sys) : Chan := match f with Out => out s | Errs => errs s end.
Definition set_chan (f : Fd) (c : Chan) (s : Sys) : Sys :=
  match f with
  | Out => mkSys c (errs s) (exited s) (main s) (input s) (piped s) (requests s) (stdin_got s) (signalled s)
             (pipes_closed s) (up s) (credit s) (raced s) (events s) (crashed s)
  | Errs => mkSys (out s) c (exited s) (main s) (input s) (piped s) (requests s) (stdin_got s) (signalled s)
             (pipes_closed s) (up s) (credit s) (raced s) (events s) (crashed s)
  end.
Definition set_exited (e : Exit) (s : Sys) : Sys :=
  mkSys (out s) (errs s) (Some e) (main s) (input s) (piped s) (requests s) (stdin_got s) (signalled s)
    (pipes_closed s) (up s) (credit s) (raced s) (events s) (crashed s).
Definition set_main (m : Main) (s : Sys) : Sys :=
  mkSys (out s) (errs s) (exited s) m (input s) (piped s) (requests s) (stdin_got s) (signalled s)
    (pipes_closed s) (up s) (credit s) (raced s) (events s) (crashed s).
Definition set_input (i : Input) (s : Sys) : Sys :=
  mkSys (out s) (errs s) (exited s) (main s) i (piped s) (requests s) (stdin_got s) (signalled s)
    (pipes_closed s) (up s) (credit s) (raced s) (events s) (crashed s).
Definition set_requests (l : list CommandRequest) (s : Sys) : Sys :=
  mkSys (out s) (errs s) (exited s) (main s) (input s) (piped s) l (stdin_got s) (signalled s)
    (pipes_closed s) (up s) (credit s) (raced s) (events s) (crashed s).
Definition give_stdin (p : string) (s : Sys) : Sys :=
  mkSys (out s) (errs s) (exited s) (main s) (input s) (piped s) (requests s) (stdin_got s +:+ p) (signalled s)
    (pipes_closed s) (up s) (credit s) (raced s) (events s) (crashed s).
Definition give_signal (n : Z) (s : Sys) : Sys :=
  mkSys (out s) (errs s) (exited s) (main s) (input s) (piped s) (requests s) (stdin_got s) (signalled s ++ [n])
    (pipes_closed s) (up s) (credit s) (raced s) (events s) (crashed s).
Definition close_pipes (s : Sys) : Sys :=
  mkSys (out s) (errs s) (exited s) (main s) (input s) (piped s) (requests s) (stdin_got s) (signalled s)
    true (up s) (credit s) (raced s) (events s) (crashed s).
Definition disconnect (s : Sys) : Sys :=
  mkSys (out s) (errs s) (exited s) (main s) (input s) (piped s) (requests s) (stdin_got s) (signalled s)
    (pipes_closed s) false (credit s) (raced s) (events s) (crashed s).
Definition crash (s : Sys) : Sys :=
  mkSys (out s) (errs s) (exited s) (main s) (input s) (piped s) (requests s) (stdin_got s) (signalled s)
    (pipes_closed s) (up s) (credit s) (raced s) (events s) true.
Definition set_credit (n : nat) (s : Sys) : Sys :=
  mkSys (out s) (errs s) (exited s) (main s) (input s) (piped s) (requests s) (stdin_got s) (signalled s)
    (pipes_closed s) (up s) n (raced s) (events s) (crashed s).
Definition set_raced (b : bool) (s : Sys) : Sys :=
  mkSys (out s) (errs s) (exited s) (main s) (input s) (piped s) (requests s) (stdin_got s) (signalled s)
    (pipes_closed s) (up s) (credit s) b (events s) (crashed s).
Definition set_events (l : list CommandResponse) (s : Sys) : Sys :=
  mkSys (out s) (errs s) (exited s) (main s) (input s) (piped s) (requests s) (stdin_got s) (signalled s)
    (pipes_closed s) (up s) (credit s) (raced s) l (crashed s).

(** The return of a [stream.Send]: the transport has taken the message, or the
    client is gone and the caller logs the error; after sends have overlapped
    nothing is known of what was sent. *)
Inductive sent_step (e : Event) : Sys → Sys → Prop :=
| sent_taken s n :
    up s = true → credit s = S n → raced s = false →
    sent_step e s (set_credit n (set_events (events s ++ [Some e]) s))
| sent_failed s : up s = false → raced s = false → sent_step e s s
| sent_unknown s n l :
    (up s = false ∨ credit s = S n) → raced s = true →
    sent_step e s (set_credit (if up s then n else credit s) (set_events l s)).

Definition new_chan : Chan := mkChan "" "" "" true true None.

(** [startCommand] up to the initial input: [stdin_pipe] and the others are the
    errors of these calls, [start] that of [cmd.Start] or the process's id, and
    [send_err] that of sending the first event.  The goroutines for the outputs
    run from then on. *)
Definition startCommand (stdin_pipe dev_null stdout_pipe stderr_pipe : option string)
    (start : Cmd → string + Z) (send_err : option string) (req : StartCommand)
    (rest : list CommandRequest) : string + Sys :=
  match (match stdin req with Some _ => stdin_pipe | None => dev_null end), stdout_pipe, stderr_pipe with
  | Some err, _, _ | None, Some err, _ | None, None, Some err => inl err
  | None, None, None =>
      match start (to_cmd req), send_err with
      | inl err, _ | inr _, Some err => inl err
      | inr pid, None =>
          let s m i := mkSys new_chan new_chan None m i (bool_decide (is_Some (stdin req))) rest "" []
                         false true 0 false [Some (Started pid)] false in
          inr match stdin req with
              | Some payload => s (WritesStdin payload) NotStarted
              | None => s Waits Receives
              end
      end
  end.

(** [RunCommand] on the first request; [inl] for an error of receiving it. *)
Definition RunCommand (first : string + CommandRequest) (started : StartCommand → string + Sys) : string + Sys :=
  match first with
  | inl err => inl ("failed to receive start command: " +:+ err)
  | inr (Start req) => started req
  | inr _ => inl "expected StartCommand, got something else"
  end.

(** ** The parts *)

Definition BUFFER : nat := 1024.
Definition BUFIO : nat := 4096.

Definition output (f : Fd) (data : string) : Event :=
  match f with Out => Stdout data | Errs => Stderr data end.

Definition other (f : Fd) : Fd := match f with Out => Errs | Errs => Out end.

(** A [bufReader.Read] that returns data - what is buffered, or else one read of
    the pipe, and of that no more than the caller's buffer takes - and the
    beginning of its [stream.Send]. *)
Definition hand_out (f : Fd) (avail rest : string) (s : Sys) : Sys :=
  let c := chan f s in
  set_raced (raced s || bool_decide (is_Some (sending (chan (other f) s))))
    (set_chan f (mkChan (wrote c) rest (drop_bytes BUFFER avail) (writable c) (reading c)
                   (Some (take_bytes BUFFER avail))) s).

Definition stop_reader (f : Fd) (s : Sys) : Sys :=
  let c := chan f s in
  set_chan f (mkChan (wrote c) (unread c) (buffered c) (writable c) false (sending c)) s.
Definition sent_piece (f : Fd) (s : Sys) : Sys :=
  let c := chan f s in
  set_chan f (mkChan (wrote c) (unread c) (buffered c) (writable c) (reading c) None) s.

(** The process, and all that have inherited its outputs: those can write after
    it has exited. *)
Inductive process_step : Sys → Sys → Prop :=
| p_write f data s :
    writable (chan f s) = true → pipes_closed s = false → data ≠ "" →
    process_step s (set_chan f (let c := chan f s in
      mkChan (wrote c +:+ data) (unread c +:+ data) (buffered c) true (reading c) (sending c)) s)
| p_close f s :
    writable (chan f s) = true →
    process_step s (set_chan f (let c := chan f s in
      mkChan (wrote c) (unread c) (buffered c) false (reading c) (sending c)) s)
| p_exit e s : exited s = None → process_step s (set_exited e s).

(** [streamOutput]; between its sends. *)
Definition between (f : Fd) (s : Sys) : Prop := reading (chan f s) = true ∧ sending (chan f s) = None.
Inductive reader_step (f : Fd) : Sys → Sys → Prop :=
| r_buffered s :
    between f s → buffered (chan f s) ≠ "" →
    reader_step f s (hand_out f (buffered (chan f s)) (unread (chan f s)) s)
| r_read s data rest :
    between f s → buffered (chan f s) = "" → pipes_closed s = false →
    unread (chan f s) = data +:+ rest → data ≠ "" → String.length data ≤ BUFIO →
    reader_step f s (hand_out f data rest s)
| r_sent s s' data :
    sending (chan f s) = Some data → sent_step (output f data) s s' → reader_step f s (sent_piece f s')
| r_eof s :
    between f s → buffered (chan f s) = "" → pipes_closed s = false →
    unread (chan f s) = "" → writable (chan f s) = false →
    reader_step f s (stop_reader f s)
| r_closed s :
    between f s → buffered (chan f s) = "" → pipes_closed s = true →
    reader_step f s (stop_reader f s).

(** [handleInput].  A write that fails is taken to have delivered nothing; a
    process that closes its input while it is written to may have read a part. *)
Inductive input_step : Sys → Sys → Prop :=
| i_done s :
    input s = Receives → (up s = false ∨ ∃ r, main s = Returned r) → input_step s (set_input Stopped s)
| i_eof s : input s = Receives → requests s = [] → input_step s (set_input Stopped s)
| i_start s c l :
    input s = Receives → requests s = Start c :: l → input_step s (set_input Stopped (set_requests l s))
| i_stdin s p l :
    input s = Receives → requests s = Stdin p :: l → piped s = true → exited s = None →
    input_step s (give_stdin p (set_requests l s))
| i_stdin_fails s p l :
    input s = Receives → requests s = Stdin p :: l → piped s = true →
    input_step s (set_input Stopped (set_requests l s))
| i_stdin_nil s p l :
    input s = Receives → requests s = Stdin p :: l → piped s = false → input_step s (crash s)
| i_signal s n l :
    input s = Receives → requests s = Signal n :: l → main s = Waits →
    input_step s (give_signal n (set_requests l s))
| i_signal_fails s n l :
    input s = Receives → requests s = Signal n :: l → input_step s (set_input Stopped (set_requests l s))
| i_unknown s l :
    input s = Receives → requests s = NoCommand :: l → input_step s (set_requests l s).

(** The rest of [startCommand] and of [RunCommand] *)
Inductive main_step : Sys → Sys → Prop :=
| m_stdin s p :
    main s = WritesStdin p → exited s = None →
    main_step s (set_input Receives (set_main Waits (give_stdin p s)))
| m_stdin_fails s p err :
    main s = WritesStdin p →
    main_step s (disconnect (set_main (Returned (Some ("failed to write initial stdin: " +:+ err))) s))
| m_wait s e :
    main s = Waits → exited s = Some e → main_step s (set_main (Joins e) (close_pipes s))
| m_join s e :
    main s = Joins e → reading (out s) = false → reading (errs s) = false →
    main_step s (set_main (Finishes e) s)
| m_sent s s' e :
    main s = Finishes e → sent_step (Finished (exit_code e)) s s' → main_step s (set_main (Returned None) s').

(** What the agent and the process do, and what the client does: read, which
    gives the transport credit, and go. *)
Inductive act (s s' : Sys) : Prop :=
| s_process : crashed s = false → process_step s s' → act s s'
| s_reader f : crashed s = false → reader_step f s s' → act s s'
| s_input : crashed s = false → input_step s s' → act s s'
| s_main : crashed s = false → main_step s s' → act s s'.
Definition client_reads (s s' : Sys) : Prop := up s = true ∧ s' = set_credit (S (credit s)) s.
Definition client_goes (s s' : Sys) : Prop := up s = true ∧ s' = disconnect s.
Definition step (s s' : Sys) : Prop := act s s' ∨ client_reads s s' ∨ client_goes s s'.

(** Somebody waits in [stream.Send] for a connected client that does not read. *)
Definition stuck_sending (s : Sys) : Prop :=
  up s = true ∧ credit s = 0 ∧ ((∃ f, is_Some (sending (chan f s))) ∨ ∃ e, main s = Finishes e).

(** ** What the client is told *)

Definition gather (f : Fd) : list Output → string :=
  match f with Out => OtaProps.stdout_of | Errs => OtaProps.stderr_of end.
Definition on_fd (f : Fd) (data : string) : Output :=
  match f with Out => OnStdout data | Errs => OnStderr data end.

(** The pieces in which output is sent are not empty and fit the buffer. *)
Definition piece (o : Output) : Prop :=
  let data := match o with OnStdout d | OnStderr d => d end in data ≠ "" ∧ String.length data ≤ BUFFER.

(** What was written of an output and what became of it: sent, dropped since the
    client was gone, or still on its way. *)
Definition accounted (s : Sys) (outs : list Output) (f : Fd) : Prop :=
  ∃ lost, wrote (chan f s) = gather f outs +:+ lost +:+ default "" (sending (chan f s)) +:+
      buffered (chan f s) +:+ unread (chan f s) ∧
    (up s = true → lost = "").

(** Where the handler is, and the readers that have ended. *)
Definition stage (s : Sys) : Prop :=
  match main s with
  | Joins e => exited s = Some e ∧ pipes_closed s = true
  | Finishes e =>
      exited s = Some e ∧ pipes_closed s = true ∧ reading (out s) = false ∧ reading (errs s) = false
  | Returned None =>
      is_Some (exited s) ∧ pipes_closed s = true ∧ reading (out s) = false ∧ reading (errs s) = false
  | Returned (Some _) => up s = false
  | _ => True
  end.
Record sane (s : Sys) : Prop := {
  sn_stage : stage s;
  sn_ended f : reading (chan f s) = false → buffered (chan f s) = "" ∧ sending (chan f s) = None
}.

(** The last event. *)
Definition ending (s : Sys) (fin : list CommandResponse) : Prop :=
  match main s with
  | Returned None =>
      ∃ e, exited s = Some e ∧ ((fin = [] ∧ up s = false) ∨ fin = [Some (Finished (exit_code e))])
  | _ => fin = []
  end.

Record faithful (pid : Z) (s : Sys) (outs : list Output) (fin : list CommandResponse) : Prop := {
  f_events : events s = Some (Started pid) :: (output_event <$> outs) ++ fin;
  f_pieces : Forall piece outs;
  f_accounted f : accounted s outs f;
  f_ending : ending s fin;
  f_sending f d : sending (chan f s) = Some d → piece (on_fd f d)
}.

Lemma gather_snoc f g outs data :
  gather f (outs ++ [on_fd g data]) = gather f outs +:+ (if bool_decide (f = g) then data else "").
Proof.
  destruct f, g; cbn; unfold OtaProps.stdout_of, OtaProps.stderr_of;
    (induction outs as [|[d|d] outs IH]; cbn; [by rewrite ?str_app_nil_r|..]);
    rewrite ?IH, ?str_app_assoc; done.
Qed.

Lemma chan_set f g c s : chan f (set_chan g c s) = if bool_decide (f = g) then c else chan f s.
Proof. by destruct f, g. Qed.

(** What the return of a [stream.Send] changes. *)
Lemma sent_frame e s s' :
  sent_step e s s' →
  out s' = out s ∧ errs s' = errs s ∧ exited s' = exited s ∧ main s' = main s ∧ input s' = input s ∧
  piped s' = piped s ∧ requests s' = requests s ∧ stdin_got s' = stdin_got s ∧ signalled s' = signalled s ∧
  pipes_closed s' = pipes_closed s ∧ up s' = up s ∧ raced s' = raced s ∧ crashed s' = crashed s.
Proof. by intros []. Qed.
Lemma sent_events e s s' :
  sent_step e s s' → raced s = false → events s' = if up s then events s ++ [Some e] else events s.
Proof. intros [s0 n Hu|s0 Hu|s0 n l _ Hr] Hn; [by rewrite Hu..|congruence]. Qed.

(** *** The handler's place *)

Lemma sane_ext s s' :
  main s' = main s → exited s' = exited s → pipes_closed s' = pipes_closed s → (up s' = true → up s = true) →
  (∀ f, reading (chan f s') = reading (chan f s) ∧ buffered (chan f s') = buffered (chan f s) ∧
     sending (chan f s') = sending (chan f s)) →
  sane s → sane s'.
Proof.
  intros E1 E2 E3 Hu Hc [Hst Hq]. split.
  - unfold stage in *. rewrite E1, E2, E3.
    destruct (Hc Out) as [Eo _], (Hc Errs) as [Ee _]. cbn in Eo, Ee. rewrite Eo, Ee.
    destruct (main s) as [| | | |[]]; try done. destruct (up s'); [|done]. by rewrite Hu in Hst.
  - intros f. destruct (Hc f) as (-> & -> & ->). apply Hq.
Qed.

(** A reader that runs: the handler waits. *)
Lemma reading_stage f s s' :
  reading (chan f s) = true → main s' = main s → exited s' = exited s → pipes_closed s' = pipes_closed s →
  (up s' = true → up s = true) → stage s → stage s'.
Proof.
  intros Hr E1 E2 E3 Hu. unfold stage. rewrite E1, E2, E3.
  destruct (main s) as [| | | |[]]; try done.
  - destruct f; cbn in Hr; intros (_ & _ & ? & ?); congruence.
  - intros E. destruct (up s'); [|done]. by rewrite Hu in E.
  - destruct f; cbn in Hr; intros (_ & _ & ? & ?); congruence.
Qed.

Lemma reader_sane f s s' : reader_step f s s' → sane s → sane s'.
Proof.
  intros Hst Hsn. pose proof Hsn as [Hg Hq].
  destruct Hst as [s [Hr Hn] Hb|s data rest [Hr Hn]|s s' data Hd He|s [Hr Hn] Hb|s [Hr Hn] Hb].
  - split; [eapply (reading_stage f s); try done; by destruct f|]. intros g. destruct f, g; cbn in *; try congruence;
      by first [apply (Hq Out)|apply (Hq Errs)].
  - split; [eapply (reading_stage f s); try done; by destruct f|]. intros g. destruct f, g; cbn in *; try congruence;
      by first [apply (Hq Out)|apply (Hq Errs)].
  - destruct (sent_frame _ _ _ He) as (Eo & Ee & Ex & Em & _ & _ & _ & _ & _ & Ep & Eu & _ & _).
    assert (reading (chan f s) = true) as Hr.
    { destruct (reading (chan f s)) eqn:E; [done|]. destruct (Hq f E). congruence. }
    split.
    + eapply (reading_stage f s); try done; destruct f; cbn; congruence.
    + intros g Hg'. specialize (Hq g). destruct f, g; cbn in *; rewrite ?Eo, ?Ee in *;
        (destruct Hq as [? ?]; [done|]; by split).
  - split; [eapply (reading_stage f s); try done; by destruct f|]. intros g Hg'. specialize (Hq g).
    destruct f, g; cbn in *; auto.
  - split; [eapply (reading_stage f s); try done; by destruct f|]. intros g Hg'. specialize (Hq g).
    destruct f, g; cbn in *; auto.
Qed.

Lemma step_sane s s' : step s s' → sane s → sane s'.
Proof.
  intros [[_ Hst|f _ Hst|_ Hst|_ Hst]|[[Hu ->]|[Hu ->]]] Hsn.
  - destruct Hst as [f data s _ _ _|f s _|e s Hx].
    + eapply sane_ext; [..|exact Hsn]; try (by destruct f). intros g. by destruct f, g.
    + eapply sane_ext; [..|exact Hsn]; try (by destruct f). intros g. by destruct f, g.
    + destruct Hsn as [Hg Hq]. split; [|by intros []; [apply (Hq Out)|apply (Hq Errs)]].
      unfold stage in *. cbn. rewrite Hx in Hg. destruct (main s) as [| | | |[]]; try done.
      * by destruct Hg.
      * by destruct Hg.
      * by destruct Hg as [[? ?] _].
  - by eapply reader_sane.
  - destruct Hst; eapply sane_ext; try exact Hsn; try done; by intros [].
  - destruct Hsn as [Hg Hq]. unfold stage in Hg.
    destruct Hst as [s p Hm Hx|s p err Hm|s e Hm Hx|s e Hm Ho Hr|s s' e Hm He]; rewrite Hm in Hg.
    + split; [done|]. by intros []; [apply (Hq Out)|apply (Hq Errs)].
    + split; [done|]. by intros []; [apply (Hq Out)|apply (Hq Errs)].
    + split; [done|]. by intros []; [apply (Hq Out)|apply (Hq Errs)].
    + split; [by unfold stage; cbn; destruct Hg|]. by intros []; [apply (Hq Out)|apply (Hq Errs)].
    + destruct (sent_frame _ _ _ He) as (Eo & Ee & Ex & Em & _ & _ & _ & _ & _ & Ep & Eu & _ & _). split.
      * unfold stage. cbn. rewrite Eo, Ee, Ex, Ep. destruct Hg as (-> & ? & ? & ?). by split_and!; eauto.
      * intros f. specialize (Hq f). destruct f; cbn in *; rewrite ?Eo, ?Ee; apply Hq.
  - eapply sane_ext; [..|exact Hsn]; try done; by intros [].
  - eapply sane_ext; [..|exact Hsn]; try done; by intros [].
Qed.

(** *** What was sent *)

Lemma raced_stays s s' : step s s' → raced s = true → raced s' = true.
Proof.
  intros [[_ Hst|f _ Hst|_ Hst|_ Hst]|[[Hu ->]|[Hu ->]]] Hr; [..|done|done].
  - by destruct Hst as [[]|[]|].
  - destruct Hst as [s ?|s ?|s s' d _ He|s ?|s ?]; try (destruct f; cbn; by rewrite ?Hr).
    destruct (sent_frame _ _ _ He) as (_ & _ & _ & _ & _ & _ & _ & _ & _ & _ & _ & E & _). by destruct f; cbn; rewrite E.
  - by destruct Hst.
  - destruct Hst as [| | | |s s' e _ He]; try done.
    destruct (sent_frame _ _ _ He) as (_ & _ & _ & _ & _ & _ & _ & _ & _ & _ & _ & E & _). cbn. by rewrite E.
Qed.

(** Changes that touch neither the outputs nor the handler. *)
Lemma faithful_ext pid s s' outs fin :
  events s' = events s → out s' = out s → errs s' = errs s → exited s' = exited s → main s' = main s →
  (up s' = true → up s = true) →
  faithful pid s outs fin → faithful pid s' outs fin.
Proof.
  intros E1 E2 E3 E4 E5 Hup [He Hp Ha Hend Hs].
  assert (∀ f, chan f s' = chan f s) as Ec by (by intros []). split.
  - by rewrite E1.
  - done.
  - intros f. destruct (Ha f) as (lost & E & Hl). exists lost. rewrite Ec. auto.
  - unfold ending in *. rewrite E4, E5.
    assert (up s = false → up s' = false) as Hd by (destruct (up s'); [by rewrite Hup|done]).
    destruct (main s) as [| | | |[]]; [done..|].
    destruct Hend as (e & ? & [[? ?]|?]); exists e; auto.
  - intros f. rewrite Ec. apply Hs.
Qed.

Lemma process_faithful pid s s' outs fin :
  sane s → process_step s s' → faithful pid s outs fin → faithful pid s' outs fin.
Proof.
  intros Hsn Hst [He Hp Ha Hend Hs]. destruct Hst as [f data s Hw Hc Hd|f s Hw|e s Hx].
  - split; [by destruct f|done| |by destruct f|].
    + intros g. destruct (Ha g) as (lost & E & Hl). unfold accounted. rewrite chan_set.
      case_bool_decide as Hfg; [subst g|by exists lost; destruct f]. exists lost. cbn. rewrite E.
      split; [by rewrite !str_app_assoc | by destruct f].
    + intros g. rewrite chan_set. case_bool_decide as Hfg; [subst g|]; cbn; apply Hs.
  - split; [by destruct f|done| |by destruct f|].
    + intros g. destruct (Ha g) as (lost & E & Hl). unfold accounted. rewrite chan_set.
      case_bool_decide as Hfg; [subst g|]; by exists lost; destruct f.
    + intros g. rewrite chan_set. case_bool_decide as Hfg; [subst g|]; cbn; apply Hs.
  - split; [done|done| | |by intros []; [apply (Hs Out)|apply (Hs Errs)]].
    + intros []; [apply (Ha Out)|apply (Ha Errs)].
    + unfold ending in *. cbn. destruct (main s) as [| | | |[]]; [done..|].
      destruct Hend as (e' & E & _). congruence.
Qed.

(** While a reader runs the handler has not sent the last event. *)
Lemma reading_open s fin f : sane s → ending s fin → reading (chan f s) = true → fin = [].
Proof.
  intros [Hg _]. unfold stage, ending in *. intros Hend Hr. destruct (main s) as [| | | |[]]; [done..|].
  destruct Hg as (_ & _ & ? & ?). destruct f; cbn in Hr; congruence.
Qed.

Lemma take_piece f data : data ≠ "" → piece (on_fd f (take_bytes BUFFER data)).
Proof.
  intros Hd. assert (take_bytes BUFFER data ≠ "" ∧ String.length (take_bytes BUFFER data) ≤ BUFFER) as Hp;
    [|by destruct f].
  split; [by destruct data|]. destruct (Nat.le_gt_cases BUFFER (String.length data)).
  - by rewrite take_bytes_length.
  - assert (String.length (take_bytes BUFFER data) ≤ String.length data); [|lia].
    rewrite <-(take_drop_bytes BUFFER data) at 2. rewrite str_length_app. lia.
Qed.

Lemma hand_out_faithful pid s outs fin f data rest :
  faithful pid s outs fin → between f s → data ≠ "" →
  buffered (chan f s) +:+ unread (chan f s) = data +:+ rest →
  faithful pid (hand_out f data rest s) outs fin.
Proof.
  intros [He Hp Ha Hend Hs] [Hr Hn] Hd Ed.
  assert (∀ g, chan g (hand_out f data rest s) = if bool_decide (g = f) then
    mkChan (wrote (chan f s)) rest (drop_bytes BUFFER data) (writable (chan f s)) (reading (chan f s))
      (Some (take_bytes BUFFER data)) else chan g s) as Hch by (intros g; by destruct f, g).
  split.
  - by destruct f.
  - done.
  - intros g. destruct (Ha g) as (lost & E & Hl). exists lost. split; [|by destruct f]. rewrite Hch.
    case_bool_decide as Hfg; [subst g; cbn|done].
    rewrite E, Hn. cbn. rewrite Ed. do 2 f_equal.
    rewrite <-(take_drop_bytes BUFFER data) at 1. by rewrite !str_app_assoc.
  - unfold ending in *. by destruct f; cbn; destruct (main s) as [| | | |[]].
  - intros g d. rewrite Hch. case_bool_decide as Hfg; [subst g; cbn|apply Hs]. intros [= <-]. by apply take_piece.
Qed.

Lemma sent_faithful pid s s' outs fin f data :
  sane s → faithful pid s outs fin → raced s = false → sending (chan f s) = Some data →
  sent_step (output f data) s s' → ∃ outs', faithful pid (sent_piece f s') outs' fin.
Proof.
  intros Hsn [He Hp Ha Hend Hs] Hrc Hd Hst.
  destruct (sent_frame _ _ _ Hst) as (Eo & Ee & Ex & Em & _ & _ & _ & _ & _ & Ep & Eu & _ & _).
  pose proof (sent_events _ _ _ Hst Hrc) as Ev.
  assert (reading (chan f s) = true) as Hr.
  { destruct (reading (chan f s)) eqn:E; [done|]. destruct (sn_ended _ Hsn f E). congruence. }
  pose proof (reading_open s fin f Hsn Hend Hr) as ->.
  assert (∀ g, chan g s' = chan g s) as Ec by (by intros []).
  assert (∀ g, chan g (sent_piece f s') = if bool_decide (g = f) then
      mkChan (wrote (chan f s)) (unread (chan f s)) (buffered (chan f s)) (writable (chan f s))
        (reading (chan f s)) None else chan g s) as Hch.
  { intros g. unfold sent_piece. rewrite chan_set, !Ec. by case_bool_decide. }
  assert (up (sent_piece f s') = up s) as Eu' by (by destruct f).
  exists (if up s then outs ++ [on_fd f data] else outs). split.
  - replace (events (sent_piece f s')) with (events s') by (by destruct f).
    rewrite Ev, He, !app_nil_r. destruct (up s); [|done]. rewrite fmap_app. by destruct f.
  - destruct (up s); [|done]. apply Forall_app. split; [done|]. apply Forall_singleton. by apply Hs.
  - intros g. destruct (Ha g) as (lost & E & Hl). unfold accounted. rewrite Hch, Eu'. destruct (up s).
    + exists "". split; [|done]. rewrite gather_snoc. specialize (Hl eq_refl). subst lost.
      case_bool_decide as Hfg; [subst g; cbn|by rewrite str_app_nil_r].
      rewrite E, Hd. by rewrite !str_app_assoc.
    + case_bool_decide as Hfg; [subst g|by exists lost]. exists (lost +:+ data). split; [|done]. cbn.
      rewrite E, Hd. by rewrite !str_app_assoc.
  - unfold ending in *. replace (main (sent_piece f s')) with (main s') by (by destruct f). rewrite Em.
    replace (exited (sent_piece f s')) with (exited s') by (by destruct f). by rewrite Ex, Eu'.
  - intros g d. rewrite Hch. case_bool_decide; [done|]. apply Hs.
Qed.

Lemma stop_faithful pid s outs fin f :
  sane s → faithful pid s outs fin → reading (chan f s) = true → faithful pid (stop_reader f s) outs fin.
Proof.
  intros Hsn [He Hp Ha Hend Hs] Hr. pose proof (reading_open s fin f Hsn Hend Hr) as ->. split.
  - by destruct f.
  - done.
  - intros g. destruct (Ha g) as (lost & E & Hl). exists lost. by destruct f, g.
  - unfold ending in *. by destruct f.
  - intros g d Hg. apply Hs. by destruct f, g.
Qed.

Lemma reader_faithful pid f s s' outs fin :
  sane s → reader_step f s s' → raced s = false → faithful pid s outs fin → ∃ outs', faithful pid s' outs' fin.
Proof.
  intros Hsn Hst Hrc Hf. destruct Hst as [s Hb|s data rest Hb Hn|s s' data Hd He|s [] _|s [] _].
  - eexists. by eapply hand_out_faithful.
  - eexists. eapply hand_out_faithful; [done..|]. by rewrite Hn.
  - by eapply sent_faithful.
  - eexists. by apply stop_faithful.
  - eexists. by apply stop_faithful.
Qed.

Lemma input_faithful pid s s' outs fin :
  input_step s s' → faithful pid s outs fin → faithful pid s' outs fin.
Proof. intros [] Hf; eapply faithful_ext; try exact Hf; done. Qed.

Lemma main_faithful pid s s' outs fin :
  sane s → main_step s s' → raced s = false → faithful pid s outs fin → ∃ fin', faithful pid s' outs fin'.
Proof.
  intros Hsn Hst Hrc [He Hp Ha Hend Hs]. pose proof (sn_stage _ Hsn) as Hg. unfold ending, stage in *.
  destruct Hst as [s p Hm Hx|s p err Hm|s e Hm Hx|s e Hm Ho Hr|s s' e Hm Hsend]; rewrite Hm in Hend, Hg; subst fin.
  - exists []. by split.
  - exists []. split; [done|done| |done|done].
    intros f. destruct (Ha f) as (lost & E & _). by exists lost; destruct f.
  - exists []. by split.
  - exists []. by split.
  - destruct (sent_frame _ _ _ Hsend) as (Eo & Ee & Ex & Em & _ & _ & _ & _ & _ & Ep & Eu & _ & _).
    assert (∀ f, chan f (set_main (Returned None) s') = chan f s) as Hch by (by intros []).
    exists (if up s then [Some (Finished (exit_code e))] else []). split.
    + cbn. rewrite (sent_events _ _ _ Hsend Hrc), He, app_nil_r.
      by destruct (up s); rewrite ?app_nil_r.
    + done.
    + intros f. destruct (Ha f) as (lost & E & Hl). exists lost. rewrite Hch. cbn. by rewrite Eu.
    + cbn. rewrite Ex, Eu. exists e. destruct Hg as [Hx _]. destruct (up s); auto.
    + intros f d. rewrite Hch. apply Hs.
Qed.

Lemma step_faithful pid s s' outs fin :
  sane s → step s s' → raced s = false → faithful pid s outs fin → ∃ outs' fin', faithful pid s' outs' fin'.
Proof.
  intros Hsn [[_ Hst|f _ Hst|_ Hst|_ Hst]|[[Hu ->]|[Hu ->]]] Hrc Hf.
  - do 2 eexists. by eapply process_faithful.
  - destruct (reader_faithful pid f s s' outs fin Hsn Hst Hrc Hf) as [outs' ?]. by do 2 eexists.
  - do 2 eexists. by eapply input_faithful.
  - destruct (main_faithful pid s s' outs fin Hsn Hst Hrc Hf) as [fin' ?]. by do 2 eexists.
  - do 2 eexists. by eapply faithful_ext; [..|exact Hf].
  - do 2 eexists. by eapply faithful_ext; [..|exact Hf].
Qed.

Section started.
Context (stdin_pipe dev_null stdout_pipe stderr_pipe : option string).
Context (start : Cmd → string + Z) (send_err : option string) (req : StartCommand) (rest : list CommandRequest).
Context (s0 : Sys).
Hypothesis started :
  startCommand stdin_pipe dev_null stdout_pipe stderr_pipe start send_err req rest = inr s0.

Lemma started_eq :
  ∃ pid, start (to_cmd req) = inr pid ∧
    s0 = mkSys new_chan new_chan None
           (match stdin req with Some p => WritesStdin p | None => Waits end)
           (match stdin req with Some _ => NotStarted | None => Receives end)
           (bool_decide (is_Some (stdin req))) rest "" [] false true 0 false [Some (Started pid)] false.
Proof using started.
  revert started. unfold startCommand.
  destruct (match stdin req with Some _ => _ | None => _ end); [done|].
  destruct stdout_pipe; [done|]. destruct stderr_pipe; [done|].
  destruct (start (to_cmd req)) as [|pid]; [done|]. destruct send_err; [done|].
  intros [= <-]. exists pid. by destruct (stdin req).
Qed.

Lemma run_sane s : rtc step s0 s → sane s.
Proof using started.
  destruct started_eq as (pid & _ & E). revert s. apply (rtc_ind_r sane).
  - rewrite E. split; [|by intros []]. unfold stage. cbn. by destruct (stdin req).
  - intros s s' _ Hst Hs. by eapply step_sane.
Qed.

Lemma run_faithful s :
  rtc step s0 s → raced s = false →
  ∃ pid outs fin, start (to_cmd req) = inr pid ∧ faithful pid s outs fin.
Proof using started.
  destruct started_eq as (pid & Hp & E). intros Hr Hrc. exists pid. revert s Hr Hrc.
  assert (∃ outs fin, faithful pid s0 outs fin) as Hinit.
  { exists [], []. rewrite E. split; [done|by constructor| | |].
    - intros f. exists "". by destruct f.
    - unfold ending. cbn. by destruct (stdin req).
    - by intros []. }
  apply (rtc_ind_r (λ s, raced s = false → ∃ outs fin, _ ∧ faithful pid s outs fin)).
  - intros _. destruct Hinit as (outs & fin & ?). by exists outs, fin.
  - intros s s' Hr Hst IH Hrc.
    assert (raced s = false) as Hrc0.
    { destruct (raced s) eqn:Er; [|done]. by rewrite (raced_stays s s' Hst Er) in Hrc. }
    destruct (IH Hrc0) as (outs & fin & _ & Hf).
    destruct (step_faithful _ _ _ _ _ (run_sane s Hr) Hst Hrc0 Hf) as (outs' & fin' & ?).
    by exists outs', fin'.
Qed.
End started.

(** ** What the process is given *)

Definition stdin_of (l : list CommandRequest) : string :=
  foldr (λ r acc, match r with Stdin p => p +:+ acc | _ => acc end) "" l.
Definition signals_of (l : list CommandRequest) : list Z :=
  filter_map (λ r, match r with Signal n => Some n | _ => None end) l.

Lemma stdin_of_snoc l r :
  stdin_of (l ++ [r]) = stdin_of l +:+ match r with Stdin p => p | _ => "" end.
Proof.
  unfold stdin_of. induction l as [|r' l IH]; [by destruct r; cbn; rewrite ?str_app_nil_r|].
  by destruct r'; cbn; rewrite ?IH, ?str_app_assoc.
Qed.
Lemma signals_of_snoc l r :
  signals_of (l ++ [r]) = signals_of l ++ match r with Signal n => [n] | _ => [] end.
Proof. unfold signals_of. induction l as [|r' l IH]; [by destruct r|]. by destruct r'; cbn; rewrite ?IH. Qed.

(** The requests that were acted on, and what they amount to. *)
Record fed (req : StartCommand) (rest : list CommandRequest) (s : Sys) (acted : list CommandRequest) : Prop := {
  fed_piped : piped s = bool_decide (is_Some (stdin req));
  fed_acted : match input s with Stopped => acted `prefix_of` rest | _ => rest = acted ++ requests s end;
  fed_stdin : stdin_got s =
    match input s with NotStarted => "" | _ => default "" (stdin req) end +:+ stdin_of acted;
  fed_signals : signalled s = signals_of acted;
  fed_main p : main s = WritesStdin p → stdin req = Some p ∧ input s = NotStarted;
  fed_waiting : input s = NotStarted → acted = [];
  fed_crash : crashed s = true → piped s = false ∧ ∃ p, Stdin p ∈ rest
}.

Lemma input_fed req rest s s' acted :
  crashed s = false → input_step s s' → fed req rest s acted → ∃ acted', fed req rest s' acted'.
Proof.
  intros Hc Hst [Hp Ha Hi Hs Hm Hw Hx].
  destruct Hst as [s Hr _|s Hr _|s c l Hr Hq|s p l Hr Hq _ _|s p l Hr Hq _|s p l Hr Hq Hn
    |s n l Hr Hq _|s n l Hr Hq|s l Hr Hq]; rewrite Hr in *; cbn in Ha, Hi;
    (assert (∀ p, main s ≠ WritesStdin p) as Hne by (intros p' E; by destruct (Hm p' E))).
  1-3,5,8: exists acted; split; cbn; try done; [by eexists | intros ? E; by destruct (Hne _ E)].
  - exists (acted ++ [Stdin p]). split; cbn; rewrite ?Hr; try done.
    + by rewrite Ha, Hq, <-app_assoc.
    + by rewrite stdin_of_snoc, Hi, str_app_assoc.
    + by rewrite signals_of_snoc, app_nil_r.
  - exists acted. split; cbn; rewrite ?Hr; try done. intros _. split; [done|]. exists p. rewrite Ha, Hq. set_solver.
  - exists (acted ++ [Signal n]). split; cbn; rewrite ?Hr; try done.
    + by rewrite Ha, Hq, <-app_assoc.
    + by rewrite stdin_of_snoc, str_app_nil_r.
    + by rewrite signals_of_snoc, Hs.
  - exists (acted ++ [NoCommand]). split; cbn; rewrite ?Hr; try done.
    + by rewrite Ha, Hq, <-app_assoc.
    + by rewrite stdin_of_snoc, str_app_nil_r.
    + by rewrite signals_of_snoc, app_nil_r.
Qed.

Lemma fed_ext req rest s s' acted :
  piped s' = piped s → input s' = input s → requests s' = requests s → stdin_got s' = stdin_got s →
  signalled s' = signalled s → (∀ p, main s' = WritesStdin p → main s = WritesStdin p) → crashed s' = crashed s →
  fed req rest s acted → fed req rest s' acted.
Proof. intros E1 E2 E3 E4 E5 E6 E7 [Hp Ha Hi Hs Hm Hw Hx]. split; rewrite ?E1, ?E2, ?E3, ?E4, ?E5, ?E7; auto. Qed.

Lemma main_fed req rest s s' acted : main_step s s' → fed req rest s acted → fed req rest s' acted.
Proof.
  intros Hst Hf. destruct Hst as [s p Hm _| | | |s s' e Hm He]; [|by eapply fed_ext; [..|exact Hf]..|].
  2:{ destruct (sent_frame _ _ _ He) as (_ & _ & _ & _ & ? & ? & ? & ? & ? & _ & _ & _ & ?).
      by eapply fed_ext; [..|exact Hf]. }
  destruct Hf as [Hp Ha Hi Hs Hw Hn Hx]. destruct (Hw _ Hm) as [Es Ei]. rewrite Ei in *. rewrite (Hn eq_refl) in *.
  split; cbn; try done. rewrite Hi, Es. change (stdin_of []) with "".
  by rewrite !str_nil_app, str_app_nil_r.
Qed.

Lemma step_fed req rest s s' acted : step s s' → fed req rest s acted → ∃ acted', fed req rest s' acted'.
Proof.
  intros [[_ Hst|f _ Hst|Hc Hst|_ Hst]|[[Hu ->]|[Hu ->]]] Hf.
  - exists acted. destruct Hst as [f|f|]; try destruct f; by eapply fed_ext; [..|exact Hf].
  - exists acted. destruct Hst as [|?|s s' d _ He| |]; try (destruct f; by eapply fed_ext; [..|exact Hf]).
    destruct (sent_frame _ _ _ He) as (_ & _ & _ & Em & ? & ? & ? & ? & ? & _ & _ & _ & ?).
    destruct f; (eapply fed_ext; [..|exact Hf]); cbn; try done; by intros p; rewrite Em.
  - by eapply input_fed.
  - exists acted. by eapply main_fed.
  - exists acted. by eapply fed_ext; [..|exact Hf].
  - exists acted. by eapply fed_ext; [..|exact Hf].
Qed.

(** ** The handler returns *)

Definition b2n (b : bool) : nat := if b then 1 else 0.
Definition chan_work (c : Chan) : nat :=
  b2n (writable c) + b2n (reading c) + 2 * String.length (buffered c) + b2n (bool_decide (is_Some (sending c))).
Definition work (s : Sys) : nat :=
  chan_work (out s) + chan_work (errs s) + b2n (bool_decide (exited s = None)) +
  match main s with WritesStdin _ => 6 | Waits => 3 | Joins _ => 2 | Finishes _ => 1 | Returned _ => 0 end +
  match input s with NotStarted => 2 | Receives => 1 | Stopped => 0 end +
  length (requests s) + b2n (up s) + b2n (negb (crashed s)).

Lemma drop_shorter data : data ≠ "" → String.length (drop_bytes BUFFER data) < String.length data.
Proof.
  intros Hd. rewrite <-(take_drop_bytes BUFFER data) at 2. rewrite str_length_app. destruct data; [done|]. cbn. lia.
Qed.

(** Once [cmd.Wait] has closed the pipes everything but reading takes from the
    work left. *)
Lemma act_work s s' :
  pipes_closed s = true → act s s' ∨ client_goes s s' → pipes_closed s' = true ∧ work s' < work s.
Proof.
  intros Hc [[_ Hst|f _ Hst|Hx Hst|_ Hst]|[Hu ->]]; unfold work, chan_work.
  - destruct Hst as [f data s Hw Hp|f s Hw|e s Hx]; [congruence| |].
    + destruct f; cbn in *; rewrite Hw; cbn; split; [done|lia|done|lia].
    + cbn. rewrite Hx. split; [done|]. cbn. lia.
  - destruct Hst as [s [Hr Hn] Hb|s data rest Hr Hb Hp|s s' d Hd He|s Hr Hb Hp|s [Hr Hn] Hb Hp]; [|congruence| |congruence|].
    + pose proof (drop_shorter _ Hb). destruct f; cbn -[Nat.mul] in *; rewrite Hn; (split; [done|]);
        cbn -[Nat.mul]; lia.
    + destruct (sent_frame _ _ _ He) as (Eo & Ee & Ex & Em & Ei & _ & Eq & _ & _ & Ep & Eu & _ & Ec).
      destruct f; cbn -[Nat.mul] in *; rewrite ?Eo, ?Ee, Ex, Em, Ei, Eq, Eu, Ec, Hd, Ep; (split; [done|]);
        cbn -[Nat.mul]; lia.
    + destruct f; cbn -[Nat.mul] in *; rewrite Hr; (split; [done|]); cbn -[Nat.mul]; lia.
  - destruct Hst; cbn; repeat match goal with H : requests _ = _ |- _ => rewrite H; clear H
      | H : input _ = _ |- _ => rewrite H; clear H end; rewrite ?Hx; (split; [done|]); cbn; lia.
  - destruct Hst as [s p Hm Hx|s p err Hm|s e Hm Hx|s e Hm Ho Hr|s s' e Hm He]; cbn -[Nat.mul];
      [rewrite Hm; (split; [done|]); cbn -[Nat.mul]; lia..|].
    destruct (sent_frame _ _ _ He) as (Eo & Ee & Ex & Em & Ei & _ & Eq & _ & _ & Ep & Eu & _ & Ec).
    rewrite Eo, Ee, Ex, Ei, Eq, Eu, Ec, Ep, Hm. split; [done|]. lia.
  - cbn -[Nat.mul]. rewrite Hu. split; [done|]. cbn -[Nat.mul]. lia.
Qed.

Lemma reads_work s s' : rtc client_reads s s' → work s' = work s ∧ pipes_closed s' = pipes_closed s.
Proof. induction 1 as [|s s1 s' [_ ->] _ [IH1 IH2]]; [done|]. by rewrite IH1, IH2. Qed.

(** A move of the agent, of the process or the end of the connection, after any
    reading. *)
Definition moved (s s' : Sys) : Prop := ∃ s1, rtc client_reads s s1 ∧ (act s1 s' ∨ client_goes s1 s').

Lemma bounded n s s' : pipes_closed s = true → nsteps moved n s s' → n ≤ work s ∧ pipes_closed s' = true.
Proof.
  intros Hp Hn. revert Hp. induction Hn as [s|n s s1 s' (sr & Hr & Hst) _ IH]; intros Hp; [split; [lia|done]|].
  destruct (reads_work s sr Hr) as [Ew Ep]. rewrite <-Ep in Hp.
  destruct (act_work sr s1 Hp Hst) as [Hp1 Hlt]. destruct (IH Hp1). split; [lia|done].
Qed.

(** A send returns if the client is gone or has read. *)
Lemma sent_possible e s : up s = false ∨ 0 < credit s → ∃ s', sent_step e s s'.
Proof.
  intros Hs. destruct (raced s) eqn:Er.
  - eexists. eapply (sent_unknown e s (pred (credit s)) []); [|done]. destruct Hs; [by left|right; lia].
  - destruct (up s) eqn:Eu; [|by eexists; apply sent_failed]. destruct Hs as [?|Hs]; [done|].
    eexists. eapply (sent_taken e s (pred (credit s))); [done|lia|done].
Qed.

(** While the process has ended and the handler has not returned, a reader or the
    handler itself can go on, unless it waits for the client. *)
Lemma ended_progress s :
  sane s → crashed s = false → is_Some (exited s) →
  (∃ r, main s = Returned r) ∨ stuck_sending s ∨
  ∃ s', act s s' ∧ crashed s' = false ∧ is_Some (exited s') ∧ (pipes_closed s = true → pipes_closed s' = true).
Proof.
  intros Hsn Hc Hx. pose proof (sn_stage _ Hsn) as Hg. unfold stage in Hg.
  assert ((up s = false ∨ 0 < credit s) ∨ (up s = true ∧ credit s = 0)) as Hcr.
  { destruct (up s); [|by left; left]. destruct (credit s); [right; auto|left; right; lia]. }
  destruct (main s) as [p| |e|e|r] eqn:Em; [..|by left; eexists]; right.
  - right. exists (disconnect (set_main (Returned (Some ("failed to write initial stdin: " +:+ ""))) s)).
    split; [apply s_main; [done|by eapply m_stdin_fails]|done].
  - right. destruct Hx as [e Hx]. exists (set_main (Joins e) (close_pipes s)).
    split; [by apply s_main; [|apply m_wait]|]. split_and!; [done|by eexists|done].
  - destruct Hg as [_ Hp].
    assert (∀ f, reading (chan f s) = true → stuck_sending s ∨
      ∃ s', act s s' ∧ crashed s' = false ∧ is_Some (exited s') ∧ (pipes_closed s = true → pipes_closed s' = true))
      as Hread.
    { intros f Hr. destruct (sending (chan f s)) as [d|] eqn:Hs.
      - destruct Hcr as [Hcan|[Hu Hz]]; [right|left; split_and!; [done..|left; exists f; by rewrite Hs]].
        destruct (sent_possible (output f d) s Hcan) as [s' He]. exists (sent_piece f s').
        split; [by eapply s_reader; [|eapply r_sent]|].
        destruct (sent_frame _ _ _ He) as (_ & _ & Ex & _ & _ & _ & _ & _ & _ & Ep & _ & _ & Ec).
        destruct f; cbn; by rewrite Ex, Ep, Ec.
      - right. destruct (decide (buffered (chan f s) = "")) as [Hb|Hb]; eexists.
        + split; [apply (s_reader _ _ f); [done|by apply r_closed]|]. by destruct f.
        + split; [apply (s_reader _ _ f); [done|by apply r_buffered]|]. by destruct f. }
    destruct (reading (out s)) eqn:Eo; [by apply (Hread Out)|].
    destruct (reading (errs s)) eqn:Ee; [by apply (Hread Errs)|].
    right. eexists. split; [by apply s_main; [|apply (m_join s e)]|]. done.
  - destruct Hcr as [Hcan|[Hu Hz]]; [right|left; split_and!; [done..|right; by exists e]].
    destruct (sent_possible (Finished (exit_code e)) s Hcan) as [s' He]. eexists.
    split; [by apply s_main; [|eapply m_sent]|].
    destruct (sent_frame _ _ _ He) as (_ & _ & Ex & _ & _ & _ & _ & _ & _ & Ep & _ & _ & Ec).
    cbn. by rewrite Ex, Ep, Ec.
Qed.

(** With a client that reads, the handler comes to its end. *)
Definition attended (s s' : Sys) : Prop := act s s' ∨ client_reads s s'.

Lemma returns_closed n s :
  work s ≤ n → sane s → crashed s = false → is_Some (exited s) → pipes_closed s = true →
  ∃ s' r, rtc attended s s' ∧ main s' = Returned r.
Proof.
  revert s. induction n as [n IH] using lt_wf_ind. intros s Hw Hsn Hc Hx Hp.
  assert (∀ s s', work s ≤ n → pipes_closed s = true → sane s → act s s' → crashed s' = false →
    is_Some (exited s') → pipes_closed s' = true → ∃ s' r, rtc attended s s' ∧ main s' = Returned r) as Hgo.
  { clear s Hw Hsn Hc Hx Hp. intros s s' Hw Hp Hsn Ha Hc' Hx' Hp'.
    destruct (act_work s s' Hp (or_introl Ha)) as [_ Hlt].
    destruct (IH (work s') ltac:(lia) s' ltac:(lia)) as (s1 & r & Hr & Hm); try done.
    { eapply step_sane; [|done]. by left. }
    exists s1, r. split; [eapply rtc_l; [by left|done]|done]. }
  destruct (ended_progress s Hsn Hc Hx) as [[r Hr]|[(Hu & Hz & _)|(s' & Ha & Hc' & Hx' & Hp')]].
  - exists s, r. split; [apply rtc_refl|done].
  - set (s1 := set_credit (S (credit s)) s).
    assert (client_reads s s1) as Hcr by done.
    assert (sane s1) as Hsn1 by (eapply step_sane; [|done]; by right; left).
    destruct (ended_progress s1 Hsn1 Hc Hx) as [[r Hr]|[(_ & Hz1 & _)|(s' & Ha & Hc' & Hx' & Hp')]].
    + exists s1, r. split; [by apply rtc_once; right|done].
    + by cbn in Hz1.
    + destruct (Hgo s1 s') as (s2 & r & Hr & Hm); try done; [by apply Hp'|].
      exists s2, r. split; [eapply rtc_l; [by right|done]|done].
  - eapply Hgo; try done. by apply Hp'.
Qed.

Lemma returns s :
  sane s → crashed s = false → is_Some (exited s) → ∃ s' r, rtc attended s s' ∧ main s' = Returned r.
Proof.
  intros Hsn Hc Hx. pose proof (sn_stage _ Hsn) as Hg. unfold stage in Hg.
  destruct (main s) as [p| |e|e|r] eqn:Em.
  - eexists _, _. split; [apply rtc_once; left; apply s_main; [done|]; by eapply (m_stdin_fails s p "")|done].
  - destruct Hx as [e Hx].
    assert (act s (set_main (Joins e) (close_pipes s))) as Hst by (by apply s_main; [|apply m_wait]).
    destruct (returns_closed _ (set_main (Joins e) (close_pipes s)) (Nat.le_refl _)) as (s1 & r & Hr & Hm);
      [eapply step_sane; [by left|done]|done|by eexists|done|].
    exists s1, r. split; [eapply rtc_l; [by left|done]|done].
  - destruct Hg as [_ Hp]. by eapply returns_closed.
  - destruct Hg as (_ & Hp & _). by eapply returns_closed.
  - eexists _, _. split; [apply rtc_refl|done].
Qed.

Lemma exited_stays s s' : step s s' → is_Some (exited s) → is_Some (exited s').
Proof.
  intros [[_ Hst|f _ Hst|_ Hst|_ Hst]|[[Hu ->]|[Hu ->]]] Hx; [..|done|done].
  - destruct Hst as [[]|[]|]; [done..|by eexists].
  - destruct Hst as [|?|s s' d _ He| |]; try (by destruct f).
    destruct (sent_frame _ _ _ He) as (_ & _ & Ex & _). by destruct f; cbn; rewrite Ex.
  - by destruct Hst.
  - destruct Hst as [| | | |s s' e _ He]; try done. destruct (sent_frame _ _ _ He) as (_ & _ & Ex & _).
    cbn. by rewrite Ex.
Qed.

Lemma run_fed stdin_pipe dev_null stdout_pipe stderr_pipe start send_err req rest s0 s :
  startCommand stdin_pipe dev_null stdout_pipe stderr_pipe start send_err req rest = inr s0 →
  rtc step s0 s → ∃ acted, fed req rest s acted.
Proof.
  intros (pid & _ & ->)%started_eq Hr. revert s Hr. apply (rtc_ind_r (λ s, ∃ acted, fed req rest s acted)).
  - exists []. split; cbn; try done.
    + by destruct (stdin req).
    + by destruct (stdin req).
    + destruct (stdin req); [|done]. by intros p [= ->].
  - intros s s' _ Hst (acted & Hf). by eapply step_fed.
Qed.
End AgentExec.

Module AgentExecProps.
Import Wire Streams Exec ExecAgent AgentExec.

(** C13: What a client gets of a command is what the process did.  In every run
    in which the two readers have not been in [stream.Send] at the same time -
    grpc-go does not allow it, the code does not prevent it ([sends_race]) -,
    however the readers, the handler, the process and the client interleave
    otherwise: when the handler has returned to a client that is still connected,
    the events sent are those of one started process with its exit code last, the
    client library's call returns that code and the two outputs in the order in
    which they were written; only a last part of an output is missing, the one
    its reader had not read from the pipe when [cmd.Wait] closed it. *)
Theorem exec_output_delivered {W} show_status stdin_pipe dev_null stdout_pipe stderr_pipe
    (start : Cmd → string + Z) send_err req rest s0 s cmd args wd env sin role (w : W) :
  startCommand stdin_pipe dev_null stdout_pipe stderr_pipe start send_err req rest = inr s0 →
  rtc step s0 s → raced s = false → main s = Returned None → up s = true →
  ∃ pid outs e, start (to_cmd req) = inr pid ∧ exited s = Some e ∧ Forall piece outs ∧
    sent (events s) None = fst (ExecAgent.RunCommand (λ _ w, (inr (pid, outs, e), w)) req w) ∧
    wrote (out s) = OtaProps.stdout_of outs +:+ unread (out s) ∧
    wrote (errs s) = OtaProps.stderr_of outs +:+ unread (errs s) ∧
    get_program_output show_status (λ _ w, (Reply (sent (events s) None), w)) cmd args wd env sin role w =
      (Ok (OtaProps.stdout_of outs, OtaProps.stderr_of outs, exit_code e), w).
Proof.
  intros Hs Hr Hrc Hm Hu.
  destruct (run_faithful _ _ _ _ _ _ _ _ _ Hs s Hr Hrc) as (pid & outs & fin & Hp & Hf).
  pose proof (run_sane _ _ _ _ _ _ _ _ _ Hs s Hr) as [Hg Hq]. unfold stage in Hg. rewrite Hm in Hg.
  destruct Hg as (_ & _ & Ho & Hr').
  destruct Hf as [He Hpc Ha Hend _]. unfold ending in Hend. rewrite Hm in Hend.
  destruct Hend as (e & Hx & [[_ Hd]| ->]); [congruence|]. exists pid, outs, e.
  assert (∀ f, wrote (chan f s) = gather f outs +:+ unread (chan f s)) as Hall.
  { intros f. destruct (Ha f) as (lost & E & Hl). destruct (Hq f) as [Eb Es]; [by destruct f|].
    rewrite E, (Hl Hu), Eb, Es. by rewrite !str_nil_app. }
  split_and!; [done..| |exact (Hall Out)|exact (Hall Errs)|].
  - cbn. by rewrite He.
  - unfold get_program_output, start_command. rewrite He.
    change (sent (Some (Started pid) :: ?l) None) with (Next (Some (Started pid)) (sent l None)).
    cbn [Exec.events]. by rewrite OtaProps.events_sent, OtaProps.collect_output, !str_nil_app.
Qed.

(** C14: The service does not keep a client that reads waiting for a process that
    has ended: from every state in which it has, unless the agent died, the
    handler can return while the client only reads.  And it cannot go on for
    ever: once [cmd.Wait] has returned, the goroutines, the process's children
    and the end of the connection take at most [work] more steps in any order,
    however the client reads in between, and where they can take no more, the
    handler has returned, or the agent has died, or a [stream.Send] waits for a
    client that is connected and has not read. *)
Theorem exec_returns stdin_pipe dev_null stdout_pipe stderr_pipe (start : Cmd → string + Z) send_err req rest s0 s :
  startCommand stdin_pipe dev_null stdout_pipe stderr_pipe start send_err req rest = inr s0 →
  rtc step s0 s → is_Some (exited s) →
  (crashed s = false → ∃ s' r, rtc attended s s' ∧ main s' = Returned r) ∧
  (pipes_closed s = true → ∀ n s', nsteps moved n s s' → n ≤ work s ∧
     ((∀ s'', ¬ act s' s'') → crashed s' = true ∨ (∃ r, main s' = Returned r) ∨ stuck_sending s')).
Proof.
  intros Hs Hr Hx. pose proof (run_sane _ _ _ _ _ _ _ _ _ Hs s Hr) as Hsn.
  split; [intros Hc; by apply returns|]. intros Hpc n s' Hn. destruct (bounded n s s' Hpc Hn) as [Hle _].
  split; [done|]. intros Hnf.
  assert (sane s' ∧ is_Some (exited s')) as [Hsn' Hx'].
  { clear -Hn Hx Hsn. induction Hn as [|n s s1 s' (sr & Hreads & Hst) _ IH]; [done|].
    assert (rtc step s s1) as Hrun.
    { eapply rtc_r; [|destruct Hst; [by left|by right; right]]. clear -Hreads.
      induction Hreads; [apply rtc_refl|]. eapply rtc_l; [by right; left|done]. }
    clear -Hrun Hx Hsn IH. apply IH; clear IH; induction Hrun as [|s s2 s1 Hst _ IH]; eauto using step_sane, exited_stays. }
  destruct (crashed s') eqn:Ec; [by left|right].
  destruct (ended_progress s' Hsn' Ec Hx') as [?|[?|(s1 & Hst & _)]]; [by left|by right|by destruct (Hnf s1)].
Qed.

(** C39: What the process is given is what the client sent: the initial input, then
    the bytes of the following requests in order, and the signals in order, up to
    the request at which the input ends; the agent dies only if input is sent to
    a command that was started without any. *)
Theorem exec_input stdin_pipe dev_null stdout_pipe stderr_pipe (start : Cmd → string + Z) send_err req rest s0 s :
  startCommand stdin_pipe dev_null stdout_pipe stderr_pipe start send_err req rest = inr s0 →
  rtc step s0 s →
  (∃ acted, acted `prefix_of` rest ∧ signalled s = signals_of acted ∧
     (input s = NotStarted ∧ stdin_got s = "" ∨ stdin_got s = default "" (stdin req) +:+ stdin_of acted)) ∧
  (crashed s = true → stdin req = None ∧ ∃ p, Stdin p ∈ rest).
Proof.
  intros Hs Hr. destruct (run_fed _ _ _ _ _ _ _ _ _ _ Hs Hr) as (acted & [Hp Ha Hi Hg Hm Hw Hx]). split.
  - exists acted. split; [destruct (input s); [by eexists..|done]|]. split; [done|].
    destruct (input s) eqn:Ei; [left|by right..]. split; [done|]. by rewrite Hi, (Hw eq_refl).
  - intros Hc. destruct (Hx Hc) as [Hnp Hin]. split; [|done]. rewrite Hp in Hnp.
    destruct (stdin req); [|done]. by apply bool_decide_eq_false in Hnp; destruct Hnp.
Qed.

(** ** Concrete runs *)

Definition ex_req : StartCommand := mkStart "uptime" [] None ∅ None None.
Definition ex_started (rest : list CommandRequest) : string + Sys :=
  startCommand None None None None (λ _, inr 7%Z) None ex_req rest.
Definition ex_s0 (rest : list CommandRequest) : Sys :=
  mkSys new_chan new_chan None Waits Receives false rest "" [] false true 0 false [Some (Started 7)] false.

(** The process prints, its reader sends that to a client that reads, and it
    exits. *)
Definition ex_wrote : Sys := set_chan Out (mkChan "up 1 day" "up 1 day" "" true true None) (ex_s0 []).
Definition ex_sending : Sys := hand_out Out "up 1 day" "" ex_wrote.
Definition ex_read : Sys :=
  sent_piece Out (set_credit 0 (set_events [Some (Started 7); Some (Stdout "up 1 day")] (set_credit 1 ex_sending))).
(** [cmd.Wait] returns, the readers stop, the handler joins them and sends the
    last event, which the client reads, and returns. *)
Definition ex_waited (s : Sys) : Sys := set_main (Joins (Exited 0)) (close_pipes (set_exited (Exited 0) s)).
Definition ex_finishes (s : Sys) : Sys :=
  set_main (Finishes (Exited 0)) (stop_reader Errs (stop_reader Out (ex_waited s))).
Definition ex_joined (s : Sys) : Sys :=
  set_main (Returned None)
    (set_credit 0 (set_events (events s ++ [Some (Finished 0)]) (set_credit 1 (ex_finishes s)))).

Lemma ex_wrote_run : rtc step (ex_s0 []) ex_wrote.
Proof. apply rtc_once. left. apply s_process; [done|]. by apply (p_write Out "up 1 day" (ex_s0 [])). Qed.
Lemma ex_sending_run : rtc step (ex_s0 []) ex_sending.
Proof.
  eapply rtc_r; [apply ex_wrote_run|]. left. apply (s_reader _ _ Out); [done|].
  apply (r_read Out ex_wrote "up 1 day" ""); try done. cbn. unfold BUFIO. lia.
Qed.
Lemma ex_read_run : rtc step (ex_s0 []) ex_read.
Proof.
  eapply rtc_r; [eapply rtc_r; [apply ex_sending_run|right; left; split; reflexivity]|].
  left. apply (s_reader _ _ Out); [done|]. eapply (r_sent Out); [reflexivity|].
  by apply (sent_taken (Stdout "up 1 day") (set_credit 1 ex_sending) 0).
Qed.
Lemma ex_waited_run s :
  crashed s = false → exited s = None → main s = Waits → rtc step s (ex_waited s).
Proof.
  intros Hc Hx Hm. eapply rtc_l; [left; apply s_process; [done|]; by apply (p_exit (Exited 0))|].
  apply rtc_once. left. apply s_main; [done|]. by apply (m_wait (set_exited (Exited 0) s)).
Qed.
Lemma ex_finishes_run s :
  crashed s = false → exited s = None → main s = Waits →
  (∀ f, between f s ∧ buffered (chan f s) = "") → rtc step s (ex_finishes s).
Proof.
  intros Hc Hx Hm Hf. destruct (Hf Out) as [Ro Bo], (Hf Errs) as [Re Be].
  transitivity (ex_waited s); [by apply ex_waited_run|].
  eapply rtc_l; [left; apply (s_reader _ _ Out); [done|by apply r_closed]|].
  eapply rtc_l; [left; apply (s_reader _ _ Errs); [done|by apply r_closed]|].
  apply rtc_once. left. apply s_main; [done|].
  by apply (m_join (stop_reader Errs (stop_reader Out (ex_waited s))) (Exited 0)).
Qed.
Lemma ex_joined_run s :
  crashed s = false → exited s = None → main s = Waits → up s = true → credit s = 0 → raced s = false →
  (∀ f, between f s ∧ buffered (chan f s) = "") → rtc step s (ex_joined s).
Proof.
  intros Hc Hx Hm Hu Hcr Hrc Hf. transitivity (ex_finishes s); [by apply ex_finishes_run|].
  eapply rtc_l; [right; left; split; [exact Hu|reflexivity]|]. cbn [credit ex_finishes].
  apply rtc_once. left. apply s_main; [done|]. cbn. rewrite Hcr.
  apply (m_sent (set_credit 1 (ex_finishes s)) _ (Exited 0)); [done|].
  by apply (sent_taken (Finished 0) (set_credit 1 (ex_finishes s)) 0).
Qed.

Lemma exec_output_delivered_witness :
  ∃ outs, get_program_output (λ _, "") (λ _ w, (Reply (sent (events (ex_joined ex_read)) None), w))
    "uptime" [] None None None None tt = (Ok (OtaProps.stdout_of outs, OtaProps.stderr_of outs, 0%Z), tt) ∧
    "up 1 day" = OtaProps.stdout_of outs +:+ "".
Proof.
  destruct (exec_output_delivered (λ _, "") None None None None (λ _, inr 7%Z) None ex_req [] (ex_s0 [])
    (ex_joined ex_read) "uptime" [] None None None None tt) as (pid & outs & e & _ & He & _ & _ & Ho & _ & Hg).
  - reflexivity.
  - transitivity ex_read; [apply ex_read_run|]. apply ex_joined_run; try reflexivity. intros []; repeat split; reflexivity.
  - reflexivity.
  - reflexivity.
  - reflexivity.
  - exists outs. injection He as <-. split; [exact Hg|exact Ho].
Defined.

Lemma exec_returns_witness :
  ∃ s' r, rtc attended (ex_waited ex_wrote) s' ∧ main s' = Returned r.
Proof.
  apply (exec_returns None None None None (λ _, inr 7%Z) None ex_req [] (ex_s0 []) (ex_waited ex_wrote)).
  - reflexivity.
  - transitivity ex_wrote; [apply ex_wrote_run|]. apply ex_waited_run; reflexivity.
  - eexists. reflexivity.
  - reflexivity.
Defined.

Definition ex_stdin : list CommandRequest := [Signal 1; Stdin "yes"].
Lemma ex_signalled_run : rtc step (ex_s0 ex_stdin) (give_signal 1 (set_requests [Stdin "yes"] (ex_s0 ex_stdin))).
Proof. apply rtc_once. left. apply s_input; [done|]. by apply (i_signal (ex_s0 ex_stdin) 1 [Stdin "yes"]). Qed.

Lemma exec_input_witness :
  ∃ acted, acted `prefix_of` ex_stdin ∧ [1%Z] = signals_of acted.
Proof.
  destruct (exec_input None None None None (λ _, inr 7%Z) None ex_req ex_stdin (ex_s0 ex_stdin)
    (give_signal 1 (set_requests [Stdin "yes"] (ex_s0 ex_stdin)))) as [(acted & Hp & Hg & _) _].
  - reflexivity.
  - apply ex_signalled_run.
  - exists acted. split; [exact Hp|exact Hg].
Defined.

(** ** What goes wrong *)

(** The output of a process that exits right after writing can be lost: the
    handler closes the pipe before its reader has read from it. *)
Lemma output_lost :
  rtc step (ex_s0 []) (ex_joined ex_wrote) ∧ wrote (out (ex_joined ex_wrote)) = "up 1 day" ∧
  events (ex_joined ex_wrote) = [Some (Started 7); Some (Finished 0)].
Proof.
  split; [|done]. transitivity ex_wrote; [apply ex_wrote_run|]. apply ex_joined_run; try done. by intros [].
Qed.

(** A process that writes to both outputs: the two readers call [stream.Send] at
    the same time, which grpc-go does not allow. *)
Definition ex_both : Sys := set_chan Errs (mkChan "warn" "warn" "" true true None) ex_sending.
Lemma sends_race : rtc step (ex_s0 []) (hand_out Errs "warn" "" ex_both) ∧ raced (hand_out Errs "warn" "" ex_both) = true.
Proof.
  split; [|done]. eapply rtc_r; [eapply rtc_r; [apply ex_sending_run|]|].
  - left. apply s_process; [done|]. by apply (p_write Errs "warn" ex_sending).
  - left. apply (s_reader _ _ Errs); [done|]. apply (r_read Errs ex_both "warn" ""); try done. cbn. unfold BUFIO. lia.
Qed.

(** A client that is connected and does not read keeps the handler after the
    process has ended. *)
Lemma unread_client_blocks :
  rtc step (ex_s0 []) (ex_finishes ex_read) ∧ is_Some (exited (ex_finishes ex_read)) ∧
  stuck_sending (ex_finishes ex_read) ∧ ∀ s, main_step (ex_finishes ex_read) s → False.
Proof.
  split_and!.
  - transitivity ex_read; [apply ex_read_run|]. apply ex_finishes_run; try done. by intros [].
  - by eexists.
  - split_and!; [done..|]. right. by eexists.
  - intros s Hst. inversion Hst; try done. match goal with H : sent_step _ _ _ |- _ => by inversion H end.
Qed.

(** Input for a command that was started without any ends the agent: the
    process is checked for nil, its input is not. *)
Lemma nil_stdin_crashes stdin_pipe dev_null stdout_pipe stderr_pipe start send_err req p rest s0 :
  startCommand stdin_pipe dev_null stdout_pipe stderr_pipe start send_err req (Stdin p :: rest) = inr s0 →
  stdin req = None → ∃ s, step s0 s ∧ crashed s = true.
Proof.
  intros (pid & _ & ->)%started_eq Hn. rewrite Hn. eexists.
  split; [left; apply s_input; [done|]; by eapply i_stdin_nil|done].
Qed.

(** The input goroutine ends when the client ends its stream, and leaves the
    pipe to the process open: only [cmd.Wait] closes it, and that waits for the
    process.  A process that reads its input to the end is waited for forever. *)
Lemma stdin_never_ends s s' :
  step s s' → exited s' = None → pipes_closed s = false → pipes_closed s' = false.
Proof.
  intros [[_ Hst|f _ Hst|_ Hst|_ Hst]|[[Hu ->]|[Hu ->]]] Hx Hp; [..|done|done].
  - by destruct Hst as [[]|[]|].
  - destruct Hst as [|?|s s' d _ He| |]; try (by destruct f).
    destruct (sent_frame _ _ _ He) as (_ & _ & _ & _ & _ & _ & _ & _ & _ & Ep & _). by destruct f; cbn; rewrite Ep.
  - by destruct Hst.
  - destruct Hst as [| |s e Hm Hx'| |s s' e Hm He]; [done..|cbn in *; congruence|done|].
    destruct (sent_frame _ _ _ He) as (_ & _ & _ & _ & _ & _ & _ & _ & _ & Ep & _). cbn. by rewrite Ep.
Qed.
End AgentExecProps.
