(* ===== verification/AdminWatch.v ===== *)
(** * Watching the registry ([admin/server.rs], [client/client.rs])

    The path of an event from the registry to the program that watches: the
    registry's broadcast channel, the service's response stream, the client's
    task that decodes it, and the bounded channel the program reads.  The parts
    run concurrently: a state of all of them and a step relation. *)

From S2P Require Import Prelude RustStr RustInt CommonTypes AdminRegistry AdminAuth AdminServer AdminClient.
From Stdlib Require Import Ascii.

Module Watch.
Import Types Entry Registry Wire.

(** [broadcast::Sender::new(16)] and [async_channel::bounded(10)] *)
Definition BROADCAST_CAPACITY : nat := 16.
Definition CHANNEL_CAPACITY : nat := 10.

(** What [chan.recv()] finds for a receiver that has read up to [pos] of the
    events sent. *)
Inductive Received := Got (ev : Query.Event) | Lagged | Waiting.
Definition recv (pos : nat) (sent : list Query.Event) : Received :=
  if bool_decide (BROADCAST_CAPACITY < length sent - pos) then Lagged
  else match sent !! pos with Some ev => Got ev | None => Waiting end.

(** The first item of the response stream, as [AdminClient::watch] takes it. *)
Definition watch_initial (show_status : Status → string) (show_item : Pb.WatchStatus → string)
    (first : reply (option Pb.WatchItem)) : res (list Query.QueryResult) :=
  item ← Streams.question show_status first;
  match item with
  | Some (Pb.mkWatchItem (Some (Pb.Initial init))) => Query.parse_list init
  | Some (Pb.mkWatchItem (Some item)) =>
      bail ("Protocol error, first item in stream not pb::admin::watch_item::Status::Initial, "
            +:+ show_item item)
  | Some (Pb.mkWatchItem None) => bail "Protocol error, initial item missing"
  | None => bail "Protocol error, status field missing"
  end.

(** All parts at one moment. *)
Record Sys := mkSys {
  reg : Registry;
  receiver : option nat;             (* the service's receiver, while its stream runs *)
  wire : list Pb.WatchItem;          (* sent by the service, not yet read by the client *)
  connected : bool;                  (* the connection still carries the stream *)
  forwarding : bool;                 (* the client's task runs *)
  queue : list Query.Event;          (* the client's channel *)
  got : list Query.Event             (* what the program has received *)
}.

Section watch.
Context `{HashOrder}.

(** The registry changes. *)
Inductive change : Sys → Sys → Prop :=
| registry_changes r r' p w c f q g :
    step r r' → change (mkSys r p w c f q g) (mkSys r' p w c f q g).

(** Something moves on. *)
Inductive deliver : Sys → Sys → Prop :=
| service_sends r p ev w c f q g :
    recv p (log r) = Got ev →
    deliver (mkSys r (Some p) w c f q g)
            (mkSys r (Some (S p)) (w ++ [Query.event_to_pb ev]) c f q g)
| client_forwards r p item ev w c q g :
    Query.event_of_pb item = Ok ev → length q < CHANNEL_CAPACITY →
    deliver (mkSys r p (item :: w) c true q g) (mkSys r p w c true (q ++ [ev]) g)
| program_receives r p w c f ev q g :
    deliver (mkSys r p w c f (ev :: q) g) (mkSys r p w c f q (g ++ [ev])).

(** Something ends: the service's stream after a lag, the connection, the
    client's task. *)
Inductive stop : Sys → Sys → Prop :=
| service_lags r p w c f q g :
    recv p (log r) = Lagged → stop (mkSys r (Some p) w c f q g) (mkSys r None w c f q g)
| connection_breaks r p w w' f q g :
    w' `prefix_of` w → stop (mkSys r p w true f q g) (mkSys r None w' false f q g)
| client_cannot_decode r p item e w c q g :
    Query.event_of_pb item = Err e →
    stop (mkSys r p (item :: w) c true q g) (mkSys r p w c false q g)
| client_sees_end r c q g :
    stop (mkSys r None [] c true q g) (mkSys r None [] c false q g)
| client_dropped r p w c q g : stop (mkSys r p w c true q g) (mkSys r p w c false q g).

Definition moves (s s' : Sys) : Prop := change s s' ∨ deliver s s' ∨ stop s s'.

(** The moment the program has its initial list: the service subscribed when
    the registry was [r0] and listed it at [r1]. *)
Definition subscribed (r0 r1 : Registry) : Sys :=
  mkSys r1 (Some (length (log r0))) [] true true [] [].

(** The map a program keeps from the items it is sent. *)
Definition client_view (initial : list Query.QueryResult) : view :=
  list_to_map ((λ q, (Query.name q, q)) <$> initial).

Lemma prefix_fmap_inv {A B} (f : A → B) (l : list A) (k : list B) :
  k `prefix_of` (f <$> l) → ∃ l', k = f <$> l' ∧ l' `prefix_of` l.
Proof.
  revert k. induction l as [|x l IH]; intros k Hk; cbn in Hk.
  - apply prefix_nil_inv in Hk as ->. by exists [].
  - destruct k as [|y k]; [exists []; split; [done|apply prefix_nil]|].
    pose proof (prefix_cons_inv_1 _ _ _ _ Hk) as ->. apply prefix_cons_inv_2 in Hk.
    destruct (IH k Hk) as (l' & -> & Hp). exists (x :: l'). split; [done|]. by apply prefix_cons.
Qed.

(** The invariant: what is on the way are events, in the order they were sent
    and without a gap after those received; while the service's stream runs
    they reach up to its receiver's position; the channel is never over full. *)
Definition in_order (r0 : Registry) (s : Sys) : Prop :=
  ∃ ev, wire s = Query.event_to_pb <$> ev ∧
    got s ++ queue s ++ ev `prefix_of` drop (length (log r0)) (log (reg s)) ∧
    match receiver s with
    | Some p => p = length (log r0) + length (got s ++ queue s ++ ev)
    | None => True
    end ∧
    length (queue s) ≤ CHANNEL_CAPACITY.

#[local] Set Default Proof Using "Type".

Lemma prefix_snoc_lookup {A} (l k : list A) x :
  l `prefix_of` k → k !! length l = Some x → l ++ [x] `prefix_of` k.
Proof.
  intros [k' ->]. rewrite lookup_app_r, Nat.sub_diag by lia.
  destruct k' as [|y k']; [done|]. intros [= ->]. exists k'. by rewrite <-app_assoc.
Qed.

Lemma prefix_drop_app {A} n (l k p : list A) : p `prefix_of` drop n l → p `prefix_of` drop n (l ++ k).
Proof. intros Hp. rewrite drop_app. by apply prefix_app_r. Qed.

Lemma recv_Got p l ev : recv p l = Got ev → l !! p = Some ev.
Proof. unfold recv. case_bool_decide; [done|]. destruct (l !! p); [by intros [= ->]|done]. Qed.

Lemma change_in_order r0 s s' : wf (reg s) → change s s' → in_order r0 s → in_order r0 s'.
Proof.
  intros Hwf Hc (ev & Hw & Hp & Hr & Hq). destruct Hc as [r r' p w c f q g Hs]. exists ev. cbn in *.
  destruct (step_logged _ _ Hs Hwf) as [(e & -> & _) _]. split; [done|].
  split; [by apply prefix_drop_app|]. by split.
Qed.

Lemma deliver_in_order r0 s s' : deliver s s' → in_order r0 s → in_order r0 s'.
Proof.
  intros Hd (evs & Hw & Hp & Hr & Hq).
  destruct Hd as [r p ev w c f q g Hrecv|r p item ev w c q g Hdec Hlen|r p w c f ev q g];
    unfold in_order; cbn in *.
  - apply recv_Got in Hrecv. exists (evs ++ [ev]). rewrite fmap_app, Hw. split; [done|].
    rewrite !app_assoc. rewrite app_assoc in Hp, Hr. split; [|split; [|done]].
    + apply prefix_snoc_lookup; [done|]. by rewrite lookup_drop, <-Hr.
    + rewrite length_app. cbn. lia.
  - destruct evs as [|e evs]; [done|]. cbn in Hw. injection Hw as -> ->.
    rewrite Query.event_round in Hdec. injection Hdec as <-. exists evs.
    assert (g ++ (q ++ [e]) ++ evs = g ++ q ++ e :: evs) as -> by (by rewrite <-!app_assoc).
    split; [done|]. split; [done|]. split; [done|]. rewrite length_app. cbn. lia.
  - exists evs. assert ((g ++ [ev]) ++ q ++ evs = g ++ (ev :: q) ++ evs) as ->
      by (by rewrite <-app_assoc). split; [done|]. split; [done|]. split; [done|]. lia.
Qed.

Lemma stop_in_order r0 s s' : stop s s' → in_order r0 s → in_order r0 s'.
Proof.
  intros Hd (evs & Hw & Hp & Hr & Hq).
  destruct Hd as [r p w c f q g _|r p w w' f q g Hpre|r p item e w c q g Hdec|r c q g|r p w c q g];
    unfold in_order; cbn in *.
  - by exists evs.
  - subst w. apply prefix_fmap_inv in Hpre as (evs' & -> & Hev). exists evs'. split; [done|].
    split; [|done]. etrans; [|exact Hp]. by do 2 apply prefix_app.
  - destruct evs as [|e' evs]; [done|]. cbn in Hw. injection Hw as -> _.
    by rewrite Query.event_round in Hdec.
  - by exists evs.
  - by exists evs.
Qed.

Lemma moves_in_order r0 r1 s :
  rtc step new r0 → rtc step r0 r1 → rtc moves (subscribed r0 r1) s →
  rtc step r1 (reg s) ∧ in_order r0 s.
Proof.
  intros H0 H1 Hs. assert (rtc step new r1) as Hr1 by (by transitivity r0).
  revert s Hs. apply rtc_ind_r; [|intros s s' _ Hm [IHr IHi]].
  - split; [done|]. exists []. cbn. split; [done|]. split; [apply prefix_nil|]. split; [lia|].
    apply Nat.le_0_l.
  - assert (wf (reg s)) as Hwf by (apply (run_logged new); [by transitivity r1 | apply wf_new]).
    destruct Hm as [Hm|[Hm|Hm]].
    + split; [|by eapply change_in_order]. destruct Hm. by eapply rtc_r.
    + split; [|by eapply deliver_in_order]. by destruct Hm.
    + split; [|by eapply stop_in_order]. by destruct Hm.
Qed.

(** ** Catching up *)

Lemma drain_queue r p w c f q g : rtc deliver (mkSys r p w c f q g) (mkSys r p w c f [] (g ++ q)).
Proof.
  revert g. induction q as [|ev q IH]; intros g; [by rewrite app_nil_r|].
  eapply rtc_l; [apply program_receives|]. specialize (IH (g ++ [ev])).
  by rewrite <-app_assoc in IH.
Qed.

Lemma drain_wire r p evs c q g :
  rtc deliver (mkSys r p (Query.event_to_pb <$> evs) c true q g)
              (mkSys r p [] c true [] (g ++ q ++ evs)).
Proof.
  revert q g. induction evs as [|ev evs IH]; intros q g; cbn.
  - rewrite app_nil_r. apply drain_queue.
  - etransitivity; [apply drain_queue|].
    eapply rtc_l; [apply client_forwards; [apply Query.event_round|cbn; unfold CHANNEL_CAPACITY; lia]|].
    specialize (IH [ev] (g ++ q)). by rewrite <-app_assoc in IH.
Qed.

Lemma send_all r p w c f q g :
  p ≤ length (log r) → length (log r) - p ≤ BROADCAST_CAPACITY →
  rtc deliver (mkSys r (Some p) w c f q g)
    (mkSys r (Some (length (log r))) (w ++ (Query.event_to_pb <$> drop p (log r))) c f q g).
Proof.
  remember (length (log r) - p) as n eqn:En. revert p w En.
  induction n as [|n IH]; intros p w En Hp Hcap.
  - assert (p = length (log r)) as -> by lia. by rewrite drop_all, app_nil_r.
  - destruct (lookup_lt_is_Some_2 (log r) p) as [ev Hev]; [lia|].
    eapply rtc_l; [apply (service_sends r p ev)|].
    { unfold recv. rewrite bool_decide_eq_false_2 by lia. by rewrite Hev. }
    rewrite (drop_S _ ev) by done. cbn [fmap list_fmap].
    specialize (IH (S p) (w ++ [Query.event_to_pb ev])). rewrite <-app_assoc in IH. apply IH; lia.
Qed.

Lemma catch_up r0 s p :
  in_order r0 s → length (log r0) ≤ length (log (reg s)) →
  receiver s = Some p → forwarding s = true →
  length (log (reg s)) - p ≤ BROADCAST_CAPACITY →
  ∃ s', rtc deliver s s' ∧ reg s' = reg s ∧ got s' = drop (length (log r0)) (log (reg s)).
Proof.
  destruct s as [r rc w c f q g]. cbn. intros (evs & Hw & Hp & Hr & _) Hlen -> -> Hcap. cbn in *.
  assert (p ≤ length (log r)) as Hpl.
  { destruct Hp as [k Hk]. apply (f_equal length) in Hk. rewrite length_drop, length_app in Hk. lia. }
  eexists. split.
  - etransitivity; [by apply send_all|]. rewrite Hw, <-fmap_app. apply drain_wire.
  - cbn. split; [done|]. destruct Hp as [k Hk]. rewrite Hk.
    rewrite !app_assoc. rewrite !app_assoc in Hk, Hr. f_equal.
    rewrite Hr, <-drop_drop, Hk. by rewrite drop_app_length.
Qed.

(** ** The initial list *)

Lemma client_view_contents r : wf r → client_view (to_query <$> contents r) = view_of r.
Proof.
  intros Hwf. unfold client_view, contents, hash_values, view_of.
  rewrite <-!list_fmap_compose.
  assert (((λ q, (Query.name q, q)) ∘ to_query ∘ snd) <$> hash_iter (map r) =
          prod_map id to_query <$> hash_iter (map r)) as Hl.
  { apply list_fmap_ext. intros i [k e] He. cbn. f_equal.
    apply (Hwf k e), elem_of_hash_iter. by eapply list_elem_of_lookup_2. }
  etransitivity; [apply (f_equal list_to_map), Hl|]. rewrite list_to_map_fmap. f_equal.
  rewrite (list_to_map_proper _ (map_to_list (map r))); [apply list_to_map_to_list| |apply hash_iter_perm].
  apply NoDup_hash_keys.
Qed.
End watch.
End Watch.

(** ** Properties *)

Module WatchProps.
Import Types Entry Registry Wire Watch.

(** C11: Nothing is lost, repeated or reordered on the way: however the
    registry's changes, the service, the connection, the client's task and the
    program interleave and whenever one of them stops, the initial list
    decodes to the registry's contents at the snapshot, the program has
    received a prefix of the events sent since the subscription, the client's
    channel holds at most ten, and a program that has received all of them
    and applied them to the initial list sees the current registry. *)
Theorem watch_in_order `{HashOrder} show_status show_item r0 r1 s :
  rtc step new r0 → rtc step r0 r1 → rtc moves (subscribed r0 r1) s →
  ∃ initial,
    watch_initial show_status show_item
      (Reply (Some (Query.into_initial (fst (subscribe (length (log r0)) r1))))) = Ok initial ∧
    client_view initial = view_of r1 ∧
    got s `prefix_of` drop (length (log r0)) (log (reg s)) ∧ length (queue s) ≤ 10 ∧
    (got s = drop (length (log r0)) (log (reg s)) →
     replay (got s) (client_view initial) = view_of (reg s)).
Proof.
  intros H0 H1 Hs. destruct (moves_in_order r0 r1 s H0 H1 Hs) as [Hr (ev & _ & Hp & _ & Hq)].
  exists (to_query <$> contents r1). split; [apply Query.parse_list_round|].
  rewrite client_view_contents by (apply (run_logged new); [by transitivity r0|apply wf_new]).
  split; [done|]. split; [by eapply prefix_app_l|]. split; [done|].
  intros ->. by apply snapshot_replay.
Qed.

(** C34: A watcher catches up: from every reachable state in which the
    service's receiver and the client's task still run and the receiver is at
    most sixteen events behind, the parts can move on, without further changes
    of the registry, until the program has received every event sent since the
    subscription; its view is then the registry's. *)
Theorem watch_catches_up `{HashOrder} r0 r1 s p :
  rtc step new r0 → rtc step r0 r1 → rtc moves (subscribed r0 r1) s →
  receiver s = Some p → forwarding s = true → length (log (reg s)) ≤ p + 16 →
  ∃ s', rtc deliver s s' ∧ reg s' = reg s ∧
    got s' = drop (length (log r0)) (log (reg s)) ∧
    replay (got s') (view_of r1) = view_of (reg s).
Proof.
  intros H0 H1 Hs Hp Hf Hcap.
  destruct (moves_in_order r0 r1 s H0 H1 Hs) as [Hr Hi].
  assert (length (log r0) ≤ length (log (reg s))) as Hlen.
  { destruct (run_logged _ _ H0 wf_new) as [_ W0].
    destruct (run_logged r0 (reg s)) as [(e & -> & _) _]; [by transitivity r1|done|].
    rewrite length_app. lia. }
  destruct (catch_up r0 s p Hi Hlen Hp Hf) as (s' & Hd & Hreg & Hg);
    [unfold BROADCAST_CAPACITY; lia|].
  exists s'. do 3 (split; [done|]). rewrite Hg. by apply snapshot_replay.
Qed.

(** A unit registers while a program watches. *)
Definition ex_sys : Sys := mkSys RegistryProps.ex_registry (Some 0) [] true true [] [].

Lemma ex_change `{HashOrder} : rtc moves (subscribed new new) ex_sys.
Proof. apply rtc_once. left. apply registry_changes, step_register. Defined.

Lemma watch_in_order_witness :
  ∃ initial, client_view initial = view_of new ∧
    got ex_sys `prefix_of` drop 0 (log RegistryProps.ex_registry).
Proof.
  destruct (@watch_in_order map_to_list_order (λ _, "") (λ _, "") new new ex_sys)
    as (initial & _ & Hv & Hp & _); [reflexivity | reflexivity | apply ex_change | by exists initial].
Defined.

Lemma watch_catches_up_witness :
  ∃ s', rtc deliver ex_sys s' ∧ got s' = log RegistryProps.ex_registry.
Proof.
  destruct (@watch_catches_up map_to_list_order new new ex_sys 0)
    as (s' & Hd & _ & Hg & _);
    [reflexivity | reflexivity | apply ex_change | reflexivity | reflexivity | vm_compute; lia | by exists s'].
Defined.
End WatchProps.
