(* ===== verification/GivcCli.v ===== *)
(** * The command line client ([admin/bin/givc-cli.rs])

    [Cli]: the commands, their arguments and what they do with the client
    library.  The argument parser ([clap]) is not part of it: a value of
    [Commands] is what it produces.  Standard output is a list of texts;
    [Debug] and JSON formatting are parameters. *)

From S2P Require Import Prelude RustStr RustInt RustRegex CommonTypes AdminRegistry AdminAuth AdminServer Generations AdminClient AdminOta AdminWatch.
From Stdlib Require Import Ascii.

Module Cli.
Import Types Locale Wire Client.

Definition unit_type_parse (s : string) : res UnitType :=
  n ← parse_u32 s;
  unit_type_of_u32 n.

Definition optional_bool_to_display (state : option bool) : string :=
  match state with
  | Some true => "enabled"
  | Some false => "disabled"
  | None => "unknown"
  end.

(** ** Locale assignments *)

(** The loop over the assignments; [inl] is the early return on [LC_ALL]. *)
Fixpoint parse_assigns (assigns : list string) (has_lang : bool) (parsed : list LocaleAssignment) :
    res (list LocaleAssignment + (bool * list LocaleAssignment)) :=
  match assigns with
  | [] => Ok (inr (has_lang, parsed))
  | assign :: rest =>
      '(key, value) ← ok_or (split_once "="%char assign)
                        ("Invalid locale assignment format: '" +:+ assign +:+ "'");
      key_enum ← ok_or (from_str_name key) ("Unknown locale key: '" +:+ key +:+ "'");
      _ ← ensure (validate_locale value) ("Invalid locale value in '" +:+ assign +:+ "'");
      if bool_decide (key_enum = LcAll) then Ok (inl [mkAssignment LcAll value])
      else parse_assigns rest (has_lang || bool_decide (key_enum = Lang))
             (parsed ++ [mkAssignment key_enum value])
  end.

Definition parse_locales (locale_assigns : list string) : res (list LocaleAssignment) :=
  match locale_assigns with
  | [] => bail "No locale assignments provided"
  | first :: _ =>
      if validate_locale first then Ok [mkAssignment Lang first]
      else
        r ← parse_assigns locale_assigns false [];
        match r with
        | inl l => Ok l
        | inr (has_lang, parsed_assigns) =>
            if has_lang : bool then Ok parsed_assigns
            else bail "At least one of LANG or LC_ALL assignment is required"
        end
  end.

(** ** The commands *)

Inductive StartSub :=
| StartSubApp (app vm : string) (args : list string)
| StartSubVm (vm : string)
| StartSubService (servicename vm : string).
Inductive StopSub := StopSubApp (app : string) | StopSubService (servicename vm : string).
Record QueryUpdates := mkQuery { source : string; raw : bool; q_current : bool; q_pin_name : string }.
Record CachixOptions := mkCachixOptions {
  pin_name : string; o_token : option string; o_cache : string; o_cachix_host : option string
}.
Inductive UpdateSub := UpdateQuery (q : QueryUpdates) | UpdateList | UpdateCachix (o : CachixOptions).
Record Notification := mkNotify {
  vm_ : string; event : string; title : string; urgency : string; icon : string; message : string
}.
(** [Test::Ensure] *)
Record Ensure := mkEnsure {
  retry : Z; e_service : string; e_type : option UnitType; e_vm : option string
}.
Inductive Commands :=
| Start (start : StartSub)
| Stop (stop : StopSub)
| Pause (app : string)
| Resume (app : string)
| Reboot | Poweroff | Suspend | Wakeup | SysinfoCmd
| QueryCmd (as_json : bool) (by_type : option Z) (by_name : list string)
| QueryListCmd (as_json : bool)
| GetStatus (vm_name unit_name : string)
| SetLocale (locales : list string)
| SetTimezone (timezone : string)
| GetStats (vm_name : string)
| WatchCmd (as_json initial : bool) (limit : option Z)
| NotifyUser (notification : Notification)
| Update (update : UpdateSub)
| Test (test : Ensure)
| Ctap (op : string).

Record Options := mkOptions {
  addr : string; port : Z; tls_service : string; vsock : option string;
  cacert : option string; cert : option string; key_path : option string; notls : bool
}.

(** [Option::expect] *)
Definition expect {A} (o : option A) (msg : string) : res A :=
  match o with Some a => Ok a | None => Panic msg end.

(** The first half of [main]: the client the options ask for. *)
Definition admin_client (cid_local cid_host : Z) (o : Options) : res AdminClient :=
  tls ← (if notls o then Ok None
         else
           ca ← expect (cacert o) "cacert is required";
           c ← expect (cert o) "cert is required";
           k ← expect (key_path o) "key is required";
           Ok (Some (tls_service o, Server.mkTlsConfig ca c k (Some (tls_service o)))));
  match vsock o with
  | Some v =>
      '(cid, p) ← Auth.parse_vsock_addr cid_local cid_host v;
      Ok (from_endpoint_address (Vsock cid p) tls)
  | None => Ok (new (addr o) (port o) tls)
  end.

(** [AdminClient::watch] as the command uses it: the first item of the stream
    and the events its channel delivers until it is closed. *)
Class WatchApi (W : Type) := {
  api_watch : W → reply (option Pb.WatchItem * list Query.Event) * W
}.

Section cli.
Context {W : Type} {api : AdminApi W} {gen : Generation.GenerationApi W} {watcher : WatchApi W}.
Context (show_status : Status → string) (show_item : Pb.WatchStatus → string) (hostname : string).
Context (dump_list : bool → list Query.QueryResult → res string)
  (dump_event : bool → Query.Event → res string).
Context (show_response show_stats show_reply : string → string)
  (show_unit : Pb.UnitStatus → string) (show_generations : list OTA.Generation → string).
(** Standard input, the next tick of the timer, and what [query_updates]
    needs. *)
Context (read_stdin : res string) (tick : W → W).
Context (http : Cachix.Request → res Cachix.Response)
  (decode_updates : string → res (list UpdateServer.UpdateInfo))
  (encode_updates : list UpdateServer.UpdateInfo → res string).
Context (admin : AdminClient).

Record World := mkWorld { net : W; out : list string }.
Definition on_net {A} (m : SR W A) : SR World A := λ w,
  let '(r, n) := m (net w) in (r, mkWorld n (out w)).
Definition print (s : string) : SR World unit := SR_modify (λ w, mkWorld (net w) (out w ++ [s])).

Definition start (s : StartSub) : SR World unit :=
  response ← on_net (match s with
                     | StartSubApp app vm args => start_app admin app vm args
                     | StartSubVm vm => start_vm admin vm
                     | StartSubService servicename vm => start_service admin servicename vm
                     end);
  print (show_response response).

Definition stop_ (s : StopSub) : SR World unit :=
  on_net (match s with
          | StopSubApp app => stop admin app
          | StopSubService servicename vm => stop_service admin servicename vm
          end).

(** The checks on the entry found; [None] when the service is not listed. *)
Definition ensured (t : Ensure) (l : list Query.QueryResult) : option (res unit) :=
  r ← find_first (λ r, bool_decide (Query.name r = e_service t)) l;
  Some (
    if (match e_type t with
        | Some ty => negb (bool_decide (vm ty = Query.vm_type r))
                     || negb (bool_decide (service ty = Query.service_type r))
        | None => false
        end)
    then bail ("test failed '" +:+ e_service t +:+ "' registered but of wrong type")
    else if bool_decide (is_Some (e_vm t)) && negb (bool_decide (e_vm t = Query.vm_name r))
    then bail ("test failed '" +:+ e_service t +:+ "' registered but on wrong VM")
    else Ok tt).
Fixpoint ensure_attempts (t : Ensure) (n : nat) : SR World unit :=
  match n with
  | 0 => SR_lift (bail ("test failed '" +:+ e_service t +:+ "' not registered"))
  | S n =>
      _ ← on_net (SR_modify tick);
      l ← on_net (query_list admin);
      match ensured t l with
      | Some r => SR_lift r
      | None => ensure_attempts t n
      end
  end.
(** [Test::handle]: [for _ in 0..retry] *)
Definition test_handle (t : Ensure) : SR World unit := ensure_attempts t (Z.to_nat (retry t)).

Definition update_handle (u : UpdateSub) : SR World unit :=
  match u with
  | UpdateQuery q =>
      shown ← SR_lift (OtaUpdate.query_updates http decode_updates encode_updates (source q)
                         (q_pin_name q) (raw q) (q_current q));
      SR_each print shown
  | UpdateList =>
      response ← on_net (Generation.client_list_generations admin);
      print (show_generations response)
  | UpdateCachix o =>
      on_net (Generation.set_generation_cachix show_status admin (pin_name o) (o_cachix_host o)
                (o_cache o) (o_token o))
  end.

Definition ctap_ (operation : string) : SR World unit :=
  payload ← SR_lift read_stdin;
  let '(op, args) := match split_once "+"%char operation with
                     | Some (op, args) => (op, [args])
                     | None => (operation, [])
                     end in
  output ← on_net (ctap show_status admin op args payload);
  print output.

Definition notify_user_ (n : Notification) : SR World unit :=
  reply ← on_net (notify_user hostname admin (vm_ n) (event n) (title n) (urgency n) (icon n) (message n));
  print (show_reply reply).

Definition sysinfo_ : SR World unit :=
  status ← on_net (sysinfo admin);
  _ ← print ("Ghaf Version: " +:+ ghaf_version status);
  _ ← print ("Secure Boot: " +:+ optional_bool_to_display (secure_boot status));
  print ("Disk Encryption: " +:+ optional_bool_to_display (disk_encrypted status)).

(** [while limit.as_mut().is_none_or(|l| l.next().is_some())] over the events
    of the channel *)
Fixpoint watch_loop (as_json : bool) (limit : option nat) (events : list Query.Event) :
    SR World unit :=
  match limit with
  | Some 0 => mret tt
  | _ =>
      match events with
      | [] => SR_lift (bail "receiving from an empty and closed channel")
      | ev :: events =>
          text ← SR_lift (dump_event as_json ev);
          _ ← print text;
          watch_loop as_json (Nat.pred <$> limit) events
      end
  end.
Definition watch_ (as_json dump_initial : bool) (limit : option Z) : SR World unit :=
  '(first, events) ← on_net (rewrapped admin api_watch);
  initial ← SR_lift (Watch.watch_initial show_status show_item (Reply first));
  _ ← (if dump_initial : bool then text ← SR_lift (dump_list as_json initial); print text
       else mret tt);
  watch_loop as_json (Z.to_nat <$> limit) events.

(** The second half of [main] *)
Definition run_command (c : Commands) : SR World unit :=
  match c with
  | Test t => test_handle t
  | Start s => start s
  | Stop s => stop_ s
  | Pause app => on_net (pause admin app)
  | Resume app => on_net (resume admin app)
  | Reboot => on_net (reboot admin)
  | Poweroff => on_net (poweroff admin)
  | Suspend => on_net (suspend admin)
  | Wakeup => on_net (wakeup admin)
  | SysinfoCmd => sysinfo_
  | QueryCmd as_json by_type by_name =>
      ty ← SR_lift (match by_type with Some x => Some <$> unit_type_of_u32 x | None => Ok None end);
      reply ← on_net (query admin ty by_name);
      text ← SR_lift (dump_list as_json reply);
      print text
  | QueryListCmd as_json =>
      reply ← on_net (query_list admin);
      text ← SR_lift (dump_list as_json reply);
      print text
  | GetStatus vm_name unit_name =>
      reply ← on_net (get_status admin vm_name unit_name);
      print (show_unit reply)
  | SetLocale locales =>
      l ← SR_lift (parse_locales locales);
      on_net (set_locales admin l)
  | SetTimezone tz => on_net (set_timezone admin tz)
  | GetStats vm_name =>
      s ← on_net (get_stats admin vm_name);
      print (show_stats s)
  | WatchCmd as_json initial limit => watch_ as_json initial limit
  | Ctap op => ctap_ op
  | NotifyUser n => notify_user_ n
  | Update u => update_handle u
  end.
End cli.
End Cli.

(** ** Properties *)

Module CliProps.
Import Types Locale Wire Client Cli.

Lemma from_str_name_key k n : from_str_name k = Some n → key_name n = Ok k.
Proof.
  unfold from_str_name, key_name. intros (i & Hi & ->)%fmap_Some. apply ok_or_Ok.
  destruct (Z.leb_spec 0 (Z.of_nat i)); [|lia]. rewrite Nat2Z.id. by apply index_of_lookup.
Qed.

(** An assignment the service accepts. *)
Definition acceptable (a : LocaleAssignment) : Prop :=
  validate_locale (value a) = true ∧ is_ok (key_name (key a)) = true.
(** One that sets the language. *)
Definition main_key (a : LocaleAssignment) : Prop := key a = Lang ∨ key a = LcAll.

Lemma parse_assigns_spec assigns has_lang parsed r :
  Forall acceptable parsed → (has_lang = true → Exists main_key parsed) →
  parse_assigns assigns has_lang parsed = Ok r →
  match r with
  | inl l => l ≠ [] ∧ Forall acceptable l ∧ Exists main_key l
  | inr (b, l) => Forall acceptable l ∧ (b = true → Exists main_key l)
  end.
Proof.
  revert has_lang parsed. induction assigns as [|a assigns IH]; intros has_lang parsed Hp Hl; cbn.
  - by intros [= <-].
  - intros ([k v] & _ & (n & Hn%ok_or_Ok & ([] & Hv%ensure_Ok & Hr)%bind_Ok)%bind_Ok)%bind_Ok.
    apply from_str_name_key in Hn. case_bool_decide as Hall.
    + injection Hr as <-. subst n. split; [done|]. split; [|by constructor; right].
      apply Forall_singleton. split; [done|]. cbn. by rewrite Hn.
    + revert Hr. apply IH.
      * apply Forall_app. split; [done|]. apply Forall_singleton. split; [done|]. cbn. by rewrite Hn.
      * intros [Ht|Ht%bool_decide_eq_true]%orb_true_iff; apply Exists_app; [left; auto|].
        right. constructor. by left.
Qed.

Lemma parse_assigns_no_panic assigns has_lang parsed msg :
  parse_assigns assigns has_lang parsed ≠ Panic msg.
Proof.
  revert has_lang parsed. induction assigns as [|a assigns IH]; intros has_lang parsed;
    cbn [parse_assigns]; [done|].
  destruct (split_once _ a) as [[k v]|]; cbn [ok_or mbind res_bind]; [|done].
  destruct (from_str_name k) as [n|]; cbn [ok_or mbind res_bind]; [|done].
  destruct (validate_locale v); cbn [ensure mbind res_bind]; [|done].
  case_bool_decide; [done|apply IH].
Qed.

Lemma parse_locales_no_panic args msg : parse_locales args ≠ Panic msg.
Proof.
  unfold parse_locales. destruct args as [|first args]; [done|].
  destruct (validate_locale first); [done|].
  pose proof (parse_assigns_no_panic (first :: args) false []) as Hn.
  destruct (parse_assigns (first :: args) false []) as [[l|[[] l]]|e|e]; try done.
  by specialize (Hn e).
Qed.

Lemma parse_locales_spec args l :
  parse_locales args = Ok l → l ≠ [] ∧ Forall acceptable l ∧ Exists main_key l.
Proof.
  unfold parse_locales. destruct args as [|first args]; [done|].
  destruct (validate_locale first) eqn:Hv.
  { intros [= <-]. split; [done|]. split; [|by constructor; left]. by repeat constructor. }
  intros (r & Hr & Hl)%bind_Ok. apply parse_assigns_spec in Hr; [|done|done].
  destruct r as [l'|[b l']]; [by injection Hl as <-|].
  destruct b; [|done]. injection Hl as <-. destruct Hr as [Hf He]. specialize (He eq_refl).
  split; [|done]. intros ->. by apply Exists_nil in He.
Qed.

Lemma locale_content_total l : Forall acceptable l → ∃ c, locale_content l = Ok c.
Proof.
  intros Hl. unfold locale_content.
  assert (∃ ls, mapM_res (λ a, n ← key_name (key a); Ok (n +:+ "=" +:+ value a)) l = Ok ls) as [ls ->];
    [|by eexists].
  induction Hl as [|a l [_ Ha] _ [ls IH]]; [by eexists|]. cbn.
  destruct (key_name (key a)) as [n|e|e]; [|done..]. cbn. rewrite IH. by eexists.
Qed.

(** The service takes acceptable assignments. *)
Lemma set_locale_accepts `{HashOrder} {Ext} (write_file : string → string → Server.World Ext → Server.World Ext)
    l w :
  (∀ p c w, Server.safe w → Server.safe (write_file p c w)) → Server.safe w →
  l ≠ [] → Forall acceptable l →
  ∃ w', Server.set_locale write_file l w = (Ok tt, w') ∧ Server.locale_assigns (Server.admin w') = l.
Proof.
  intros Hwr Hw Hne Hl. destruct (locale_content_total l Hl) as [c Hc].
  assert (Forall (λ a, validate_locale (value a) = true) l) as Hv
    by (eapply Forall_impl; [exact Hl|]; by intros a [? _]).
  apply Server.check_assignments in Hv.
  destruct (mapM_res Server.check_assignment l) as [us|e|e] eqn:Hck; [|done..].
  destruct (Server.managers_Ok (write_file Server.LOCALE_CONF c w)) as [ms Hms]; [by apply Hwr|].
  eexists. split.
  - unfold Server.set_locale, mbind, Server.M_bind, SR_bind, Server.lift, Server.await, Server.query,
      Server.modify. rewrite bool_decide_eq_false_2 by done. cbn. rewrite Hck. cbn. rewrite Hc. cbn.
    by rewrite Hms.
  - done.
Qed.

(** What the command line accepts the service accepts: for any arguments
    of [set-locale], either they are rejected before anything is sent, or what
    is sent is not empty, has only known keys and valid values, among them
    [LANG] or [LC_ALL], and the reachable service stores exactly these
    assignments. *)
Theorem cli_locales_accepted `{HashOrder} {Ext} rpc agent unary sleep write_file
    (reachable : Server.EndpointConfig → Server.World Ext → res unit) aborted encode_notification
    encode_ctap decode_sysinfo decode_ctap self args (w : Server.World Ext) :
  (∀ ec w, reachable ec w = Ok tt) →
  (∀ p c w, Server.safe w → Server.safe (write_file p c w)) → Server.safe w →
  let api := Loopback.loopback rpc agent unary sleep write_file reachable aborted encode_notification
    encode_ctap decode_sysinfo decode_ctap in
  let set := l ← SR_lift (parse_locales args); set_locales (api := api) self l in
  match parse_locales args with
  | Ok l => l ≠ [] ∧ Forall acceptable l ∧ Exists main_key l ∧
      ∃ w', set w = (Ok tt, w') ∧ Server.locale_assigns (Server.admin w') = l
  | Err e => set w = (Err e, w)
  | Panic _ => False
  end.
Proof.
  intros Hr Hwr Hw api set. subst set. unfold mbind, Server.M_bind, SR_bind, SR_lift.
  destruct (parse_locales args) as [l|e|e] eqn:Hp; [|done|].
  - apply parse_locales_spec in Hp as (Hne & Ha & Hm). do 3 (split; [done|]).
    destruct (set_locale_accepts write_file l w Hwr Hw Hne Ha) as (w' & Hs & Hl).
    exists w'. split; [|done]. unfold set_locales, discard, mbind, SR_bind.
    pose proof (ClientProps.rewrapped_served rpc agent unary sleep write_file reachable aborted
      encode_notification encode_ctap decode_sysinfo decode_ctap self
      (Server.set_locale write_file l) w (Hr _ _)) as Hrw.
    rewrite Hs in Hrw. unfold ClientProps.service in Hrw. subst api.
    cbn [api_set_locale Loopback.loopback]. unfold Server.rpc_set_locale. cbv beta iota zeta. by rewrite Hrw.
  - by eapply parse_locales_no_panic.
Qed.

Definition ex_self : AdminClient := new "127.0.0.1" 9001 None.
Lemma cli_locales_accepted_witness :
  ∃ w', set_locales (api := OtaProps.ex_api) ex_self
    [mkAssignment 0 "fi_FI.UTF-8"; mkAssignment 12 "C"] ServerProps.ex_world = (Ok tt, w').
Proof.
  pose proof (@cli_locales_accepted map_to_list_order unit ServerProps.ex_rpc ServerProps.ex_connect
    ServerProps.ex_unary ServerProps.ex_sleep ServerProps.ex_write (λ _ _, Ok tt)
    (mkStatus Internal "" None) (λ _, "") (λ _, "") (λ _, mkSysinfo "" None None) (λ s, s) ex_self
    ["LANG=fi_FI.UTF-8"; "LC_TIME=C"] ServerProps.ex_world ltac:(done) ltac:(done)
    ServerProps.ex_world_safe) as Hc.
  assert (parse_locales ["LANG=fi_FI.UTF-8"; "LC_TIME=C"] =
    Ok [mkAssignment 0 "fi_FI.UTF-8"; mkAssignment 12 "C"]) as Hp by (vm_compute; reflexivity).
  cbn zeta in Hc. unfold mbind, Server.M_bind, SR_bind, SR_lift in Hc. rewrite Hp in Hc.
  destruct Hc as (_ & _ & _ & w' & Hw & _). by exists w'.
Defined.
End CliProps.
