(* ===== verification/PolicyFlow.v ===== *)
(** * From the policy manager to the agents ([policyadmin/src/policy_manager.rs],
      [AdminService::new] of [admin/server.rs])

    The manager's workers, one task per VM, and the service's task that pushes
    what they ask for, as a step relation: a worker takes a message from its
    queue, sends an update over the shared channel and waits for the outcome;
    the service's task takes the updates one after the other.  [Flow] is about
    any way to push, [Deployment] about the one of [PolicyClient]. *)

From stdpp Require Import relations.
From S2P Require Import Prelude RustStr RustInt RustPath CommonTypes AdminRegistry AdminAuth AdminServer PolicyAdmin AdminClient PolicyClient.

Module Flow.
Import Config Manager.

(** All tasks at one moment.  The manager keeps every update its workers have
    sent; the service has received the first [taken] of them. *)
Record Sys (W : Type) := mkSys {
  manager : Manager;
  awaiting : gset string;            (* workers that wait for an outcome *)
  taken : nat;
  serving : option Update;           (* the update that is being pushed *)
  running : bool;                    (* the service's task has not panicked *)
  outcomes : list (Update * res unit);
  world : W
}.
#[global] Arguments mkSys {W} _ _ _ _ _ _ _.
#[global] Arguments manager {W} _.
#[global] Arguments awaiting {W} _.
#[global] Arguments taken {W} _.
#[global] Arguments serving {W} _.
#[global] Arguments running {W} _.
#[global] Arguments outcomes {W} _.
#[global] Arguments world {W} _.

(** A round of [worker_loop] whose update nobody receives any more. *)
Definition worker_loses (vm : string) (m : Manager) : option Manager :=
  match workers m !! vm with
  | Some (mkWorker true (_ :: q)) => Some (set_workers (<[vm := mkWorker true q]> (workers m)) m)
  | _ => None
  end.

Section flow.
Context {W : Type} (push : Update → SR W unit).

(** What the tasks do.  A panic ends the service's task and drops the channel
    and the senders of all outcomes, which the workers notice. *)
Inductive move : Sys W → Sys W → Prop :=
| worker_sends m aw k sv out w vm m' :
    vm ∉ aw → worker_step vm m = Some m' →
    move (mkSys m aw k sv true out w) (mkSys m' ({[vm]} ∪ aw) k sv true out w)
| service_takes m aw k out w u :
    updates m !! k = Some u →
    move (mkSys m aw k None true out w) (mkSys m aw (S k) (Some u) true out w)
| service_replies m aw k out w u r w' :
    push u w = (r, w') → (∀ s, r ≠ Panic s) →
    move (mkSys m aw k (Some u) true out w)
         (mkSys m (aw ∖ {[vm_name u]}) k None true (out ++ [(u, r)]) w')
| service_panics m aw k out w u s w' :
    push u w = (Panic s, w') →
    move (mkSys m aw k (Some u) true out w) (mkSys m ∅ k None false out w')
| worker_unheard m aw k sv out w vm m' :
    vm ∉ aw → worker_loses vm m = Some m' →
    move (mkSys m aw k sv false out w) (mkSys m' aw k sv false out w).

(** The manager as [AdminService::new] finds it. *)
Definition started (m : Manager) (w : W) : Sys W := mkSys m ∅ 0 None true [] w.

(** ** The invariant *)

(** The updates that are under way: received or still in the channel. *)
Definition under_way (s : Sys W) : list Update :=
  option_list (serving s) ++ drop (taken s) (updates (manager s)).

(** While the service's task runs, what it received is what it has answered and
    what it pushes now; a worker waits exactly while an update of it is under
    way, and has at most one there. *)
Definition coherent (s : Sys W) : Prop :=
  running s = true →
  taken s ≤ length (updates (manager s)) ∧
  (outcomes s).*1 ++ option_list (serving s) = take (taken s) (updates (manager s)) ∧
  NoDup (vm_name <$> under_way s) ∧
  (∀ vm, vm ∈ awaiting s ↔ vm ∈ vm_name <$> under_way s).

(** Everything a VM has been sent: what went out and what is queued. *)
Definition as_policy (u : Update) : Policy := mkPolicy (policy u) (update_file u).
Definition queue_of (m : Manager) (vm : string) : list Policy :=
  match workers m !! vm with Some w => queue w | None => [] end.
Definition journey (vm : string) (m : Manager) : list Policy :=
  (as_policy <$> keep (λ u, bool_decide (vm_name u = vm)) (updates m)) ++ queue_of m vm.

#[local] Set Default Proof Using "Type".

Lemma worker_step_Some vm m m' :
  worker_step vm m = Some m' ↔
  ∃ p q, workers m !! vm = Some (mkWorker true (p :: q)) ∧
    m' = mkManager (policy_dir m) (configs m) (updates m ++ [mkUpdate vm (file p) (policy_name p)])
           (<[vm := mkWorker true q]> (workers m)).
Proof.
  unfold worker_step. split.
  - destruct (workers m !! vm) as [[[] [|p q]]|]; try done. intros [= <-]. by exists p, q.
  - by intros (p & q & -> & ->).
Qed.

Lemma worker_step_journey vm m m' k : worker_step vm m = Some m' → journey k m' = journey k m.
Proof.
  intros (p & q & Hw & ->)%worker_step_Some. unfold journey, queue_of. cbn.
  rewrite keep_app, fmap_app, <-app_assoc. f_equal. cbn. destruct (decide (vm = k)) as [->|Hne].
  - rewrite bool_decide_eq_true_2, lookup_insert_eq, Hw by done. by destruct p.
  - by rewrite bool_decide_eq_false_2, lookup_insert_ne by done.
Qed.

Lemma coherent_started m w : updates m = [] → coherent (started m w).
Proof.
  intros Hu _. unfold under_way. cbn. rewrite Hu. split_and!; [lia|done|constructor|].
  intros vm. split; intros Hv; [by apply not_elem_of_empty in Hv | by apply elem_of_nil in Hv].
Qed.
Lemma coherent_move s s' : move s s' → coherent s → coherent s'.
Proof.
  destruct 1 as [m aw k sv out w vm m' Hvm Hs|m aw k out w u Hu|m aw k out w u r w' _ _|
    m aw k out w u p w' _|m aw k sv out w vm m' _ _]; intros Hc; intros [=];
    destruct (Hc eq_refl) as (Hk & Ht & Hnd & Haw); unfold under_way in *; cbn in *.
  - apply worker_step_Some in Hs as (p & q & Hw & ->). cbn. rewrite length_app, take_app_le by lia.
    rewrite drop_app_le, app_assoc, fmap_app by lia. set (l := vm_name <$> _) in *. cbn.
    assert (vm ∉ l) by (by rewrite <-Haw).
    split_and!; [lia|done| |].
    + apply NoDup_app. split_and!; [done| |apply NoDup_singleton]. by intros x Hx ->%list_elem_of_singleton.
    + intros vm'. rewrite elem_of_union, elem_of_app, Haw, elem_of_singleton, list_elem_of_singleton. tauto.
  - pose proof (lookup_lt_Some _ _ _ Hu). rewrite app_nil_r in Ht.
    rewrite (drop_S _ _ _ Hu) in Hnd, Haw. rewrite Ht, (take_S_r _ _ _ Hu). by split_and!.
  - apply NoDup_cons in Hnd as [Hu Hnd]. rewrite fmap_app, app_nil_r. split_and!; [done..|].
    intros vm. rewrite elem_of_difference, Haw, elem_of_cons, elem_of_singleton. set_solver.
Qed.

Lemma journey_move s s' vm :
  move s s' → running s' = true → journey vm (manager s') = journey vm (manager s).
Proof. destruct 1; intros [=]; cbn; [by eapply worker_step_journey|done..]. Qed.

(** ** Progress *)

(** Queued messages, and the steps that are left: three for each message, two
    for an update in the channel, one for the one that is pushed. *)
Definition load (m : Manager) : nat :=
  sum_list_with (λ kw, length (queue kw.2)) (map_to_list (workers m)).
Definition work (s : Sys W) : nat :=
  3 * load (manager s) + 2 * length (drop (taken s) (updates (manager s)))
  + length (option_list (serving s)).

Lemma load_worker_step vm m m' : worker_step vm m = Some m' → load m = S (load m').
Proof.
  intros (p & q & Hw & ->)%worker_step_Some. unfold load. cbn.
  rewrite <-(insert_delete_eq (workers m) vm), map_to_list_insert by apply lookup_delete_eq.
  rewrite <-(map_to_list_delete (workers m) vm (mkWorker true (p :: q))) by done. cbn. lia.
Qed.

Lemma work_move s s' : move s s' → running s' = true → coherent s → work s = S (work s').
Proof.
  destruct 1 as [m aw k sv out w vm m' _ Hs|m aw k out w u Hu|m aw k out w u r w' _ _|
    m aw k out w u p w' _|m aw k sv out w vm m' _ _]; intros [=] Hc; unfold work; cbn.
  - rewrite (load_worker_step _ _ _ Hs). destruct (Hc eq_refl) as (Hk & _). cbn in Hk.
    apply worker_step_Some in Hs as (p & q & _ & ->). cbn. rewrite !length_drop, length_app. cbn. lia.
  - rewrite (drop_S _ _ _ Hu). cbn. lia.
  - lia.
Qed.

Definition all_receiving (m : Manager) : Prop :=
  ∀ vm w, workers m !! vm = Some w → receiving w = true.

Lemma all_receiving_step vm m m' : worker_step vm m = Some m' → all_receiving m → all_receiving m'.
Proof.
  intros (p & q & _ & ->)%worker_step_Some Hr k w. cbn.
  rewrite lookup_insert_Some. intros [[_ <-]|[_ Hw]]; [done | by eapply Hr].
Qed.

Lemma load_elem m vm w : workers m !! vm = Some w → length (queue w) ≤ load m.
Proof. intros Hw. unfold load. rewrite <-(map_to_list_delete _ _ _ Hw). cbn. lia. Qed.

Lemma load_pos m : load m ≠ 0 → ∃ vm w p q, workers m !! vm = Some w ∧ queue w = p :: q.
Proof.
  unfold load. setoid_rewrite <-elem_of_map_to_list.
  induction (map_to_list (workers m)) as [|[k w] l IH]; [done|]. cbn. intros Hl.
  destruct (queue w) as [|p q] eqn:E.
  - destruct IH as (vm & w' & p & q & Hin & Hq); [cbn in Hl; lia|].
    exists vm, w', p, q. split; [by right|done].
  - exists k, w, p, q. split; [by left|done].
Qed.

(** While there is something left to do, something can move. *)
Lemma progress s :
  coherent s → running s = true → all_receiving (manager s) → work s ≠ 0 → red move s.
Proof.
  destruct s as [m aw k sv ru out w]. intros Hc Hr Hall Hw. cbn in Hr, Hall. subst ru.
  destruct sv as [u|].
  { destruct (push u w) as [[a|e|p] w'] eqn:E; [..|eexists; by eapply service_panics];
      eexists; by eapply service_replies. }
  destruct (updates m !! k) as [u|] eqn:E; [eexists; by eapply service_takes|].
  apply lookup_ge_None, drop_ge in E. destruct (Hc eq_refl) as (_ & _ & _ & Haw).
  unfold work, under_way in *. cbn in *. rewrite E in Haw, Hw. cbn in Haw, Hw.
  destruct (load_pos m) as (vm & [r qs] & p & q & Hvm & Hq); [lia|]. pose proof (Hall _ _ Hvm).
  cbn in *. subst. eexists. eapply worker_sends with (vm := vm).
  - rewrite Haw. apply not_elem_of_nil.
  - apply worker_step_Some. eauto.
Qed.

Lemma work_zero s : work s = 0 → under_way s = [] ∧ ∀ vm, queue_of (manager s) vm = [].
Proof.
  unfold work, under_way. intros Hw. split.
  - destruct (serving s); cbn in *; [lia|]. apply nil_length_inv. lia.
  - intros vm. unfold queue_of. destruct (workers _ !! vm) as [w|] eqn:E; [|done].
    apply load_elem in E. apply nil_length_inv. lia.
Qed.

(** ** Runs *)

Section run.
Context (m0 : Manager) (w0 : W).
Context (no_updates : updates m0 = []) (receivers : all_receiving m0).
(** An invariant of the world and the outcomes, kept by every push of what was
    queued, which excludes panics. *)
Context (I : list (Update * res unit) → W → Prop).
Context (I_start : I [] w0).
Context (I_push : ∀ out w u r w', I out w → as_policy u ∈ queue_of m0 (vm_name u) →
  push u w = (r, w') → (∀ s, r ≠ Panic s) ∧ I (out ++ [(u, r)]) w').

Definition orderly (s : Sys W) : Prop :=
  running s = true ∧ coherent s ∧ all_receiving (manager s) ∧
  (∀ vm, journey vm (manager s) = queue_of m0 vm) ∧ I (outcomes s) (world s).

Lemma orderly_started : orderly (started m0 w0).
Proof using no_updates receivers I_start.
  split_and!; [done|by apply coherent_started|done| |done].
  intros vm. unfold journey. cbn. by rewrite no_updates.
Qed.

Lemma journey_update m u : u ∈ updates m → as_policy u ∈ journey (vm_name u) m.
Proof.
  intros Hu. apply elem_of_app. left. apply list_elem_of_fmap_2, elem_of_keep.
  by rewrite bool_decide_eq_true_2.
Qed.

Lemma orderly_move s s' : move s s' → orderly s → orderly s'.
Proof using I_push.
  intros Hm (Hr & Hc & Hall & Hj & HI).
  assert (running s' = true → all_receiving (manager s') → I (outcomes s') (world s') → orderly s')
    as Hgo.
  { intros Hr' Hall' HI'. split_and!; [done|by eapply coherent_move|done| |done].
    intros vm. rewrite <-Hj. by apply journey_move. }
  assert (∀ u, serving s = Some u → as_policy u ∈ queue_of m0 (vm_name u)) as Hu.
  { intros u Hs. rewrite <-Hj. apply journey_update. destruct (Hc Hr) as (_ & Ht & _).
    apply (subseteq_take (taken s) (updates (manager s))). rewrite <-Ht, Hs. apply elem_of_app. right. by left. }
  destruct Hm as [m aw k sv out w vm m' _ Hs|m aw k out w u _|m aw k out w u r w' Hp _|
    m aw k out w u p w' Hp|m aw k sv out w vm m' _ _]; cbn in *; [|by apply Hgo|..|done].
  - apply Hgo; [done| |done]. by eapply all_receiving_step.
  - apply Hgo; [done..|]. by eapply I_push; [..|exact Hp]; [|apply Hu].
  - destruct (I_push out w u (Panic p) w') as [Hn _]; [done|by apply Hu|done|]. by destruct (Hn p).
Qed.

Lemma orderly_steps n s : nsteps move n (started m0 w0) s → orderly s ∧ n + work s = 3 * load m0.
Proof using no_updates receivers I_start I_push.
  intros Hn.
  assert (∀ s1, nsteps move n s1 s → orderly s1 → orderly s ∧ n + work s = work s1) as Hgen.
  { clear Hn. induction n as [|n IH]; intros s1 H1 Ho; inversion H1 as [|? ? s2 ? H2 Hrest]; subst.
    - done.
    - pose proof (orderly_move _ _ H2 Ho) as Ho2. destruct (IH _ Hrest Ho2) as [Hos Hw].
      split; [done|]. destruct Ho as (_ & Hc & _), Ho2 as (Hr & _).
      rewrite (work_move _ _ H2 Hr Hc). lia. }
  destruct (Hgen _ Hn orderly_started) as [Ho ->]. split; [done|]. unfold work. cbn.
  rewrite no_updates. cbn. lia.
Qed.

(** Where no work is left, each VM's messages have been pushed, in order. *)
Lemma orderly_done s : orderly s → work s = 0 →
  ∀ vm, as_policy <$> keep (λ u, bool_decide (vm_name u = vm)) (outcomes s).*1 = queue_of m0 vm.
Proof.
  intros (Hr & Hc & _ & Hj & _) H0 vm. destruct (work_zero s H0) as (Hw & Hq).
  destruct (Hc Hr) as (_ & Ht & _). rewrite <-Hj. unfold journey. rewrite Hq, app_nil_r.
  apply app_nil in Hw as [Hs Hd]. rewrite Hs, app_nil_r in Ht. rewrite Ht, <-(app_nil_r (take _ _)).
  by rewrite <-Hd, take_drop.
Qed.

(** Before, each VM's pushed messages are the first ones of its queue. *)
Lemma orderly_prefix s vm : orderly s →
  as_policy <$> keep (λ u, bool_decide (vm_name u = vm)) (outcomes s).*1 `prefix_of` queue_of m0 vm.
Proof.
  intros (Hr & Hc & _ & Hj & _). destruct (Hc Hr) as (_ & Ht & _). rewrite <-Hj. unfold journey.
  rewrite <-(take_drop (taken s) (updates (manager s))), <-Ht, !keep_app, !fmap_app, <-!app_assoc.
  by apply prefix_app_r.
Qed.

Lemma orderly_red s : orderly s → (red move s ↔ work s ≠ 0).
Proof using I_push.
  intros Ho. split.
  - intros [s' Hm]. destruct (orderly_move _ _ Hm Ho) as (Hr & _).
    destruct Ho as (_ & Hc & _). rewrite (work_move _ _ Hm Hr Hc). lia.
  - destruct Ho as (Hr & Hc & Hall & _). by apply progress.
Qed.

(** A run can go on until then. *)
Lemma orderly_ends s : orderly s → ∃ s', nsteps move (work s) s s' ∧ orderly s' ∧ work s' = 0.
Proof using I_push.
  remember (work s) as n eqn:E. revert s E. induction n as [|n IH]; intros s E Ho.
  - exists s. split_and!; [constructor|done..].
  - assert (red move s) as [s1 Hm] by (apply orderly_red; [done|lia]).
    pose proof (orderly_move _ _ Hm Ho) as Ho1.
    assert (work s = S (work s1)) as Hw.
    { destruct Ho as (_ & Hc & _), Ho1 as (Hr & _). by apply work_move. }
    destruct (IH s1) as (s' & Hs & Hrest); [lia|done|]. exists s'. split; [by econstructor|done].
Qed.
End run.
End flow.

(** ** What a refresh leaves in the queues *)

Section refresh.
Context {order : HashOrder}.
Context (exists_path is_file : string → bool) (read_dir : string → option (list (option string))).
Context (lossy : string → string).

(** Sending changes neither the updates nor whether workers receive. *)
Definition quiet (m : Manager) : Prop := updates m = [] ∧ all_receiving m.

#[local] Set Default Proof Using "Type".

Lemma foldl_keeps {A B} (P : A → Prop) (f : A → B → A) l a :
  (∀ a b, P a → P (f a b)) → P a → P (foldl f a l).
Proof. intros Hf. revert a. induction l as [|b l IH]; intros a Ha; cbn; [done|]. by apply IH, Hf. Qed.

Lemma quiet_send vm name path m : quiet m → quiet (snd (send_to_vm lossy vm name path m)).
Proof.
  intros [Hu Hr]. unfold send_to_vm. destruct (workers m !! vm) as [w|] eqn:Hw; [|done].
  rewrite (Hr _ _ Hw). split; [done|]. intros k w'. cbn. rewrite lookup_insert_Some.
  intros [[_ <-]|[_ Hk]]; [done | by eapply Hr].
Qed.

Lemma quiet_new dir c : quiet (new dir c).
Proof.
  unfold new. apply foldl_keeps.
  - intros m vm [Hu Hr]. unfold add_worker. destruct (workers m !! vm); [done|]. split; [done|].
    intros k w. cbn. rewrite lookup_insert_Some. intros [[_ <-]|[_ Hk]]; [done | by eapply Hr].
  - split; [done|]. intros vm w. cbn. by rewrite lookup_empty.
Qed.

Lemma quiet_force m : quiet m → quiet (snd (force_update_all_vms exists_path is_file read_dir lossy m)).
Proof.
  unfold force_update_all_vms. cbn [snd]. apply foldl_keeps. intros m' vm. unfold send_all_policies.
  cbn [snd]. apply foldl_keeps. intros m2 name. unfold send_policy. destruct (_ && _); [|done].
  apply foldl_keeps. intros m3 path. apply quiet_send.
Qed.

Lemma no_worker_send k vm name path m :
  workers m !! k = None → workers (snd (send_to_vm lossy vm name path m)) !! k = None.
Proof.
  intros Hk. unfold send_to_vm. destruct (workers m !! vm) as [[[] q]|] eqn:Hw; [|done..]. cbn.
  rewrite lookup_insert_ne; [done|]. intros ->. by rewrite Hw in Hk.
Qed.

Lemma new_settings dir c : configs (new dir c) = c ∧ policy_dir (new dir c) = dir.
Proof.
  unfold new. apply (foldl_keeps (λ m, configs m = c ∧ policy_dir m = dir)); [|done].
  intros m k. unfold add_worker. by destruct (workers m !! k).
Qed.

(** The updates a configuration asks for: a VM that is listed for a policy gets
    the files in the policy's directory. *)
Definition listed (dir : string) (c : PolicyConfig) (u : Update) : Prop :=
  ∃ p path, policies c !! policy u = Some p ∧ vm_name u ∈ vms p ∧
    exists_path (path_join dir (policy u)) = true ∧
    path ∈ policy_files is_file read_dir (path_join dir (policy u)) ∧ update_file u = lossy path.

Lemma listed_share dir c u :
  listed dir c u ↔
  as_policy u ∈ policies_for exists_path is_file read_dir lossy (new dir c) (vm_name u).
Proof. rewrite elem_of_policies_for. destruct (new_settings dir c) as [-> ->]. done. Qed.

(** After a refresh each VM's queue holds its share. *)
Lemma refreshed_queue dir c vm :
  queue_of (snd (force_update_all_vms exists_path is_file read_dir lossy (new dir c))) vm =
  policies_for exists_path is_file read_dir lossy (new dir c) vm.
Proof.
  unfold queue_of. destruct (new_workers dir c vm) as [[Hw _]|[Hw Hno]].
  - erewrite force_update_lookup; [|intros k [w Hk]|exact Hw]; [done|].
    exists w. split; [done|]. by eapply quiet_new.
  - assert (workers (snd (force_update_all_vms exists_path is_file read_dir lossy (new dir c))) !! vm
      = None) as ->.
    { unfold force_update_all_vms. cbn [snd]. apply (foldl_keeps (λ m, workers m !! vm = None)); [|done].
      intros m k. unfold send_all_policies. cbn [snd]. apply (foldl_keeps (λ m, workers m !! vm = None)).
      intros m2 name. unfold send_policy. destruct (_ && _); [|done].
      apply (foldl_keeps (λ m, workers m !! vm = None)). intros m3 path. apply no_worker_send. }
    symmetry. apply elem_of_nil_inv. intros pol Hp. apply Hno.
    apply elem_of_policies_for in Hp as (p & path & Hc & Hv & _). exists (policy_name pol), p.
    destruct (new_settings dir c) as [<- _]. done.
Qed.
End refresh.
End Flow.

Module Deployment.
Import Naming Types Wire Server Upload Agent Delivery Manager Flow.

Section deployment.
Context (host_fault : HostOp → files → option error) (reads : string → World → Reads).
Context (storePath : string) (fault : Op → files → option error).
Context (temp_name : string → files → string) (copied : string → string → files → nat).
Context (sha256_hex : string → string) (show_error : error → string).
Context (marshal : gmap string PolicyDetail → res string) (show_status : Status → string).

(** What the service's task does with an update. *)
Definition push_update (u : Update) : SR World unit :=
  push host_fault reads storePath fault temp_name copied sha256_hex show_error marshal show_status
    (vm_name u) (update_file u) (policy u).

(** Where the agent of a VM is. *)
Definition located (vm : string) (w : World) (ec : EndpointConfig) (st : State) : Prop :=
  agent_endpoint (agent_service (Vm vm)) (admin w) = Ok ec ∧ peer w ec = Some st.

(** The admin's disk has the file of each update, one content for each policy,
    and no update's temporary copy is another one's file; the agents are
    registered, reachable and know the policies; they are consistent. *)
Record deployable (content : string → string) (todo : Update → Prop) (w : World) : Prop := {
  file_there u : todo u → host_disk w !! update_file u = Some (content (policy u));
  not_empty u : todo u → content (policy u) ≠ "" ∧ policy u ≠ "";
  no_clash u u' : todo u → todo u' → with_extension (update_file u) "tmp" ≠ update_file u';
  agent_there u : todo u → ∃ ec st, located (vm_name u) w ec st ∧ is_Some (policyMap st !! policy u);
  agents_consistent ec st : peer w ec = Some st →
    separate storePath temp_name (policyMap st) ∧ installed storePath sha256_hex st
}.

(** The agent of the update's VM holds the content, in its store and at the
    destination it had configured in [w0]. *)
Definition deployed (content : string → string) (w0 w : World) (u : Update) : Prop :=
  ∃ ec st0 st det, located (vm_name u) w0 ec st0 ∧ policyMap st0 !! policy u = Some det ∧
    peer w ec = Some st ∧
    disk st !! policy_file storePath (policy u) = Some (content (policy u)) ∧
    (Destination det ≠ "" → disk st !! Destination det = Some (content (policy u))).

#[local] Set Default Proof Using "Type".

Definition same_destinations (t t' : gmap string PolicyDetail) : Prop :=
  ∀ n, Destination <$> t !! n = Destination <$> t' !! n.

Lemma same_destinations_Some t t' n : same_destinations t t' → is_Some (t !! n) → is_Some (t' !! n).
Proof. intros Hs. rewrite <-(fmap_is_Some Destination), Hs, fmap_is_Some. done. Qed.

Lemma owns_same t t' n p : same_destinations t t' → owns storePath t n p → owns storePath t' n p.
Proof.
  intros Hs [->|(d & Hd & Hne & ->)]; [by left|]. right. specialize (Hs n). rewrite Hd in Hs. cbn in Hs.
  symmetry in Hs. apply fmap_Some in Hs as (d' & Hd' & E). exists d'. rewrite <-E. done.
Qed.

Lemma separate_same t t' :
  same_destinations t t' → separate storePath temp_name t → separate storePath temp_name t'.
Proof.
  intros Hs (H1 & H2 & H3 & H4). assert (same_destinations t' t) as Hs' by (intros n; by rewrite Hs).
  split_and!; [| | |done].
  - intros n m p Hn Hm Ho Ho'. apply (H1 n m p); by eauto using same_destinations_Some, owns_same.
  - intros n p Hn Ho. apply (H2 n p); by eauto using same_destinations_Some, owns_same.
  - intros n p d Hn Ho. apply (H3 n p d); by eauto using same_destinations_Some, owns_same.
Qed.

Section run.
Context (no_fault : ∀ op d, fault op d = None) (no_host_fault : ∀ op d, host_fault op d = None).
Context (reads_ok : ∀ p w o, read_fault (reads p w) o = false).
Context (collision_free : ∀ c c', sha256_hex c = sha256_hex c' → c = c').
Context (hex_nonempty : ∀ c, sha256_hex c ≠ "").
Context (content : string → string) (todo : Update → Prop) (w0 : World).
Context (ready : deployable content todo w0).

(** The policy is recorded at the agent with the content's hash. *)
Definition recorded (w : World) (u : Update) : Prop :=
  ∃ ec st det, located (vm_name u) w ec st ∧ policyMap st !! policy u = Some det ∧
    Sha det = sha256_hex (content (policy u)).

(** Kept by every push. *)
Definition deploying (out : list (Update * res unit)) (w : World) : Prop :=
  admin w = admin w0 ∧ deployable content todo w ∧
  (∀ ec st, peer w ec = Some st →
     ∃ st0, peer w0 ec = Some st0 ∧ same_destinations (policyMap st0) (policyMap st)) ∧
  Forall (λ o, o.2 = Ok tt ∧ recorded w o.1) out.

Lemma deploying_start : deploying [] w0.
Proof using ready. split_and!; [done|done| |done]. intros ec st Hst. by exists st. Qed.

(** One push, seen from all agents: each stays, with the same destinations, and
    what it records is what it did or, for the pushed policy, the content. *)
Lemma push_update_effect u w :
  deployable content todo w → todo u →
  ∃ w', push_update u w = (Ok tt, w') ∧ admin w' = admin w ∧ recorded w' u ∧
    host_disk w' = delete (with_extension (update_file u) "tmp") (host_disk w) ∧
    (∀ ec st', peer w' ec = Some st' → ∃ st, peer w ec = Some st ∧
       same_destinations (policyMap st) (policyMap st') ∧ installed storePath sha256_hex st') ∧
    (∀ ec st, peer w ec = Some st → ∃ st', peer w' ec = Some st' ∧
       ∀ m, policyMap st' !! m = policyMap st !! m ∨
         m = policy u ∧ ∃ d, policyMap st' !! m = Some (mkDetail d (sha256_hex (content m)))).
Proof using no_fault no_host_fault reads_ok collision_free hex_nonempty.
  intros Hd Hu. destruct (not_empty _ _ _ Hd u Hu) as [Hc Hn].
  destruct (agent_there _ _ _ Hd u Hu) as (ec & st & [Hec Hst] & [det Hdet]).
  destruct (agents_consistent _ _ _ Hd ec st Hst) as [Hsep Hinst].
  destruct (push_Ok host_fault reads storePath fault temp_name copied sha256_hex show_error marshal
    show_status no_fault collision_free hex_nonempty no_host_fault reads_ok (vm_name u) (update_file u)
    (policy u) w ec st det (content (policy u)))
    as (w' & st' & Hp & Hst' & _ & Hi & Hn' & Ho & _ & Hdisk & Hadm & Hother); try done;
    [by eapply file_there | by eapply no_clash|].
  exists w'. split_and!; [done|done| |done| |].
  - exists ec, st', (mkDetail (Destination det) (sha256_hex (content (policy u)))).
    unfold located. by rewrite Hadm.
  - intros ec1 st1 H1. destruct (decide (ec1 = ec)) as [->|Hne].
    + rewrite Hst' in H1. simplify_eq. exists st. split_and!; [done| |done]. intros m.
      destruct (decide (m = policy u)) as [->|Hm]; [by rewrite Hdet, Hn' | by rewrite Ho].
    + rewrite Hother in H1 by done. exists st1. split_and!; [done|done|].
      by eapply agents_consistent.
  - intros ec1 st1 H1. destruct (decide (ec1 = ec)) as [->|Hne].
    + rewrite Hst in H1. simplify_eq. exists st'. split; [done|]. intros m.
      destruct (decide (m = policy u)) as [->|Hm]; [right; eauto | left; by apply Ho].
    + exists st1. rewrite Hother by done. eauto.
Qed.

Lemma deployable_after u w w' :
  deployable content todo w → todo u → admin w' = admin w →
  host_disk w' = delete (with_extension (update_file u) "tmp") (host_disk w) →
  (∀ ec st', peer w' ec = Some st' → ∃ st, peer w ec = Some st ∧
     same_destinations (policyMap st) (policyMap st') ∧ installed storePath sha256_hex st') →
  (∀ ec st, peer w ec = Some st → is_Some (peer w' ec)) →
  deployable content todo w'.
Proof.
  intros [Hf He Hcl Ha Hc] Hu Hadm Hdisk Hback Hfwd. split; [|done|done| |].
  - intros v Hv. rewrite Hdisk, lookup_delete_ne by eauto. by apply Hf.
  - intros v Hv. destruct (Ha v Hv) as (ec & st & [Hec Hst] & Hp).
    destruct (Hfwd ec st Hst) as [st' Hst']. destruct (Hback ec st' Hst') as (st1 & H1 & Hs & _).
    simplify_eq. exists ec, st'. unfold located. rewrite Hadm. split; [done|].
    by eapply same_destinations_Some.
  - intros ec st' Hst'. destruct (Hback ec st' Hst') as (st & Hst & Hs & Hi).
    split; [|done]. eapply separate_same; [exact Hs|]. by eapply Hc.
Qed.

Lemma deploying_push out w u :
  deploying out w → todo u →
  ∃ w', push_update u w = (Ok tt, w') ∧ deploying (out ++ [(u, Ok tt)]) w'.
Proof using no_fault no_host_fault reads_ok collision_free hex_nonempty.
  intros (Hadm & Hd & Hdest & Hout) Hu.
  destruct (push_update_effect u w Hd Hu) as (w' & Hp & Hadm' & Hrec & Hdisk & Hback & Hfwd).
  exists w'. split; [done|]. split_and!.
  - by rewrite Hadm'.
  - eapply deployable_after; [done..|]. intros ec st Hst. destruct (Hfwd ec st Hst) as (st' & -> & _). done.
  - intros ec st' Hst'. destruct (Hback ec st' Hst') as (st & Hst & Hs & _).
    destruct (Hdest ec st Hst) as (st0 & H0 & Hs0). exists st0. split; [done|].
    intros n. by rewrite Hs0.
  - apply Forall_app. split; [|by repeat constructor]. eapply Forall_impl; [exact Hout|].
    intros [v r] [Hr (ec & st & det & [Hec Hst] & Hdet & Hsha)]. split; [done|].
    destruct (Hfwd ec st Hst) as (st' & Hst' & Hm). cbn in *.
    assert (∃ det', policyMap st' !! policy v = Some det' ∧ Sha det' = sha256_hex (content (policy v)))
      as (det' & Hdet' & Hsha').
    { destruct (Hm (policy v)) as [E|[E [d Hd']]]; [rewrite E; eauto | eauto]. }
    exists ec, st', det'. unfold located. by rewrite Hadm'.
Qed.

Lemma recorded_deployed out w u :
  deploying out w → (u, Ok tt) ∈ out → deployed content w0 w u.
Proof using collision_free hex_nonempty.
  intros (Hadm & Hd & Hdest & Hout) Hu. rewrite Forall_forall in Hout.
  destruct (Hout _ Hu) as [_ (ec & st & det & [Hec Hst] & Hdet & Hsha)]. cbn in *.
  destruct (Hdest ec st Hst) as (st0 & H0 & Hs). destruct (agents_consistent _ _ _ Hd ec st Hst) as [_ Hi].
  destruct (Hi _ _ Hdet) as (c & Hc & Hh); [rewrite Hsha; apply hex_nonempty|].
  rewrite Hsha in Hc. apply collision_free in Hc as ->. destruct (Hh _ Hdet) as [Hfile Hat].
  specialize (Hs (policy u)). rewrite Hdet in Hs. cbn in Hs. apply fmap_Some in Hs as (det0 & Hdet0 & E).
  exists ec, st0, st, det0. unfold located. rewrite <-Hadm, <-E. done.
Qed.
End run.
End deployment.
End Deployment.

(** ** Properties *)

Module PolicyFlowProps.
Import Naming Types Wire Server Upload Agent Delivery Config Manager Flow Deployment.

(** The workers and the service's task push what is queued, whatever the
    order in which they get to run: a run from a manager whose workers receive
    has at most three steps for each queued message and can go on until it has
    had that many; no VM ever has two updates under way; the outcomes a worker
    has seen are those of the first messages of its queue, in order; and when
    the run has ended they are those of all of them. *)
Theorem updates_flow {W} (push : Update → SR W unit) m w n s :
  updates m = [] → all_receiving m → (∀ u w s w', push u w ≠ (Panic s, w')) →
  nsteps (move push) n (started m w) s →
  n ≤ 3 * load m ∧ (red (move push) s ↔ n < 3 * load m) ∧
  NoDup (vm_name <$> under_way s) ∧
  (∀ vm, as_policy <$> keep (λ u, bool_decide (vm_name u = vm)) (outcomes s).*1 `prefix_of` queue_of m vm) ∧
  (n = 3 * load m →
     ∀ vm, as_policy <$> keep (λ u, bool_decide (vm_name u = vm)) (outcomes s).*1 = queue_of m vm).
Proof.
  intros Hu Hr Hp Hn. set (I := λ (_ : list (Update * res unit)) (_ : W), True).
  assert (∀ out w u r w', I out w → as_policy u ∈ queue_of m (vm_name u) →
    push u w = (r, w') → (∀ s, r ≠ Panic s) ∧ I (out ++ [(u, r)]) w') as HI.
  { intros out w1 u r w2 _ _ E. split; [|done]. intros p ->. by eapply Hp. }
  destruct (orderly_steps push m w Hu Hr I Logic.I HI n s Hn) as [Ho Hw].
  split_and!; [lia|rewrite (orderly_red push m I HI s Ho); lia| | |].
  - destruct Ho as (Hrun & Hc & _). by destruct (Hc Hrun) as (_ & _ & ? & _).
  - intros vm. by eapply orderly_prefix.
  - intros -> vm. eapply orderly_done; [done|lia].
Qed.

(** C4: A refresh deploys: the policies of a new manager are distributed by
    [force_update_all_vms], the workers and the service's task, in any order of
    their steps.  The run ends, every push has succeeded, and every VM listed
    for a policy has exactly its bytes in its store and at the configured
    destination - under these conditions: no system call fails; the hash is free
    of collisions and not empty; and the world is [deployable], that is, the
    admin has the file of each listed policy, with one content for each policy,
    neither that nor the policy's name empty, no file's temporary copy is
    another's file; every listed VM's agent is registered, reachable and knows
    the policy; and every agent is consistent: the paths of its policies and its
    temporary file are distinct, and where it has recorded a hash, its store and
    the destination hold a content with that hash.  The last is what a failed
    deployment destroys ([failed_deploy_sticks]). *)
Theorem refresh_deploys `{HashOrder} exists_path is_file read_dir lossy host_fault reads storePath fault
    temp_name copied sha256_hex show_error marshal show_status dir c content w :
  let m := snd (force_update_all_vms exists_path is_file read_dir lossy (new dir c)) in
  let step := move (push_update host_fault reads storePath fault temp_name copied sha256_hex
                      show_error marshal show_status) in
  (∀ op d, fault op d = None) → (∀ op d, host_fault op d = None) →
  (∀ p w o, read_fault (reads p w) o = false) →
  (∀ c c', sha256_hex c = sha256_hex c' → c = c') → (∀ c, sha256_hex c ≠ "") →
  deployable storePath temp_name sha256_hex content
    (listed exists_path is_file read_dir lossy dir c) w →
  (∃ s, nsteps step (3 * load m) (started m w) s) ∧
  ∀ n s, nsteps step n (started m w) s →
    (n < 3 * load m ∧ red step s) ∨
    (n = 3 * load m ∧ ¬ red step s ∧ Forall (λ o, o.2 = Ok tt) (outcomes s) ∧
     ∀ u, listed exists_path is_file read_dir lossy dir c u →
       deployed storePath content w (world s) u).
Proof.
  intros m step Hf Hhf Hrd Hinj Hhex Hready.
  destruct (quiet_force exists_path is_file read_dir lossy (new dir c) (quiet_new dir c)) as [Hu Hr].
  set (todo := listed _ _ _ _ _ _) in Hready. set (I := deploying storePath temp_name sha256_hex content todo w).
  assert (∀ out w u r w', I out w → as_policy u ∈ queue_of m (vm_name u) →
    push_update host_fault reads storePath fault temp_name copied sha256_hex show_error marshal
      show_status u w = (r, w') → (∀ s, r ≠ Panic s) ∧ I (out ++ [(u, r)]) w') as HI.
  { intros out w1 u r w2 Hi Hq E. unfold m in Hq. rewrite refreshed_queue in Hq. apply listed_share in Hq.
    edestruct (deploying_push host_fault reads) as (w3 & E3 & Hi3); [done..|exact Hi|exact Hq|].
    rewrite E3 in E. by simplify_eq. }
  pose proof (deploying_start _ _ _ _ _ _ Hready) as H0. fold I in H0.
  split.
  { destruct (orderly_ends _ m I HI (started m w)) as (s & Hs & _); [by apply orderly_started|].
    destruct (orderly_steps _ m w Hu Hr I H0 HI 0 (started m w)) as [_ Hw]; [constructor|].
    exists s. by rewrite <-Hw. }
  intros n s Hn. destruct (orderly_steps _ m w Hu Hr I H0 HI n s Hn) as [Ho Hw].
  pose proof (orderly_red _ m I HI s Ho) as Hred.
  destruct (decide (work s = 0)) as [Hz|Hz]; [right | left; split; [lia | by apply Hred]].
  split_and!; [lia|by intros ?%Hred| |].
  - destruct Ho as (_ & _ & _ & _ & _ & _ & _ & Hout). eapply Forall_impl; [exact Hout|]. by intros ? [].
  - intros u Hl%listed_share. pose proof (orderly_done m I s Ho Hz (vm_name u)) as Hd. unfold m in Hd.
    rewrite refreshed_queue in Hd. rewrite <-Hd in Hl.
    apply list_elem_of_fmap in Hl as (u1 & E & [Hin Hvm%bool_decide_eq_true]%elem_of_keep).
    assert (u1 = u) as -> by (destruct u, u1; cbn in *; by simplify_eq).
    apply list_elem_of_fmap in Hin as ([u' r] & -> & Hin). destruct Ho as (_ & _ & _ & _ & Hi).
    destruct (Hi) as (_ & _ & _ & Hout). rewrite Forall_forall in Hout.
    destruct (Hout _ Hin) as [[= ->] _]. by eapply recorded_deployed.
Qed.

(** ** A concrete refresh *)

Definition ex_policies : PolicyConfig :=
  mkConfig (mkSource NoSource None None None) {["fw" := mkPolicyConfig None ["app-vm"] None]}.
Definition ex_read_dir (p : string) : option (list (option string)) :=
  if bool_decide (p = "/policies/fw") then Some [None; Some "/policies/fw/rules.json"] else None.
Definition ex_flow_world : World :=
  mkWorld PolicyClientProps.ex_admin {["/policies/fw/rules.json" := "allow all"]}
    (λ ec, if decide (ec = PolicyClientProps.ex_ec) then Some (PolicyClientProps.ex_agent "" "") else None).
Abbreviation ex_new := (new (order := map_to_list_order) "/policies" ex_policies).
Abbreviation ex_refreshed :=
  (snd (force_update_all_vms (order := map_to_list_order) (λ _, true) (λ _, true) ex_read_dir (λ p, p) ex_new)).
Abbreviation ex_push_update :=
  (push_update (λ _ _, None) (PolicyClientProps.ex_reads None) "/store" (λ _ _, None)
     PolicyClientProps.ex_temp (λ _ _ _, 1) PolicyClientProps.ex_sha (λ _, "") (λ _, Ok "{}") (λ _, "")).

Abbreviation ex_listed := (listed (λ _, true) (λ _, true) ex_read_dir (λ p, p) "/policies" ex_policies).

Lemma ex_share u : ex_listed u ↔ u = mkUpdate "app-vm" "/policies/fw/rules.json" "fw".
Proof.
  split.
  - intros (p & path & Hp & Hv & _ & Hf & E). destruct u as [vm f n]. cbn in Hp, Hv, Hf, E.
    apply lookup_singleton_Some in Hp as [<- <-]. apply list_elem_of_singleton in Hv as ->.
    vm_compute in Hf. apply list_elem_of_singleton in Hf as ->. by subst.
  - intros ->. do 2 eexists. split; [vm_compute; reflexivity|]. split; [left|]. split; [done|].
    split; [vm_compute; left|done].
Qed.

Definition ex_queued : Manager :=
  mkManager "/policies" ex_policies [] {["app-vm" := mkWorker true [mkPolicy "fw" "/policies/fw/rules.json"]]}.

Lemma updates_flow_witness :
  ∃ s, nsteps (move (λ _, mret tt : SR unit unit)) 3 (started ex_queued tt) s ∧
    (outcomes s).*1 = [mkUpdate "app-vm" "/policies/fw/rules.json" "fw"] ∧
    ¬ red (move (λ _, mret tt : SR unit unit)) s.
Proof.
  assert (∃ s, nsteps (move (λ _, mret tt : SR unit unit)) 3 (started ex_queued tt) s ∧
    (outcomes s).*1 = [mkUpdate "app-vm" "/policies/fw/rules.json" "fw"]) as (s & Hn & Ho).
  { eexists. split.
    - eapply nsteps_l;
        [eapply (worker_sends _ ex_queued _ _ _ _ _ "app-vm"); [set_solver | vm_compute; reflexivity]|].
      eapply nsteps_l; [eapply service_takes; reflexivity|].
      eapply nsteps_l; [by eapply service_replies|]. apply nsteps_O.
    - reflexivity. }
  exists s. split; [exact Hn|]. split; [exact Ho|].
  destruct (updates_flow (λ _, mret tt : SR unit unit) ex_queued tt 3 s) as (_ & Hred & _).
  - reflexivity.
  - intros vm w. cbn. by intros [<- <-]%lookup_singleton_Some.
  - done.
  - exact Hn.
  - rewrite Hred. vm_compute. lia.
Defined.

Lemma refresh_deploys_witness :
  ∃ s, nsteps (move ex_push_update) 3 (started ex_refreshed ex_flow_world) s ∧
    deployed "/store" (λ _, "allow all") ex_flow_world (world s)
      (mkUpdate "app-vm" "/policies/fw/rules.json" "fw").
Proof.
  destruct (@refresh_deploys map_to_list_order (λ _, true) (λ _, true) ex_read_dir (λ p, p)
    (λ _ _, None) (PolicyClientProps.ex_reads None) "/store" (λ _ _, None)
     PolicyClientProps.ex_temp (λ _ _ _, 1) PolicyClientProps.ex_sha (λ _, "") (λ _, Ok "{}") (λ _, "")
     "/policies" ex_policies (λ _, "allow all") ex_flow_world) as [[s Hs] Hall].
  - done.
  - done.
  - done.
  - by intros c c' [= ?].
  - done.
  - split.
    + by intros u ->%ex_share.
    + by intros u ->%ex_share.
    + intros u u' ->%ex_share ->%ex_share. by vm_compute.
    + intros u ->%ex_share. exists PolicyClientProps.ex_ec, (PolicyClientProps.ex_agent "" "").
      split; [split; vm_compute; reflexivity | by eexists].
    + intros ec st. cbn. case_decide; [|done]. intros [= <-]. split; [apply PolicyClientProps.ex_separate|].
      by intros n d [-> ->]%PolicyClientProps.ex_entry_only.
  - exists s. split; [exact Hs|]. destruct (Hall _ s Hs) as [[Hlt _]|(_ & _ & _ & Hd)]; [lia|].
    by apply Hd, ex_share.
Defined.

(** The temporary copy lies beside the policy files: pushing [rules.json]
    removes a policy file [rules.tmp] of the same directory, and pushing
    [rules.tmp] itself empties and removes it. *)
Theorem temporary_copy_clashes :
  let w := mkWorld PolicyClientProps.ex_admin
    {["/policies/fw/rules.json" := "allow all"; "/policies/fw/rules.tmp" := "deny all"]}
    (peer ex_flow_world) in
  host_disk (snd (ex_push_update (mkUpdate "app-vm" "/policies/fw/rules.json" "fw") w))
    !! "/policies/fw/rules.tmp" = None ∧
  (let '(r, w') := ex_push_update (mkUpdate "app-vm" "/policies/fw/rules.tmp" "fw") w in
   is_ok r = false ∧ host_disk w' !! "/policies/fw/rules.tmp" = None).
Proof. vm_compute. repeat split; reflexivity. Qed.
End PolicyFlowProps.
