(* ===== verification/HostUpdater.v ===== *)
(** * The updater as the host's agent runs it ([bin/ota-update.rs])

    [Main]: the program's dispatch and how its outcome becomes output and an
    exit code.  [HostAgent]: the process the agent's exec service starts, with
    which the client library, the admin service, the agent and the updater are
    connected end to end.

    Argument parsing is clap's and a parameter; what is relied on of it are the
    command lines that [CachixArgs] reads as [CachixOptions] declares them.
    Parameters are also whether the process starts and ends by itself, and the
    split of its output into the pieces the agent reads.  The image and registry commands
    are those of [ImageInstall] and [OciPull], on other parts of the host; here
    they are parameters. *)

From S2P Require Import Prelude RustStr RustInt RustPath CommonTypes AdminRegistry AdminAuth ImageUki AdminServer Generations AdminClient PolicyClient AdminOta.
From Stdlib Require Import Ascii.

Module Main.
Import Profile Cachix UpdateServer OtaUpdate.

(** [Commands] *)
Inductive Commands (I R : Type) :=
| Get
| Local (path : option string) (source : string) (no_check_signs : bool) (pin_name : string)
| Query (source : string) (raw current : bool) (pin_name : string)
| CachixUpdate (pin_name : string) (token : option string) (cache : string) (cachix_host : option string)
| Image (image : I)
| Registry (registry : R).
#[global] Arguments Get {I R}.
#[global] Arguments Local {I R} _ _ _ _.
#[global] Arguments Query {I R} _ _ _ _.
#[global] Arguments CachixUpdate {I R} _ _ _ _.
#[global] Arguments Image {I R} _.
#[global] Arguments Registry {I R} _.

(** The host: processes and the rest of its state [S], its files, the libraries
    the program uses, and the commands that are modelled elsewhere. *)
Record Host (S I R : Type) := mkHost {
  spawn : list string → S → res (option Z) * S;
  unlink : string → S → S;
  fs : FS;
  captures : string → string → option string;
  is_match : string → string → bool;
  decode_version : string → res NixosVersion;
  decode_bootspec : string → res BootSpec;
  modules_dir : string → res (list (res (option string)));
  bootctl_info : res (list Bootctl.BootctlItem);
  http : Request → res Response;
  decode_info : string → res CacheInfo;
  decode_pins : string → res (list Pin);
  decode_updates : string → res (list UpdateInfo);
  encode_updates : list UpdateInfo → res string;
  show_cachix : CachixError → string;
  to_string_pretty : list GenerationDetails → res string;
  handle_image : I → SR (Profile.World (S := S)) (list string);
  handle_registry : R → SR (Profile.World (S := S)) (list string)
}.
#[global] Arguments spawn {S I R} _.
#[global] Arguments unlink {S I R} _.
#[global] Arguments fs {S I R} _.
#[global] Arguments captures {S I R} _.
#[global] Arguments is_match {S I R} _.
#[global] Arguments decode_version {S I R} _.
#[global] Arguments decode_bootspec {S I R} _.
#[global] Arguments modules_dir {S I R} _.
#[global] Arguments bootctl_info {S I R} _.
#[global] Arguments http {S I R} _.
#[global] Arguments decode_info {S I R} _.
#[global] Arguments decode_pins {S I R} _.
#[global] Arguments decode_updates {S I R} _.
#[global] Arguments encode_updates {S I R} _.
#[global] Arguments show_cachix {S I R} _.
#[global] Arguments to_string_pretty {S I R} _.
#[global] Arguments handle_image {S I R} _.
#[global] Arguments handle_registry {S I R} _.

Section main.
Context {S I R : Type} (h : Host S I R).

Definition host_generations : res (list GenerationDetails) :=
  read_generations (fs h) (captures h) (is_match h) (decode_version h) (decode_bootspec h)
    (modules_dir h) (bootctl_info h).
Definition cachix_update (pin_name : string) (token cachix_host : option string) (cache : string)
    : SR (Profile.World (S := S)) unit :=
  perform_cachix_update (spawn h) (unlink h) (fs h) (http h) (decode_info h) (decode_pins h)
    (decode_bootspec h) (show_cachix h) pin_name token cachix_host cache.

(** What is printed, line by line. *)
Definition get_generations : res (list string) :=
  gens ← with_context "While read list of generations" host_generations;
  json ← to_string_pretty h gens;
  Ok [json].

Definition main (command : Commands I R) : SR (Profile.World (S := S)) (list string) :=
  match command with
  | Get => SR_lift get_generations
  | Local path source no_check_signs pin_name =>
      _ ← perform_local_update (spawn h) (unlink h) (http h) (decode_updates h)
            path source pin_name no_check_signs;
      mret []
  | Query source raw current pin_name =>
      SR_lift (query_updates (http h) (decode_updates h) (encode_updates h) source pin_name raw current)
  | CachixUpdate pin_name token cache cachix_host =>
      _ ← cachix_update pin_name token cachix_host cache; mret []
  | Image image => handle_image h image
  | Registry registry => handle_registry h registry
  end.
End main.
End Main.

Module CachixArgs.
Import Main.

(** [CachixOptions]: a positional argument and three options with a value, each
    at most once.  A value that begins with a hyphen, the form [--option=value]
    and [--] are not read here. *)
Record Parsed := mkParsed {
  pin_name : option string;
  token : option string;
  cache : option string;
  cachix_host : option string
}.

Definition is_value (s : string) : bool := negb (starts_with "-" s).

(** A field that is given for the first time. *)
Definition once (field : option string) (v : string) : option (option string) :=
  if is_value v then match field with None => Some (Some v) | Some _ => None end else None.

Fixpoint read_args (args : list string) (o : Parsed) : option Parsed :=
  match args with
  | [] => Some o
  | a :: args =>
      if is_value a then
        v ← once (pin_name o) a; read_args args (mkParsed v (token o) (cache o) (cachix_host o))
      else
        match args with
        | [] => None
        | x :: args =>
            if bool_decide (a = "--token") then
              v ← once (token o) x; read_args args (mkParsed (pin_name o) v (cache o) (cachix_host o))
            else if bool_decide (a = "--cache") then
              v ← once (cache o) x; read_args args (mkParsed (pin_name o) (token o) v (cachix_host o))
            else if bool_decide (a = "--cachix-host") then
              v ← once (cachix_host o) x; read_args args (mkParsed (pin_name o) (token o) (cache o) v)
            else None
        end
  end.

(** The command: the token may come from [CACHIX_TOKEN], the cache has a
    default. *)
Definition parse_cachix {I R} (CACHIX_TOKEN : option string) (args : list string) : option (Commands I R) :=
  o ← read_args args (mkParsed None None None None);
  pin ← pin_name o;
  Some (CachixUpdate pin (match token o with Some t => Some t | None => CACHIX_TOKEN end)
          (default "ghaf-dev" (cache o)) (cachix_host o)).
End CachixArgs.

Module HostAgent.
Import Types Wire Server Exec ExecAgent Main.

Definition nl : string := String "010" "".

Section agent.
Context {S I R : Type} (h : Host S I R).
(** clap: a command, or what it prints and the exit code. *)
Context (parse_args : list string → (list Output * Z) + Commands I R).
(** The pieces in which output is read, what the processes the updater starts
    write to the same pipes, and the text of an error. *)
Context (pieces : string → list string) (child_output : Commands I R → list Output).
Context (show_error : error → string) (pid : Z).

(** The end of the process: [main]'s result, or a panic. *)
Definition report (r : res (list string)) : list Output * Exit :=
  match r with
  | Ok lines => (OnStdout <$> pieces (foldr (λ l acc, l +:+ nl +:+ acc) "" lines), Exited 0)
  | Err e => (OnStderr <$> pieces ("Error: " +:+ show_error e +:+ nl), Exited 1)
  | Panic s => (OnStderr <$> pieces s, Exited 101)
  end.

(** Only the commands that install something start processes whose output is
    not captured. *)
Definition inherited (c : Commands I R) : list Output :=
  match c with Get | Query _ _ _ _ => [] | _ => child_output c end.

(** Whether the process runs to its end: it may not start, or be ended by a
    signal, having written something and left the host in some state. *)
Inductive Fate :=
| Completes
| NotStarted (err : string)
| Killed (out : list Output) (left : Profile.World (S := S)).
Context (fate : list string → Profile.World (S := S) → Fate).

Definition run_ota (args : list string) (w : Profile.World (S := S)) :
    (string + (Z * list Output * Exit)) * Profile.World (S := S) :=
  match fate args w with
  | NotStarted err => (inl err, w)
  | Killed out w' => (inr (pid, out, Signaled), w')
  | Completes =>
      match parse_args args with
      | inl (out, code) => (inr (pid, out, Exited code), w)
      | inr c =>
          let '(r, w') := main h c w in
          let '(out, exit) := report r in (inr (pid, inherited c ++ out, exit), w')
      end
  end.

(** The host's agent, among others. *)
Context (host_ec : EndpointConfig).
Context (other : EndpointConfig → StartCommand → World (Profile.World (S := S)) →
  (string + (Z * list Output * Exit)) * World (Profile.World (S := S))).

Definition agent_spawn (ec : EndpointConfig) (start : StartCommand) (w : World (Profile.World (S := S))) :
    (string + (Z * list Output * Exit)) * World (Profile.World (S := S)) :=
  if decide (ec = host_ec) then
    if bool_decide (command start = "ota-update") then
      let '(o, hw) := run_ota (arguments start) (ext w) in (o, mkWorld (admin w) hw)
    else other ec start w
  else other ec start w.
End agent.
End HostAgent.

(** ** Properties *)

Module HostUpdaterProps.
Import Types Wire Server Exec ExecAgent Client OTA Generation OtaProps Main HostAgent.

Section props.
Context {S I R : Type} (h : Host S I R).
Context (parse_args : list string → (list Output * Z) + Commands I R).
Context (pieces : string → list string) (child_output : Commands I R → list Output).
Context (show_error : error → string) (pid : Z).
Context (fate : list string → Profile.World (S := S) → Fate (S := S)) (host_ec : EndpointConfig).
Context (other : EndpointConfig → StartCommand → World (Profile.World (S := S)) →
  (string + (Z * list Output * Exit)) * World (Profile.World (S := S))).
#[local] Set Default Proof Using "Type".

Abbreviation host_spawn :=
  (agent_spawn h parse_args pieces child_output show_error pid fate host_ec other).

Lemma host_spawn_ota args c w r hw :
  fate args (ext w) = Completes → parse_args args = inr c → main h c (ext w) = (r, hw) →
  host_spawn host_ec (mkStart "ota-update" args None ∅ None None) w =
  (inr (pid, inherited child_output c ++ fst (report pieces show_error r),
        snd (report pieces show_error r)), mkWorld (admin w) hw).
Proof.
  intros Hf Hp Hm. unfold agent_spawn. rewrite decide_True by done. cbn. unfold run_ota.
  rewrite Hf, Hp, Hm. by destruct (report _ _ r).
Qed.

Lemma stdout_of_pieces l : stdout_of (OnStdout <$> l) = foldr String.append "" l.
Proof. induction l as [|s l IH]; [done|]. rewrite fmap_cons. cbn [stdout_of foldr]. by f_equal. Qed.

(** A process's output and code, as the client's list sees them. *)
Lemma get_output r :
  (∀ s, foldr String.append "" (pieces s) = s) →
  stdout_of (fst (report pieces show_error r)) =
    match r with Ok lines => foldr (λ l acc, l +:+ nl +:+ acc) "" lines | _ => "" end.
Proof.
  intros Hp. destruct r as [lines|e|s]; cbn [report fst].
  - by rewrite stdout_of_pieces, Hp.
  - by induction (pieces _).
  - by induction (pieces _).
Qed.
End props.

(** The command line the service composes, read back. *)
Lemma once_value v : starts_with "-" v = false → CachixArgs.once None v = Some (Some v).
Proof. intros Hv. unfold CachixArgs.once, CachixArgs.is_value. by rewrite Hv. Qed.
Lemma read_pin x l t c h :
  starts_with "-" x = false →
  CachixArgs.read_args (x :: l) (CachixArgs.mkParsed None t c h) =
  CachixArgs.read_args l (CachixArgs.mkParsed (Some x) t c h).
Proof.
  intros Hx. cbn [CachixArgs.read_args]. unfold CachixArgs.is_value. rewrite Hx. cbn [negb CachixArgs.pin_name].
  by rewrite once_value.
Qed.
Lemma read_token x l p c h :
  starts_with "-" x = false →
  CachixArgs.read_args ("--token" :: x :: l) (CachixArgs.mkParsed p None c h) =
  CachixArgs.read_args l (CachixArgs.mkParsed p (Some x) c h).
Proof. intros Hx. cbn -[CachixArgs.once]. by rewrite once_value. Qed.
Lemma read_cache x l p t h :
  starts_with "-" x = false →
  CachixArgs.read_args ("--cache" :: x :: l) (CachixArgs.mkParsed p t None h) =
  CachixArgs.read_args l (CachixArgs.mkParsed p t (Some x) h).
Proof. intros Hx. cbn -[CachixArgs.once]. by rewrite once_value. Qed.
Lemma read_host x l p t c :
  starts_with "-" x = false →
  CachixArgs.read_args ("--cachix-host" :: x :: l) (CachixArgs.mkParsed p t c None) =
  CachixArgs.read_args l (CachixArgs.mkParsed p t c (Some x)).
Proof. intros Hx. cbn -[CachixArgs.once]. by rewrite once_value. Qed.

Lemma read_cachix_args {I R} env p server c tok :
  Forall (λ s, starts_with "-" s = false) ([p; c] ++ option_list tok ++ option_list server) →
  CachixArgs.parse_cachix (I := I) (R := R) env (tail (cachix_args (mkCachix p server c tok))) =
  Some (CachixUpdate p (match tok with Some t => Some t | None => env end) c server).
Proof.
  intros Hv. unfold CachixArgs.parse_cachix, cachix_args.
  destruct tok as [t|], server as [v|]; cbn [option_list app] in Hv; repeat (apply Forall_cons in Hv as [? Hv]);
    cbn [app tail OTA.pin OTA.cache OTA.token OTA.cachix_host];
    rewrite read_pin, read_cache by done; rewrite ?read_token by done; rewrite ?read_host by done; done.
Qed.

(** Every generation is behind a link of the system profile. *)
Lemma host_generations_linked {S I R} (h : Host S I R) gens :
  host_generations h = Ok gens →
  Forall (λ g, ∀ b, Profile.linked (fs h) "/nix/var/nix/profiles" "system"
    (Profile.mkElement (Profile.generation g) (Profile.det_store_path g) b)) gens.
Proof.
  unfold host_generations, Profile.read_generations. intros Hr. res_simp.
  match goal with x : Z * list Profile.ProfileElement |- _ => destruct x as [num l] end.
  match goal with H : Profile.read_profile_links _ _ _ = Ok _ |- _ =>
    apply Profile.read_links_linked in H; rename H into Hl end.
  apply mapM_res_Ok in Hr. eapply Forall2_Forall_r; [exact Hr|]. eapply Forall_impl; [exact Hl|].
  intros e (entries & link & Hlink) g Hg b. exists entries, link. unfold Profile.generation_details in Hg.
  by res_simp.
Qed.

(** C12: An update requested by a client is the updater's run on the host.  Let
    the client reach the service and the service the host's agent, let the
    request's strings not begin with a hyphen, and let clap read the command
    lines of [CachixArgs] as declared.  If the process runs to its end, the
    client's call succeeds exactly when [perform_cachix_update] does, called
    with the request's pin, cache and host and with its token or, if it has
    none, the token of the host's environment; the host is left as that run
    leaves it, and if the run fails the client is told its exit code.  If the
    process does not start, the client is told why and the host is as it was.
    If it is ended by a signal, the host is left as it was then - and the client
    is told of success, since [-1] is not a positive exit code.  In all cases
    the service's state is what it was when the agent had been reached. *)
Theorem update_end_to_end `{HashOrder} {S I R} (h : Host S I R) parse_args pieces child_output show_error
    pid fate other show_status aborted connect decode_details is_utf8 lossy
    (api : AdminApi (World (Profile.World (S := S)))) self p server c tok env ec w w1 :
  api_connect (Client.endpoint self) w = (Ok tt, w) →
  host_endpoint (admin w) = Ok ec → connect ec w = (Ok tt, w1) →
  Forall (λ s, starts_with "-" s = false) ([p; c] ++ option_list tok ++ option_list server) →
  (∀ args cmd, CachixArgs.parse_cachix env args = Some cmd → parse_args ("cachix" :: args) = inr cmd) →
  let token := match tok with Some t => Some t | None => env end in
  let '(result, hw) :=
    match fate (cachix_args (mkCachix p server c tok)) (ext w1) with
    | NotStarted err => (bail (show_status (mkStatus Unknown err None)), ext w1)
    | Killed _ hw => (Ok tt, hw)
    | Completes =>
        let '(done, hw) := cachix_update h p token server c (ext w1) in
        (match done with
         | Ok _ => Ok tt
         | Err _ => Err [Msg "Detail: Execution of ota-update failed, RC code is 1";
                         Msg "request contains invalid arguments"]
         | Panic _ => Err [Msg "Detail: Execution of ota-update failed, RC code is 101";
                           Msg "request contains invalid arguments"]
         end, hw)
    end in
  set_generation_cachix (api := api)
    (gen := chained show_status aborted connect
       (agent_spawn h parse_args pieces child_output show_error pid fate ec other) decode_details is_utf8 lossy)
    show_status self p server c tok w = (result, mkWorld (admin w1) hw).
Proof.
  intros Hc Hh Hconn Hvals Hclap token.
  rewrite (set_generation_result show_status aborted connect _ decode_details is_utf8 lossy
    api self p server c tok ec w w1 Hc Hh Hconn).
  destruct (fate _ _) as [|err|out hw] eqn:Hf.
  - destruct (cachix_update h p token server c (ext w1)) as [r hw] eqn:Hr. unfold update_command.
    erewrite host_spawn_ota; [|exact Hf|apply Hclap; by apply read_cachix_args|].
    2:{ instantiate (1 := hw). instantiate (1 := (λ _, []) <$> r). cbn. unfold mbind, SR_bind.
        fold token. rewrite Hr. by destruct r. }
    cbn. by destruct r.
  - unfold update_command, agent_spawn. rewrite decide_True by done. cbn -[cachix_args].
    unfold run_ota. rewrite Hf. by destruct w1.
  - unfold update_command, agent_spawn. rewrite decide_True by done. cbn -[cachix_args].
    unfold run_ota. by rewrite Hf.
Qed.

(** What a client lists is what the host has: when the client reaches the
    service and the service the host's agent, the updater runs to its end, and
    the JSON the updater prints is read back as it was written, the
    client's list has one entry for each generation the updater read, in order,
    and every entry's number and store path are those of a link of the system
    profile in [/nix/var/nix/profiles]; if the updater fails to read them, so
    does the client's call. *)
Theorem generations_end_to_end `{HashOrder} {S I R} (h : Host S I R) parse_args pieces child_output
    show_error pid fate other show_status aborted connect decode_details is_utf8 lossy
    (api : AdminApi (World (Profile.World (S := S)))) self ec w w1 :
  api_connect (Client.endpoint self) w = (Ok tt, w) →
  host_endpoint (admin w) = Ok ec → connect ec w = (Ok tt, w1) →
  fate ["get"] (ext w1) = Completes → parse_args ["get"] = inr Get → (∀ s, foldr String.append "" (pieces s) = s) →
  (∀ gens s, to_string_pretty h gens = Ok s → decode_details (s +:+ nl) = Ok gens) →
  let '(r, w') := client_list_generations (api := api)
    (gen := chained show_status aborted connect
       (agent_spawn h parse_args pieces child_output show_error pid fate ec other) decode_details is_utf8 lossy)
    self w in
  w' = w1 ∧
  match get_generations h with
  | Ok _ => ∃ gens, host_generations h = Ok gens ∧
      (Forall (λ g, is_utf8 (Profile.det_store_path g) = true) gens →
       ∃ l, r = Ok l ∧
         Forall2 (λ g r, generation r = Profile.generation g ∧ g_store_path r = Profile.det_store_path g ∧
           g_current r = Profile.current g ∧ g_kernel_version r = Profile.kernel_version g) gens l ∧
         Forall (λ r, Profile.linked (fs h) "/nix/var/nix/profiles" "system"
           (Profile.mkElement (generation r) (g_store_path r) (g_current r))) l)
  | _ => ∃ e, r = Err e
  end.
Proof.
  intros Hc Hh Hconn Hfate Hparse Hpieces Hjson.
  assert (agent_spawn h parse_args pieces child_output show_error pid fate ec other ec
    (mkStart "ota-update" ["get"] None ∅ None None) w1 =
    (inr (pid, fst (report pieces show_error (get_generations h)),
          snd (report pieces show_error (get_generations h))), w1)) as Hs.
  { erewrite (host_spawn_ota h) by (exact Hfate || exact Hparse || reflexivity). by destruct w1. }
  destruct (get_generations h) as [lines|e|p] eqn:Hg.
  - erewrite list_generations_result by (exact Hs || done).
    rewrite get_output by done. split; [done|]. unfold get_generations in Hg. res_simp.
    match goal with H : host_generations h = Ok ?g |- _ => rename H into Hgens; exists g end.
    split; [done|]. intros Hu. rewrite str_app_nil_r. erewrite Hjson by done. cbn [mbind res_bind].
    destruct (mapM_res_total (generation_of is_utf8) x) as [l Hl]; [|rewrite Hl].
    { eapply Forall_impl; [exact Hu|]. intros g Hg. unfold generation_of. rewrite Hg. by eexists. }
    apply mapM_res_Ok in Hl. exists l. split; [done|].
    assert (Forall2 (λ g r, generation r = Profile.generation g ∧ g_store_path r = Profile.det_store_path g ∧
      g_current r = Profile.current g ∧ g_kernel_version r = Profile.kernel_version g) x l) as Hf.
    { eapply Forall2_impl; [exact Hl|]. intros g r Hgr. unfold generation_of in Hgr. by res_simp. }
    split; [done|]. eapply Forall2_Forall_r; [exact Hf|].
    eapply Forall_impl; [by eapply host_generations_linked|]. intros g Hlink r (-> & -> & _). done.
  - erewrite list_generations_failed by (exact Hs || done). split; [done|by eexists].
  - erewrite list_generations_failed by (exact Hs || done). split; [done|by eexists].
Qed.

(** ** A concrete host *)

#[local] Instance GenerationDetails_eq_dec : EqDecision Profile.GenerationDetails.
Proof. unfold EqDecision, Decision. repeat decide equality. Defined.

(** One generation, whose boot specification is written as its top level; the
    update server is that of [GenerationsProps]. *)
Definition ex_links : list (string * string) :=
  [("/run/booted-system", GenerationsProps.gen1); ("/run/current-system", GenerationsProps.gen1);
   ("/nix/var/nix/profiles/system", "system-7-link");
   ("/nix/var/nix/profiles/system-7-link", GenerationsProps.gen1)].
Definition ex_fs : Profile.FS :=
  Profile.mkFS (GenerationsProps.assoc ex_links) Some (λ _, Ok [Ok (Some "system"); Ok (Some "system-7-link")])
    (λ _, true) (GenerationsProps.assoc
      ((GenerationsProps.gen1 +:+ "/sw/bin/nixos-version", "cat <<EOF{}EOF") :: GenerationsProps.ex_files)).
Definition ex_listed : list Profile.GenerationDetails :=
  [Profile.mkDetails "NixOS" 7 (Profile.mkVersion "24.11" None None) "6.6.1" GenerationsProps.gen1
     true true false true (Profile.mkBootSpec "NixOS" "" GenerationsProps.gen1 "x86_64-linux") None].
Definition ex_machine : Host unit unit unit :=
  mkHost _ _ _ (λ _ s, (Ok (Some 0%Z), s)) (λ _ s, s) ex_fs (λ _ _, Some "{}") (λ _ _, true)
    (λ _, Ok (Profile.mkVersion "24.11" None None)) GenerationsProps.ex_decode_bootspec
    (λ _, Ok [Ok (Some "6.6.1")]) (Ok []) GenerationsProps.ex_http
    GenerationsProps.of_json GenerationsProps.of_json GenerationsProps.of_json
    (λ _, Ok "") (λ _, "") (λ g, if decide (g = ex_listed) then Ok "[7]" else bail "unsupported")
    (λ _, mret []) (λ _, mret []).
Definition ex_parse (args : list string) : (list Output * Z) + Commands unit unit :=
  match args with
  | ["get"] => inr Get
  | "cachix" :: args =>
      match CachixArgs.parse_cachix None args with Some c => inr c | None => inl ([], 2%Z) end
  | _ => inl ([], 2%Z)
  end.
Definition ex_decode_listed (s : string) : res (list Profile.GenerationDetails) :=
  if bool_decide (s = "[7]" +:+ nl) then Ok ex_listed else bail "unexpected".
Definition ex_start : World (Profile.World (S := unit)) :=
  mkWorld (admin OtaProps.ex_host) (Profile.mkWorld tt []).
Definition ex_reached : AdminApi (World (Profile.World (S := unit))) :=
  Loopback.loopback (order := map_to_list_order) (λ _ _ w, (Replied (Reply None), w)) (λ _ w, (Ok tt, w))
    (λ _ _ _ w, (Ok "", w)) (λ _ w, w) (λ _ _ w, w) (λ _ _, Ok tt)
    (mkStatus Internal "" None) (λ _, "") (λ _, "") (λ _, mkSysinfo "" None None) (λ s, s).
Abbreviation ex_chained :=
  (chained (order := map_to_list_order) (λ _, "") (mkStatus Internal "" None) (λ _ w, (Ok tt, w))
     (agent_spawn ex_machine ex_parse (λ s, [s]) (λ _, []) (λ _, "") 42%Z (λ _ _, Completes) OtaProps.ex_ec
        (λ _ _ w, (inl "", w))) ex_decode_listed (λ _, true) (λ s, s)).

Lemma update_end_to_end_witness :
  fst (set_generation_cachix (api := ex_reached) (gen := ex_chained) (λ _, "") ClientProps.ex_self
    "ghaf" (Some "http://up") "ghaf" None ex_start) = Ok tt.
Proof.
  pose proof (@update_end_to_end map_to_list_order unit unit unit ex_machine ex_parse (λ s, [s]) (λ _, [])
    (λ _, "") 42%Z (λ _ _, Completes) (λ _ _ w, (inl "", w)) (λ _, "") (mkStatus Internal "" None)
    (λ _ w, (Ok tt, w)) ex_decode_listed (λ _, true) (λ s, s) ex_reached ClientProps.ex_self "ghaf"
    (Some "http://up") "ghaf" None None OtaProps.ex_ec ex_start ex_start eq_refl
    ltac:(vm_compute; reflexivity) eq_refl ltac:(repeat constructor)
    ltac:(intros args cmd Hcmd; unfold ex_parse; rewrite Hcmd; reflexivity)) as Hu.
  assert (fst (cachix_update ex_machine "ghaf" None (Some "http://up") "ghaf" (ext ex_start)) = Ok tt) as E
    by (vm_compute; reflexivity).
  cbv beta iota zeta in Hu. destruct (cachix_update _ _ _ _ _ _) as [r hw]. cbn [fst] in E. subst r.
  cbv beta iota in Hu. rewrite Hu. reflexivity.
Defined.

Lemma generations_end_to_end_witness :
  ∃ l, fst (client_list_generations (api := ex_reached) (gen := ex_chained) ClientProps.ex_self ex_start)
    = Ok l ∧ Forall (λ r, Profile.linked ex_fs "/nix/var/nix/profiles" "system"
           (Profile.mkElement (generation r) (g_store_path r) (g_current r))) l.
Proof.
  pose proof (@generations_end_to_end map_to_list_order unit unit unit ex_machine ex_parse (λ s, [s])
    (λ _, []) (λ _, "") 42%Z (λ _ _, Completes) (λ _ _ w, (inl "", w)) (λ _, "") (mkStatus Internal "" None)
    (λ _ w, (Ok tt, w)) ex_decode_listed (λ _, true) (λ s, s) ex_reached ClientProps.ex_self
    OtaProps.ex_ec ex_start ex_start eq_refl ltac:(vm_compute; reflexivity) eq_refl eq_refl eq_refl
    str_app_nil_r) as Hg.
  assert (get_generations ex_machine = Ok ["[7]"]) as E by (vm_compute; reflexivity). rewrite E in Hg.
  destruct (client_list_generations _ _) as [r w']. destruct Hg as (_ & gens & Hgens & Hl).
  - intros g s. cbn. case_decide; [|done]. intros [= <-]. by subst.
  - destruct Hl as (l & -> & _ & Hlinked); [by apply Forall_true|]. by exists l.
Defined.
End HostUpdaterProps.
