(* ===== verification/Programs.v ===== *)
(** * The programs ([bin/givc-admin.rs], [bin/givc-agent.rs], [bin/givc-x509.rs],
    [bin/update-server.rs], [bin/cachix-client.rs], [admin/src/lib.rs])

    What each [main] does with its parsed command line: in which order it reads
    its files, what makes it stop, and what it serves in the end.  The command
    line parser, the listeners and the transports are parameters. *)

From S2P Require Import Prelude RustStr RustInt RustPath CommonTypes AdminRegistry AdminAuth AdminServer.
From S2P Require Import PolicyAdmin AdminClient Generations.
From Stdlib Require Import Ascii.

(** ** Logging ([admin/src/lib.rs]) *)

Module Logging.

(** [LevelFilter], from the least to the most verbose, which is its order. *)
Inductive LevelFilter := OFF | ERROR | WARN | INFO | DEBUG | TRACE.
Definition verbosity (l : LevelFilter) : nat :=
  match l with OFF => 0 | ERROR => 1 | WARN => 2 | INFO => 3 | DEBUG => 4 | TRACE => 5 end.

(** Where messages go: to standard error, there with target, file, line and thread
    and over several lines when [details], or to the journal. *)
Inductive Sink := Stderr (details : bool) | Journald.

Section logging.
(** [EnvFilter], the journal's socket, the environment, and
    [set_global_default], which fails the second time. *)
Context {Filter : Type} (try_from_env : string → res Filter) (from_directives : string → Filter)
  (max_level_hint : Filter → option LevelFilter) (journald_layer : res unit)
  (var : string → option string) (set_global_default : Sink → Filter → res unit).

Definition env_filter : Filter :=
  match try_from_env "GIVC_LOG" with Ok f => f | _ => from_directives "info" end.
Definition is_debug_log_level (f : Filter) : bool :=
  match max_level_hint f with Some level => verbosity DEBUG <=? verbosity level | None => false end.
Definition sink : Sink :=
  let output := Stderr (is_debug_log_level env_filter) in
  if bool_decide (is_Some (var "INVOCATION_ID")) then
    match journald_layer with Ok _ => Journald | _ => output end
  else output.

Definition trace_init : res unit :=
  with_context "tracing shouldn't already have been set up" (set_global_default sink env_filter).

(** Under systemd there is one sink, the journal if it can be reached. *)
Lemma sink_journald : sink = Journald ↔ is_Some (var "INVOCATION_ID") ∧ is_ok journald_layer = true.
Proof.
  unfold sink. case_bool_decide as Hv; [|split; [done|by intros []]].
  destruct journald_layer; cbn; [by split|split; [done|by intros []]..].
Qed.
End logging.
End Logging.

(** ** givc-admin *)

Module AdminMain.
Import Wire Auth Server Endpoint.

Record Cli := mkCli {
  listen : list string;
  use_tls : bool;
  ca_cert : option string;
  host_cert : option string;
  host_key : option string;
  monitoring : bool;
  policy_admin : bool;
  policy_config : option string;
  access_control : bool;
  cedar_file : option string;
  policy_store : option string;
  services : option (list string)
}.

Section main.
Context {order : HashOrder}.
(** [trace_init]'s outcome; files; [tonic]'s check of a TLS configuration and its
    reflection service; binding the sockets. *)
Context (init_logging : res unit) (read : string → res string) (check_tls : ServerTlsConfig → res unit)
  (build_reflection : res unit) (bind_multiple : list string → res unit).
(** The policy administration's parameters, and the two settings files. *)
Context (from_json : string → res Config.PolicyConfig)
  (repo_state : Repo.Monitor → res Repo.RepoState)
  (url_config : string → Config.PolicyConfig → res Config.PolicyConfig)
  (timezone_conf locale_conf : option string).
(** Protobuf's descriptor pool, Cedar's policies and type names. *)
Context {Pool PolicySet : Type} (decode_pool : res Pool) (parse_policies : string → res PolicySet)
  (entity_type : string → res unit).

(** [Authorizer::new]; [read_to_string] is [read]. *)
Record Authorizer := mkAuthorizer { pool : Pool; policies : PolicySet }.
Definition new_authorizer (acl_file : string) : res Authorizer :=
  pool ← with_context "Failed to decode ADMIN_DESCRIPTOR; check your reflection setup." decode_pool;
  policy_text ← with_context ("Failed to read cedar policy file: " +:+ acl_file) (read acl_file);
  policies ← with_context "Failed to parse cedar policy" (parse_policies policy_text);
  _ ← with_context "valid type name" (entity_type "Source");
  _ ← with_context "valid type name" (entity_type "Command");
  _ ← with_context "valid type name" (entity_type "Module");
  Ok (mkAuthorizer pool policies).

(** [AdminService::new]: the service, whether it is monitored, and the policy
    manager with what feeds the task that pushes updates. *)
Record Service := mkService {
  inner : Admin;
  monitor_task : bool;
  updates_task : option (Manager.Manager * PolicyAdmin.Admin.Started)
}.
Definition new_service (tls : option TlsConfig) (monitoring enable_policy_admin : bool)
    (policy_store policy_config : option string) : res Service :=
  manager ← (if enable_policy_admin
             then Some <$> Admin.run_policy_admin from_json repo_state url_config policy_store policy_config
             else Ok None);
  Ok (mkService (Server.new tls (bool_decide (is_Some manager)) timezone_conf locale_conf) monitoring manager).

(** What is served: the service behind the interceptors. *)
Record Served := mkServed {
  server_tls : option ServerTlsConfig;
  service : Service;
  authenticator_tls : bool;
  authorizer : option Authorizer;
  sockets : list string
}.

(** The TLS files of a command line; both servers want all three. *)
Definition tls_files (ca cert key : option string) (names : string * string * string) : res TlsConfig :=
  ca ← ok_or ca names.1.1;
  cert ← ok_or cert names.1.2;
  key ← ok_or key names.2;
  Ok (mkTlsConfig ca cert key None).
Definition server_tls_config (wanted : bool) (files : res TlsConfig)
    : res (option (TlsConfig * ServerTlsConfig)) :=
  if wanted then
    tls ← files;
    config ← server_config read tls;
    _ ← check_tls config;
    Ok (Some (tls, config))
  else Ok None.

Definition main (cli : Cli) : res Served :=
  _ ← init_logging;
  tls ← server_tls_config (use_tls cli)
          (tls_files (ca_cert cli) (host_cert cli) (host_key cli)
             ("CA_CERT required", "HOST_CERT required", "HOST_KEY required"));
  _ ← build_reflection;
  admin_impl ← new_service (fst <$> tls) (monitoring cli) (policy_admin cli)
                 (policy_store cli) (policy_config cli);
  _ ← bind_multiple (listen cli);
  authorizer ←
    (if access_control cli then
       cedar_path ← ok_or (cedar_file cli) "Initialization failed: No Cedar policy file provided";
       Some <$> new_authorizer cedar_path
     else Ok None);
  Ok (mkServed (snd <$> tls) admin_impl (use_tls cli) authorizer (listen cli)).

(** A request to what is served passes the interceptors first. *)
Section admission.
Context {J Ctx CReq : Type} (empty_object : J) (insert_service : string → J → J)
  (ctx_of_json : J → Ctx + string) (cedar_request : string → string → string → Ctx → CReq + string)
  (decide_by : PolicySet → CReq → bool) (methods : Pool → string → string → option (Method (J := J)))
  (parse : string → option (list Extension)) (show_ip : IpAddr → string).

Definition let_through (srv : Served) (req : Request) : reply Request :=
  match authorizer srv with
  | Some a =>
      let_in empty_object insert_service ctx_of_json cedar_request (decide_by (policies a)) (methods (pool a))
        parse show_ip (authenticator_tls srv) true req
  | None =>
      let_in empty_object insert_service ctx_of_json cedar_request (λ _, false) (λ _ _, None)
        parse show_ip (authenticator_tls srv) false req
  end.
End admission.
End main.
#[global] Arguments Authorizer Pool PolicySet : clear implicits.
#[global] Arguments Served Pool PolicySet : clear implicits.
End AdminMain.

(** ** givc-agent *)

Module AgentMain.
Import Naming Types Wire Server Endpoint Client.

Record Cli := mkCli {
  name : string;
  addr : string;
  port : Z;                      (* u16, at least 1 *)
  use_tls : bool;
  unit_type : Z;                 (* u32 *)
  subtype : Z;                   (* u32 *)
  ca_cert : option string;
  host_cert : option string;
  host_key : option string;
  admin_server_addr : string;
  admin_server_port : Z;         (* u16 *)
  admin_server_name : string;
  services : option (list string)
}.

(** [SystemdService]: no method of the unit control service is there yet. *)
Definition systemd_service (c : Call) : res RpcResult := Panic "not implemented".

(** What the agent serves. *)
Record Served := mkServed { listen : string * Z; server_tls : option ServerTlsConfig }.

Section main.
Context {W : Type} {api : AdminApi W}.
Context (init_logging : res unit) (read : string → res string) (check_tls : ServerTlsConfig → res unit)
  (parse_ip : string → res unit) (build_reflection : res unit) (show_status : Status → string).

Definition bogus_status : UnitStatus := mkUnitStatus "bogus" "bogus" "bogus" "bogus" "bogus" "bogus" "bogus".
Definition agent_endpoint (cli : Cli) : EndpointEntry := mkEndpoint (Tcp (addr cli) (port cli)) (name cli).
Definition agent_name (cli : Cli) : string := agent_service (AppName (name cli)).

Definition main (cli : Cli) : SR W Served :=
  _ ← SR_lift init_logging;
  _ ← SR_lift (parse_ip (addr cli));
  tls ← SR_lift (AdminMain.server_tls_config read check_tls (use_tls cli)
          (AdminMain.tls_files (ca_cert cli) (host_cert cli) (host_key cli)
             ("CA cert file required", "cert file required", "key file required")));
  let admin_tls := (λ t, (admin_server_name cli, fst t)) <$> tls in
  let admin := Client.new (admin_server_addr cli) (admin_server_port cli) admin_tls in
  ty ← SR_lift (unit_type_of_u32 (unit_type cli));
  _ ← Client.register_service show_status admin (agent_name cli) ty (agent_endpoint cli) bogus_status;
  _ ← SR_lift (match build_reflection with Ok _ => Ok tt | _ => Panic "unwrap" end);
  mret (mkServed (addr cli, port cli) (snd <$> tls)).
End main.
End AgentMain.

(** ** The small tools *)

Module Tools.
Import Auth.

(** [givc-x509]: reads a PEM file, whose body is a certificate; [show] is
    [Debug].  The command line is printed first. *)
Definition x509_main (read : string → res string) (pem : string → res string)
    (parse : string → option (list Extension)) (show_cli : string → string) (show : SecurityInfo → string)
    (cert : string) : list string * res unit :=
  let out := ["CLI is " +:+ show_cli cert] in
  match (cert_file ← read cert; contents ← pem cert_file;
         ok_or (security_info_of parse contents) "certificate parse error") with
  | Ok si => (out ++ ["SI is " +:+ show si], Ok tt)
  | Err e => (out, Err e)
  | Panic s => (out, Panic s)
  end.

(** [update-server]: serving, up to [axum::serve], or registering a system. *)
Inductive Commands :=
| ServeCommand (serve : UpdateServer.Serve)
| Register (path profile closure : string).
Definition update_server_main {S} (spawn : list string → S → res (option Z) * S)
    (bind : Z → SR (Profile.World (S := S)) unit) (command : Commands)
    : SR (Profile.World (S := S)) (option UpdateServer.Serve) :=
  match command with
  | ServeCommand serve => _ ← bind (UpdateServer.port serve); mret (Some serve)
  | Register path profile closure => _ ← Profile.set spawn path profile closure; mret None
  end.

(** [cachix-cli]; what is written to the standard output. *)
Inductive CachixCommands :=
| Info
| ListPins
| DeletePin (name : string)
| ServeFile (hash path : string)
| ListSystems (system : string).
Record CachixCli := mkCachixCli {
  cache : string; token : option string; host : option string; command : CachixCommands
}.
Definition cachix_client (cli : CachixCli) : Cachix.CachixClient :=
  let config := Cachix.new_config (cache cli) in
  let config := match token cli with Some t => Cachix.set_auth_token config t | None => config end in
  let config := match host cli with Some h => Cachix.set_hostname config h | None => config end in
  Cachix.build config.

Section cachix.
Context (http : Cachix.Request → res Cachix.Response)
  (decode_info : string → res Cachix.CacheInfo) (decode_pins : string → res (list Cachix.Pin))
  (decode_bootspec : string → res Profile.BootSpec) (show_info : Cachix.CacheInfo → string).
Definition nl : string := String "010"%char "".
Definition on_ok {A} (r : Cachix.cres A) (f : A → string) : Cachix.cres string :=
  match r with inl a => inl (f a) | inr e => inr e end.
Definition cachix_main (cli : CachixCli) : Cachix.cres string :=
  let client := cachix_client cli in
  match command cli with
  | Info => on_ok (Cachix.cache_info http decode_info client) (λ info, show_info info +:+ nl)
  | ListPins =>
      on_ok (Cachix.list_pins http decode_pins client) (λ pins,
        foldr String.app "" ((λ pin, Cachix.pin_name pin +:+ " -> " +:+
          Cachix.rev_store_path (Cachix.last_revision pin) +:+ nl) <$> pins))
  | DeletePin name => on_ok (Cachix.delete_pin http client name) (λ _, "Deleted pin: " +:+ name +:+ nl)
  | ServeFile hash path => Cachix.get_file_from_store http client hash path
  | ListSystems system =>
      on_ok (Cachix.filter_valid_systems http decode_pins decode_bootspec client system) (λ systems,
        foldr String.app "" ((λ '(pin, spec), Cachix.pin_name pin +:+ " -> " +:+
          Cachix.rev_store_path (Cachix.last_revision pin) +:+ " (" +:+ Profile.label spec +:+ ")" +:+ nl) <$> systems))
  end.
End cachix.
End Tools.

(** ** Properties *)

Module ProgramProps.
Import Types Wire Auth Server Endpoint.

Lemma fmap_Some_Ok {A B} (f : A → B) (r : res A) b : f <$> r = Ok b ↔ ∃ a, r = Ok a ∧ b = f a.
Proof. destruct r; cbn; naive_solver. Qed.

(** C8: The admin service fails closed: if it comes to serving at all, a request
    that reaches a method was let in by what the command line asked for.  With
    TLS the server's identity and the root of its clients' certificates are the
    contents of the three files, and the request came over a connection whose
    certificate confirms its address.  With access control the Cedar file could
    be read and parsed, and its policies allow the call of the peer named by its
    certificate; so with access control but without TLS nothing gets in. *)
Theorem admin_fails_closed `{HashOrder} {Pool PolicySet J Ctx CReq : Type}
    logging read check_tls reflection bind from_json repo_state url_config timezone_conf locale_conf
    (decode_pool : res Pool) (parse_policies : string → res PolicySet) entity_type
    (empty : J) ins (ctx_of_json : J → Ctx + string) (cedar_request : _ → _ → _ → Ctx → CReq + string)
    decide_by methods parse show_ip cli srv req req' :
  AdminMain.main logging read check_tls reflection bind from_json repo_state url_config timezone_conf locale_conf
    decode_pool parse_policies entity_type cli = Ok srv →
  AdminMain.let_through empty ins ctx_of_json cedar_request decide_by methods parse show_ip srv req = Reply req' →
  (AdminMain.use_tls cli = true →
     (∃ ca cert key config, AdminMain.ca_cert cli = Some ca ∧ AdminMain.host_cert cli = Some cert ∧
        AdminMain.host_key cli = Some key ∧ AdminMain.server_tls srv = Some config ∧
        read ca = Ok (client_ca_root config) ∧
        read cert = Ok (fst (server_identity config)) ∧ read key = Ok (snd (server_identity config))) ∧
     ∃ si, authenticated parse req si ∧ req' = with_security si req) ∧
  (AdminMain.access_control cli = true →
     AdminMain.use_tls cli = true ∧
     ∃ file text pool policies si source service method json,
       AdminMain.cedar_file cli = Some file ∧ read file = Ok text ∧ parse_policies text = Ok policies ∧
       authenticated parse req si ∧ hostname si = Some source ∧
       parse_grpc_path (uri_path req) = Some (service, method) ∧
       seen_by_cedar empty (methods pool) req service method json ∧
       allowed ins ctx_of_json cedar_request (decide_by policies) source service method json).
Proof.
  intros Hmain Hadm. unfold AdminMain.main in Hmain.
  apply bind_Ok in Hmain as ([] & _ & Hmain).
  apply bind_Ok in Hmain as (tls & Htls & Hmain). apply bind_Ok in Hmain as ([] & _ & Hmain).
  apply bind_Ok in Hmain as (impl & _ & Hmain). apply bind_Ok in Hmain as ([] & _ & Hmain).
  apply bind_Ok in Hmain as (auth & Hauth & [= <-]).
  unfold AdminMain.let_through in Hadm. cbn [AdminMain.authorizer AdminMain.authenticator_tls] in Hadm. split.
  - intros Hu. rewrite Hu in *. split.
    + unfold AdminMain.server_tls_config, AdminMain.tls_files, server_config in Htls. res_simp. cbn in *.
      do 4 eexists. by split_and!.
    + destruct auth as [a|]; unfold let_in in Hadm; apply reply_bind_Reply in Hadm as (q & Hq & Hadm);
        apply authenticate_tls in Hq as (si & Hsi & ->); exists si.
      * by apply intercept_Reply in Hadm as (-> & _).
      * by injection Hadm as <-.
  - intros Ha. rewrite Ha in Hauth. apply bind_Ok in Hauth as (file & Hfile%ok_or_Ok & Hauth).
    apply fmap_Some_Ok in Hauth as (a & Hnew & ->). unfold let_in in Hadm.
    apply reply_bind_Reply in Hadm as (q & Hq & Hadm).
    apply intercept_Reply in Hadm as (-> & si & source & service & method & json & Hsi & Hh & Hp & Hs & Hal).
    destruct (AdminMain.use_tls cli).
    + split; [done|]. apply authenticate_tls in Hq as (si' & Hau & ->). injection Hsi as ->.
      unfold AdminMain.new_authorizer in Hnew. res_simp.
      do 9 eexists. split_and!; done.
    + cbn in Hq. injection Hq as <-. injection Hsi as <-. done.
Qed.

(** A policy file that allows one host one call, a peer with a certificate. *)
Definition ex_cli : AdminMain.Cli :=
  AdminMain.mkCli ["127.0.0.1:9001"] true (Some "ca.pem") (Some "cert.pem") (Some "key.pem")
    true false None true (Some "rules.cedar") None None.
(** A program started by systemd whose first set-up of logging succeeds. *)
Definition ex_logging : res unit :=
  Logging.trace_init (λ _, bail "not set") (λ _, Logging.INFO) Some (Ok tt) (λ _, Some "1") (λ _ _, Ok tt).
Definition ex_files (f : string) : res string := Ok ("contents of " +:+ f).
Definition ex_srv : res (AdminMain.Served unit string) :=
  AdminMain.main (order := map_to_list_order) ex_logging ex_files (λ _, Ok tt) (Ok tt) (λ _, Ok tt)
    (λ _, bail "") (λ _, bail "") (λ _ _, bail "") None None (Ok tt) (λ text, Ok text) (λ _, Ok tt) ex_cli.
Definition ex_peer (cert : string) : option (list Extension) :=
  Some [SubjectAlternativeName [DNSName cert]].
Definition ex_call : Request :=
  mkRequest (Some (mkTlsInfo OtherTransport (Some ["ghaf-host"]))) None "/admin.AdminService/Poweroff" (Bytes "").
Definition ex_admit (srv : AdminMain.Served unit string) : reply Request :=
  AdminMain.let_through (J := unit) (Ctx := unit) (CReq := string) tt (λ _ j, j) (λ _, inl tt)
    (λ source method _ _, inl (source +:+ " " +:+ method))
    (λ policies c, bool_decide (policies = "contents of rules.cedar") && bool_decide (c = "ghaf-host Poweroff"))
    (λ _ _ _, None) ex_peer (λ _, "") srv ex_call.

Lemma admin_fails_closed_witness : ∃ srv req' text, ex_srv = Ok srv ∧ ex_admit srv = Reply req' ∧
  ex_files "rules.cedar" = Ok text.
Proof.
  assert (∃ srv, ex_srv = Ok srv ∧ ∃ req', ex_admit srv = Reply req') as (srv & Hs & req' & Hr).
  { eexists. split; [vm_compute; reflexivity|]. eexists. vm_compute. reflexivity. }
  destruct (@admin_fails_closed map_to_list_order unit string unit unit string ex_logging ex_files (λ _, Ok tt) (Ok tt)
    (λ _, Ok tt) (λ _, bail "") (λ _, bail "") (λ _ _, bail "") None None (Ok tt) (λ text, Ok text) (λ _, Ok tt)
    tt (λ _ j, j) (λ _, inl tt) (λ source method _ _, inl (source +:+ " " +:+ method))
    (λ policies c, bool_decide (policies = "contents of rules.cedar") && bool_decide (c = "ghaf-host Poweroff"))
    (λ _ _ _, None) ex_peer (λ _, "") ex_cli srv ex_call req' Hs Hr) as [_ Ha].
  destruct (Ha eq_refl) as (_ & file & text & _ & _ & _ & _ & _ & _ & _ & Hf & Ht & _).
  exists srv, req', text. injection Hf as <-. split; [exact Hs|]. split; [exact Hr | exact Ht].
Defined.

Section agent.
Context {order : HashOrder} {Ext Channel : Type}.
Context (rpc : EndpointConfig → Call → World Ext → RpcResult * World Ext).
Context (agent : EndpointConfig → World Ext → res unit * World Ext).
Context (unary : string → EndpointConfig → Message → World Ext → res string * World Ext).
Context (sleep : nat → World Ext → World Ext) (write_file : string → string → World Ext → World Ext).
Context (aborted : Status) (encode_notification : Client.UserNotification → string)
  (encode_ctap : Client.CtapRequest → string) (decode_sysinfo : string → Client.Sysinfo)
  (decode_ctap : string → string).
Context (read : string → res string) (parse_uri : string → res unit) (check_client : ClientTlsConfig → res unit)
  (dial_tcp : Dial → res Channel) (dial_unix : Dial → string → res Channel)
  (dial_vsock : Dial → Z → Z → res Channel) (show_tls : option TlsConfig → string).

(** The service behind a connection that is made as [EndpointConfig::connect]
    makes it. *)
Definition connected (ec : EndpointConfig) (w : World Ext) : res unit :=
  (λ _, tt) <$> connect read parse_uri check_client dial_tcp dial_unix dial_vsock show_tls ec.
Definition service_api : Client.AdminApi (World Ext) :=
  Loopback.loopback rpc agent unary sleep write_file connected aborted encode_notification encode_ctap
    decode_sysinfo decode_ctap.

Lemma connected_plain addr port (w : World Ext) :
  (∀ url, parse_uri url = Ok tt) → (∀ d, is_ok (dial_tcp d) = true) →
  connected (Client.endpoint (Client.new addr port None)) w = Ok tt.
Proof.
  intros Huri Hdial. unfold connected, connect, dial_options. cbn. rewrite Huri. cbn.
  match goal with |- context [dial_tcp ?d] => specialize (Hdial d); by destruct (dial_tcp d) end.
Qed.

(** A server's TLS configuration names no peer: nothing can be dialled with it. *)
Lemma connected_nameless addr port name ca cert key (w : World Ext) :
  is_ok (connected (Client.endpoint (Client.new addr port (Some (name, mkTlsConfig ca cert key None)))) w) = false.
Proof.
  unfold connected, connect, dial_options, client_config. cbn.
  destruct (parse_uri _); cbn; [|done..]. destruct (read ca); cbn; [|done..].
  destruct (read cert); cbn; [|done..]. by destruct (read key).
Qed.
End agent.

(** C38: What becomes of a started agent.  Without TLS, with logging set up, at a
    valid address and with a known unit type, it registers and then serves there: the service has its
    entry under the agent's name, in place of any older one, and resolves that
    name to the agent's address and TLS name; all other entries stay.  With TLS
    it never gets that far, whatever files it is given: the client side of its
    TLS configuration has no server name, so that no connection is made and the
    service is as it was. *)
Theorem agent_start {order : HashOrder} {Ext Channel : Type} rpc agent unary sleep write_file aborted
    encode_notification encode_ctap decode_sysinfo decode_ctap read parse_uri check_client
    (dial_tcp : Dial → res Channel) dial_unix dial_vsock show_tls logging check_tls parse_ip show_status cli
    (w : World Ext) :
  let api := service_api rpc agent unary sleep write_file aborted encode_notification encode_ctap
    decode_sysinfo decode_ctap read parse_uri check_client dial_tcp dial_unix dial_vsock show_tls in
  let run := AgentMain.main (api := api) logging read check_tls parse_ip (Ok tt) show_status cli w in
  (∀ ty, logging = Ok tt → AgentMain.use_tls cli = false → parse_ip (AgentMain.addr cli) = Ok tt →
     unit_type_of_u32 (AgentMain.unit_type cli) = Ok ty → (1 ≤ AgentMain.port cli ≤ u16_max)%Z →
     (∀ url, parse_uri url = Ok tt) → (∀ d, is_ok (dial_tcp d) = true) →
     ∃ w', run = (Ok (AgentMain.mkServed (AgentMain.addr cli, AgentMain.port cli) None), w') ∧
       Registry.map (registry (admin w')) =
         <[AgentMain.agent_name cli :=
             ClientProps.registered (AgentMain.agent_name cli) ty (AgentMain.agent_endpoint cli)
               AgentMain.bogus_status]> (Registry.map (registry (admin w))) ∧
       transport <$> agent_endpoint (AgentMain.agent_name cli) (admin w') = Ok (AgentMain.agent_endpoint cli)) ∧
  (AgentMain.use_tls cli = true → is_ok run.1 = false ∧ run.2 = w).
Proof.
  intros api run. split.
  - intros ty Hlog Hu Hip Hty Hp Huri Hdial.
    assert (∃ w', Client.register_service (api := api) show_status
        (Client.new (AgentMain.admin_server_addr cli) (AgentMain.admin_server_port cli) None)
        (AgentMain.agent_name cli) ty (AgentMain.agent_endpoint cli) AgentMain.bogus_status w = (Ok tt, w') ∧
      Registry.map (registry (admin w')) =
        <[AgentMain.agent_name cli := ClientProps.registered (AgentMain.agent_name cli) ty
            (AgentMain.agent_endpoint cli) AgentMain.bogus_status]> (Registry.map (registry (admin w))))
      as (w' & Hreg & Hm).
    { apply ClientProps.register_service_Ok; [by apply connected_plain| |cbn; lia].
      by apply unit_type_decode in Hty as [_ Hne]. }
    exists w'. split; [|split; [done|]].
    + unfold run, AgentMain.main, AdminMain.server_tls_config, mbind, SR_bind, SR_lift. rewrite Hlog, Hu, Hip, Hty.
      cbn [fst snd fmap option_fmap option_map]. by rewrite Hreg.
    + unfold agent_endpoint, Registry.by_name. rewrite Hm, lookup_insert_eq. done.
  - intros Hu. unfold run, AgentMain.main, AdminMain.server_tls_config, mbind, SR_bind, SR_lift. rewrite Hu.
    destruct logging; [|done..]. destruct (parse_ip _); [|done..].
    destruct (AdminMain.tls_files _ _ _ _) as [tls| |] eqn:Et; cbn; [|done..].
    assert (tls_server_name tls = None) as Hn.
    { unfold AdminMain.tls_files in Et. res_simp. done. }
    destruct (server_config read tls) as [conf| |]; cbn; [|done..].
    destruct (check_tls conf); cbn; [|done..].
    destruct (unit_type_of_u32 _) as [ty| |]; [|done..].
    unfold Client.register_service, Client.plain, mbind, SR_bind, Client.connect_to. cbn.
    destruct tls as [ca cert key ?]. cbn in Hn. subst.
    pose proof (connected_nameless read parse_uri check_client dial_tcp dial_unix dial_vsock show_tls
      (AgentMain.admin_server_addr cli) (AgentMain.admin_server_port cli) (AgentMain.admin_server_name cli)
      ca cert key w) as Hc. by destruct (connected _ _ _ _ _ _ _ _ _).
Qed.

Definition ex_agent : AgentMain.Cli :=
  AgentMain.mkCli "net" "192.168.100.2" 9001 false 8 14 None None None "192.168.100.1" 9000 "admin" None.
Lemma agent_start_witness : ∃ w',
  transport <$> agent_endpoint "givc-net-vm.service" (admin (w' : World unit)) =
    Ok (mkEndpoint (Tcp "192.168.100.2" 9001) "net").
Proof.
  destruct (@agent_start map_to_list_order unit unit ServerProps.ex_rpc ServerProps.ex_connect ServerProps.ex_unary
    ServerProps.ex_sleep ServerProps.ex_write (mkStatus Internal "" None) (λ _, "") (λ _, "")
    (λ _, Client.mkSysinfo "" None None) (λ s, s) ex_files (λ _, Ok tt) (λ _, Ok tt) (λ _, Ok tt)
    (λ _ _, Ok tt) (λ _ _ _, Ok tt) (λ _, "") ex_logging (λ _, Ok tt) (λ _, Ok tt) (λ _, "") ex_agent ServerProps.ex_world)
    as [H _].
  destruct (H (mkUnitType SysVM Mgr)) as (w' & _ & _ & Hw);
    [reflexivity | reflexivity | reflexivity | reflexivity | split; vm_compute; discriminate | reflexivity | reflexivity |].
  exists w'. exact Hw.
Defined.
End ProgramProps.
