(* ===== verification/UnitTests.v ===== *)
(** * The repository's unit tests, run on the model

    Every [#[test]] of the modelled sources that does not test a JSON parser or
    the file system of the machine, translated assertion by assertion; a test
    passes when it evaluates to [Ok tt].  The tests are the repository's own
    statement of what the functions do on concrete inputs, so that they pass is
    evidence that the definitions mean the code. *)

From S2P Require Import Prelude RustStr RustInt RustPath ImagePipeline.
From S2P Require Import ImageSlot ImageUki ImageManifest ImageGroup ImageRuntime ImagePlan.
From S2P Require Import CommonTypes AdminRegistry AdminAuth AdminServer OciTypes OciTransfer OciPull OciPush OciPrune Generations.
From Stdlib Require Import Ascii.

Module Macros.
(** [assert!], [assert_eq!], [unwrap]/[expect] and [unwrap_err]/[expect_err] *)
Definition assert (b : bool) : res unit := if b then Ok tt else Panic "assertion failed".
Definition assert_eq `{EqDecision A} (x y : A) : res unit := assert (bool_decide (x = y)).
Definition unwrap {A} (r : res A) : res A := match r with Err _ => Panic "unwrap" | r => r end.
Definition unwrap_some {A} (o : option A) : res A := match o with Some a => Ok a | None => Panic "unwrap" end.
Definition unwrap_err {A} (r : res A) : res error :=
  match r with Ok _ => Panic "unwrap_err" | Err e => Ok e | Panic m => Panic m end.
(** [xs[i]] *)
Definition index {A} (xs : list A) (i : nat) : res A := unwrap_some (xs !! i).
(** Assertions in a row. *)
Fixpoint all (l : list (res unit)) : res unit :=
  match l with [] => Ok tt | t :: l => _ ← t; all l end.

(** [s.contains(t)], and what [Display] shows of an error. *)
Fixpoint contains (s t : string) : bool :=
  starts_with t s || match s with "" => false | String _ s => contains s t end.
Definition frame_text (f : frame) : string := match f with Msg s => s | _ => "" end.
Definition to_string (e : error) : string := match e with [] => "" | f :: _ => frame_text f end.
Definition root_cause (e : error) : string := match last e with Some f => frame_text f | None => "" end.

(** [shell_escape]: what is not plain is put between single quotes; no test has
    a quote in it. *)
Definition is_plain (a : ascii) : bool :=
  let n := N_of_ascii a in
  ((48 <=? n) && (n <=? 57) || (65 <=? n) && (n <=? 90) || (97 <=? n) && (n <=? 122))%N ||
  has_char a "-_=/,.+".
Definition escape (s : string) : string :=
  if all_chars is_plain s then s else "'" +:+ s +:+ "'".
End Macros.

(** ** [image/test/helpers.rs] and [Volume::new] *)

Module Helpers.
Import Macros Lvm.

Definition new_volume (name : string) : Volume := mkVolume name "vg0" None (Some 1000000000000%Z).

Definition slots (names : list string) : list Slot.Slot := (Slot.from_volumes (new_volume <$> names)).1.
Definition groups (names : list string) : res (list Group.SlotGroup) :=
  unwrap (Group.group_volumes (slots names) []).

Definition manifest (version hash : string) : Manifest.Manifest :=
  Manifest.mkManifest ∅ 0 None version hash
    (Manifest.mkFile "k" "" None)
    (Manifest.mkFile "s" "" (Some 6000000000%Z))
    (Manifest.mkFile "v" "" (Some 60000000%Z)).
End Helpers.

(** ** [image/slot.rs] *)

Module SlotTests.
Import Macros Helpers Slot.

Definition parse_used_root_with_hash : res unit :=
  let '(slots, unparsed) := from_volumes [new_volume "root_1.2.3_deadbeefdeadbeef"] in
  _ ← all [assert_eq (length slots) 1; assert_eq (length unparsed) 0];
  slot ← index slots 0;
  _ ← all [assert_eq (kind slot) Root; assert (is_used slot); assert (negb (is_empty slot));
           assert (negb (is_legacy slot))];
  v ← unwrap_some (version slot);
  all [assert_eq (Version.revision v) "1.2.3"; assert_eq (Version.hash v) (Some "deadbeefdeadbeef")].

Definition parse_used_verity_without_hash_is_legacy : res unit :=
  let '(slots, unparsed) := from_volumes [new_volume "verity_0"] in
  _ ← all [assert_eq (length slots) 1; assert_eq (length unparsed) 0];
  slot ← index slots 0;
  _ ← all [assert (is_used slot); assert (is_legacy slot)];
  v ← unwrap_some (version slot);
  all [assert_eq (Version.revision v) "0"; assert_eq (Version.hash v) None].

Definition parse_empty_with_known_id : res unit :=
  let '(slots, unparsed) := from_volumes [new_volume "root_empty_3"] in
  _ ← all [assert_eq (length slots) 1; assert_eq (length unparsed) 0];
  slot ← index slots 0;
  all [assert (is_empty slot); assert (negb (is_used slot)); assert (negb (is_legacy slot));
       assert_eq (empty_id slot) (Some "3")].

Definition parse_empty_legacy : res unit :=
  let '(slots, unparsed) := from_volumes [new_volume "verity_empty"] in
  _ ← all [assert_eq (length slots) 1; assert_eq (length unparsed) 0];
  slot ← index slots 0;
  all [assert (is_empty slot); assert (is_legacy slot); assert_eq (empty_id slot) None].

Definition roundtrip (original : string) : res unit :=
  slot ← index (slots [original]) 0; assert_eq (display slot) original.
Definition slot_display_roundtrip_used : res unit := roundtrip "root_1.2.3_deadbeefdeadbeef".
Definition slot_display_roundtrip_empty_known : res unit := roundtrip "verity_empty_7".
Definition slot_display_roundtrip_empty_legacy : res unit := roundtrip "root_empty".

Definition cannot_assign_version_to_used_slot : res unit :=
  slot ← index (slots ["root_1.0.0_deadbeef"]) 0;
  assert (is_err (into_version (Version.new "2.0.0" (Some "cafebabe")) slot)).

Definition can_assign_version_to_empty_slot : res unit :=
  slot ← index (slots ["root_empty_1"]) 0;
  slot ← unwrap (into_version (Version.new "1.0.0" (Some "deadbeef")) slot);
  assert (is_used slot).

Definition swap_volume_goes_to_unparsed : res unit :=
  let '(slots, unparsed) := from_volumes (new_volume <$> ["root_1.2.3_deadbeef"; "swap"; "verity_empty_0"]) in
  _ ← all [assert_eq (length slots) 2; assert_eq (length unparsed) 1];
  v ← index unparsed 0; assert_eq (Lvm.lv_name v) "swap".

Definition tests : list (res unit) :=
  [parse_used_root_with_hash; parse_used_verity_without_hash_is_legacy; parse_empty_with_known_id;
   parse_empty_legacy; slot_display_roundtrip_used; slot_display_roundtrip_empty_known;
   slot_display_roundtrip_empty_legacy; cannot_assign_version_to_used_slot;
   can_assign_version_to_empty_slot; swap_volume_goes_to_unparsed].
End SlotTests.

(** ** [image/uki.rs], [image/lvm.rs], [image/pipeline.rs] *)

Module UkiTests.
Import Macros Helpers Uki.

Definition parsed_as_1_2_3 (name : string) : res unit :=
  uki ← unwrap (from_str name);
  all [assert_eq (version uki) (Version.new "1.2.3" (Some "deadbeefdeadbeef"));
       assert_eq (boot_counter uki) None].
Definition parse_valid_uki : res unit := parsed_as_1_2_3 "ghaf-1.2.3-deadbeefdeadbeef.efi".
Definition parse_valid_uki_mix_case : res unit := parsed_as_1_2_3 "ghaf-1.2.3-deadbeefdeadbeef.EFI".

Definition parse_uki_with_counters : res unit :=
  uki ← unwrap (from_str "ghaf-1.2.3-deadbeefdeadbeef+3-1.efi");
  c ← unwrap_some (boot_counter uki);
  all [assert_eq (remaining c) 3%Z; assert_eq (used c) (Some 1%Z)].

Definition reject_empty_version_uki : res unit := assert (is_err (from_str "ghaf-empty-deadbeefdeadbeef.efi")).
Definition reject_non_efi_file : res unit := assert (is_err (from_str "ghaf-1.2.3-deadbeefdeadbeef")).

Definition uki_roundtrip_parse_display_parse : res unit :=
  parsed ← unwrap (from_str "ghaf-1.2.3-deadbeefdeadbeef+3-1.efi");
  reparsed ← unwrap (from_str (display parsed));
  assert_eq parsed reparsed.

Definition uki_roundtrip_display_parse_display : res unit :=
  let uki := mkUki (Version.new "1.2.3" (Some "deadbeefdeadbeef")) (Some (mkCounter 5 None)) in
  parsed ← unwrap (from_str (display uki)); assert_eq uki parsed.

Definition uki_roundtrip_without_counters : res unit :=
  let uki := mkUki (Version.new "2.0.0" (Some "deadbeefdeadbeef")) None in
  _ ← assert_eq (display uki) "ghaf-2.0.0-deadbeefdeadbeef.efi";
  parsed ← unwrap (from_str (display uki)); assert_eq uki parsed.

Definition device_file : res unit := assert_eq (Lvm.device_file (new_volume "test")) "/dev/mapper/vg0-test".
Definition rename_to : res unit :=
  assert_eq (Pipeline.format_shell escape (Lvm.rename_to (new_volume "test") "swap")) "lvrename vg0 test swap".

Definition pipeline_shell_format : res unit :=
  let p := Pipeline.pipe (Pipeline.arg "of=/dev/null" (Pipeline.cmd "dd"))
             (Pipeline.new (Pipeline.arg "root.zst" (Pipeline.cmd "zstdcat"))) in
  assert_eq (Pipeline.format_shell escape p) "zstdcat root.zst | dd of=/dev/null".

Definition tests : list (res unit) :=
  [parse_valid_uki; parse_valid_uki_mix_case; parse_uki_with_counters; reject_empty_version_uki;
   reject_non_efi_file; uki_roundtrip_parse_display_parse; uki_roundtrip_display_parse_display;
   uki_roundtrip_without_counters; device_file; rename_to; pipeline_shell_format].
End UkiTests.

(** ** [image/group.rs] *)

Module GroupTests.
Import Macros Helpers Group.

Definition one_group (names : list string) : res SlotGroup :=
  groups ← groups names; _ ← assert_eq (length groups) 1; index groups 0.
Definition some {A} (o : option A) : res unit := assert (match o with Some _ => true | None => false end).
Definition none {A} (o : option A) : res unit := assert (match o with Some _ => false | None => true end).

Definition group_root_and_verity_same_version : res unit :=
  g ← one_group ["root_1.2.3_deadbeef"; "verity_1.2.3_deadbeef"];
  _ ← all [assert (is_used g); assert (negb (is_empty g)); assert (negb (is_legacy g));
           some (root g); some (verity g)];
  v ← unwrap_some (version g);
  all [assert_eq (Version.revision v) "1.2.3"; assert_eq (Version.hash v) (Some "deadbeef")].

Definition group_root_without_verity : res unit :=
  g ← one_group ["root_2.0.0_cafebabe"];
  all [some (root g); none (verity g); assert (is_used g)].

Definition group_empty_slots_by_id : res unit :=
  g ← one_group ["root_empty_0"; "verity_empty_0"];
  all [assert (is_empty g); assert (negb (is_used g)); assert_eq (empty_id g) (Some "0");
       some (root g); some (verity g)].

Definition empty_slots_with_different_ids_do_not_group : res unit :=
  groups ← groups ["root_empty_0"; "verity_empty_1"];
  let ids := empty_id <$> groups in
  all [assert_eq (length groups) 2; assert (bool_decide (Some "0" ∈ ids));
       assert (bool_decide (Some "1" ∈ ids))].

Definition legacy_root_and_verity_grouped : res unit :=
  g ← one_group ["root_0"; "verity_0"];
  all [assert (is_legacy g); assert (is_used g); some (root g); some (verity g)].

Definition tests : list (res unit) :=
  [group_root_and_verity_same_version; group_root_without_verity; group_empty_slots_by_id;
   empty_slots_with_different_ids_do_not_group; legacy_root_and_verity_grouped].
End GroupTests.

(** ** [image/runtime.rs] *)

Module RuntimeTests.
Import Macros Helpers KernelParams Group GroupTests Runtime.

(** [impl Default] for [KernelParams] and [Runtime], and [Runtime { slotgroups:
    groups(names), kernel, ..Runtime::default() }] *)
Definition default_kernel : KernelParams := mkKernelParams None None.
Definition default_runtime : Runtime := mkRuntime [] [] default_kernel [] "/boot".
Definition with_groups (gs : list SlotGroup) (kernel : KernelParams) : Runtime :=
  let d := default_runtime in mkRuntime gs (volumes d) kernel (boot_entries d) (Runtime.boot d).
Definition runtime (names : list string) (kernel : KernelParams) : res Runtime :=
  gs ← groups names; Ok (with_groups gs kernel).
(** [let SlotSelection::Selected { slot, pre_steps } = … else { panic!() }] *)
Definition selected (rt : Runtime) (m : Manifest.Manifest) : res (SlotGroup * list Pipeline.Pipeline) :=
  s ← unwrap (select_update_slot rt m);
  match s with Selected slot pre => Ok (slot, pre) | AlreadyInstalled => Panic "Expect Selected()" end.

Definition groups_root_and_verity_into_single_slot : res unit :=
  rt ← runtime ["root_1.2.3_deadbeefdeadbeef"; "verity_1.2.3_deadbeefdeadbeef"] default_kernel;
  _ ← assert_eq (length (slot_groups rt)) 1;
  g ← index (slot_groups rt) 0;
  all [assert_eq (Group.version g) (Some (Version.new "1.2.3" (Some "deadbeefdeadbeef")));
       some (root g); some (verity g)].

Definition empty_slot_is_grouped : res unit :=
  rt ← runtime ["root_empty_01"; "verity_empty_01"] default_kernel;
  _ ← assert_eq (length (slot_groups rt)) 1;
  g ← index (slot_groups rt) 0;
  all [assert_eq (Group.version g) None; assert_eq (Group.empty_id g) (Some "01")].

Definition broken_slot_with_only_root_is_preserved : res unit :=
  rt ← runtime ["root_2.0.0_abcdabcdabcdabcd"] default_kernel;
  _ ← assert_eq (length (slot_groups rt)) 1;
  g ← index (slot_groups rt) 0;
  all [some (root g); none (verity g)].

Definition non_slot_volumes_are_ignored : res unit :=
  gs ← groups ["root_1.0.0_aaaaaaaaaaaaaaaa"];
  let rt := mkRuntime gs (new_volume <$> ["swap"; "home"]) default_kernel [] "/boot" in
  assert_eq (length (slot_groups rt)) 1.

(** The groups are in the order of their first volumes here, which is the order
    the test sorts them into. *)
Definition multiple_slots_are_grouped_separately : res unit :=
  rt ← runtime ["root_1.0.0_aaaaaaaaaaaaaaaa"; "verity_1.0.0_aaaaaaaaaaaaaaaa";
                "root_2.0.0_bbbbbbbbbbbbbbbb"; "verity_2.0.0_bbbbbbbbbbbbbbbb"] default_kernel;
  let groups := slot_groups rt in
  _ ← assert_eq (length groups) 2;
  g0 ← index groups 0; g1 ← index groups 1;
  all [assert_eq (Group.version g0) (Some (Version.new "1.0.0" (Some "aaaaaaaaaaaaaaaa")));
       assert_eq (Group.version g1) (Some (Version.new "2.0.0" (Some "bbbbbbbbbbbbbbbb")))].

Definition legacy_slot_is_grouped_correctly : res unit :=
  rt ← runtime ["root_0"] default_kernel;
  _ ← assert_eq (length (slot_groups rt)) 1;
  g ← index (slot_groups rt) 0; assert (Group.is_legacy g).

Definition select_slot_noop_if_version_already_installed : res unit :=
  rt ← runtime ["root_1.2.3_deadbeefdeadbeef"; "verity_1.2.3_deadbeefdeadbeef"]
         (mkKernelParams (Some "deadbeefdeadbeef") (Some "1.2.3"));
  s ← unwrap (select_update_slot rt (manifest "1.2.3" "deadbeefdeadbeef"));
  assert (is_none s).

Definition select_empty_slot_pair : res unit :=
  rt ← runtime ["root_1.0.0_aaaaaaaaaaaaaaaa"; "verity_1.0.0_aaaaaaaaaaaaaaaa";
                "root_empty_01"; "verity_empty_01"]
         (mkKernelParams (Some "aaaaaaaaaaaaaaaa") (Some "1.0.0"));
  '(slot, _) ← selected rt (manifest "2.0.0" "bbbbbbbbbbbbbbbb");
  assert (Group.is_empty slot).

Definition incomplete_empty_slot_is_not_selected : res unit :=
  rt ← runtime ["root_empty_01"] default_kernel;
  err ← unwrap_err (select_update_slot rt (manifest "1.0.0" "aaaaaaaaaaaaaaaa"));
  assert (contains (to_string err) "no active slot").

Definition one_of_multiple_empty_slots_is_selected : res unit :=
  rt ← runtime ["root_empty_01"; "verity_empty_01"; "root_empty_02"; "verity_empty_02"] default_kernel;
  '(slot, _) ← selected rt (manifest "1.0.0" "aaaaaaaaaaaaaaaa");
  assert (Group.is_empty slot).

(** Two steps of a kind. *)
Definition two_steps (command : string) (pre_steps : list Pipeline.Pipeline) : res unit :=
  let cmds := Pipeline.format_shell escape <$> pre_steps in
  _ ← assert_eq (length pre_steps) 2;
  c0 ← index cmds 0; c1 ← index cmds 1;
  all [assert (contains c0 command); assert (contains c1 command)].

Definition creates_empty_slot_when_none_exists : res unit :=
  rt ← runtime ["root_1.0.0_aaaaaaaaaaaaaaaa"; "verity_1.0.0_aaaaaaaaaaaaaaaa"]
         (mkKernelParams (Some "aaaaaaaaaaaaaaaa") (Some "1.0.0"));
  '(slot, pre_steps) ← selected rt (manifest "2.0.0" "bbbbbbbbbbbbbbbb");
  all [two_steps "lvcreate" pre_steps; assert (Group.is_empty slot); some (root slot); some (verity slot)].

(** An empty pair of these sizes, and the steps before an install into it. *)
Definition pre_steps_of (root_size verity_size : Z) : res (list Pipeline.Pipeline) :=
  let '(slots, _) := Slot.from_volumes
    [Lvm.mkVolume "root_empty_0" "vg0" None (Some root_size);
     Lvm.mkVolume "verity_empty_0" "vg0" None (Some verity_size)] in
  slotgroups ← unwrap (group_volumes slots []);
  '(_, pre_steps) ← selected (with_groups slotgroups default_kernel) (manifest "2.0.0" "bbbbbbbbbbbbbbbb");
  Ok pre_steps.
Definition resizes_small_empty_slot : res unit :=
  pre_steps ← pre_steps_of 1000000000 10000000; two_steps "lvresize" pre_steps.
Definition no_resize_when_slot_is_large_enough : res unit :=
  pre_steps ← pre_steps_of 10000000000 100000000; assert_eq (length pre_steps) 0.

Definition find_slot : res unit :=
  rt ← runtime ["root_1.0.0_aaaaaaaaaaaaaaaa"; "verity_1.0.0_aaaaaaaaaaaaaaaa";
                "root_empty_01"; "verity_empty_01"] default_kernel;
  _ ← unwrap (find_slot_group rt (Version.new "1.0.0" (Some "aaaaaaaaaaaaaaaa"))); Ok tt.

Definition detects_legacy_active_slot : res unit :=
  rt ← runtime ["root_1.0.0"; "verity_1.0.0"] default_kernel;
  active ← unwrap (active_slot rt);
  all [assert (Group.is_legacy active); assert (is_active active (kernel rt))].

Definition cmdline_with (storehash : string) : string :=
  CMDLINE_ARG_NAME +:+ "=" +:+ storehash +:+ " " +:+ GHAF_REVISION_NAME +:+ "=25.12.2".
Definition invalid_verity_hash_chars : res unit :=
  assert (is_err (from_cmdline
    (cmdline_with "invalid2dbec8355df07f3670177b0cb147683a355c07da6a2fb85313cc02254"))).
Definition invalid_verity_hash_too_short : res unit :=
  assert (is_err (from_cmdline (cmdline_with "94821122db"))).

Definition tests : list (res unit) :=
  [groups_root_and_verity_into_single_slot; empty_slot_is_grouped;
   broken_slot_with_only_root_is_preserved; non_slot_volumes_are_ignored;
   multiple_slots_are_grouped_separately; legacy_slot_is_grouped_correctly;
   select_slot_noop_if_version_already_installed; select_empty_slot_pair;
   incomplete_empty_slot_is_not_selected; one_of_multiple_empty_slots_is_selected;
   creates_empty_slot_when_none_exists; resizes_small_empty_slot;
   no_resize_when_slot_is_large_enough; find_slot; detects_legacy_active_slot;
   invalid_verity_hash_chars; invalid_verity_hash_too_short].
End RuntimeTests.

(** ** [image/plan.rs] with the data of [image/test/data.rs] *)

Module PlanTests.
Import Macros Lvm Plan.

(** What JSON decodes [LVS] and [LVS_INSTALLED] to. *)
Definition lv (name attr : string) (size : Z) : Volume := mkVolume name "pool" (Some attr) (Some size).
Definition LVS : LvsJson := mkLvsJson [mkLvsReport
  [lv "persist" "-wi-ao----" 890538819584; lv "root_0" "-wi-a-----" 53687091200;
   lv "root_empty" "-wi-ao----" 53687091200; lv "swap" "-wi-ao----" 12884901888;
   lv "verity_0" "-wi-a-----" 6442450944; lv "verity_empty" "-wi-ao----" 6442450944]].
Definition LVS_INSTALLED : LvsJson := mkLvsJson [mkLvsReport
  [lv "persist" "-wi-ao----" 890538819584; lv "root_0" "-wi-a-----" 53687091200;
   lv "root_25.12.1_deadbeefdeadbeef" "-wi-ao----" 53687091200; lv "swap" "-wi-ao----" 12884901888;
   lv "verity_0" "-wi-a-----" 6442450944; lv "verity_25.12.1_deadbeefdeadbeef" "-wi-ao----" 6442450944]].

(** And [BOOTCTL]: the sort keys of its values and, of those that are entries of
    NixOS, the entries; kernel options are left out. *)
Definition value : Type := option string * option Bootctl.BootctlItem.
Definition BOOTCTL : list value :=
  [(Some "nixos", Some (Bootctl.mkItem "type2" "esp" "ghaf-25.12.1-deadbeefdeadbeef.efi"
      "/boot/EFI/Linux/ghaf-25.12.1-deadbeefdeadbeef+2-1.efi" "/boot" "NixOS 25.11 (Xantusia)"
      "NixOS 25.11 (Xantusia)" "nixos" "25.11 (Xantusia)" None "" (Some "/EFI/Linux/nixos_25.12.1+2-1.efi")
      None None false false false None ""));
   (Some "nixos", Some (Bootctl.mkItem "type1" "esp" "nixos-generation-1.conf"
      "/boot/loader/entries/nixos-generation-1.conf" "/boot" "NixOS" "NixOS" "nixos"
      "Generation 1 NixOS Xantusia 25.11.20251110.150b905 (Linux 6.17.7), built on 2025-12-07" None ""
      (Some "/EFI/nixos/s0g4x6zc46xcpwym5166a8xrb1443gfj-linux-6.17.7-bzImage.efi") None
      (Some ["/EFI/nixos/fvfycdrh9af21vd0wv2nvir4yzjy30hd-initrd-linux-6.17.7-initrd.efi"])
      true true true None ""));
   (None, None); (None, None)].
Definition parse_bootctl : res (list Bootctl.BootctlItem) :=
  Bootctl.parse_bootctl (λ _, Ok BOOTCTL) fst (mapM_res (λ v, ok_or v.2 "missing field")) "".

Definition KERNEL_CMDLINE : string :=
  "ghaf.revision=25.12.1 storehash=deadbeefcafebabedeadbeefcafebabedeadbeefcafebabedeadbeefcafebabe root=fstab".
Definition MANIFEST : Manifest.Manifest :=
  Manifest.mkManifest ∅ 0 None "25.12.1" "44cc41b403a2d323a68f42941131169899545eaceebe332e24426e9ff7d7f3bc"
    (Manifest.mkFile "ghaf_kernel_25.12.1_44cc41b403a2d323.efi" "" None)
    (Manifest.mkFile "ghaf_root_25.12.1_44cc41b403a2d323.raw.zst" "" None)
    (Manifest.mkFile "ghaf_verity_25.12.1_44cc41b403a2d323.raw.zst" "" None).

Definition make_test_runtime : res Runtime.Runtime :=
  bootctl ← unwrap parse_bootctl;
  volumes ← unwrap (parse_lvs_json (λ _, Ok LVS) "");
  unwrap (Runtime.new volumes "root=fstab" bootctl).
Definition make_test_runtime_installed : res Runtime.Runtime :=
  bootctl ← unwrap parse_bootctl;
  volumes ← unwrap (parse_lvs_json (λ _, Ok LVS_INSTALLED) "");
  unwrap (Runtime.new volumes KERNEL_CMDLINE bootctl).

Definition into_script (p : Plan) : list string := Pipeline.format_shell escape <$> steps p.

Definition install_from_legacy : res unit :=
  rt ← make_test_runtime;
  plan ← unwrap (install rt MANIFEST "/sysupdate");
  assert_eq (into_script plan)
    ["zstdcat /sysupdate/ghaf_root_25.12.1_44cc41b403a2d323.raw.zst | dd of=/dev/mapper/pool-root_empty bs=4M status=progress";
     "zstdcat /sysupdate/ghaf_verity_25.12.1_44cc41b403a2d323.raw.zst | dd of=/dev/mapper/pool-verity_empty bs=4M status=progress";
     "blockdev --flushbufs /dev/mapper/pool-root_empty";
     "blockdev --flushbufs /dev/mapper/pool-verity_empty";
     "lvrename pool root_empty root_25.12.1_44cc41b403a2d323";
     "lvrename pool verity_empty verity_25.12.1_44cc41b403a2d323";
     "install -m 0644 /sysupdate/ghaf_kernel_25.12.1_44cc41b403a2d323.efi /boot/EFI/Linux/ghaf-25.12.1-44cc41b403a2d323.efi";
     "sed -i 's/^default .*/default @saved/' /boot/loader/loader.conf";
     "rm -f /boot/loader/entries.srel";
     "bootctl set-default auto"].

Definition remove : res unit :=
  rt ← make_test_runtime_installed;
  let expected :=
    ["bootctl unlink ghaf-25.12.1-deadbeefdeadbeef.efi";
     "lvrename pool root_25.12.1_deadbeefdeadbeef root_empty_0";
     "lvrename pool verity_25.12.1_deadbeefdeadbeef verity_empty_0"] in
  plan ← unwrap (Plan.remove rt (Version.new "25.12.1" None));
  _ ← assert_eq (into_script plan) expected;
  plan ← unwrap (Plan.remove rt (Version.new "25.12.1" (Some "deadbeefdeadbeef")));
  assert_eq (into_script plan) expected.

Definition remove_legacy : res unit :=
  rt ← make_test_runtime_installed;
  plan ← unwrap (Plan.remove rt (Version.new "0" None));
  assert_eq (into_script plan)
    ["bootctl unlink nixos-generation-1.conf"; "lvrename pool root_0 root_empty_0";
     "lvrename pool verity_0 verity_empty_0"].

(** [lvm.rs]: the volumes of a report and the slots among them. *)
Definition parse_lvs_output_and_slots : res unit :=
  let vol name size := mkVolume name "vg0" (Some "-wi-ao----") (Some size) in
  volumes ← unwrap (parse_lvs_json (λ _, Ok (mkLvsJson [mkLvsReport
    [vol "root_1.2.3_deadbeef" 10000000000%Z; vol "swap" 2000000000%Z; vol "root_empty" 2000000000%Z]])) "");
  let '(slots, _) := Slot.from_volumes volumes in
  _ ← all [assert_eq (length volumes) 3; assert_eq (length slots) 2];
  s ← index slots 0;
  all [assert_eq (Slot.kind s) Slot.Root;
       assert_eq (Slot.version s) (Some (Version.new "1.2.3" (Some "deadbeef")))].

(** [bootctl.rs]: of an entry of NixOS and one of the firmware the first is kept. *)
Definition parse_bootctl_status_type1_efi : res unit :=
  let id := "nixos-5df2b0bb7cd2f44dfc0a617e1a96941c62c9568011d9fffd55167b58f3918467" in
  let item := Bootctl.mkItem "type1" "esp" (id +:+ ".conf") ("/boot/loader/entries/" +:+ id +:+ ".conf")
    "/boot" "NixOS" "NixOS" "nixos"
    "Generation 1 NixOS Zokor 26.11.20260726.624af66 (Linux 7.1.5), built on 2026-08-03" None ""
    None (Some ("/EFI/nixos/" +:+ id +:+ ".efi")) None true true true None "" in
  parsed ← unwrap (Bootctl.parse_bootctl (λ _, Ok [(Some "nixos", Some item); (None, None)]) fst
    (mapM_res (λ v, ok_or v.2 "missing field")) "");
  _ ← assert_eq (length parsed) 1;
  p ← index parsed 0;
  all [assert (Bootctl.is_reported p); assert (Bootctl.is_default p)].

Definition tests : list (res unit) :=
  [install_from_legacy; remove; remove_legacy; parse_lvs_output_and_slots; parse_bootctl_status_type1_efi].
End PlanTests.

(** ** [admin/registry.rs], [admin/server.rs], [utils/naming.rs], [utils/tonic.rs] *)

Module AdminTests.
Import Macros Naming Types Entry AdminRegistry.Registry.
#[local] Existing Instance map_to_list_order.

(** [RegistryEntry::dummy] *)
Definition dummy (n : string) : RegistryEntry :=
  mkEntry n (mkUnitType AppVM App)
    (mkUnitStatus "systemd-servicename.service" "bogus" "loaded" "active" "bogus" "bogus" "bogus")
    (Endpoint (mkEndpoint (Tcp "127.0.0.1" 42) "bogus") "bogus") true.
Definition has (n : string) (r : Registry) : res unit := assert (AdminRegistry.Registry.contains n r).
Definition lacks (n : string) (r : Registry) : res unit := assert (negb (AdminRegistry.Registry.contains n r)).

Definition test_register_deregister : res unit :=
  let foo := dummy "foo" in
  let r := register (dummy "bar") (register foo new) in
  _ ← all [has "foo" r; has "bar" r];
  foo1 ← by_name "foo" r;
  _ ← assert_eq foo1 foo;
  let '(removed, r) := deregister "foo" r in
  all [assert (is_ok removed); lacks "foo" r; assert (is_err (by_name "foo" r));
       assert (is_err (deregister "foo" r).1)].

Definition test_cascade_deregister : res unit :=
  let managed n :=
    let d := dummy n in mkEntry (name d) (type d) (status d) (Managed "foo-vm" "foo") (watch d) in
  let r := register (managed "baz") (register (managed "bar") (register (dummy "foo") new)) in
  _ ← all [has "foo" r; has "bar" r; has "baz" r];
  let '(removed, r) := deregister "baz" r in
  _ ← removed;
  _ ← all [has "foo" r; has "bar" r; lacks "baz" r];
  let '(removed, r) := deregister "foo" r in
  _ ← removed;
  all [lacks "foo" r; lacks "bar" r].

Definition test_unique_name : res unit :=
  name1 ← unwrap_some (create_unique_entry_name "foo" new);
  _ ← assert_eq name1 "foo@0.service";
  let r := register (dummy name1) new in
  name2 ← unwrap_some (create_unique_entry_name "foo" r);
  all [assert_eq name2 "foo@1.service"; assert (is_ok (parse_application_name name1));
       assert (is_ok (parse_application_name name2))].

Definition test_locale_validator : res unit :=
  _ ← ensure (forallb Locale.validate_locale
                ["en_US.UTF-8"; "C"; "POSIX"; "C.UTF-8"; "ar_AE.UTF-8"; "fi_FI@euro.UTF-8"; "fi_FI@euro"])
        "Valid locale rejected";
  ensure (negb (existsb Locale.validate_locale ["`rm -Rf --no-preserve-root /`"; "; whoami"; "iwaenfli"]))
    "Invalid locale accepted".

Definition test_timezone_validator : res unit :=
  _ ← ensure (forallb Locale.validate_timezone
                ["UTC"; "Europe/Helsinki"; "Asia/Abu_Dhabi"; "Etc/GMT+8"; "GMT-0";
                 "America/Argentina/Rio_Gallegos"])
        "Valid timezone rejected";
  ensure (negb (existsb Locale.validate_timezone ["/foobar"; "`whoami`"; "Almost//Valid"]))
    "Invalid timezone accepted".

Definition test_parse_application_name : res unit :=
  good ← parse_application_name "good-app@42.service";
  _ ← assert_eq good ("good-app", 42%Z);
  err ← unwrap_err (parse_application_name "just-a.service");
  assert_eq (root_cause err) "App name just-a.service not it app@<number>.service format".

Definition miss_from_registry_is_expected : res unit :=
  err ← unwrap_err (by_name "givc-gui-vm.service" new);
  assert (Wire.is_expected_miss err).
Definition unrelated_error_is_not_expected : res unit :=
  err ← unwrap_err (with_context "while doing something important" (bail "disk on fire" : res unit));
  assert (negb (Wire.is_expected_miss err)).

Definition tests : list (res unit) :=
  [test_register_deregister; test_cascade_deregister; test_unique_name; test_locale_validator;
   test_timezone_validator; test_parse_application_name; miss_from_registry_is_expected;
   unrelated_error_is_not_expected].
End AdminTests.

(** ** [registry/mod.rs], [registry/oras.rs], [profile.rs], [bin/ota-update.rs] *)

Module OtaTests.
Import Macros Oci Transfer OciPull.Registry MemRegistry.

Definition descriptor (t : MediaType) : BlobDescriptor :=
  mkBlob "sha256:deadbeef" (media_type_str t) 10 None.

Definition changelog_local_name_defaults_when_title_missing : res unit :=
  assert_eq (changelog_local_name (descriptor Changelog)) "changelog.txt".

Definition sanitize_relative_file_path_rejects_parent_dir : res unit :=
  err ← unwrap_err (sanitize_relative_file_path "../../etc/passwd");
  assert (contains (to_string err) "parent dir").

Definition select_artifact_bindings_returns_error_when_required_layer_missing : res unit :=
  let manifest := Manifest.mkManifest ∅ 1 None "1.0" "0123456789abcdef0123456789abcdef"
    (Manifest.mkFile "kernel.efi" "" None) (Manifest.mkFile "root.raw" "" None)
    (Manifest.mkFile "verity.raw" "" None) in
  err ← unwrap_err (select_artifact_bindings manifest [descriptor Uki]);
  assert (contains (to_string err) "missing required artifact layer").

(** The tree after the three downloads, twenty milliseconds apart, is pruned. *)
Definition prune_keeps_two_newest_directories_per_repository : res unit :=
  let download t := Prune.NDir (Some t) [("manifest.json", Prune.NFile)] in
  let repo := Prune.NDir (Some 40%Z) [("v1", download 0%Z); ("v2", download 20%Z); ("v3", download 40%Z)] in
  let tmp := Prune.NDir (Some 0%Z) [("registry.local", Prune.NDir (Some 0%Z) [("repo", repo)])] in
  '(pruned, tree) ← unwrap_some (Prune.prune_downloaded_updates (λ _, "") (λ _, None) (λ _, None) (λ _, None)
    99 10 (Ok tt) (Ok tt) (Some tmp));
  _ ← unwrap pruned;
  tree ← unwrap_some tree;
  let exists_ v := match Prune.get tree ["registry.local"; "repo"; v] with Some _ => true | None => false end in
  all [assert (negb (exists_ "v1")); assert (exists_ "v2"); assert (exists_ "v3")].

Definition layer_input_with_title_uses_basename_annotation : res unit :=
  input ← unwrap (Push.layer_input_with_title "dir/image.efi" Uki);
  title ← unwrap_some (layer_annotations input ≫= lookup "org.opencontainers.image.title");
  assert_eq title "image.efi".

(** A future that is never ready, and a token cancelled after ten milliseconds. *)
Definition pending : AS unit := λ ctx w,
  match ctx with s :: outer => (Stopped (length outer), at_time s w) | [] => (Stopped 0, w) end.
Definition cancelable_returns_cancellation_error_when_token_is_cancelled : res unit :=
  match (cancelable (Some 10) pending [] (ex_world (mkNet ∅ ∅) ∅)).1 with
  | Ready r => err ← unwrap_err r; assert (bool_decide (CancellationError ∈ err))
  | Stopped _ => Panic "pending"
  end.

Definition digest_and_size_computes_streaming_file_digest : res unit :=
  match (Push.digest_and_size ex_host "/tmp/digest" [] (ex_world (mkNet ∅ ∅) {["/tmp/digest" := "abcdef"]})).1 with
  | Ready r =>
      '(digest, size) ← unwrap r;
      all [assert_eq size 6%Z; assert_eq digest ("sha256:" +:+ hex_encode ex_host (sha256 ex_host "abcdef"))]
  | Stopped _ => Panic "pending"
  end.

Definition progress_reporter_emits_at_step_boundaries : res unit :=
  let reporter := new_reporter PROGRESS_EVENT_STEP in
  '(e1, reporter) ← progress reporter (PROGRESS_EVENT_STEP - 1)%Z;
  '(e2, reporter) ← progress reporter PROGRESS_EVENT_STEP;
  '(e3, _) ← progress reporter (PROGRESS_EVENT_STEP * 2 + 7)%Z;
  assert_eq (option_list e1 ++ option_list e2 ++ option_list e3)
    [PROGRESS_EVENT_STEP; (PROGRESS_EVENT_STEP * 2)%Z].

Definition test_parse_profile_link : res unit :=
  let rejected profile link :=
    err ← unwrap_err (Profile.parse_profile_link profile link);
    assert_eq (root_cause err) "Unable to parse generation" in
  n ← Profile.parse_profile_link "system" (Profile.format_profile_link "system" 42);
  all [assert_eq n 42%Z; rejected "just" "just-a-link"; rejected "system" "just-a-link";
       rejected "system" "system-42-just"; rejected "system" "system42-just"].

Definition test_validation : res unit :=
  _ ← OtaUpdate.is_valid_nix_path
        (path_join "/nix/store" "b4fmrar918b1l8hwfjzxqv7whnq5c33q-nixos-system-adminvm-test");
  assert (is_err (OtaUpdate.is_valid_nix_path (path_join "/nix/store" "../dive/out/of/nix/store"))).

Definition tests : list (res unit) :=
  [changelog_local_name_defaults_when_title_missing; sanitize_relative_file_path_rejects_parent_dir;
   select_artifact_bindings_returns_error_when_required_layer_missing;
   prune_keeps_two_newest_directories_per_repository;
   layer_input_with_title_uses_basename_annotation;
   cancelable_returns_cancellation_error_when_token_is_cancelled;
   digest_and_size_computes_streaming_file_digest; progress_reporter_emits_at_step_boundaries;
   test_parse_profile_link; test_validation].
End OtaTests.

(** ** Properties *)

Module UnitTestProps.

(** The model passes the repository's own unit tests: on each of their inputs
    the definitions give what the test asserts of the code, error messages and
    the text of the generated shell commands included. *)
Theorem unit_tests_pass :
  Forall (λ t, t = Ok tt)
    (SlotTests.tests ++ UkiTests.tests ++ GroupTests.tests ++ RuntimeTests.tests ++ PlanTests.tests ++
     AdminTests.tests ++ OtaTests.tests).
Proof. vm_compute. repeat constructor. Qed.
End UnitTestProps.
